(* ===== verification/_CoqProject ===== *)
-Q . S2P
Prelude.v
GoStd.v
GoTime.v
Models.v
Interfaces.v
PathTemplate.v
Routes.v
Messages.v
Compiled.v
Evaluator.v
EvaluatorFacts.v
PolicyStore.v
ApiRuntime.v
Reads.v
Fuel.v
Safety.v
Runtime.v
Stores.v
FileStore.v
PolicyService.v
Proposals.v
Traffic.v
TrafficStore.v
TrafficSql.v
Recorder.v
Z85.v
Ids.v
Auth.v
OAuth.v
Url.v
ApiClient.v
Query.v
PolicyRequest.v
RecorderHook.v
Proxy.v
AdminGate.v
AdminApi.v
TrafficApi.v
Mitm.v
Paths.v
Bundles.v
Disk.v
BundleFetch.v
BundleLoad.v
BundleUpgrade.v
DataDir.v
Config.v
SqlBackend.v
Catalogue.v
TokensPage.v
Mcp.v
Boot.v
Wiring.v
Walk.v
Pack.v
PackFacts.v
Unpack.v
ApisCmd.v
ApisGuards.v
ApisInstall.v
Verify.v
IssueToken.v
Celenv.v
Replies.v
Observability.v
Export.v
