(* ===== verification/Prelude.v ===== *)
(** * bouncer: a verification development (root file)

    bouncer is a forward proxy that holds an agent's upstream credentials and
    lets through only the requests its policies permit.  Policies are CEL
    expressions over the request and over _meta_ values, which are fetched
    lazily from the upstream API while a condition runs.  This library models
    the Go sources under [src/internal] and proves what makes them correct.

    ** How the program fits together

    One request to the data plane goes through [handle] of server/proxy.go
    ([Proxy]): the escaped path is split into segments ([PathTemplate]), routed
    to an API ([Routes], [Runtime]), the bearer token is verified ([Z85],
    [Auth]), the body parsed into the request policies see ([PolicyRequest]),
    the API's evaluator consulted ([ApiRuntime], over [Compiled], [Messages]
    and [Evaluator]); on a permit the request is forwarded with the upstream
    credential of the token ([Url], [ApiClient]).  What happened is told to the
    observers ([RecorderHook], [Query]), sanitised ([Traffic]), queued
    ([Recorder]) and stored ([TrafficStore]).  The control plane is entered
    through [AdminGate]; its handlers and MCP tools ([AdminApi]) call the policy
    service ([PolicyService], over [Runtime], [Stores] and [FileStore]) and the
    proposal service ([Proposals]).  Tokens are issued and refreshed by [OAuth].
    Agents reach the same services through one JSON-RPC endpoint ([Mcp]),
    whose tools and resources also show the traffic log ([TrafficApi]) and what
    the deployment serves ([Catalogue]); [TokensPage] issues a token from a form.
    API specifications arrive as bundles of files ([Paths], [Disk], [Bundles],
    [BundleFetch], [BundleLoad], [BundleUpgrade]).  A deployment is a directory
    that [bouncer init] writes ([DataDir]); [bouncer serve] completes its
    configuration from it ([Config]), opens and migrates the databases
    ([SqlBackend]), loads bundles, policies and the control plane's own policies
    into a server ([Boot]), listens, and releases everything again ([Wiring]).
    The other commands work on the same directory: [bouncer apis] copies, packs,
    installs, upgrades and removes bundles ([Walk], [Pack], [ApisCmd]), [verify]
    runs the boot's checks without serving ([Verify]) and [issue-token] signs
    with the deployment's key ([IssueToken]).

    ** Files, and the sources they model

    Shared: [Prelude] (errors, results, lists, tactics, hint databases);
    [GoStd], [GoTime] (the Go [strings], [strconv], [url] and [time] routines used);
    [Models] (runtime/models/types.go, proto/core.proto, proto/http.proto);
    [Interfaces] (what the policy service needs of a runtime and of a store, as
    classes with laws).

    The policy engine: [PathTemplate] (runtime/compiled/path.go);
    [Routes] (the route table of runtime/runtime.go); [Messages]
    (runtime/messages type.go, value.go, provider.go); [Compiled]
    (runtime/compiled envs.go, compiled.go, action.go); [Evaluator] (meta.go,
    policy.go, decorator.go); [EvaluatorFacts] (its accounting); [PolicyStore]
    and [ApiRuntime] (runtime/api.go); [Reads] (the log of what an evaluation
    reads); [Fuel], [Safety] (termination and absence of panics); [Runtime]
    (runtime/runtime.go).

    Policies and proposals: [Stores], [FileStore] (control/policies
    sqlite_store.go, layered_store.go, file_store.go); [PolicyService]
    (policies.go); [Proposals] (control/proposals).

    Traffic: [Traffic], [TrafficStore], [TrafficSql], [Recorder]
    (control/traffic); [Ids] (id/id.go); [Query], [RecorderHook] (server/recorder.go, middleware.go,
    runtime/messages/value_json.go).

    Tokens: [Z85] (auth/z85); [Auth] (auth/auth.go, caller.go); [OAuth]
    (control/tokens, server/oauth); [TokensPage] (server/admin/tokens_page.go).

    The data plane: [Url] (net/url and net/http pieces); [ApiClient]
    (apiclient/http.go); [PolicyRequest], [Proxy] (server/proxy.go, load.go).

    The control plane: [AdminGate] (server/admin auth.go, internal_policy.go,
    login.go); [AdminApi] (response.go, policies.go, proposals.go and the tools
    of admin/mcp); [Export] (the YAML that policies.go writes and reads);
    [TrafficApi] (traffic.go, mcp/traffic_tools.go); [Catalogue]
    (control/services, services.go, apis.go, mcp/resources.go, mcp/apis_tools.go);
    [Mcp] (mcp.go, initialize.go, tools.go, prompts.go).  In front of either
    plane, [Mitm] (server/mitm) turns a CONNECT into a tunnel whose requests the inner handler serves.

    Bundles: [Paths] (path/filepath); [Disk] (the file-system calls of os);
    [Bundles] (control/bundles ref.go, types.go); [BundleFetch] (fetch.go,
    install.go); [BundleLoad] (load.go); [BundleUpgrade] (install.go's
    [InstallRefs], cli/apiscmd/upgrade.go); [Walk] (filepath.Walk,
    cli/apiscmd/copy.go); [Pack], [PackFacts] (control/bundles/pack.go); [Unpack]
    (packing and unpacking composed).

    The process: [DataDir] (cli/datadir, cli/initcmd, auth/secret.go); [Config]
    (cli/servecmd/config.go, cli/cliconfig); [SqlBackend] (control/store); [Boot]
    (server load.go, server.go, mount.go, admin/internal_policy.go); [Wiring]
    (cli/servecmd run.go, stores.go).

    The commands: [ApisCmd], [ApisGuards], [ApisInstall] (cli/apiscmd: the
    operations, what guards them, and the staged install); [Verify]
    (cli/verifycmd); [IssueToken] (cli/issuetokencmd).

    Beside the core: [Celenv] (runtime/celenv); [Replies] (server/middleware.go,
    the response and denial writers, the CA, documentation, metadata and page
    handlers); [Observability] (internal/observability).

    ** State and effects

    The evaluator threads a heap of meta values, the API clients built so far
    and a trace of what the observers are told ([Evaluator.xstate]); a [*Value]
    is a location, because one bind value is shared by every policy that
    matches its action.  Services thread their stores, whose database and disk
    failures are scripts of booleans, so every theorem about them covers every
    pattern of faults.  The recorder is a labelled step relation of its
    goroutines, its read-write lock and the store's answers included.  The disk keeps the history of its states, so a theorem can
    speak of what a killed process leaves; the process itself keeps a trace of what
    it opened, served and closed.  Operations the code runs under one
    mutex are atomic steps.

    ** What the theorems show

    - Enforcement: a permit means every deny policy was consulted and declined,
      and an error denies (ApiRuntime); what is forwarded was permitted and is
      the request the policies saw (Proxy, PathTemplate, ApiClient); a path is
      routed to exactly the API that declares a matching prefix (Routes).
    - Lazy values: an upstream call is made at most once per value
      (EvaluatorFacts, ApiRuntime), all reads of one field of a value in one
      evaluation agree (Reads), a [Type{...}] literal carries inputs only
      (Messages), and an evaluation whose metas are flat and well typed
      returns, without a panic (Fuel, Safety).
    - Policies: store and runtime agree after every operation, whatever fails,
      and, for a store in canonical layout, after a restart; a failed operation
      has no effect but what an import wrote before its first failure
      (PolicyService); only an approval applies a proposal
      and proposals move along their state machine (Proposals); stores refine
      maps (PolicyStore, Stores, FileStore); an export, imported elsewhere, puts
      every policy in its place (Export); building does not depend on the
      order of registration (Runtime).
    - Tokens: a token verifies exactly in its window and as its own kind (Auth,
      Z85); refreshing is guarded and never extends a life (OAuth).
    - The control plane: who passes the door and as whom (AdminGate); a caller
      who is not an admin sees and changes only their own proposals, and the
      two handlers that decide one do not look at the caller, so that the
      internal policies are what stands before them (AdminApi); an agent can
      only propose and is told nothing that redaction hides (Mcp, TrafficApi);
      every resource that is listed can be read (Catalogue); the form issues no
      admin tokens (TokensPage).
    - Traffic: credentials are redacted (Query, Traffic), events are faithful
      (Proxy), none are lost uncounted and shutdown ends unless the store does not
      answer (Recorder), the stores
      retain and page through what they promise (TrafficStore), the database
      reads as the memory store does (TrafficSql), identifiers sort by time
      (Ids).
    - Interception: a tunnel's certificate names what was asked for and is not
      about to expire (Mitm).
    - Bundles: unpacking stays inside its directory and limits, installs are
      all or nothing and invisible until they are done, an upgrade that fails
      puts the old version back unless two renames in a row fail (BundleFetch,
      BundleLoad, BundleUpgrade); what pack writes, unpacks to the same tree
      when it stays within the limits of the reader (Unpack).
    - Commands: remove deletes only a child of the API directory, a reference
      outside the allowlist of --data-dir is refused before anything is fetched (ApisGuards),
      a directory is installed entirely or not at all (ApisInstall); a bundle
      that verifies boots (Verify); a token that is issued is honoured
      (IssueToken).
    - Helpers: a meta call's path stays below the API's base, JSON integers
      survive their way into CEL (Celenv).
    - The process: an init does not overwrite an earlier one and is what a serve
      runs on (DataDir, Config); a configuration keeps what the operator said
      (Config); every migration runs once (SqlBackend); a server enforces what its
      store holds (Boot); every database is closed once, in order (Wiring).

    ** Fuel and bounds

    Completers nest when a meta's expressions read other lazy values, so
    [Evaluator.exec] takes fuel; more fuel never changes a result
    ([Fuel.exec_mono]), and one level is enough when meta expressions read only
    their input and what they build ([Fuel.AR_Evaluate_fuel_enough],
    [Safety.AR_Evaluate_returns]).  The
    eviction loop of the SQLite store takes fuel too, one more than the rows at
    hand is enough ([TrafficStore.sqlite_Insert_trims]).  The proxy and the gate
    pass the evaluator's fuel on, and the rendering of a bind stops at it.
    Sizes are the code's: 10 MiB of response ([ApiClient.maxResponseBodyBytes]),
    64 MiB a bundle and 16 MiB a file ([BundleFetch]); instants and durations
    are nanoseconds and 64-bit where the code computes with them ([OAuth],
    [Recorder]).

    ** Parameters

    Code that is not in the repository is a class, with what is relied on as
    a class of laws that a concrete instance satisfies beside its theorems:
    cel-go ([CelEngine]), the upstream of an evaluation ([Upstream]), JSON and
    protojson ([Codec], [JSON], [Render]), YAML ([Yaml], [BundleYaml],
    [PolicyDocs]), the HTTP
    clients ([HTTPClient], [ForwardClient], [TokenEndpoint], [GitHub]), MIME and
    multipart parsing ([BodyCodec]), cryptography ([Crypto], [CryptoLaws],
    [Bcrypt]; encoding/json keeps only UTF-8, so the laws ask for it), certificates and their cache ([X509], [LRU]), [url.Parse]
    ([URLParser], [BaseURL]), SQLite's LIKE ([SqlLike]) and scripts ([SqlEngine]),
    the base64 of a cursor ([CursorCodec]), the JSON of MCP and of the token page
    ([RpcJSON], [IssueJSON]) and text/template ([TextTemplate]).  Clocks, random
    names and identifiers are arguments, and so are what viper read, the decoded
    embedded policies, the prompt for a password and what ends the listener.

    ** Not modelled

    Generated protobuf code and the test helpers (control/traffic/storetest) are
    not behaviour of the program's own.  What cobra and viper parse is an
    argument; what the commands print, the texts of prompts and of MCP
    descriptions, the entry point cmd/bouncer, the registration of functions with
    cel-go and the generation of a CA are left out: they are glue around
    libraries, or hold no state the rest depends on.  The disk has regular files
    and directories only, without modes, links or times.  Spans and logs are left
    out of the handlers; [Replies] models what the middleware around them
    records, and what it does when one panics. *)

From stdpp Require Export base list strings gmap sorting.
From Stdlib Require Export Ascii.

(** ** Notations, scopes and hint databases *)

Declare Scope go_scope.
Delimit Scope go_scope with go.
Global Open Scope go_scope.

Create HintDb go discriminated.
Create Rewrite HintDb go_rw.

(** ** Go errors

    A Go [error] is one of the shapes the program builds: a fresh message
    ([errors.New], or [fmt.Errorf] without [%w]; the constant part of the text
    is kept as a tag), a package-level sentinel compared by identity, a wrapped
    error ([fmt.Errorf] with [%w]), or one of the two typed errors. *)
Inductive goerr : Type :=
  | EMsg (tag : string)
  | ESentinel (name : string)
  | EWrap (ctx : string) (inner : goerr)
  | EUpstream (status : Z) (url : string) (body : string)
  | EOAuth (status : Z) (code : string) (description : string).

#[export] Instance goerr_eq_dec : EqDecision goerr.
Proof. solve_decision. Defined.

(** [errors.Is(err, sentinel)]: walk the wrap chain. *)
Fixpoint errors_is (e : goerr) (target : string) : bool :=
  match e with
  | ESentinel n => bool_decide (n = target)
  | EWrap _ inner => errors_is inner target
  | _ => false
  end.

(** [errors.As(err, &upstream)] for [*apiclient.UpstreamError]: the status of
    the first upstream error on the wrap chain. *)
Fixpoint errors_as_upstream (e : goerr) : option Z :=
  match e with
  | EUpstream st _ _ => Some st
  | EWrap _ inner => errors_as_upstream inner
  | _ => None
  end.

(** ** Results: a value or an error *)

Inductive result (A : Type) : Type :=
  | Ok (a : A)
  | Err (e : goerr).
Arguments Ok {A} a.
Arguments Err {A} e.

#[export] Instance result_eq_dec `{EqDecision A} : EqDecision (result A).
Proof. solve_decision. Defined.

#[export] Instance result_ret : MRet result := fun A a => Ok a.
#[export] Instance result_bind : MBind result := fun A B f m =>
  match m with Ok a => f a | Err e => Err e end.
#[export] Instance result_fmap : FMap result := fun A B f m =>
  match m with Ok a => Ok (f a) | Err e => Err e end.

Definition is_ok {A} (r : result A) : bool :=
  match r with Ok _ => true | Err _ => false end.

(** [if cond { return err }; k] *)
Notation "'fail_if' b 'with' e ;; k" := (if b then Err e else k)
  (at level 100, b at level 99, e at level 99, k at level 200,
   right associativity) : go_scope.

(** [if err := f(); err != nil { return wrap(err) }] *)
Definition wrap_err {A} (ctx : string) (r : result A) : result A :=
  match r with Ok a => Ok a | Err e => Err (EWrap ctx e) end.

Definition is_some_b {A} (o : option A) : bool :=
  match o with Some _ => true | None => false end.

Lemma wrap_err_ok {A} ctx (r : result A) a : wrap_err ctx r = Ok a <-> r = Ok a.
Proof. destruct r; simpl; split; congruence. Qed.

Lemma bind_ok {A B} (f : A -> result B) (m : result A) b :
  (m ≫= f) = Ok b <-> exists a, m = Ok a /\ f a = Ok b.
Proof.
  destruct m as [a|e]; simpl; split.
  - intros H; by exists a.
  - intros (a' & [= ->] & H); done.
  - discriminate.
  - intros (a' & H & _); discriminate.
Qed.

Lemma fmap_ok {A B} (f : A -> B) (m : result A) b : f <$> m = Ok b <-> exists a, b = f a /\ m = Ok a.
Proof. destruct m; simpl; naive_solver. Qed.

Lemma fail_if_ok {A} (b : bool) e (m : result A) a :
  (fail_if b with e ;; m) = Ok a <-> b = false /\ m = Ok a.
Proof. destruct b; simpl; naive_solver. Qed.

Lemma mapM_ok {A B} (f : A -> result B) (l : list A) (k : list B) :
  mapM f l = Ok k <-> Forall2 (fun x y => f x = Ok y) l k.
Proof.
  revert k. induction l as [|x l IH]; intros k; simpl.
  - split; [intros [= <-]; constructor|]. by inversion 1.
  - rewrite bind_ok. split.
    + intros (y & Hy & (k' & Hk & [= <-])%bind_ok). constructor; [done|]. by apply IH.
    + inversion 1 as [|? y ? k' Hy Hk]; subst. exists y. split; [done|].
      apply bind_ok. exists k'. split; [by apply IH|done].
Qed.

#[export] Hint Rewrite @wrap_err_ok @bind_ok @mapM_ok : go_rw.

(** ** Tactics *)

(** Case analysis on the scrutinee of a [match]/[if] of the goal or a
    hypothesis, remembering the equation. *)
Ltac go_case :=
  match goal with
  | |- context [match ?x with _ => _ end] =>
      lazymatch x with context [match _ with _ => _ end] => fail | _ => destruct x eqn:? end
  end.

Ltac go_case_in H :=
  match type of H with
  | context [match ?x with _ => _ end] =>
      lazymatch x with context [match _ with _ => _ end] => fail | _ => destruct x eqn:? end
  end.

(** Take an equation [code = Ok v] apart, branch by branch. *)
Ltac go_inv H :=
  repeat (go_case_in H; simplify_eq/=; try discriminate).

Ltac bool_simp :=
  repeat match goal with
  | H : bool_decide _ = true |- _ => apply bool_decide_eq_true in H
  | H : bool_decide _ = false |- _ => apply bool_decide_eq_false in H
  | H : _ && _ = true |- _ => apply andb_true_iff in H; destruct H
  | H : _ || _ = false |- _ => apply orb_false_iff in H; destruct H
  | H : negb _ = true |- _ => apply negb_true_iff in H
  | H : negb _ = false |- _ => apply negb_false_iff in H
  end.

(** ** Lists *)

(** First index whose element satisfies [p]: the shape of the source's
    [indexByName] loops (which return -1 where this returns [None]). *)
Fixpoint find_index {A} (p : A -> bool) (l : list A) : option nat :=
  match l with
  | [] => None
  | x :: l' => if p x then Some 0 else S <$> find_index p l'
  end.

Lemma find_index_None {A} (p : A -> bool) l :
  find_index p l = None <-> Forall (fun x => p x = false) l.
Proof.
  induction l as [|x l IH]; simpl; [by split|].
  rewrite Forall_cons, <- IH. destruct (p x); [split; [done|by intros [? _]]|].
  rewrite fmap_None. by split; [|intros [_ ?]].
Qed.

Lemma find_index_Some {A} (p : A -> bool) l i :
  find_index p l = Some i <->
  exists l1 x l2, l = l1 ++ x :: l2 /\ length l1 = i /\ p x = true /\
    Forall (fun y => p y = false) l1.
Proof.
  revert i. induction l as [|x l IH]; intros i; simpl.
  - split; [done|]. intros (l1 & y & l2 & H & _). by destruct l1.
  - destruct (p x) eqn:Hp.
    + split; [intros [= <-]; by exists [], x, l|].
      intros (l1 & y & l2 & H & <- & Hy & Hl1).
      destruct l1 as [|z l1]; [done|]. simplify_eq/=. inversion Hl1; congruence.
    + rewrite fmap_Some. setoid_rewrite IH. split.
      * intros (j & (l1 & y & l2 & -> & <- & Hy & Hl1) & ->).
        exists (x :: l1), y, l2. repeat split; try done. by constructor.
      * intros (l1 & y & l2 & H & <- & Hy & Hl1).
        destruct l1 as [|z l1]; simplify_eq/=; [congruence|].
        exists (length l1). split; [|done]. exists l1, y, l2.
        repeat split; try done. by inversion Hl1.
Qed.

(** Go's [append(s[:i], s[i+1:]...)]. *)
Definition remove_at {A} (i : nat) (l : list A) : list A := take i l ++ drop (S i) l.

Lemma remove_at_app {A} (l1 : list A) x l2 :
  remove_at (length l1) (l1 ++ x :: l2) = l1 ++ l2.
Proof.
  unfold remove_at. rewrite take_app_length.
  replace (S (length l1)) with (length l1 + 1) by lia.
  by rewrite <- drop_drop, drop_app_length.
Qed.

Lemma insert_app_at {A} (l1 : list A) x y l2 :
  <[length l1 := y]> (l1 ++ x :: l2) = l1 ++ y :: l2.
Proof.
  rewrite insert_app_r_alt by lia. by rewrite Nat.sub_diag.
Qed.

(** The index/value pairs of a [range] loop. *)
Definition indexed {A} (l : list A) : list (nat * A) := zip (seq 0 (length l)) l.

Lemma elem_of_indexed {A} (l : list A) i x : (i, x) ∈ indexed l <-> l !! i = Some x.
Proof.
  unfold indexed. rewrite list_elem_of_lookup. setoid_rewrite lookup_zip_with_Some. split.
  - intros (k & ? & ? & [= -> ->] & Hk%lookup_seq & Hx). destruct Hk as [-> _]. done.
  - intros Hx. exists i, i, x. split; [done|]. split; [|done].
    apply lookup_seq. split; [done|]. by eapply lookup_lt_Some.
Qed.

(** Filtering by a boolean. *)
Lemma list_filter_app {A} (p : A -> bool) l1 l2 :
  List.filter p (l1 ++ l2) = List.filter p l1 ++ List.filter p l2.
Proof. apply List.filter_app. Qed.

#[export] Hint Rewrite @remove_at_app @insert_app_at : go_rw.

(** ** Scripted faults

    A store's state carries a script of booleans: an operation that can fail
    takes one and fails when it is true; an exhausted script never fails. *)

Definition pop (l : list bool) : bool * list bool :=
  match l with [] => (false, []) | b :: l' => (b, l') end.

Definition disk_error : goerr := EMsg "i/o error".
