(* ===== verification/GoStd.v ===== *)
(** * The Go standard-library routines the program uses

    Strings are byte strings ([String.string] of [ascii]).  Case folding is the
    ASCII part of [strings.ToLower]/[ToUpper]: every use in the program is on
    HTTP methods, header names and file names.  [url.PathUnescape] is the
    path-segment mode of [net/url]'s [unescape]. *)

From S2P Require Import Prelude.

(** ** Bytes *)

Definition slash : ascii := "/"%char.
Definition percent : ascii := "%"%char.

Fixpoint has_byte (c : ascii) (s : string) : bool :=
  match s with
  | EmptyString => false
  | String a s' => bool_decide (a = c) || has_byte c s'
  end.

(** ** Prefixes and suffixes *)

(** [strings.HasPrefix] *)
Fixpoint has_prefix (p s : string) : bool :=
  match p, s with
  | EmptyString, _ => true
  | String a p', String b s' => bool_decide (a = b) && has_prefix p' s'
  | String _ _, EmptyString => false
  end.

(** [strings.CutPrefix]: the rest after the prefix, when it is one. *)
Fixpoint cut_prefix (p s : string) : option string :=
  match p, s with
  | EmptyString, _ => Some s
  | String a p', String b s' => if decide (a = b) then cut_prefix p' s' else None
  | String _ _, EmptyString => None
  end.

(** [strings.TrimPrefix] *)
Definition trim_prefix (p s : string) : string := default s (cut_prefix p s).

Fixpoint string_rev_app (s acc : string) : string :=
  match s with
  | EmptyString => acc
  | String a s' => string_rev_app s' (String a acc)
  end.
Definition string_rev (s : string) : string := string_rev_app s EmptyString.

(** [strings.HasSuffix], [strings.CutSuffix], [strings.TrimSuffix] *)
Definition has_suffix (x s : string) : bool := has_prefix (string_rev x) (string_rev s).
Definition cut_suffix (x s : string) : option string :=
  string_rev <$> cut_prefix (string_rev x) (string_rev s).
Definition trim_suffix (x s : string) : string := default s (cut_suffix x s).

(** [strings.Contains] *)
Fixpoint str_contains (sub s : string) : bool :=
  has_prefix sub s ||
  match s with EmptyString => false | String _ s' => str_contains sub s' end.

Lemma length_sapp a b : String.length (a +:+ b) = String.length a + String.length b.
Proof. induction a as [|c a IH]; [done|]. autorewrite with go_rw. simpl. by rewrite IH. Qed.

(** A number as a string of bits, for examples that need an encoding. *)
Fixpoint bits (p : positive) : string :=
  match p with
  | xH => ""
  | xO p => String "0" (bits p)
  | xI p => String "1" (bits p)
  end.

Fixpoint unbits (s : string) : positive :=
  match s with
  | String "0" s => xO (unbits s)
  | String _ s => xI (unbits s)
  | EmptyString => xH
  end.

Lemma unbits_bits p : unbits (bits p) = p.
Proof. induction p as [p IH|p IH|]; simpl; by rewrite ?IH. Qed.

(** ** Split, join, replace *)

(** [strings.Split(s, c)] for a one-byte separator. *)
Fixpoint split_byte (c : ascii) (s : string) : list string :=
  match s with
  | EmptyString => [EmptyString]
  | String a s' =>
      if decide (a = c) then EmptyString :: split_byte c s'
      else match split_byte c s' with
           | h :: t => String a h :: t
           | [] => [String a EmptyString]
           end
  end.

(** [strings.Join] *)
Fixpoint join (sep : string) (l : list string) : string :=
  match l with
  | [] => EmptyString
  | [x] => x
  | x :: l' => x +:+ sep +:+ join sep l'
  end.

(** [strings.ReplaceAll(s, c, r)] for a one-byte old string. *)
Fixpoint replace_byte (c : ascii) (r : string) (s : string) : string :=
  match s with
  | EmptyString => EmptyString
  | String a s' => if decide (a = c) then r +:+ replace_byte c r s'
                   else String a (replace_byte c r s')
  end.

(** ** Case folding (ASCII) *)

Definition byte_val (a : ascii) : N := N_of_ascii a.

Definition lower_byte (a : ascii) : ascii :=
  let n := byte_val a in
  if (65 <=? n)%N && (n <=? 90)%N then ascii_of_N (n + 32) else a.
Definition upper_byte (a : ascii) : ascii :=
  let n := byte_val a in
  if (97 <=? n)%N && (n <=? 122)%N then ascii_of_N (n - 32) else a.

Fixpoint string_map (f : ascii -> ascii) (s : string) : string :=
  match s with EmptyString => EmptyString | String a s' => String (f a) (string_map f s') end.

Definition to_lower : string -> string := string_map lower_byte.
Definition to_upper : string -> string := string_map upper_byte.

(** ** [url.PathUnescape] *)

Definition unhex (a : ascii) : option N :=
  let n := byte_val a in
  if (48 <=? n)%N && (n <=? 57)%N then Some (n - 48)%N
  else if (97 <=? n)%N && (n <=? 102)%N then Some (n - 87)%N
  else if (65 <=? n)%N && (n <=? 70)%N then Some (n - 55)%N
  else None.

Definition escape_error : goerr := EMsg "invalid URL escape".

Fixpoint path_unescape (s : string) : result string :=
  match s with
  | EmptyString => Ok EmptyString
  | String a s' =>
      if decide (a = percent) then
        match s' with
        | String h (String l s'') =>
            match unhex h, unhex l with
            | Some vh, Some vl => String (ascii_of_N (vh * 16 + vl)) <$> path_unescape s''
            | _, _ => Err escape_error
            end
        | _ => Err escape_error
        end
      else String a <$> path_unescape s'
  end.

(** ** Lemmas *)

Lemma string_app_cons a s1 s2 : String a s1 +:+ s2 = String a (s1 +:+ s2).
Proof. done. Qed.
Lemma string_app_nil_l s : EmptyString +:+ s = s.
Proof. done. Qed.
Lemma string_app_nil_r s : s +:+ EmptyString = s.
Proof. induction s as [|a s IH]; [done|]. by rewrite string_app_cons, IH. Qed.
Lemma string_app_assoc s1 s2 s3 : (s1 +:+ s2) +:+ s3 = s1 +:+ (s2 +:+ s3).
Proof. induction s1 as [|a s IH]; [done|]. by rewrite !string_app_cons, IH. Qed.
Lemma string_app_inj_l s s1 s2 : s +:+ s1 = s +:+ s2 -> s1 = s2.
Proof. induction s as [|a s IH]; [done|]. rewrite !string_app_cons. intros [= H]. auto. Qed.
#[export] Hint Rewrite string_app_cons string_app_nil_l string_app_nil_r string_app_assoc : go_rw.

Lemma cut_prefix_Some p s r : cut_prefix p s = Some r <-> s = p +:+ r.
Proof.
  revert s. induction p as [|a p IH]; intros s; simpl.
  - split; [by intros [= ->]|by intros ->].
  - rewrite string_app_cons. destruct s as [|b s]; [done|].
    case_decide as Hab; [subst|]; rewrite ?IH; naive_solver.
Qed.

Lemma has_prefix_spec p s : has_prefix p s = true <-> exists r, s = p +:+ r.
Proof.
  revert s. induction p as [|a p IH]; intros s; simpl.
  - split; [by exists s|done].
  - destruct s as [|b s]; [by split; [|intros [? ?]]|].
    rewrite andb_true_iff, bool_decide_eq_true, IH. setoid_rewrite string_app_cons.
    naive_solver.
Qed.

Lemma has_prefix_cut p s : has_prefix p s = true <-> is_Some (cut_prefix p s).
Proof.
  rewrite has_prefix_spec. unfold is_Some. by setoid_rewrite cut_prefix_Some.
Qed.

Lemma has_byte_app c s1 s2 : has_byte c (s1 +:+ s2) = has_byte c s1 || has_byte c s2.
Proof.
  induction s1 as [|a s1 IH]; [done|]. rewrite string_app_cons. simpl.
  by rewrite IH, orb_assoc.
Qed.

Lemma split_byte_nonempty c s : split_byte c s <> [].
Proof.
  destruct s as [|a s]; simpl; [done|]. case_decide; [done|]. by destruct (split_byte c s).
Qed.

Lemma join_cons sep x l : l <> [] -> join sep (x :: l) = x +:+ sep +:+ join sep l.
Proof. by destruct l. Qed.

Lemma join_split c s : join (String c EmptyString) (split_byte c s) = s.
Proof.
  induction s as [|a s IH]; [done|]. simpl. case_decide as Hac.
  - subst. rewrite join_cons by apply split_byte_nonempty. by rewrite IH.
  - pose proof (split_byte_nonempty c s) as Hne.
    destruct (split_byte c s) as [|h t]; [done|].
    destruct t as [|h' t]; [by simpl in *; rewrite IH|].
    rewrite join_cons in IH |- * by done. by rewrite string_app_cons, IH.
Qed.

Lemma split_byte_free c s : has_byte c s = false -> split_byte c s = [s].
Proof.
  induction s as [|a s IH]; [done|]. simpl. intros [Ha Hs]%orb_false_iff.
  apply bool_decide_eq_false in Ha. rewrite decide_False by done. by rewrite IH.
Qed.

Lemma split_byte_app c x s :
  has_byte c x = false -> split_byte c (x +:+ String c s) = x :: split_byte c s.
Proof.
  induction x as [|a x IH]; intros Hx.
  - rewrite string_app_nil_l. simpl. by rewrite decide_True.
  - rewrite string_app_cons. simpl in *. apply orb_false_iff in Hx as [Ha Hx].
    apply bool_decide_eq_false in Ha. rewrite decide_False by done. by rewrite IH.
Qed.

Lemma split_join c l :
  l <> [] -> Forall (fun s => has_byte c s = false) l ->
  split_byte c (join (String c EmptyString) l) = l.
Proof.
  intros Hne Hl. induction Hl as [|x l Hx Hl IH]; [done|].
  destruct l as [|y l]; [by apply split_byte_free|].
  rewrite join_cons by done. rewrite string_app_cons, string_app_nil_l, split_byte_app by done.
  by rewrite IH.
Qed.

Lemma split_byte_elems_free c s : Forall (fun x => has_byte c x = false) (split_byte c s).
Proof.
  induction s as [|a s IH]; simpl; [by repeat constructor|].
  case_decide as Hac; [by constructor|].
  destruct (split_byte c s) as [|h t]; inversion IH; subst; constructor; try done; simpl.
  - by rewrite bool_decide_false.
  - by rewrite bool_decide_false.
Qed.

Lemma join_eq_nil_inv sep l : sep <> EmptyString -> join sep l = EmptyString -> l = [] \/ l = [EmptyString].
Proof.
  intros Hsep. destruct l as [|x [|y l]]; simpl; [by left| |].
  - intros ->. by right.
  - destruct x as [|a x]; [|done]. destruct sep; done.
Qed.

Lemma path_unescape_cons a s :
  a <> percent -> path_unescape (String a s) = String a <$> path_unescape s.
Proof. intros Ha. simpl. by rewrite decide_False. Qed.

Lemma path_unescape_hex h l vh vl s :
  unhex h = Some vh -> unhex l = Some vl ->
  path_unescape (String percent (String h (String l s))) =
    String (ascii_of_N (vh * 16 + vl)) <$> path_unescape s.
Proof. intros Hh Hl. simpl. by rewrite Hh, Hl. Qed.

Lemma path_unescape_nonempty a s r : path_unescape (String a s) = Ok r -> r <> EmptyString.
Proof.
  cbn. intros H Hr; subst.
  repeat first [case_decide | case_match | discriminate H]; simplify_eq/=;
    match goal with H : _ <$> ?m = Ok _ |- _ => destruct m; discriminate end.
Qed.

Lemma path_unescape_plain s : has_byte percent s = false -> path_unescape s = Ok s.
Proof.
  induction s as [|a s IH]; [done|]. cbn [has_byte]. intros [Ha Hs]%orb_false_iff.
  apply bool_decide_eq_false in Ha. rewrite path_unescape_cons by done. by rewrite IH.
Qed.

(** Byte-wise ordering of Go strings, as a decidable total order for sorting. *)
Lemma string_sort_perm (l : list string) : merge_sort String.le l ≡ₚ l.
Proof. apply merge_sort_Permutation. Qed.

(** [sort.Strings] *)
Definition sort_strings (l : list string) : list string := merge_sort String.le l.

(** Reversal, and the suffix routines it defines. *)
Lemma string_rev_app_spec s acc : string_rev_app s acc = string_rev s +:+ acc.
Proof.
  unfold string_rev. revert acc. induction s as [|a s IH]; intros acc; [done|].
  cbn [string_rev_app]. rewrite (IH (String a acc)), (IH (String a EmptyString)).
  by autorewrite with go_rw.
Qed.
Lemma string_rev_cons a s : string_rev (String a s) = string_rev s +:+ String a EmptyString.
Proof. unfold string_rev at 1. cbn [string_rev_app]. apply string_rev_app_spec. Qed.
Lemma string_rev_append s1 s2 : string_rev (s1 +:+ s2) = string_rev s2 +:+ string_rev s1.
Proof.
  induction s1 as [|a s1 IH]; [by rewrite string_app_nil_r|].
  rewrite string_app_cons, !string_rev_cons, IH. by rewrite string_app_assoc.
Qed.
Lemma string_rev_involutive s : string_rev (string_rev s) = s.
Proof.
  induction s as [|a s IH]; [done|]. by rewrite string_rev_cons, string_rev_append, IH.
Qed.

Lemma cut_suffix_Some x s r : cut_suffix x s = Some r <-> s = r +:+ x.
Proof.
  unfold cut_suffix. rewrite fmap_Some. setoid_rewrite cut_prefix_Some. split.
  - intros (y & Hs & ->). apply (f_equal string_rev) in Hs.
    by rewrite string_rev_involutive, string_rev_append, string_rev_involutive in Hs.
  - intros ->. exists (string_rev r). by rewrite string_rev_append, string_rev_involutive.
Qed.

Lemma has_suffix_spec x s : has_suffix x s = true <-> exists r, s = r +:+ x.
Proof.
  unfold has_suffix. rewrite has_prefix_cut. setoid_rewrite <- cut_suffix_Some.
  unfold cut_suffix, is_Some. setoid_rewrite fmap_Some. naive_solver.
Qed.

#[export] Hint Rewrite string_rev_append string_rev_involutive cut_prefix_Some cut_suffix_Some : go_rw.

Lemma string_app_inj_r s s1 s2 : s1 +:+ s = s2 +:+ s -> s1 = s2.
Proof.
  intros E. apply (f_equal string_rev) in E. rewrite !string_rev_append in E.
  apply string_app_inj_l in E. apply (f_equal string_rev) in E. by rewrite !string_rev_involutive in E.
Qed.

Lemma string_map_app f s1 s2 : string_map f (s1 +:+ s2) = string_map f s1 +:+ string_map f s2.
Proof.
  induction s1 as [|a s1 IH]; [done|]. rewrite string_app_cons. cbn [string_map].
  by rewrite IH, string_app_cons.
Qed.

(** ** [int64] arithmetic *)

Definition i64 (n : Z) : Z := ((n + 2 ^ 63) mod 2 ^ 64 - 2 ^ 63)%Z.

Lemma i64_small n : (- 2 ^ 63 <= n < 2 ^ 63)%Z -> i64 n = n.
Proof. intros Hn. unfold i64. rewrite Z.mod_small; lia. Qed.

(** Wrapping never makes a non-negative number larger. *)
Lemma i64_le n : (0 <= n)%Z -> (i64 n <= n)%Z.
Proof.
  intros Hn. unfold i64. pose proof (Z.mod_le (n + 2 ^ 63) (2 ^ 64) ltac:(lia) ltac:(lia)). lia.
Qed.

(** ** [utf8.ValidString] *)

Definition byte_in (lo hi : N) (a : ascii) : bool := (lo <=? byte_val a)%N && (byte_val a <=? hi)%N.
Definition continuation (a : ascii) : bool := byte_in 128 191 a.

(** What the second byte of a sequence of [n] may be, by the first. *)
Definition second_byte (a b : ascii) : bool :=
  match N.to_nat (byte_val a) with
  | 224 => byte_in 160 191 b
  | 237 => byte_in 128 159 b
  | 240 => byte_in 144 191 b
  | 244 => byte_in 128 143 b
  | _ => continuation b
  end.

Fixpoint valid_utf8 (s : string) : bool :=
  match s with
  | EmptyString => true
  | String a s =>
      if byte_in 0 127 a then valid_utf8 s
      else if byte_in 194 223 a then
        match s with String b s => continuation b && valid_utf8 s | _ => false end
      else if byte_in 224 239 a then
        match s with
        | String b (String c s) => second_byte a b && continuation c && valid_utf8 s
        | _ => false
        end
      else if byte_in 240 244 a then
        match s with
        | String b (String c (String d s)) => second_byte a b && continuation c && continuation d && valid_utf8 s
        | _ => false
        end
      else false
  end.

Lemma valid_utf8_ascii a s : byte_in 0 127 a = true -> valid_utf8 (String a s) = valid_utf8 s.
Proof. intros Ha. simpl. by rewrite Ha. Qed.
