(* ===== verification/GoTime.v ===== *)
(** * Decimal numbers and instants: strconv.Atoi, [time.Parse] of the RFC 3339
    layout, and the millisecond layout of the redacted traffic view

    An instant is a number of nanoseconds since 1970 in UTC.  [time.Parse] is
    the general parser of the layout [2006-01-02T15:04:05Z07:00]; the fast path
    the library tries first accepts a subset of it with the same results. *)

From S2P Require Import Prelude GoStd.

Definition digit (a : ascii) : option Z :=
  if byte_in 48 57 a then Some (Z.of_N (byte_val a) - 48)%Z else None.

Definition is_digit (a : ascii) : bool := is_some_b (digit a).

(** The digits of [s], continuing [acc]. *)
Fixpoint digits (s : string) (acc : Z) : option Z :=
  match s with
  | EmptyString => Some acc
  | String a s' => d ← digit a; digits s' (acc * 10 + d)%Z
  end.

Definition natural (s : string) : option Z := if decide (s = "") then None else digits s 0.

Definition int64 (n : Z) : option Z :=
  if bool_decide (- 2 ^ 63 <= n < 2 ^ 63)%Z then Some n else None.

(** [strconv.Atoi] on a 64-bit platform: a sign, digits, and the range check. *)
Definition Atoi (s : string) : option Z :=
  match s with
  | String a s' =>
      if decide (a = "-"%char) then n ← natural s'; int64 (- n)%Z
      else if decide (a = "+"%char) then n ← natural s'; int64 n
      else n ← natural s; int64 n
  | EmptyString => None
  end.

Lemma Atoi_bounds s n : Atoi s = Some n -> (- 2 ^ 63 <= n < 2 ^ 63)%Z.
Proof.
  assert (forall m k, int64 m = Some k -> (- 2 ^ 63 <= k < 2 ^ 63)%Z) as Hi.
  { intros m k. unfold int64. case_bool_decide as Hb; [|done]. by intros [= <-]. }
  destruct s as [|a s]; [done|]. unfold Atoi.
  repeat case_decide; intros (m & _ & Hm)%bind_Some; eauto.
Qed.

(** ** The calendar *)

Definition leap (y : Z) : bool :=
  bool_decide (y mod 4 = 0)%Z && (negb (bool_decide (y mod 100 = 0)%Z) || bool_decide (y mod 400 = 0)%Z).

(** [daysIn] *)
Definition days_in (y m : Z) : Z :=
  if bool_decide (m = 2)%Z then if leap y then 29 else 28
  else if bool_decide (m ∈ [4; 6; 9; 11]%Z) then 30 else 31.

(** Days from 1970-01-01 to the first of January of a year, and of a month. *)
Definition days_to_year (y : Z) : Z :=
  let p := (y - 1)%Z in (365 * p + p / 4 - p / 100 + p / 400 - 719162)%Z.

Fixpoint days_to_month (y : Z) (n : nat) : Z :=
  match n with 0 => 0 | S n => (days_to_month y n + days_in y (Z.of_nat n + 1))%Z end.

Record civil := mkCivil {
  cv_year : Z; cv_month : Z; cv_day : Z; cv_hour : Z; cv_min : Z; cv_sec : Z; cv_nsec : Z
}.

(** [time.Date] in UTC, on fields in range. *)
Definition unix_nano (t : civil) : Z :=
  let days := (days_to_year (cv_year t) + days_to_month (cv_year t) (Z.to_nat (cv_month t - 1)) + cv_day t - 1)%Z in
  ((((days * 24 + cv_hour t) * 60 + cv_min t) * 60 + cv_sec t) * 1000000000 + cv_nsec t)%Z.

(** ** [time.Parse(time.RFC3339, s)] *)

(** [getnum]: two digits, or one unless [fixed]. *)
Definition getnum (fixed : bool) (s : string) : option (Z * string) :=
  match s with
  | String a s' =>
      x ← digit a;
      match s' with
      | String b s'' =>
          match digit b with
          | Some y => Some (x * 10 + y, s'')%Z
          | None => if fixed then None else Some (x, s')
          end
      | EmptyString => if fixed then None else Some (x, s')
      end
  | EmptyString => None
  end.

Definition literal (c : ascii) (s : string) : option string :=
  match s with String a s' => if decide (a = c) then Some s' else None | EmptyString => None end.

Definition in_range (lo hi n : Z) : option Z := if bool_decide (lo <= n <= hi)%Z then Some n else None.

Definition parse_year (s : string) : option (Z * string) :=
  match s with
  | String a (String b (String c (String d s'))) =>
      y ← digits (String a (String b (String c (String d "")))) 0; Some (y, s')
  | _ => None
  end.

Fixpoint span_digits (s : string) : string * string :=
  match s with
  | String a s' => if is_digit a then let '(x, y) := span_digits s' in (String a x, y) else ("", s)
  | EmptyString => ("", "")
  end.

(** The first nine digits, scaled: [parseNanoseconds]. *)
Fixpoint nanoseconds (n : nat) (s : string) (acc : Z) : Z :=
  match n with
  | 0 => acc
  | S n =>
      match s with
      | String a s' => nanoseconds n s' (acc * 10 + default 0%Z (digit a))%Z
      | EmptyString => nanoseconds n "" (acc * 10)%Z
      end
  end.

(** A fraction is read though the layout has none; a period or a comma starts
    it. *)
Definition parse_fraction (s : string) : Z * string :=
  match s with
  | String p s' =>
      if bool_decide (p = "."%char) || bool_decide (p = ","%char) then
        let '(ds, rest) := span_digits s' in
        if decide (ds = "") then (0%Z, s) else (nanoseconds 9 ds 0, rest)
      else (0%Z, s)
  | EmptyString => (0%Z, s)
  end.

(** [Z07:00]: seconds east of UTC.  Offsets of 24 hours and 60 minutes are
    accepted. *)
Definition parse_zone (s : string) : option (Z * string) :=
  match s with
  | String a s' =>
      if decide (a = "Z"%char) then Some (0%Z, s')
      else
        '(h, s) ← getnum true s'; s ← literal ":" s; '(m, s) ← getnum true s;
        h ← in_range 0 24 h; m ← in_range 0 60 m;
        if decide (a = "+"%char) then Some ((h * 60 + m) * 60, s)%Z
        else if decide (a = "-"%char) then Some (- ((h * 60 + m) * 60), s)%Z else None
  | EmptyString => None
  end.

Definition parse_RFC3339 (s : string) : option Z :=
  '(y, s) ← parse_year s; s ← literal "-" s; '(mo, s) ← getnum true s; mo ← in_range 1 12 mo; s ← literal "-" s;
  '(d, s) ← getnum true s; s ← literal "T" s; '(h, s) ← getnum false s; h ← in_range 0 23 h; s ← literal ":" s;
  '(mi, s) ← getnum true s; mi ← in_range 0 59 mi; s ← literal ":" s; '(sec, s) ← getnum true s;
  sec ← in_range 0 59 sec;
  let '(ns, s) := parse_fraction s in
  '(off, s) ← parse_zone s; d ← in_range 1 (days_in y mo) d;
  if decide (s = "") then Some (unix_nano (mkCivil y mo d h mi sec ns) - off * 1000000000)%Z else None.

Example parse_epoch : parse_RFC3339 "1970-01-01T00:00:00Z" = Some 0%Z.
Proof. vm_compute. reflexivity. Qed.

Example parse_zero_time : parse_RFC3339 "0001-01-01T00:00:00Z" = Some (-62135596800 * 1000000000)%Z.
Proof. vm_compute. reflexivity. Qed.

Example parse_offset_fraction :
  parse_RFC3339 "2024-02-29T23:30:00.25+01:30" = Some ((19782 * 86400 + 22 * 3600) * 1000000000 + 250000000)%Z.
Proof. vm_compute. reflexivity. Qed.

Example parse_refused :
  parse_RFC3339 "2023-02-29T00:00:00Z" = None /\ parse_RFC3339 "2024-01-01" = None /\
  parse_RFC3339 "2024-01-01T24:00:00Z" = None /\ parse_RFC3339 "2024-01-01T00:00:00Z " = None.
Proof. vm_compute. done. Qed.
