(* ===== verification/Models.v ===== *)
(** * Data model: [internal/runtime/models/types.go] and the request envelope

    The YAML-shaped schema (API, meta, action, policy) and the protobuf
    messages of [proto/] that policies are evaluated against. *)

From S2P Require Import Prelude GoStd.

(** ** [google.protobuf.Value]

    A number is an IEEE double kept as its bit pattern; a struct is an
    association list with distinct keys. *)
Inductive pbvalue : Type :=
  | PNull
  | PNumber (bits : Z)
  | PString (s : string)
  | PBool (b : bool)
  | PStruct (fields : list (string * pbvalue))
  | PList (values : list pbvalue).

(** ** Protobuf messages *)

Record KeyValue := mkKeyValue { kv_Key : string; kv_Value : string }.

Record Request := mkRequest {
  req_Method : string;
  req_Path : string;
  req_PathSegments : list string;
  req_Query : list KeyValue;
  req_Body : option pbvalue
}.

Record Response := mkResponse { resp_Body : option pbvalue }.

Record MetaRequest := mkMetaRequest {
  mr_Method : string;
  mr_Path : string;
  mr_Body : option pbvalue;
  mr_ContentType : string
}.

Record Principal := mkPrincipal {
  prin_Subject : string;
  prin_Kind : string;
  prin_Scopes : list string
}.

(** ** Policy results *)

Definition PolicyResult := string.
Definition Permit : PolicyResult := "permit".
Definition Deny : PolicyResult := "deny".

Definition PolicyResult_Validate (r : PolicyResult) : result unit :=
  if decide (r = Permit) then Ok tt
  else if decide (r = Deny) then Ok tt
  else if decide (r = "") then Err (EMsg "policy result is required (permit|deny)")
  else Err (EMsg "policy result is not one of permit|deny").

(** ** Schema records *)

Record InputField := mkInputField { if_Name : string }.
Record OutputField := mkOutputField { of_Name : string; of_Expr : string }.

Record Metadata := mkMetadata {
  meta_Name : string;
  meta_Kind : string;
  meta_Input : list InputField;
  meta_Request : string;
  meta_Output : list OutputField
}.

Record Action := mkAction {
  act_Name : string;
  act_Method : string;
  act_Path : string;
  act_Filter : string;
  act_Bind : string;
  act_Binds : list string
}.

Definition AllBinds (a : Action) : list string :=
  (if decide (act_Bind a = "") then [] else [act_Bind a]) ++ act_Binds a.

Record API := mkAPI {
  api_Name : string;
  api_BaseURL : string;
  api_PathPrefixes : list string;
  api_Meta : list Metadata;
  api_Actions : list Action;
  api_AccessDeniedStatus : Z;
  api_Auth : string
}.

Definition AuthOptional (a : API) : bool := bool_decide (api_Auth a = "optional").

Record Policy := mkPolicy {
  pol_API : string;
  pol_Name : string;
  pol_Description : string;
  pol_Principal : string;
  pol_Action : string;
  pol_Condition : string;
  pol_Result : PolicyResult
}.

#[export] Instance InputField_eq_dec : EqDecision InputField.
Proof. solve_decision. Defined.
#[export] Instance OutputField_eq_dec : EqDecision OutputField.
Proof. solve_decision. Defined.
#[export] Instance Metadata_eq_dec : EqDecision Metadata.
Proof. solve_decision. Defined.
#[export] Instance Action_eq_dec : EqDecision Action.
Proof. solve_decision. Defined.
#[export] Instance API_eq_dec : EqDecision API.
Proof. solve_decision. Defined.
#[export] Instance Policy_eq_dec : EqDecision Policy.
Proof. solve_decision. Defined.
#[export] Instance KeyValue_eq_dec : EqDecision KeyValue.
Proof. solve_decision. Defined.
#[export] Instance Principal_eq_dec : EqDecision Principal.
Proof. solve_decision. Defined.

(** The key a policy is stored under. *)
Definition pol_key (p : Policy) : string * string := (pol_API p, pol_Name p).

(** ** Lemmas *)

Lemma Permit_ne_Deny : Permit <> Deny.
Proof. done. Qed.

Lemma PolicyResult_Validate_ok r u :
  PolicyResult_Validate r = Ok u <-> r = Permit \/ r = Deny.
Proof.
  unfold PolicyResult_Validate. destruct u.
  repeat case_decide; naive_solver.
Qed.

#[export] Hint Resolve Permit_ne_Deny : go.
