(* ===== verification/Interfaces.v ===== *)
(** * Interfaces between components

    What the policy service needs of the runtime ([*runtime.Runtime]) and of a
    durable store ([policies.Store]): the operations as a class, their contract
    as a class of laws.  The runtime and the stores discharge the laws in their
    own files; the service's theorems are proved against the classes. *)

From S2P Require Import Prelude GoStd Models.

(** The sentinels handlers map to HTTP statuses. *)
Definition ErrInvalid : goerr := ESentinel "ErrInvalid".
Definition ErrNotFound : goerr := ESentinel "ErrNotFound".
Definition ErrConflict : goerr := ESentinel "ErrConflict".
Definition ErrAPIPath : goerr := ESentinel "ErrAPIPath".
Definition ErrReadOnly : goerr := ESentinel "ErrReadOnly".

(** The loop of [Service.find]. *)
Fixpoint find_policy (api name : string) (l : list Policy) : option Policy :=
  match l with
  | [] => None
  | p :: l' =>
      if bool_decide (pol_API p = api) && bool_decide (pol_Name p = name) then Some p
      else find_policy api name l'
  end.

Lemma find_policy_Some api name l p :
  find_policy api name l = Some p -> p ∈ l /\ pol_API p = api /\ pol_Name p = name.
Proof.
  induction l as [|q l IH]; simpl; [done|]. destruct (_ && _) eqn:E.
  - intros [= ->]. bool_simp. set_solver.
  - intros H. apply IH in H. set_solver.
Qed.

Lemma find_policy_None api name l :
  find_policy api name l = None <-> forall p, p ∈ l -> pol_key p <> (api, name).
Proof.
  induction l as [|q l IH]; simpl; [set_solver|]. destruct (_ && _) eqn:E.
  - bool_simp. subst. split; [done|]. intros Hn. exfalso. apply (Hn q); [left|done].
  - rewrite IH. split; [|set_solver]. intros Hn p [->|Hp]%elem_of_cons; [|by apply Hn].
    intros [= <- <-]. by rewrite !bool_decide_eq_true_2 in E.
Qed.

(** At most one policy per key. *)
Definition keys_unique (l : list Policy) : Prop :=
  forall p q, p ∈ l -> q ∈ l -> pol_key p = pol_key q -> p = q.

Lemma find_policy_unique l p :
  keys_unique l -> p ∈ l -> find_policy (pol_API p) (pol_Name p) l = Some p.
Proof.
  intros Hu Hp. destruct (find_policy _ _ l) as [q|] eqn:E.
  - apply find_policy_Some in E as (Hq & E1 & E2). f_equal. apply Hu; try done.
    unfold pol_key. congruence.
  - by destruct (proj1 (find_policy_None _ _ _) E p Hp).
Qed.

Lemma find_policy_iff l api name p :
  keys_unique l -> find_policy api name l = Some p <-> p ∈ l /\ pol_key p = (api, name).
Proof.
  intros Hu. split.
  - intros (Hp & <- & <-)%find_policy_Some. done.
  - intros [Hp [= <- <-]]. by apply find_policy_unique.
Qed.

(** ** The runtime, as the policy service sees it *)

Class PolicyRuntime (R : Type) := {
  pr_replace : Policy -> R -> result bool * R;
  pr_remove : string -> string -> R -> result bool * R;
  pr_validate : Policy -> R -> result unit;
  pr_list : R -> list Policy
}.

Definition pr_find `{PolicyRuntime R} (r : R) (k : string * string) : option Policy :=
  find_policy k.1 k.2 (pr_list r).

Class PolicyRuntimeLaws (R : Type) `{PolicyRuntime R} := {
  pr_inv : R -> Prop;
  (** a policy that validates is applied: it is found under its key and nothing
      else changes, validation included *)
  pr_replace_ok p r : pr_inv r -> pr_validate p r = Ok tt ->
    exists b r', pr_replace p r = (Ok b, r') /\ pr_inv r' /\
      (forall k, pr_find r' k = if decide (k = pol_key p) then Some p else pr_find r k) /\
      (b = true <-> is_Some (pr_find r (pol_key p))) /\
      (forall q, pr_validate q r' = pr_validate q r);
  (** a policy that does not is refused and the runtime untouched *)
  pr_replace_err p r e : pr_validate p r = Err e -> pr_replace p r = (Err e, r);
  pr_remove_ok api name r : pr_inv r -> is_Some (pr_find r (api, name)) ->
    exists r', pr_remove api name r = (Ok true, r') /\ pr_inv r' /\
      (forall k, pr_find r' k = if decide (k = (api, name)) then None else pr_find r k) /\
      (forall q, pr_validate q r' = pr_validate q r)
}.

(** ** A durable store

    [None] of [st_put]/[st_delete] is success; an operation may fail, and then
    the content is as before. *)
Class Store (S : Type) := {
  st_list : S -> result (list Policy);
  st_put : Policy -> S -> option goerr * S;
  st_delete : string -> string -> S -> option goerr * S
}.

(** Replaying a list through [ReplacePolicy]: the last of a key wins. *)
Definition last_of (l : list Policy) (k : string * string) : option Policy :=
  find_policy k.1 k.2 (rev l).

(** The content of a store: what a reload would hold. *)
Class StoreLaws (S : Type) `{Store S} := {
  st_inv : S -> Prop;
  st_content : S -> string * string -> option Policy;
  st_list_ok s l : st_inv s -> st_list s = Ok l -> forall k, last_of l k = st_content s k;
  st_put_ok p s s' : st_inv s -> st_put p s = (None, s') ->
    st_inv s' /\ forall k, st_content s' k = if decide (k = pol_key p) then Some p else st_content s k;
  st_put_err p s e s' : st_inv s -> st_put p s = (Some e, s') ->
    st_inv s' /\ forall k, st_content s' k = st_content s k;
  st_delete_ok api name s s' : st_inv s -> st_delete api name s = (None, s') ->
    st_inv s' /\ forall k, st_content s' k = if decide (k = (api, name)) then None else st_content s k;
  st_delete_err api name s e s' : st_inv s -> st_delete api name s = (Some e, s') ->
    st_inv s' /\ forall k, st_content s' k = st_content s k
}.

(** [ErrNotFound] from a store's delete means there was nothing to delete. *)
Class StoreNotFound (S : Type) `{StoreLaws S} :=
  st_delete_missing api name s e s' : st_inv s -> st_delete api name s = (Some e, s') ->
    errors_is e "ErrNotFound" = true -> st_content s (api, name) = None.

Lemma last_of_app l l' k :
  last_of (l ++ l') k = match last_of l' k with Some p => Some p | None => last_of l k end.
Proof.
  unfold last_of. rewrite rev_app_distr. generalize (rev l) as a, (rev l') as b.
  intros a b. induction b as [|q b IH]; [done|]. simpl. by destruct (_ && _).
Qed.

Lemma last_of_cons p l k :
  last_of (p :: l) k =
    match last_of l k with Some q => Some q | None => if decide (pol_key p = k) then Some p else None end.
Proof.
  change (p :: l) with ([p] ++ l). rewrite last_of_app. destruct (last_of l k); [done|].
  unfold last_of, pol_key. simpl. destruct k as [a n]. simpl.
  case_decide as E; [injection E as -> ->; by rewrite !bool_decide_eq_true_2|].
  destruct (_ && _) eqn:Eb; [|done]. bool_simp. congruence.
Qed.

Lemma last_of_key l k p : last_of l k = Some p -> pol_key p = k.
Proof. intros (_ & E1 & E2)%find_policy_Some. destruct k. unfold pol_key. simpl in *. congruence. Qed.

Lemma last_of_elem l k p : last_of l k = Some p -> p ∈ l.
Proof.
  intros (Hp & _)%find_policy_Some. apply list_elem_of_In. rewrite in_rev. by apply list_elem_of_In.
Qed.

#[export] Hint Resolve last_of_key last_of_elem : go.
