(* ===== verification/PathTemplate.v ===== *)
(** * Path templates and path splitting: [internal/runtime/compiled/path.go]

    [SplitPath] and [SplitEscapedPath] turn a URL path into the segments that
    routing and matching see; [JoinSegments] renders decoded segments back into
    the flat [request.path]; [ParsePathTemplate] and [Match] are the action
    matcher.  A Go map that is nil and one that is empty are the same value
    here: the code only ever reads them. *)

From S2P Require Import Prelude GoStd Models.

(** ** Splitting and rendering *)

Definition SplitPath (p : string) : list string :=
  let p := trim_prefix "/" p in
  if decide (p = "") then [] else split_byte slash p.

Definition unescape_segment (s : string) : result string :=
  wrap_err "path segment" (path_unescape s).

Definition SplitEscapedPath (escaped : string) : result (list string) :=
  mapM unescape_segment (SplitPath escaped).

Definition escape_segment (s : string) : string :=
  replace_byte slash "%2F" (replace_byte percent "%25" s).

Definition JoinSegments (segs : list string) : string :=
  match segs with
  | [] => "/"
  | _ => "/" +:+ join "/" (map escape_segment segs)
  end.

(** ** Templates *)

Record pathSeg := mkSeg { seg_literal : string; seg_param : string }.

Record PathTemplate := mkTemplate { tpl_method : string; tpl_segs : list pathSeg }.

Definition is_letter (n : N) : bool :=
  ((97 <=? n)%N && (n <=? 122)%N) || ((65 <=? n)%N && (n <=? 90)%N).
Definition is_digit (n : N) : bool := (48 <=? n)%N && (n <=? 57)%N.

Fixpoint ident_tail (s : string) : bool :=
  match s with
  | EmptyString => true
  | String c s' =>
      (bool_decide (c = "_"%char) || is_letter (byte_val c) || is_digit (byte_val c))
        && ident_tail s'
  end.

Definition isIdentifier (s : string) : bool :=
  match s with
  | EmptyString => false
  | String c s' =>
      (bool_decide (c = "_"%char) || is_letter (byte_val c)) && ident_tail s'
  end.

(** [seg[1:len(seg)-1]] when [seg] opens with a brace and ends with one. *)
Definition strip_braces (seg : string) : option string :=
  body ← cut_prefix "{" seg; cut_suffix "}" body.

(** [Some name] for a parameter segment, [None] for a literal. *)
Definition parseSegment (seg : string) : result (option string) :=
  if negb (has_byte "{" seg) && negb (has_byte "}" seg) then Ok None
  else
    match strip_braces seg with
    | None => Err (EMsg "unmatched brace in segment")
    | Some body =>
        fail_if has_byte "{" body || has_byte "}" body
          with EMsg "nested brace in segment" ;;
        fail_if negb (isIdentifier body) with EMsg "invalid param segment" ;;
        Ok (Some body)
    end.

Fixpoint parse_segs (seen : list string) (raw : list string) : result (list pathSeg) :=
  match raw with
  | [] => Ok []
  | r :: raw' =>
      match parseSegment r with
      | Err e => Err (EWrap "path template" e)
      | Ok (Some name) =>
          fail_if bool_decide (name ∈ seen) with EMsg "path template: duplicate param" ;;
          (rest ← parse_segs (name :: seen) raw'; Ok (mkSeg "" name :: rest))
      | Ok None => rest ← parse_segs seen raw'; Ok (mkSeg r "" :: rest)
      end
  end.

Definition ParsePathTemplate (method path : string) : result PathTemplate :=
  fail_if bool_decide (method = "") with EMsg "path template: method is empty" ;;
  fail_if bool_decide (path = "") with EMsg "path template: path is empty" ;;
  let rawSegs := SplitPath path in
  fail_if bool_decide (rawSegs = []) with EMsg "path template: no segments" ;;
  (segs ← parse_segs [] rawSegs; Ok (mkTemplate (to_upper method) segs)).

Fixpoint match_segs (rules : list pathSeg) (segs : list string)
    (params : gmap string string) : option (gmap string string) :=
  match rules, segs with
  | [], _ => Some params
  | rule :: rules', s :: segs' =>
      if decide (seg_param rule <> "") then
        match_segs rules' segs' (<[seg_param rule := s]> params)
      else if decide (seg_literal rule <> s) then None
      else match_segs rules' segs' params
  | _ :: _, [] => None
  end.

Definition Match (t : PathTemplate) (req : Request) : option (gmap string string) :=
  if decide (req_Method req <> tpl_method t) then None
  else
    let segs := req_PathSegments req in
    if decide (length segs <> length (tpl_segs t)) then None
    else match_segs (tpl_segs t) segs ∅.

(** ** Rendering and splitting are inverse *)

Lemma escape_segment_cons a s :
  escape_segment (String a s) =
    (if decide (a = percent) then "%25"
     else if decide (a = slash) then "%2F" else String a "") +:+ escape_segment s.
Proof.
  unfold escape_segment. cbn [replace_byte].
  destruct (decide (a = percent)) as [->|Ha]; [done|].
  cbn [replace_byte]. by destruct (decide (a = slash)).
Qed.

Lemma escape_segment_unescape s : path_unescape (escape_segment s) = Ok s.
Proof.
  induction s as [|a s IH]; [done|]. rewrite escape_segment_cons.
  destruct (decide (a = percent)) as [->|Hp].
  { rewrite !string_app_cons, string_app_nil_l.
    rewrite (path_unescape_hex "2" "5" 2 5) by done. by rewrite IH. }
  destruct (decide (a = slash)) as [->|Hs].
  { rewrite !string_app_cons, string_app_nil_l.
    rewrite (path_unescape_hex "2" "F" 2 15) by done. by rewrite IH. }
  rewrite string_app_cons, string_app_nil_l, path_unescape_cons by done. by rewrite IH.
Qed.

Lemma escape_segment_no_slash s : has_byte slash (escape_segment s) = false.
Proof.
  induction s as [|a s IH]; [done|]. rewrite escape_segment_cons, has_byte_app, IH.
  destruct (decide (a = percent)) as [->|Hp]; [done|].
  destruct (decide (a = slash)) as [->|Hs]; [done|].
  simpl. by rewrite bool_decide_false.
Qed.

Lemma escape_segment_nil s : escape_segment s = "" <-> s = "".
Proof.
  split; [|by intros ->]. intros H. pose proof (escape_segment_unescape s) as E.
  rewrite H in E. by injection E.
Qed.

Lemma trim_prefix_slash s : trim_prefix "/" ("/" +:+ s) = s.
Proof. unfold trim_prefix. by rewrite (proj2 (cut_prefix_Some _ _ s)). Qed.

Lemma SplitPath_join segs :
  segs <> [""] -> Forall (fun s => has_byte slash s = false) segs ->
  SplitPath ("/" +:+ join "/" segs) = segs.
Proof.
  intros Hne Hfree. unfold SplitPath. rewrite trim_prefix_slash.
  destruct segs as [|s segs]; [done|].
  rewrite decide_False; [by apply split_join|].
  intros H. apply join_eq_nil_inv in H as [H|H]; congruence.
Qed.

Lemma join_SplitPath p :
  SplitPath p <> [] -> join "/" (SplitPath p) = trim_prefix "/" p.
Proof. unfold SplitPath. case_decide; [done|]. intros _. apply join_split. Qed.

Lemma SplitPath_slash_free p : Forall (fun s => has_byte slash s = false) (SplitPath p).
Proof. unfold SplitPath. case_decide; [constructor|]. apply split_byte_elems_free. Qed.

Lemma SplitPath_not_one_empty p : SplitPath p <> [""].
Proof.
  unfold SplitPath. case_decide as H; [done|]. intros E.
  apply H. rewrite <- (join_split slash (trim_prefix "/" p)), E. done.
Qed.

Lemma SplitEscapedPath_not_one_empty e segs : SplitEscapedPath e = Ok segs -> segs <> [""].
Proof.
  unfold SplitEscapedPath. rewrite mapM_ok. intros HF ->.
  inversion HF as [|raw ? l ? Hraw Hnil E]; subst. inversion Hnil; subst.
  unfold unescape_segment in Hraw. rewrite wrap_err_ok in Hraw.
  destruct raw as [|a raw]; [by eapply SplitPath_not_one_empty|].
  by apply path_unescape_nonempty in Hraw.
Qed.

Lemma mapM_unescape_escape segs : mapM unescape_segment (map escape_segment segs) = Ok segs.
Proof.
  apply mapM_ok. induction segs as [|s segs IH]; simpl; constructor; [|done].
  apply wrap_err_ok, escape_segment_unescape.
Qed.

Lemma split_JoinSegments segs : segs <> [""] -> SplitEscapedPath (JoinSegments segs) = Ok segs.
Proof.
  intros Hne. unfold SplitEscapedPath, JoinSegments. destruct segs as [|s segs]; [done|].
  rewrite SplitPath_join; [by apply mapM_unescape_escape| |].
  - simpl. intros [= Hs Hl]. apply escape_segment_nil in Hs as ->.
    by apply map_eq_nil in Hl as ->.
  - apply Forall_map, Forall_true. intros x. apply escape_segment_no_slash.
Qed.

(** Splitting the rendering of a segment list gives the list back, so the
    flat [request.path] that [JoinSegments] renders carries exactly the segment
    boundaries of [path_segments]: an encoded slash cannot become a separator. *)
Theorem JoinSegments_roundtrip (segs : list string) (Hne : segs <> [""]) :
  SplitEscapedPath (JoinSegments segs) = Ok segs.
Proof.
  by apply split_JoinSegments.
Qed.

Lemma JoinSegments_roundtrip_witness :
  ["files"; "a/b"; "100%"] <> [""] /\
  SplitEscapedPath (JoinSegments ["files"; "a/b"; "100%"]) = Ok ["files"; "a/b"; "100%"].
Proof. split; [done|]. apply (JoinSegments_roundtrip ["files"; "a/b"; "100%"]). done. Defined.

(** Two requests whose decoded paths render to the same [request.path] have
    the same [path_segments]: a policy that gates on the flat string and one
    that gates on segments cannot be told apart by encoding tricks. *)
Theorem request_path_determines_segments (e1 e2 : string) (s1 s2 : list string)
    (H1 : SplitEscapedPath e1 = Ok s1) (H2 : SplitEscapedPath e2 = Ok s2)
    (Hjoin : JoinSegments s1 = JoinSegments s2) : s1 = s2.
Proof.
  apply SplitEscapedPath_not_one_empty in H1, H2.
  apply split_JoinSegments in H1, H2. congruence.
Qed.

Lemma request_path_determines_segments_witness :
  SplitEscapedPath "/a%2Fb" = Ok ["a/b"] /\ SplitEscapedPath "a%2fb" = Ok ["a/b"] /\
  JoinSegments ["a/b"] = "/a%2Fb" /\ ["a/b"] = ["a/b"].
Proof.
  split; [reflexivity|]. split; [reflexivity|]. split; [reflexivity|].
  apply (request_path_determines_segments "/a%2Fb" "a%2fb"); reflexivity.
Defined.

(** ** Parsing templates *)

(** What one template segment looks like in the YAML. *)
Definition render_seg (r : pathSeg) : string :=
  if decide (seg_param r = "") then seg_literal r else "{" +:+ seg_param r +:+ "}".

Definition tpl_params (segs : list pathSeg) : list string :=
  omap (fun r => if decide (seg_param r = "") then None else Some (seg_param r)) segs.

(** A well-formed rule: a literal without braces, or an identifier capture. *)
Definition wf_seg (r : pathSeg) : Prop :=
  (seg_param r = "" /\ has_byte "{" (seg_literal r) = false /\
     has_byte "}" (seg_literal r) = false) \/
  (seg_literal r = "" /\ isIdentifier (seg_param r) = true).

Lemma ident_tail_no_brace s : ident_tail s = true ->
  has_byte "{" s = false /\ has_byte "}" s = false.
Proof.
  induction s as [|c s IH]; [done|]. cbn [ident_tail has_byte].
  intros [Hc Hs]%andb_true_iff. destruct (IH Hs) as [-> ->].
  rewrite !orb_false_r. split; apply bool_decide_eq_false; by intros ->.
Qed.

Lemma isIdentifier_spec s : isIdentifier s = true ->
  s <> "" /\ has_byte "{" s = false /\ has_byte "}" s = false.
Proof.
  destruct s as [|c s]; [done|]. cbn [isIdentifier has_byte].
  intros [Hc Hs]%andb_true_iff. destruct (ident_tail_no_brace _ Hs) as [-> ->].
  rewrite !orb_false_r. split; [done|]. split; apply bool_decide_eq_false; by intros ->.
Qed.

Lemma strip_braces_Some seg body :
  strip_braces seg = Some body <-> seg = "{" +:+ body +:+ "}".
Proof.
  unfold strip_braces. rewrite bind_Some. setoid_rewrite cut_prefix_Some.
  setoid_rewrite cut_suffix_Some. naive_solver.
Qed.

Lemma parseSegment_literal seg :
  parseSegment seg = Ok None <-> has_byte "{" seg = false /\ has_byte "}" seg = false.
Proof.
  unfold parseSegment. destruct (has_byte "{" seg), (has_byte "}" seg); simpl;
    try (destruct (strip_braces seg); [repeat case_match|]); naive_solver.
Qed.

Lemma parseSegment_param seg name :
  parseSegment seg = Ok (Some name) <->
  isIdentifier name = true /\ seg = "{" +:+ name +:+ "}".
Proof.
  split.
  - unfold parseSegment. intros H. go_inv H. bool_simp.
    split; [done|]. by apply strip_braces_Some.
  - intros [Hid ->]. unfold parseSegment.
    rewrite (proj2 (strip_braces_Some _ name)) by done.
    pose proof (isIdentifier_spec _ Hid) as (_ & Ho & Hc). by rewrite Ho, Hc, Hid.
Qed.

Lemma render_seg_param name : isIdentifier name = true ->
  render_seg (mkSeg "" name) = "{" +:+ name +:+ "}".
Proof.
  intros (Hne & _)%isIdentifier_spec. unfold render_seg. by rewrite decide_False.
Qed.

Lemma wf_seg_cases r : wf_seg r ->
  (exists l, r = mkSeg l "" /\ parseSegment l = Ok None) \/
  (exists n, r = mkSeg "" n /\ n <> "" /\ parseSegment (render_seg r) = Ok (Some n)).
Proof.
  destruct r as [l n]. unfold wf_seg; simpl. intros [(-> & H1 & H2)|(-> & H)].
  - left. exists l. split; [done|]. by apply parseSegment_literal.
  - right. exists n. pose proof (isIdentifier_spec _ H) as (Hne & _).
    repeat split; [done|]. apply parseSegment_param. by rewrite render_seg_param.
Qed.

Lemma parse_segs_spec seen raw segs :
  parse_segs seen raw = Ok segs <->
  map render_seg segs = raw /\ Forall wf_seg segs /\ NoDup (tpl_params segs) /\
  (forall n, n ∈ tpl_params segs -> n ∉ seen).
Proof.
  revert seen segs. induction raw as [|r raw IH]; intros seen segs; simpl.
  { split; [intros [= <-]; repeat split; try constructor; set_solver|].
    intros (Hr & _). by apply map_eq_nil in Hr as ->. }
  destruct (parseSegment r) as [[name|]|e] eqn:Hp.
  - pose proof Hp as (Hid & ->)%parseSegment_param.
    pose proof (isIdentifier_spec _ Hid) as (Hne & _).
    case_bool_decide as Hin.
    { split; [done|]. intros (Hr & Hwf & Hnd & Hs). destruct segs as [|s segs]; [done|].
      injection Hr as Hs1 Hr. inversion Hwf as [|? ? Hw Hwf']; subst.
      apply wf_seg_cases in Hw as [(l & -> & Hl)|(n & -> & Hn & Hpn)].
      - unfold render_seg in Hs1; simpl in Hs1; subst l. congruence.
      - rewrite Hs1, Hp in Hpn. injection Hpn as ->. exfalso. apply (Hs n); [|done].
        simpl. rewrite decide_False by done. set_solver. }
    rewrite bind_ok. setoid_rewrite IH. split.
    + intros (rest & (Hr & Hwf & Hnd & Hs) & [= <-]).
      split; [simpl; by rewrite render_seg_param, Hr|].
      split; [constructor; [by right|done]|].
      simpl. rewrite decide_False by done. split.
      * apply NoDup_cons. split; [|done]. intros Hn. specialize (Hs _ Hn). set_solver.
      * intros n [->|Hn]%elem_of_cons; [done|]. specialize (Hs n Hn). set_solver.
    + intros (Hr & Hwf & Hnd & Hs). destruct segs as [|s segs]; [done|].
      injection Hr as Hs1 Hr. inversion Hwf as [|? ? Hw Hwf']; subst.
      apply wf_seg_cases in Hw as [(l & -> & Hl)|(n & -> & Hn & Hpn)].
      { unfold render_seg in Hs1; simpl in Hs1; subst l. congruence. }
      rewrite Hs1, Hp in Hpn. injection Hpn as ->.
      simpl in Hnd, Hs. rewrite decide_False in Hnd, Hs by done.
      apply NoDup_cons in Hnd as [Hn' Hnd]. exists segs. repeat split; try done.
      intros m Hm. specialize (Hs m). set_solver.
  - pose proof Hp as (Ho & Hc)%parseSegment_literal.
    rewrite bind_ok. setoid_rewrite IH. split.
    + intros (rest & (Hr & Hwf & Hnd & Hs) & [= <-]).
      split; [simpl; by rewrite Hr|]. split; [constructor; [by left|done]|]. done.
    + intros (Hr & Hwf & Hnd & Hs). destruct segs as [|s segs]; [done|].
      injection Hr as Hs1 Hr. inversion Hwf as [|? ? Hw Hwf']; subst.
      apply wf_seg_cases in Hw as [(l & -> & Hl)|(n & -> & Hn & Hpn)].
      * unfold render_seg; simpl. exists segs. done.
      * congruence.
  - split; [done|]. intros (Hr & Hwf & _). destruct segs as [|s segs]; [done|].
    injection Hr as Hs1 Hr. inversion Hwf as [|? ? Hw Hwf']; subst.
    apply wf_seg_cases in Hw as [(l & -> & Hl)|(n & -> & Hn & Hpn)]; [|congruence].
    unfold render_seg in Hp; simpl in Hp. congruence.
Qed.

(** [ParsePathTemplate] accepts exactly the well-formed templates: a
    non-empty method, at least one segment, every segment a brace-free literal
    or an identifier in braces, no name twice; and what it returns renders back
    to the path it parsed. *)
Theorem ParsePathTemplate_spec (method path : string) (t : PathTemplate) :
  ParsePathTemplate method path = Ok t <->
  method <> "" /\ tpl_method t = to_upper method /\ tpl_segs t <> [] /\
  map render_seg (tpl_segs t) = SplitPath path /\
  Forall wf_seg (tpl_segs t) /\ NoDup (tpl_params (tpl_segs t)).
Proof.
  unfold ParsePathTemplate. destruct t as [tm ts]; simpl.
  case_bool_decide as Hm; [naive_solver|].
  case_bool_decide as Hp.
  { subst path. split; [done|]. intros (_ & _ & Hne & Hr & _).
    by apply map_eq_nil in Hr. }
  case_bool_decide as Hs.
  { rewrite Hs. split; [done|]. intros (_ & _ & Hne & Hr & _). by apply map_eq_nil in Hr. }
  rewrite bind_ok. setoid_rewrite parse_segs_spec. split.
  - intros (segs & (Hr & Hwf & Hnd & _) & [= <- <-]). repeat split; try done.
    intros ->. by apply Hs.
  - intros (_ & -> & Hne & Hr & Hwf & Hnd). exists ts. repeat split; try done. set_solver.
Qed.

(** ** Matching *)

(** The segment a rule stands for under given captures. *)
Definition inst_seg (params : gmap string string) (r : pathSeg) : string :=
  if decide (seg_param r = "") then seg_literal r else default "" (params !! seg_param r).

Lemma match_segs_spec rules segs acc ps :
  length segs = length rules -> NoDup (tpl_params rules) ->
  (forall n, n ∈ tpl_params rules -> acc !! n = None) ->
  match_segs rules segs acc = Some ps <->
  acc ⊆ ps /\ dom ps = dom acc ∪ list_to_set (tpl_params rules) /\
  map (inst_seg ps) rules = segs.
Proof.
  revert segs acc. induction rules as [|[lit n] rules IH]; intros segs acc Hlen Hnd Hacc.
  { destruct segs; [|done]. simpl. rewrite union_empty_r_L. split.
    - by intros [= <-].
    - intros (Hsub & Hdom & _). f_equal. apply subseteq_dom_eq; [done|]. by rewrite Hdom. }
  destruct segs as [|s segs]; [done|]. injection Hlen as Hlen.
  simpl in *. change (inst_seg ps (mkSeg lit n)) with
    (if decide (n = "") then lit else default "" (ps !! n)).
  destruct (decide (n = "")) as [->|Hn].
  - rewrite decide_False by naive_solver. case_decide as Hs.
    + split; [done|]. naive_solver.
    + subst lit. rewrite IH by done. naive_solver.
  - rewrite decide_True by done. apply NoDup_cons in Hnd as [Hnin Hnd].
    assert (acc !! n = None) as Hn0 by (apply Hacc; set_solver).
    rewrite IH; [|done|done|].
    2:{ intros m Hm. rewrite lookup_insert_ne by set_solver. apply Hacc. set_solver. }
    rewrite dom_insert_L. simpl. split.
    + intros (Hsub & Hdom & Hmap). pose proof (insert_subseteq acc n s Hn0) as Hsub'.
      assert (ps !! n = Some s) as Hps by (eapply lookup_weaken; [apply lookup_insert_eq|done]).
      split; [by etrans|]. split; [rewrite Hdom; set_solver|]. by rewrite Hps, Hmap.
    + intros (Hsub & Hdom & Hmap). injection Hmap as Hs Hmap.
      assert (is_Some (ps !! n)) as [v Hv] by (apply elem_of_dom; rewrite Hdom; set_solver).
      rewrite Hv in Hs. simpl in Hs. subst v.
      split; [by apply insert_subseteq_l|]. split; [rewrite Hdom; set_solver|done].
Qed.

(** C18. [Match] is exact: a request matches a parsed template iff it has the
    template's method and its segments are the template's segments with some
    captures put in; the captures are those of the template's names and no
    others, and they are determined by the request. *)
Theorem Match_spec (method path : string) (t : PathTemplate) (req : Request)
    (params : gmap string string) (Hparse : ParsePathTemplate method path = Ok t) :
  Match t req = Some params <->
  req_Method req = to_upper method /\
  dom params = list_to_set (tpl_params (tpl_segs t)) /\
  map (inst_seg params) (tpl_segs t) = req_PathSegments req.
Proof.
  assert (tpl_method t = to_upper method /\ NoDup (tpl_params (tpl_segs t))) as [Hm Hnd].
  { revert Hparse. unfold ParsePathTemplate. repeat (case_bool_decide; [done|]).
    rewrite bind_ok. setoid_rewrite parse_segs_spec. by intros (? & (_ & _ & ? & _) & [= <-]). }
  unfold Match. rewrite Hm. case_decide as Hmeth; [naive_solver|].
  case_decide as Hlen.
  - split; [done|]. intros (_ & _ & Hmap). exfalso. apply Hlen.
    by rewrite <- Hmap, length_map.
  - rewrite match_segs_spec; [|done|done|by intros; apply lookup_empty].
    rewrite dom_empty_L, union_empty_l_L. split; [naive_solver|].
    intros (_ & Hdom & Hmap). split; [apply map_empty_subseteq|done].
Qed.

Lemma Match_spec_witness :
  let t := mkTemplate "GET" [mkSeg "users" ""; mkSeg "" "id"] in
  let req := mkRequest "GET" "/users/a%2Fb" ["users"; "a/b"] [] None in
  ParsePathTemplate "get" "/users/{id}" = Ok t /\
  Match t req = Some {["id" := "a/b"]}.
Proof.
  split; [reflexivity|].
  apply (Match_spec "get" "/users/{id}"); [reflexivity|].
  split; [reflexivity|]. split; [|reflexivity]. vm_compute. reflexivity.
Defined.
