(* ===== verification/Routes.v ===== *)
(** * Prefix routing: the route table of [internal/runtime/runtime.go]

    [buildPrefixRoutes] flattens every API's path prefixes into one list and
    refuses ambiguous tables; [routeRequest] scans the list.  Theorems: a table
    that was built routes every path to at most one API, whatever the order of
    its rows, and to exactly the API that declares a matching prefix. *)

From S2P Require Import Prelude GoStd Models PathTemplate.

Record prefixRoute := mkRoute {
  rt_segments : list string;
  rt_apiName : string;
  rt_source : string
}.

(** The loop [for i, s := range prefix { if path[i] != s ... }]. *)
Fixpoint segs_match (path prefix : list string) {struct prefix} : bool :=
  match prefix, path with
  | [], _ => true
  | s :: prefix', p :: path' => bool_decide (p = s) && segs_match path' prefix'
  | _ :: _, [] => false
  end.

Definition hasSegmentPrefix (path prefix : list string) : bool :=
  if bool_decide (length prefix = 0) || bool_decide (length path < length prefix) then false
  else segs_match path prefix.

Definition prefix_route (name raw : string) : result prefixRoute :=
  fail_if bool_decide (raw = "") || negb (has_prefix "/" raw)
    with EMsg "path_prefix must start with /" ;;
  fail_if has_suffix "/" raw with EMsg "path_prefix must not end with /" ;;
  let segs := SplitPath raw in
  fail_if bool_decide (length segs = 0) with EMsg "path_prefix has no segments" ;;
  Ok (mkRoute segs name raw).

Definition api_routes (a : API) : result (list prefixRoute) :=
  mapM (prefix_route (api_Name a)) (api_PathPrefixes a).

Definition routes_conflict (routes : list prefixRoute) : bool :=
  existsb (fun '(i, ri) =>
    existsb (fun '(j, rj) =>
      negb (Nat.eqb i j) && hasSegmentPrefix (rt_segments rj) (rt_segments ri))
      (indexed routes)) (indexed routes).

Definition buildPrefixRoutes (pending : list API) : result (list prefixRoute) :=
  rss ← mapM api_routes pending;
  let routes := concat rss in
  fail_if routes_conflict routes with EMsg "path_prefix conflict" ;;
  Ok routes.

Fixpoint routeSegments (routes : list prefixRoute) (segs : list string) : string :=
  match routes with
  | [] => ""
  | r :: routes' =>
      if hasSegmentPrefix segs (rt_segments r) then rt_apiName r
      else routeSegments routes' segs
  end.

Definition routeRequest (routes : list prefixRoute) (req : Request) : string :=
  routeSegments routes (req_PathSegments req).

(** ** Segment prefixes *)

Lemma segs_match_spec path prefix : segs_match path prefix = true <-> prefix `prefix_of` path.
Proof.
  revert path. induction prefix as [|s prefix IH]; intros path.
  - simpl. split; [intros _; apply prefix_nil|done].
  - destruct path as [|p path]; simpl.
    + split; [done|]. intros H. by apply prefix_nil_inv in H.
    + rewrite andb_true_iff, bool_decide_eq_true, IH. split.
      * intros [-> H]. by apply prefix_cons.
      * intros H. split; [by apply prefix_cons_inv_1 in H|by apply prefix_cons_inv_2 in H].
Qed.

Lemma hasSegmentPrefix_spec path prefix :
  hasSegmentPrefix path prefix = true <-> prefix <> [] /\ prefix `prefix_of` path.
Proof.
  unfold hasSegmentPrefix. rewrite <- segs_match_spec.
  destruct prefix as [|s prefix].
  - rewrite bool_decide_eq_true_2 by done. simpl. naive_solver.
  - rewrite (bool_decide_eq_false_2 (length (s :: prefix) = 0)) by done.
    rewrite orb_false_l. case_bool_decide as Hlt; [|naive_solver].
    split; [done|]. rewrite segs_match_spec. intros [_ ?%prefix_length]. lia.
Qed.

(** ** The conflict check *)

Lemma routes_conflict_false routes :
  routes_conflict routes = false <->
  forall i j ri rj, routes !! i = Some ri -> routes !! j = Some rj ->
    hasSegmentPrefix (rt_segments rj) (rt_segments ri) = true -> i = j.
Proof.
  unfold routes_conflict. rewrite <- not_true_iff_false, existsb_exists. split.
  - intros H i j ri rj Hi Hj Hp. destruct (decide (i = j)) as [|Hij]; [done|].
    exfalso. apply H. exists (i, ri). rewrite <- list_elem_of_In, elem_of_indexed.
    split; [done|]. apply existsb_exists. exists (j, rj).
    rewrite <- list_elem_of_In, elem_of_indexed. split; [done|].
    rewrite Hp, andb_true_r. apply negb_true_iff. by apply Nat.eqb_neq.
  - intros H ([i ri] & Hi%list_elem_of_In & ([j rj] & Hj%list_elem_of_In & Hp)%existsb_exists).
    rewrite elem_of_indexed in Hi, Hj. apply andb_true_iff in Hp as [Hij Hp].
    apply negb_true_iff, Nat.eqb_neq in Hij. by apply Hij, (H i j ri rj).
Qed.

(** A table without conflicts: two rows that claim the same path are one row. *)
Lemma conflict_free_unique routes path i j ri rj :
  routes_conflict routes = false ->
  routes !! i = Some ri -> routes !! j = Some rj ->
  hasSegmentPrefix path (rt_segments ri) = true ->
  hasSegmentPrefix path (rt_segments rj) = true -> i = j.
Proof.
  rewrite routes_conflict_false. intros H Hi Hj Pi Pj.
  apply hasSegmentPrefix_spec in Pi as [Ni Pi], Pj as [Nj Pj].
  destruct (prefix_weak_total _ _ _ Pi Pj) as [Hp|Hp].
  - apply (H i j ri rj); [done..|]. by apply hasSegmentPrefix_spec.
  - symmetry. apply (H j i rj ri); [done..|]. by apply hasSegmentPrefix_spec.
Qed.

Lemma routes_conflict_perm routes routes' :
  routes ≡ₚ routes' -> routes_conflict routes = false -> routes_conflict routes' = false.
Proof.
  intros Hp%symmetry H. apply routes_conflict_false. intros i j ri rj Hi Hj Hpre.
  apply Permutation_inj in Hp as [Hlen (f & Hf & Hl)].
  rewrite Hl in Hi, Hj.
  apply Hf. by apply (proj1 (routes_conflict_false _) H (f i) (f j) ri rj).
Qed.

(** ** The scan *)

Lemma routeSegments_found routes path r :
  routes_conflict routes = false -> r ∈ routes ->
  hasSegmentPrefix path (rt_segments r) = true -> routeSegments routes path = rt_apiName r.
Proof.
  intros Hc [j Hj]%list_elem_of_lookup Hp.
  assert (forall rs k, (forall i x, rs !! i = Some x -> routes !! (k + i) = Some x) ->
            r ∈ rs -> routeSegments rs path = rt_apiName r) as Hgo.
  { induction rs as [|x rs IH]; intros k Hsub Hin; [by apply not_elem_of_nil in Hin|].
    simpl. destruct (hasSegmentPrefix path (rt_segments x)) eqn:Hx.
    - pose proof (Hsub 0 x eq_refl) as H0.
      assert (k + 0 = j) as <- by (eapply (conflict_free_unique routes); done). congruence.
    - apply elem_of_cons in Hin as [->|Hin]; [congruence|].
      apply (IH (S k)); [|done]. intros i y Hy. rewrite Nat.add_succ_comm.
      by apply (Hsub (S i)). }
  apply (Hgo routes 0); [done|]. apply list_elem_of_lookup. by exists j.
Qed.

Lemma routeSegments_none routes path :
  (forall r, r ∈ routes -> hasSegmentPrefix path (rt_segments r) = false) ->
  routeSegments routes path = "".
Proof.
  induction routes as [|r routes IH]; intros H; [done|]. simpl.
  rewrite H by set_solver. apply IH. set_solver.
Qed.

Lemma routeSegments_cases routes path :
  (exists r, r ∈ routes /\ hasSegmentPrefix path (rt_segments r) = true /\
             routeSegments routes path = rt_apiName r) \/
  ((forall r, r ∈ routes -> hasSegmentPrefix path (rt_segments r) = false) /\
   routeSegments routes path = "").
Proof.
  induction routes as [|r routes IH]; simpl.
  - right. split; [|done]. intros r H. by apply not_elem_of_nil in H.
  - destruct (hasSegmentPrefix path (rt_segments r)) eqn:Hr.
    + left. exists r. set_solver.
    + destruct IH as [(x & Hx & Hp & ->)|(Hn & ->)].
      * left. exists x. set_solver.
      * right. split; [|done]. intros x [->|Hx]%elem_of_cons; auto.
Qed.

(** ** What a built table holds *)

Definition valid_prefix (raw : string) : Prop :=
  has_prefix "/" raw = true /\ has_suffix "/" raw = false /\ SplitPath raw <> [].

Lemma prefix_route_ok name raw r :
  prefix_route name raw = Ok r <-> valid_prefix raw /\ r = mkRoute (SplitPath raw) name raw.
Proof.
  unfold prefix_route, valid_prefix. split.
  - intros H. go_inv H. bool_simp. repeat split; try done.
    intros E. by rewrite E in *.
  - intros [(Hp & Hs & Hn) ->]. rewrite Hp, Hs.
    rewrite bool_decide_eq_false_2 by (intros ->; discriminate). simpl.
    rewrite bool_decide_eq_false_2; [done|]. by intros E%length_zero_iff_nil.
Qed.

Lemma buildPrefixRoutes_inv pending routes :
  buildPrefixRoutes pending = Ok routes ->
  routes_conflict routes = false /\
  (forall r, r ∈ routes <-> exists a raw, a ∈ pending /\ raw ∈ api_PathPrefixes a /\
     valid_prefix raw /\ r = mkRoute (SplitPath raw) (api_Name a) raw) /\
  (forall a raw, a ∈ pending -> raw ∈ api_PathPrefixes a -> valid_prefix raw).
Proof.
  unfold buildPrefixRoutes. rewrite bind_ok. intros (rss & Hrss & H). go_inv H.
  split; [done|]. clear Heqb. apply mapM_ok in Hrss.
  induction Hrss as [|a rs pending rss Ha Hrss [IH1 IH2]]; simpl.
  { split; [intros r; split; [by intros ?%not_elem_of_nil|]|]; set_solver. }
  apply mapM_ok in Ha.
  assert ((forall r, r ∈ rs <-> exists raw, raw ∈ api_PathPrefixes a /\ valid_prefix raw /\
             r = mkRoute (SplitPath raw) (api_Name a) raw) /\
          (forall raw, raw ∈ api_PathPrefixes a -> valid_prefix raw)) as [HA1 HA2].
  { induction Ha as [|raw r raws rs Hr Ha [J1 J2]]; [set_solver|].
    apply prefix_route_ok in Hr as [Hv ->]. split.
    - intros r. rewrite elem_of_cons, J1. set_solver.
    - intros x [->|Hx]%elem_of_cons; auto. }
  split.
  - intros r. rewrite elem_of_app, HA1, IH1. set_solver.
  - intros b raw [->|Hb]%elem_of_cons Hraw; eauto.
Qed.

(** C9. A route table that [buildPrefixRoutes] accepts decides every request:
    the API named is one that declares a prefix of the request's segments, no
    other row claims the request, and the answer is the same for every order
    of the rows. *)
Theorem routeRequest_exact (pending : list API) (routes routes' : list prefixRoute)
    (req : Request) (name : string)
    (Hb : buildPrefixRoutes pending = Ok routes) (Hp : routes ≡ₚ routes') (Hn : name <> "") :
  routeRequest routes' req = name <->
  exists a raw, a ∈ pending /\ raw ∈ api_PathPrefixes a /\ api_Name a = name /\
    SplitPath raw `prefix_of` req_PathSegments req.
Proof.
  apply buildPrefixRoutes_inv in Hb as (Hc & Hin & Hv).
  pose proof (routes_conflict_perm _ _ Hp Hc) as Hc'. unfold routeRequest. split.
  - intros <-. destruct (routeSegments_cases routes' (req_PathSegments req))
      as [(r & Hr & Hpre & E)|[_ E]]; [|by rewrite E in Hn].
    rewrite <- Hp, Hin in Hr. destruct Hr as (a & raw & Ha & Hraw & _ & ->).
    exists a, raw. rewrite E. by apply hasSegmentPrefix_spec in Hpre as [_ Hpre].
  - intros (a & raw & Ha & Hraw & <- & Hpre).
    pose proof (Hv _ _ Ha Hraw) as Hval.
    apply (routeSegments_found _ _ (mkRoute (SplitPath raw) (api_Name a) raw)); [done| |].
    + rewrite <- Hp, Hin. by exists a, raw.
    + apply hasSegmentPrefix_spec. by destruct Hval as (_ & _ & ?).
Qed.

Lemma routeRequest_exact_witness :
  let drive := mkAPI "drive" "https://d" ["/drive/v3"; "/upload/drive"] [] [] 0 "" in
  let slack := mkAPI "slack" "https://s" ["/api"] [] [] 200 "" in
  let r1 := mkRoute ["drive"; "v3"] "drive" "/drive/v3" in
  let r2 := mkRoute ["upload"; "drive"] "drive" "/upload/drive" in
  let r3 := mkRoute ["api"] "slack" "/api" in
  buildPrefixRoutes [drive; slack] = Ok [r1; r2; r3] /\
  routeRequest [r3; r1; r2] (mkRequest "GET" "/drive/v3/files" ["drive"; "v3"; "files"] [] None)
    = "drive".
Proof.
  split; [vm_compute; reflexivity|].
  apply (routeRequest_exact
    [mkAPI "drive" "https://d" ["/drive/v3"; "/upload/drive"] [] [] 0 "";
     mkAPI "slack" "https://s" ["/api"] [] [] 200 ""]
    [mkRoute ["drive"; "v3"] "drive" "/drive/v3";
     mkRoute ["upload"; "drive"] "drive" "/upload/drive";
     mkRoute ["api"] "slack" "/api"]).
  - vm_compute. reflexivity.
  - apply (Permutation_app_comm
      [mkRoute ["drive"; "v3"] "drive" "/drive/v3";
       mkRoute ["upload"; "drive"] "drive" "/upload/drive"] [mkRoute ["api"] "slack" "/api"]).
  - discriminate.
  - exists (mkAPI "drive" "https://d" ["/drive/v3"; "/upload/drive"] [] [] 0 ""), "/drive/v3".
    split; [left|]. split; [left|]. split; [reflexivity|]. exists ["files"]. reflexivity.
Defined.
