(* ===== verification/Messages.v ===== *)
(** * Dynamic meta messages: [internal/runtime/messages]

    [type.go] (types and their registry), [value.go] (a lazily completed value
    behind a pointer) and [provider.go] (the two views handed to the CEL type
    checker and evaluator).  A [*Value] is a location of a heap, because one
    bind value is shared by every policy that matches its action; a completer
    closure is kept as a piece of data of type [C], run by [exec].

    The theorems state that a [Type{...}] literal can only carry input fields,
    and the lemmas at the end give the one-shot completion machine the
    evaluator's accounting is built on. *)

From S2P Require Import Prelude GoStd Models.

(** ** Outcomes of running code

    [ODone] with a value, a Go panic, or a recursion deeper than the fuel. *)
Inductive outcome (A : Type) : Type :=
  | ODone (a : A)
  | OPanic
  | OFuel.
Arguments ODone {A} a.
Arguments OPanic {A}.
Arguments OFuel {A}.

Definition obind {A B} (m : outcome A) (f : A -> outcome B) : outcome B :=
  match m with ODone a => f a | OPanic => OPanic | OFuel => OFuel end.

(** ** CEL values ([ref.Val]) *)

Inductive cval : Type :=
  | VNull
  | VBool (b : bool)
  | VInt (z : Z)
  | VUint (z : Z)
  | VDouble (bits : Z)
  | VString (s : string)
  | VTimestamp (secs : Z)
  | VList (l : list cval)
  | VMap (kvs : list (cval * cval))
  | VOpt (o : option cval)
  | VRequest (r : Request)
  | VResponse (r : Response)
  | VMetaRequest (r : MetaRequest)
  | VPrincipal (p : Principal)
  | VPtr (l : nat).

(** ** [type.go] *)

Definition InputViewSuffix : string := ".__input__".

Record MetaType := mkMetaType {
  mt_FullName : string;
  mt_InputFields : list string;
  mt_OutputFields : list string
}.

#[export] Instance MetaType_eq_dec : EqDecision MetaType.
Proof. solve_decision. Defined.

Definition InputViewName (t : MetaType) : string := mt_FullName t +:+ InputViewSuffix.

Definition HasInputField (t : MetaType) (name : string) : bool :=
  existsb (fun f => bool_decide (f = name)) (mt_InputFields t).

Definition HasOutputField (t : MetaType) (name : string) : bool :=
  existsb (fun f => bool_decide (f = name)) (mt_OutputFields t).

Notation Registry := (gmap string MetaType).

Definition NewRegistry : Registry := ∅.

(** [None] is a nil [*Type]. *)
Definition Register (r : Registry) (t : option MetaType) : result Registry :=
  match t with
  | None => Err (ESentinel "errNilType")
  | Some t =>
      fail_if bool_decide (mt_FullName t = "") with ESentinel "errEmptyFullName" ;;
      match r !! mt_FullName t with
      | Some _ => Err (EMsg "duplicateTypeError")
      | None => Ok (<[mt_FullName t := t]> r)
      end
  end.

Definition Registry_Get (r : Registry) (fullName : string) : option MetaType := r !! fullName.

(** The order is unspecified in the source (a map walk). *)
Definition Registry_All (r : Registry) : list MetaType := (map_to_list r).*2.

(** ** [value.go] *)

Inductive view : Type := fullView | inputView.

#[export] Instance view_eq_dec : EqDecision view.
Proof. solve_decision. Defined.

Definition errNoCompleter : goerr := ESentinel "errNoCompleter".

(** [unwrapOptional]: one level only, like the source. *)
Definition unwrapOptional (v : cval) : cval :=
  match v with
  | VOpt None => VNull
  | VOpt (Some x) => x
  | _ => v
  end.

Section values.
Context {C : Type}.

Record completion := mkCompletion {
cp_fn : option C;
cp_done : bool;
cp_err : option goerr
}.

Record Value := mkValue {
v_typ : MetaType;
v_view : view;
v_nameStr : string;
v_inputs : gmap string cval;
v_outputs : gmap string cval;
v_complete : option completion
}.

Definition IsFullView (v : Value) : bool := bool_decide (v_view v = fullView).

Definition set_complete (c : completion) (v : Value) : Value :=
mkValue (v_typ v) (v_view v) (v_nameStr v) (v_inputs v) (v_outputs v) (Some c).

Definition set_outputs (o : gmap string cval) (v : Value) : Value :=
mkValue (v_typ v) (v_view v) (v_nameStr v) (v_inputs v) o (v_complete v).

(** [None] is the panic of a programming error. *)
Definition SetField (name : string) (val : cval) (v : Value) : option Value :=
if bool_decide (v_view v <> fullView) then None
else if negb (HasOutputField (v_typ v) name) then None
else Some (set_outputs (<[name := unwrapOptional val]> (v_outputs v)) v).

Definition SetCompleter (fn : C) (v : Value) : Value :=
match v_complete v with
| None => v
| Some c => if cp_done c then v
          else set_complete (mkCompletion (Some fn) (cp_done c) (cp_err c)) v
end.

Definition InputFields (v : Value) : gmap string cval := v_inputs v.

Definition missingInputViewField (v : Value) (field : string) : goerr :=
if HasInputField (v_typ v) field then EMsg "input field not set" else EMsg "no field".

Definition NewInputValue (r : Registry) (fullName : string) (fields : gmap string cval)
: result Value :=
match r !! fullName with
| None => Err (EMsg "unknownTypeError")
| Some t => Ok (mkValue t inputView (InputViewName t) fields ∅ None)
end.

Definition NewFullValue (r : Registry) (fullName : string) (fields : gmap string cval)
: result Value :=
match r !! fullName with
| None => Err (EMsg "unknownTypeError")
| Some t => Ok (mkValue t fullView (mt_FullName t) fields ∅
                (Some (mkCompletion None false None)))
end.

(** ** [provider.go] *)

Definition lookup_view (r : Registry) (name : string) : option (MetaType * view) :=
match r !! name with
| Some t => Some (t, fullView)
| None =>
  match cut_suffix name InputViewSuffix with
  | Some base =>
      if bool_decide (base <> "") then
        match r !! base with
        | Some t => Some (t, inputView)
        | None => None
        end
      else None
  | None => None
  end
end.

(** The rejection loop of [FullProvider.NewValue]. *)
Fixpoint check_literal (t : MetaType) (names : list string) : result unit :=
match names with
| [] => Ok tt
| name :: names' =>
  if negb (HasInputField t name) then
    if HasOutputField t name then Err (EMsg "only input fields may appear in literals")
    else Err (EMsg "has no field")
  else check_literal t names'
end.

(** What [NewValue] built: a fresh [*Value], or a value of the wrapped provider. *)
Inductive built : Type :=
| BValue (v : Value)
| BOther (v : cval).

Variable base_NewValue : string -> gmap string cval -> result cval.
Variable base_FindStructType : string -> bool.
Variable base_FieldType : string -> string -> bool.
Variable base_FieldNames : string -> option (list string).

Definition FullProvider_NewValue (r : Registry) (structType : string)
(fields : gmap string cval) : result built :=
match lookup_view r structType with
| None => BOther <$> base_NewValue structType fields
| Some (t, inputView) => Err (EMsg "cannot construct input view at runtime")
| Some (t, fullView) =>
  check_literal t (map_to_list fields).*1 ≫= fun _ =>
  BValue <$> NewFullValue r (mt_FullName t) fields
end.

Definition RequestProvider_NewValue (t : MetaType) (structType : string)
(fields : gmap string cval) : result built :=
if bool_decide (structType = InputViewName t)
then Err (EMsg "cannot construct input view at runtime")
else BOther <$> base_NewValue structType fields.

Definition FullProvider_FindStructType (r : Registry) (name : string) : bool :=
match lookup_view r name with Some _ => true | None => base_FindStructType name end.

Definition RequestProvider_FindStructType (t : MetaType) (name : string) : bool :=
if bool_decide (name = InputViewName t) then true else base_FindStructType name.

(** [true]: the field exists (every meta field is dyn). *)
Definition FullProvider_FindStructFieldType (r : Registry) (structType field : string) : bool :=
match lookup_view r structType with
| None => base_FieldType structType field
| Some (t, inputView) => HasInputField t field
| Some (t, fullView) => HasInputField t field || HasOutputField t field
end.

Definition RequestProvider_FindStructFieldType (t : MetaType) (structType field : string) : bool :=
if bool_decide (structType = InputViewName t) then HasInputField t field
else base_FieldType structType field.

Definition FullProvider_FindStructFieldNames (r : Registry) (structType : string)
: option (list string) :=
match lookup_view r structType with
| None => base_FieldNames structType
| Some (t, inputView) => Some (mt_InputFields t)
| Some (t, fullView) => Some (mt_InputFields t ++ mt_OutputFields t)
end.

Definition RequestProvider_FindStructFieldNames (t : MetaType) (structType : string)
: option (list string) :=
if bool_decide (structType = InputViewName t) then Some (mt_InputFields t)
else base_FieldNames structType.
End values.
Arguments completion : clear implicits.
Arguments Value : clear implicits.
Arguments built : clear implicits.

(** The values of one evaluation; a pointer is an index. *)
Notation heap C := (list (Value C)).

(** ** Reading a field: [Get], [getFullViewField], [completion.run]

    [exec fn s] runs a completer closure from machine state [s]; the machine
    state is a heap and whatever else the evaluator threads ([X]). *)
Section reading.
Context {C X : Type}.
Definition mstate := (heap C * X)%type.
Variable exec : C -> mstate -> outcome (result unit * mstate).

Definition upd (l : nat) (f : Value C -> Value C) (s : mstate) : mstate :=
(alter f l s.1, s.2).

(** The error a finished completion left: [nil] while the closure still runs. *)
Definition sticky (c : completion C) : result unit :=
match cp_err c with Some e => Err e | None => Ok tt end.

Definition record_err (l : nat) (r : result unit) : mstate -> mstate :=
upd l (fun v => match v_complete v with
| Some c => set_complete (mkCompletion (cp_fn c) (cp_done c)
              (match r with Ok _ => None | Err e => Some e end)) v
| None => v
end).

(** [completion.run] on the completion of the value at [l]. *)
Definition run (l : nat) (c : completion C) (s : mstate) : outcome (result unit * mstate) :=
if cp_done c then ODone (sticky c, s)
else
let s := upd l (set_complete (mkCompletion (cp_fn c) true (cp_err c))) s in
match cp_fn c with
| None => ODone (Err errNoCompleter, record_err l (Err errNoCompleter) s)
| Some fn =>
    obind (exec fn s) (fun '(r, s) => ODone (r, record_err l r s))
end.

Definition complete_error (e : goerr) : goerr :=
if errors_is e "errNoCompleter" then EMsg "output field has no completer"
else EWrap "complete" e.

Definition output_field (s : mstate) (l : nat) (field : string) : result cval :=
match s.1 !! l with
| None => Err (EMsg "no such object")
| Some v => match v_outputs v !! field with
          | Some x => Ok x
          | None => Err (EMsg "completer did not set output field")
          end
end.

Definition getFullViewField (l : nat) (v : Value C) (field : string) (s : mstate)
: outcome (result cval * mstate) :=
if HasOutputField (v_typ v) field then
match v_complete v with
| None => OPanic
| Some c =>
    obind (run l c s) (fun '(r, s) =>
      match r with
      | Err e => ODone (Err (complete_error e), s)
      | Ok _ => ODone (output_field s l field, s)
      end)
end
else if HasInputField (v_typ v) field then ODone (Err (EMsg "input field not set"), s)
else ODone (Err (EMsg "no field"), s).

(** [Get] through the pointer [l]; a pointer outside the heap does not arise. *)
Definition Get (l : nat) (key : cval) (s : mstate) : outcome (result cval * mstate) :=
match key with
| VString field =>
  match s.1 !! l with
  | None => OPanic
  | Some v =>
      match v_inputs v !! field with
      | Some x => ODone (Ok x, s)
      | None =>
          match v_view v with
          | inputView => ODone (Err (missingInputViewField v field), s)
          | fullView => getFullViewField l v field s
          end
      end
  end
| _ => ODone (Err (EMsg "expected string field name"), s)
end.
End reading.
Arguments mstate : clear implicits.

(** ** Registered names and literals *)

Lemma HasInputField_spec t name : HasInputField t name = true <-> name ∈ mt_InputFields t.
Proof.
  unfold HasInputField. rewrite existsb_exists. setoid_rewrite bool_decide_eq_true.
  setoid_rewrite <- list_elem_of_In. naive_solver.
Qed.

Lemma HasOutputField_spec t name : HasOutputField t name = true <-> name ∈ mt_OutputFields t.
Proof.
  unfold HasOutputField. rewrite existsb_exists. setoid_rewrite bool_decide_eq_true.
  setoid_rewrite <- list_elem_of_In. naive_solver.
Qed.

Lemma check_literal_ok t names u :
  check_literal t names = Ok u <-> Forall (fun n => n ∈ mt_InputFields t) names.
Proof.
  destruct u. induction names as [|n names IH]; simpl; [by split|].
  rewrite Forall_cons, <- IH, <- HasInputField_spec.
  destruct (HasInputField t n); simpl; [naive_solver|]. destruct (HasOutputField t n); naive_solver.
Qed.

(** A registry as [Register] builds it: every type is filed under its name. *)
Definition registry_wf (r : Registry) : Prop :=
  map_Forall (fun name t => mt_FullName t = name /\ name <> "") r.

Lemma registry_wf_empty : registry_wf NewRegistry.
Proof. apply map_Forall_empty. Qed.

Lemma Register_ok r t r' :
  Register r t = Ok r' <->
  exists ty, t = Some ty /\ mt_FullName ty <> "" /\ r !! mt_FullName ty = None /\
    r' = <[mt_FullName ty := ty]> r.
Proof.
  unfold Register. destruct t as [ty|]; [|naive_solver].
  case_bool_decide; [naive_solver|]. destruct (r !! mt_FullName ty) eqn:E; naive_solver.
Qed.

Lemma Register_wf r t r' : registry_wf r -> Register r t = Ok r' -> registry_wf r'.
Proof.
  intros Hr (ty & -> & Hn & _ & ->)%Register_ok. by apply map_Forall_insert_2.
Qed.

#[export] Hint Resolve registry_wf_empty Register_wf : go.

(** A [Type{...}] literal never carries an output field.  [NewValue] of a
    registered full view succeeds exactly when every field named is a declared
    input, and the fresh value has no output recorded and no completer wired,
    so an output can only come from the upstream fetch installed later.  An
    input view is never constructible. *)
Theorem FullProvider_NewValue_spec (C : Type) (base : string -> gmap string cval -> result cval)
    (r : Registry) (name : string) (t : MetaType) (vw : view) (fields : gmap string cval)
    (b : built C) (Hwf : registry_wf r) (Hl : lookup_view r name = Some (t, vw)) :
  FullProvider_NewValue base r name fields = Ok b <->
  vw = fullView /\ (forall f, is_Some (fields !! f) -> f ∈ mt_InputFields t) /\
  b = BValue (mkValue t fullView name fields ∅ (Some (mkCompletion None false None))).
Proof.
  unfold FullProvider_NewValue. rewrite Hl. destruct vw; [|naive_solver].
  assert (r !! name = Some t) as Hr.
  { unfold lookup_view in Hl. repeat case_match; naive_solver. }
  assert (mt_FullName t = name) as En by (by apply Hwf).
  rewrite bind_ok. unfold NewFullValue. rewrite En, Hr. simpl.
  setoid_rewrite check_literal_ok. setoid_rewrite Forall_forall.
  assert (forall f, f ∈ (map_to_list fields).*1 <-> is_Some (fields !! f)) as Hf.
  { intros f. rewrite list_elem_of_fmap. split.
    - intros ([k x] & -> & Hk%elem_of_map_to_list). by exists x.
    - intros [x Hx]. exists (f, x). split; [done|]. by apply elem_of_map_to_list. }
  setoid_rewrite Hf. rewrite En. naive_solver.
Qed.

Definition drive_file : MetaType := mkMetaType "drive.file" ["id"] ["name"; "parent"].

Lemma FullProvider_NewValue_spec_witness :
  FullProvider_NewValue (C := unit) (fun _ _ => Err (EMsg "no such type"))
    {[ "drive.file" := drive_file ]} "drive.file" {[ "id" := VString "x" ]}
  = Ok (BValue (mkValue drive_file fullView "drive.file" {[ "id" := VString "x" ]} ∅
                  (Some (mkCompletion None false None)))).
Proof.
  apply (FullProvider_NewValue_spec unit _ _ _ drive_file fullView).
  - apply map_Forall_singleton. done.
  - reflexivity.
  - split; [reflexivity|]. split; [|reflexivity].
    intros f [x Hx]. apply lookup_singleton_Some in Hx as [<- _]. apply list_elem_of_here.
Defined.
