(* ===== verification/Compiled.v ===== *)
(** * Compiled programs: [internal/runtime/compiled] envs.go, compiled.go

    The CEL compiler and interpreter (cel-go) are third-party code and stay a
    parameter, the class [CelEngine].  A compiled program that can touch a
    meta value is a finite tree of the callbacks cel-go makes into this
    repository: field selection ([Value.Get]), struct construction
    ([Provider.NewValue]) and the read-only methods ([Equal], [String], ...);
    programs of the bare environments make no callback and are functions.
    The environments, the type checks and the unwrapping of results are the
    source's. *)

From S2P Require Import Prelude GoStd Models PathTemplate Messages.

(** ** Programs *)

Definition activation := gmap string cval.

(** What a read-only method of a value can observe of the heap. *)
Definition snapshot := list (string * gmap string cval * gmap string cval).

Inductive prog : Type :=
  | PRet (r : result cval)
  | PGet (l : nat) (key : cval) (k : result cval -> prog)
  | PNew (structType : string) (fields : gmap string cval) (k : result cval -> prog)
  | PPeek (k : snapshot -> prog).

(** ** Environments ([envs.go]) *)

Inductive cel_type : Type :=
  | TBool
  | TObject (name : string)
  | TTimestamp
  | TMapStringString
  | TMapStringDyn
  | TOther (name : string).

Inductive provider : Type :=
  | PvBase
  | PvRequest (t : MetaType)
  | PvFull (r : Registry).

Record env_opts := mkEnv {
  env_HTTPHelpers : bool;
  env_Provider : provider;
  env_Container : string;
  env_Vars : list (string * cel_type)
}.

Definition requestEnv (apiName : string) (meta : MetaType) : env_opts :=
  mkEnv true (PvRequest meta) apiName [("input", TObject (InputViewName meta))].

Definition outputEnv (apiName : string) (meta : MetaType) (reg : Registry) : env_opts :=
  mkEnv false (PvFull reg) apiName
    [("input", TObject (InputViewName meta));
     ("request", TObject "bouncer.Request");
     ("response", TObject "bouncer.Response")].

Definition filterEnv : env_opts :=
  mkEnv false PvBase ""
    [("request", TObject "bouncer.Request"); ("match", TMapStringString)].

Definition bindEnv (apiName : string) (reg : Registry) : env_opts :=
  mkEnv false (PvFull reg) apiName
    [("request", TObject "bouncer.Request"); ("match", TMapStringString)].

Definition policyEnv (apiName : string) (reg : Registry) : env_opts :=
  mkEnv false (PvFull reg) apiName
    ([("request", TObject "bouncer.Request"); ("action", TMapStringDyn);
      ("principal", TObject "bouncer.Principal"); ("now", TTimestamp)]
     ++ map (fun t => (mt_FullName t, TObject (mt_FullName t))) (Registry_All reg)).

Definition actionPredicateEnv : env_opts :=
  mkEnv false PvBase ""
    [("action", TMapStringDyn); ("request", TObject "bouncer.Request");
     ("match", TMapStringString); ("principal", TObject "bouncer.Principal");
     ("now", TTimestamp)].

Definition principalPredicateEnv : env_opts :=
  mkEnv false PvBase ""
    [("request", TObject "bouncer.Request"); ("principal", TObject "bouncer.Principal");
     ("now", TTimestamp)].

(** ** The engine *)

Class CelEngine := {
  ast : Type;
  (** [cel.NewEnv(opts...)] followed by [env.Compile(source)] *)
  NewEnv : env_opts -> result unit;
  env_Compile : env_opts -> string -> result ast;
  OutputType : ast -> cel_type;
  TypeName : cel_type -> string;
  IsEquivalentType : cel_type -> cel_type -> bool;
  (** [env.Program(ast)] for an environment with meta types, and for a bare one *)
  env_Program : env_opts -> ast -> result (activation -> prog);
  env_ProgramBase : env_opts -> ast -> result (activation -> result cval);
  (** [NewValue] of the wrapped proto registry *)
  base_NewValue : string -> gmap string cval -> result cval
}.

(** A program with the environment it was built in; [prg_installs] tells
    whether [installCompleterDecorator] wrapped its constructors. *)
Record program := mkProgram {
  prg_env : env_opts;
  prg_installs : bool;
  prg_Eval : activation -> prog
}.

Section compiled.
Context `{CelEngine}.

Definition cel_env (o : env_opts) : result env_opts := _ ← NewEnv o; Ok o.

(** [checkAst] *)
Definition checkAst (env : env_opts) (source : string) (want : cel_type) : result ast :=
a ← env_Compile env source;
fail_if negb (IsEquivalentType (OutputType a) want) with EMsg "expected type" ;;
Ok a.

Definition compileChecked (env : env_opts) (source : string) (want : cel_type)
: result program :=
a ← checkAst env source want; f ← env_Program env a; Ok (mkProgram env false f).

Definition compileCheckedBase (env : env_opts) (source : string) (want : cel_type)
: result (activation -> result cval) :=
a ← checkAst env source want; env_ProgramBase env a.

(** [out.(types.Bool)] *)
Definition as_bool (what : string) (r : result cval) : result bool :=
match r with
| Err e => Err (EWrap what e)
| Ok (VBool b) => Ok b
| Ok _ => Err (EMsg "returned a value that is not bool")
end.

Definition match_val (m : gmap string string) : cval :=
VMap (map (fun '(k, v) => (VString k, VString v)) (map_to_list m)).

Definition action_val (actionName : string) : cval :=
VMap [(VString "name", VString actionName)].

(** *** Requests and outputs of a meta *)

Definition NewRequest (env : env_opts) (source : string) : result program :=
wrap_err "compile request" (compileChecked env source (TObject "bouncer.MetaRequest")).

Definition request_activation (input : nat) : activation := {[ "input" := VPtr input ]}.

Definition as_MetaRequest (r : result cval) : result MetaRequest :=
match r with
| Err e => Err (EWrap "eval request" e)
| Ok (VMetaRequest mr) => Ok mr
| Ok _ => Err (EMsg "request expression returned another type")
end.

Definition NewOutput (env : env_opts) (source : string) : result program :=
wrap_err "compile output"
(a ← env_Compile env source; f ← env_Program env a; Ok (mkProgram env false f)).

Definition output_activation (input : nat) (req : Request) (resp : Response) : activation :=
<["input" := VPtr input]> (<["request" := VRequest req]> {[ "response" := VResponse resp ]}).

(** *** Filters and predicates *)

Definition base_program := activation -> result cval.

Definition NewFilter (env : env_opts) (source : string) : result base_program :=
wrap_err "compile filter" (compileCheckedBase env source TBool).

Definition Filter_Eval (f : base_program) (req : Request) (m : gmap string string)
: result bool :=
as_bool "eval filter"
(f (<["request" := VRequest req]> {[ "match" := match_val m ]})).

Definition NewActionPredicate (env : env_opts) (source : string) : result base_program :=
let source := if decide (source = "") then "true" else source in
wrap_err "compile action predicate" (compileCheckedBase env source TBool).

(** [None] is a nil principal. *)
Definition ActionPredicate_Eval (f : base_program) (actionName : string) (req : Request)
(m : gmap string string) (principal : option Principal) (now : Z) : result bool :=
match principal with
| None => Err (EMsg "eval action predicate: principal is required")
| Some pr =>
  as_bool "eval action predicate"
    (f (<["action" := action_val actionName]> (<["request" := VRequest req]>
        (<["match" := match_val m]> (<["principal" := VPrincipal pr]>
        {[ "now" := VTimestamp now ]})))))
end.

Definition NewPrincipalPredicate (env : env_opts) (source : string) : result base_program :=
let source := if decide (source = "") then "true" else source in
wrap_err "compile principal predicate" (compileCheckedBase env source TBool).

Definition PrincipalPredicate_Eval (f : base_program) (req : Request)
(principal : option Principal) (now : Z) : result bool :=
match principal with
| None => Err (EMsg "eval principal predicate: principal is required")
| Some pr =>
  as_bool "eval principal predicate"
    (f (<["request" := VRequest req]> (<["principal" := VPrincipal pr]>
        {[ "now" := VTimestamp now ]})))
end.

(** *** Binds and conditions *)

Record CompiledBind := mkBind { bind_program : program; bind_outputType : cel_type }.

Definition NewBind (env : env_opts) (source : string) : result CompiledBind :=
wrap_err "compile bind"
(a ← env_Compile env source; f ← env_Program env a;
 Ok (mkBind (mkProgram env false f) (OutputType a))).

Definition bind_activation (req : Request) (m : gmap string string) : activation :=
<["request" := VRequest req]> {[ "match" := match_val m ]}.

Definition as_Value (r : result cval) : result nat :=
match r with
| Err e => Err (EWrap "eval bind" e)
| Ok (VPtr l) => Ok l
| Ok _ => Err (EMsg "bind expression returned another type")
end.

Definition NewCondition (env : env_opts) (source : string) : result program :=
wrap_err "compile condition"
(a ← checkAst env source TBool; f ← env_Program env a; Ok (mkProgram env true f)).

(** The bind variables overwrite a fixed variable of the same name. *)
Definition condition_activation (actionName : string) (req : Request) (principal : Principal)
(now : Z) (binds : list (string * nat)) : activation :=
foldl (fun act '(name, l) => <[name := VPtr l]> act)
(<["request" := VRequest req]> (<["action" := action_val actionName]>
 (<["principal" := VPrincipal principal]> {[ "now" := VTimestamp now ]}))) binds.

(** ** [action.go], [meta.go], [policy.go]: compile time *)

Record Meta := mkMeta {
m_APIName : string;
m_Type : MetaType;
m_Request : program;
m_Outputs : list (string * program)
}.

(** [ValidateMetaFields]: the [seen] map holds "input" or "output". *)
Fixpoint validate_inputs (fs : list InputField) (seen : gmap string string)
: result (gmap string string) :=
match fs with
| [] => Ok seen
| f :: fs' =>
  match seen !! if_Name f with
  | Some _ => Err (EMsg "duplicate input field")
  | None => validate_inputs fs' (<[if_Name f := "input"]> seen)
  end
end.

Fixpoint validate_outputs (os : list OutputField) (seen : gmap string string) : result unit :=
match os with
| [] => Ok tt
| o :: os' =>
  let prev := default "" (seen !! of_Name o) in
  fail_if bool_decide (prev = "input") with EMsg "declared as both input and output" ;;
  fail_if bool_decide (prev = "output") with EMsg "duplicate output field" ;;
  validate_outputs os' (<[of_Name o := "output"]> seen)
end.

Definition ValidateMetaFields (meta : Metadata) : result unit :=
seen ← validate_inputs (meta_Input meta) ∅; validate_outputs (meta_Output meta) seen.

Definition RegisterMetaType (meta : Metadata) (apiName : string) (reg : Registry)
: result (MetaType * Registry) :=
_ ← ValidateMetaFields meta;
let t := mkMetaType (apiName +:+ "." +:+ meta_Name meta)
         (map if_Name (meta_Input meta)) (map of_Name (meta_Output meta)) in
reg' ← wrap_err "register meta" (Register reg (Some t));
Ok (t, reg').

Fixpoint compile_outputs (env : env_opts) (os : list OutputField)
: result (list (string * program)) :=
match os with
| [] => Ok []
| o :: os' =>
  op ← wrap_err "meta output" (NewOutput env (of_Expr o));
  rest ← compile_outputs env os';
  Ok ((of_Name o, op) :: rest)
end.

Definition CompileMeta (meta : Metadata) (apiName : string) (t : MetaType) (reg : Registry)
: result Meta :=
reqEnv ← wrap_err "meta" (cel_env (requestEnv apiName t));
req ← wrap_err "meta request" (NewRequest reqEnv (meta_Request meta));
outEnv ← wrap_err "meta output env" (cel_env (outputEnv apiName t reg));
outputs ← compile_outputs outEnv (meta_Output meta);
Ok (mkMeta apiName t req outputs).

Record BoundVariable := mkBoundVariable {
bv_MetaName : string;
bv_Bind : CompiledBind;
bv_Meta : Meta
}.

Record CAction := mkCAction {
ca_Name : string;
ca_Template : option PathTemplate;
ca_Filter : option base_program;
ca_Binds : list BoundVariable
}.

Definition compileActionTemplate (a : Action) : result (option PathTemplate) :=
if decide (act_Method a = "") then
if decide (act_Path a = "") then Ok None
else Err (EMsg "path set but method missing")
else if decide (act_Path a = "") then Err (EMsg "method set but path missing")
else tpl ← wrap_err "action" (ParsePathTemplate (act_Method a) (act_Path a)); Ok (Some tpl).

Definition compileActionFilter (a : Action) : result (option base_program) :=
if decide (act_Filter a = "") then Ok None
else
env ← wrap_err "filter env" (cel_env filterEnv);
f ← wrap_err "compile filter" (NewFilter env (act_Filter a));
Ok (Some f).

Fixpoint compile_binds (be : env_opts) (metas : gmap string Meta) (seen : list string)
(exprs : list string) : result (list BoundVariable) :=
match exprs with
| [] => Ok []
| expr :: exprs' =>
  cb ← wrap_err "compile bind" (NewBind be expr);
  match metas !! TypeName (bind_outputType cb) with
  | None => Err (EMsg "bind returns unknown meta type")
  | Some meta =>
      let full := mt_FullName (m_Type meta) in
      fail_if bool_decide (full ∈ seen) with EMsg "duplicate bind for meta" ;;
      (rest ← compile_binds be metas (full :: seen) exprs';
       Ok (mkBoundVariable full cb meta :: rest))
  end
end.

Definition NewAction (a : Action) (apiName : string) (reg : Registry)
(metas : gmap string Meta) : result CAction :=
fail_if bool_decide (act_Bind a <> "") && bool_decide (act_Binds a <> [])
with EMsg "'bind' and 'binds' are mutually exclusive" ;;
(tpl ← compileActionTemplate a;
filter ← compileActionFilter a;
fail_if negb (is_some_b tpl) && negb (is_some_b filter)
 with EMsg "must specify method+path, filter, or both" ;;
(be ← wrap_err "bind env" (cel_env (bindEnv apiName reg));
binds ← compile_binds be metas [] (AllBinds a);
Ok (mkCAction (act_Name a) tpl filter binds))).

Record CPolicy := mkCPolicy {
cp_API : string;
cp_Name : string;
cp_Result : PolicyResult;
cp_principalPred : base_program;
cp_predicate : base_program;
cp_condition : program;
cp_source : Policy
}.

Definition NewPolicy (p : Policy) (apiName : string) (reg : Registry) : result CPolicy :=
_ ← wrap_err "policy" (PolicyResult_Validate (pol_Result p));
princEnv ← wrap_err "policy: principal env" (cel_env principalPredicateEnv);
princ ← wrap_err "policy" (NewPrincipalPredicate princEnv (pol_Principal p));
predEnv ← wrap_err "policy: action env" (cel_env actionPredicateEnv);
pred ← wrap_err "policy" (NewActionPredicate predEnv (pol_Action p));
condEnv ← wrap_err "policy: condition env" (cel_env (policyEnv apiName reg));
cc ← wrap_err "policy" (NewCondition condEnv (pol_Condition p));
Ok (mkCPolicy (pol_API p) (pol_Name p) (pol_Result p) princ pred cc p).
End compiled.
