(* ===== verification/Evaluator.v ===== *)
(** * Lazy completion: [internal/runtime/compiled] meta.go, policy.go, decorator.go

    The machine that runs compiled programs against the heap of meta values:
    a condition reads [value.field], the first read of an output field runs
    the value's completer ([CompleterFor]), which evaluates the meta's request
    expression, resolves the meta's own API, issues the upstream call and
    stores the output expressions.  Completers nest (a request expression may
    read another lazy value), so [exec] recurses on fuel; [exec_mono] shows
    that more fuel never changes a result.  Every resolver build, upstream
    call, condition and firing is an event of the trace, in order: the trace
    is what the observers of observer.go are told. *)

From S2P Require Import Prelude GoStd Models PathTemplate Messages Compiled.

(** ** Upstream *)

Inductive event : Type :=
  | EvResolve (apiName : string)
  | EvCall (l : nat) (metaName apiName : string) (mr : MetaRequest)
      (resp : result (option Response))
  | EvCond (actionName policyName : string) (res : PolicyResult) (fired : result bool)
  | EvFiring (actionName policyName : string) (binds : list (string * nat)).

(** [PhysicalAPIResolver] and [PhysicalAPI]: answers may depend on the past. *)
Class Upstream := {
  api_handle : Type;
  resolve : list event -> string -> result api_handle;
  Call : list event -> api_handle -> MetaRequest -> result (option Response)
}.

(** A completer closure: the meta it completes with, and the value it captured. *)
Notation completer := (Meta * nat)%type.

Section machine.
Context `{CelEngine} `{Upstream}.

Record xstate := mkX {
x_trace : list event;
x_cache : gmap string (result api_handle)
}.

Definition st := mstate completer xstate.

Definition emit (ev : event) (s : st) : st :=
(s.1, mkX (x_trace s.2 ++ [ev]) (x_cache s.2)).

(** [memoizeResolver]: the cached answer, a build or its error. *)
Definition memo_resolve (name : string) (s : st) : result api_handle * st :=
match x_cache s.2 !! name with
| Some e => (e, s)
| None =>
  let r := resolve (x_trace s.2) name in
  (r, (s.1, mkX (x_trace s.2 ++ [EvResolve name]) (<[name := r]> (x_cache s.2))))
end.

Definition alloc (v : Value completer) (s : st) : nat * st :=
(length s.1, (s.1 ++ [v], s.2)).

Definition peek (s : st) : snapshot :=
map (fun v => (v_nameStr v, v_inputs v, v_outputs v)) s.1.

Variable reg : Registry.
Variable metas : gmap string Meta.
Variable req : Request.

(** The installer of [Policy.Evaluate], also what [CompleterFor] does with a
child value. *)
Definition install (l : nat) (s : st) : st :=
match s.1 !! l with
| None => s
| Some v =>
  if IsFullView v then
    match metas !! mt_FullName (v_typ v) with
    | None => s
    | Some m => upd l (SetCompleter (m, l)) s
    end
  else s
end.

Definition NewValue (o : env_opts) (ty : string) (fields : gmap string cval)
: result (built completer) :=
match env_Provider o with
| PvBase => BOther <$> base_NewValue ty fields
| PvRequest t => RequestProvider_NewValue base_NewValue t ty fields
| PvFull r => FullProvider_NewValue base_NewValue r ty fields
end.

Section with_exec.
Variable exec : completer -> st -> outcome (result unit * st).

Fixpoint run_prog (o : env_opts) (installs : bool) (p : prog) (s : st)
: outcome (result cval * st) :=
match p with
| PRet r => ODone (r, s)
| PGet l key k =>
obind (Get exec l key s) (fun '(r, s) => run_prog o installs (k r) s)
| PNew ty fields k =>
match NewValue o ty fields with
| Err e => run_prog o installs (k (Err e)) s
| Ok (BOther v) => run_prog o installs (k (Ok v)) s
| Ok (BValue v) =>
  let '(l, s) := alloc v s in
  let s := if installs then install l s else s in
  run_prog o installs (k (Ok (VPtr l))) s
end
| PPeek k => run_prog o installs (k (peek s)) s
end.

Definition run_program (p : program) (act : activation) : st -> outcome (result cval * st) :=
run_prog (prg_env p) (prg_installs p) (prg_Eval p act).

Definition set_field (l : nat) (name : string) (out : cval) (s : st) : outcome st :=
match s.1 !! l with
| None => OPanic
| Some v =>
match SetField name out v with
| None => OPanic
| Some v' => ODone (<[l := v']> s.1, s.2)
end
end.

(** Only an output that {e is} a value gets a completer. *)
Definition install_child (out : cval) (s : st) : st :=
match out with VPtr c => install c s | _ => s end.

Fixpoint run_outputs (l input : nat) (resp : Response) (ops : list (string * program))
(s : st) : outcome (result unit * st) :=
match ops with
| [] => ODone (Ok tt, s)
| (name, op) :: ops' =>
obind (run_program op (output_activation input req resp) s) (fun '(r, s) =>
match r with
| Err e => ODone (Err (EWrap "meta output" (EWrap "eval output" e)), s)
| Ok out =>
    obind (set_field l name out (install_child out s))
      (run_outputs l input resp ops')
end)
end.

Definition CompleterFor (m : Meta) (l : nat) (s : st) : outcome (result unit * st) :=
match s.1 !! l with
| None => OPanic
| Some v =>
match NewInputValue reg (mt_FullName (m_Type m)) (InputFields v) with
| Err e => ODone (Err e, s)
| Ok iv =>
  let '(input, s) := alloc iv s in
  obind (run_program (m_Request m) (request_activation input) s) (fun '(r, s) =>
    match as_MetaRequest r with
    | Err e => ODone (Err e, s)
    | Ok mr =>
        let '(api, s) := memo_resolve (m_APIName m) s in
        match api with
        | Err e => ODone (Err (EWrap "meta resolve api" e), s)
        | Ok api =>
            let resp := Call (x_trace s.2) api mr in
            let s := emit (EvCall l (mt_FullName (m_Type m)) (m_APIName m) mr resp) s in
            match resp with
            | Err e => ODone (Err (EWrap "meta upstream" e), s)
            | Ok r => run_outputs l input (default (mkResponse None) r)
                        (m_Outputs m) s
            end
        end
    end)
end
end.
End with_exec.

Fixpoint exec (fuel : nat) (c : completer) (s : st) : outcome (result unit * st) :=
match fuel with
| 0 => OFuel
| S fuel' => CompleterFor (exec fuel') c.1 c.2 s
end.

(** ** [Policy]'s methods *)

Definition AppliesToPrincipal (p : CPolicy) (principal : option Principal) (now : Z)
: result bool :=
wrap_err "policy" (PrincipalPredicate_Eval (cp_principalPred p) req principal now).

Definition AppliesTo (p : CPolicy) (actionName : string) (m : gmap string string)
(principal : option Principal) (now : Z) : result bool :=
wrap_err "policy" (ActionPredicate_Eval (cp_predicate p) actionName req m principal now).

(** The loop that wires the bind values. *)
Fixpoint wire_binds (binds : list (string * nat)) (s : st) : result unit * st :=
match binds with
| [] => (Ok tt, s)
| (name, l) :: binds' =>
  match metas !! name with
  | None => (Err (EMsg "bind references unknown meta"), s)
  | Some m => wire_binds binds' (upd l (SetCompleter (m, l)) s)
  end
end.

Definition Condition_Eval (fuel : nat) (c : program) (actionName : string)
(principal : option Principal) (now : Z) (binds : list (string * nat)) (s : st)
: outcome (result bool * st) :=
match principal with
| None => ODone (Err (EMsg "eval condition: principal is required"), s)
| Some pr =>
  obind (run_program (exec fuel) c (condition_activation actionName req pr now binds) s)
    (fun '(r, s) => ODone (as_bool "eval condition" r, s))
end.

Definition Policy_Evaluate (fuel : nat) (p : CPolicy) (actionName : string)
(principal : option Principal) (now : Z) (binds : list (string * nat)) (s : st)
: outcome (result bool * st) :=
match wire_binds binds s with
| (Err e, s) => ODone (Err e, s)
| (Ok _, s) =>
  obind (Condition_Eval fuel (cp_condition p) actionName principal now binds s)
    (fun '(r, s) => ODone (wrap_err "policy" r, s))
end.

(** ** [Action]'s methods *)

Definition CAction_Match (a : CAction) : result (option (gmap string string)) :=
match ca_Template a, ca_Filter a with
| None, None => Err (EMsg "no template or filter")
| tpl, filter =>
  match (match tpl with Some t => Match t req | None => Some ∅ end) with
  | None => Ok None
  | Some m =>
      match filter with
      | None => Ok (Some m)
      | Some f => ok ← Filter_Eval f req m; Ok (if ok : bool then Some m else None)
      end
  end
end.

Fixpoint EvalBinds (fuel : nat) (bs : list BoundVariable) (m : gmap string string) (s : st)
: outcome (result (list (string * nat)) * st) :=
match bs with
| [] => ODone (Ok [], s)
| b :: bs' =>
  obind (run_program (exec fuel) (bind_program (bv_Bind b)) (bind_activation req m) s)
    (fun '(r, s) =>
      match as_Value r with
      | Err e => ODone (Err (EWrap "bind" e), s)
      | Ok l =>
          obind (EvalBinds fuel bs' m s) (fun '(rest, s) =>
            ODone ((fun vs => (bv_MetaName b, l) :: vs) <$> rest, s))
      end)
end.
End machine.
Arguments xstate {_}.
Arguments st {_}.

(** ** A small engine, to evaluate the model on concrete inputs

    One meta [docs.doc] with input [id] and output [title]; a condition that
    reads [title] twice. *)

Definition demo_cel : CelEngine := {|
  ast := unit;
  NewEnv _ := Ok tt;
  env_Compile _ _ := Ok tt;
  OutputType _ := TBool;
  TypeName _ := "bool";
  IsEquivalentType _ _ := true;
  env_Program _ _ := Ok (fun _ => PRet (Ok (VBool true)));
  env_ProgramBase _ _ := Ok (fun _ => Ok (VBool true));
  base_NewValue _ _ := Err (EMsg "no such type")
|}.

Definition demo_up : Upstream := {|
  api_handle := string;
  resolve _ name := Ok name;
  Call _ _ mr := Ok (Some (mkResponse (Some (PString (mr_Path mr)))))
|}.

(** [act!!name.field], then [k]. *)
Definition select (act : activation) (name field : string) (k : result cval -> prog) : prog :=
  match act !! name with
  | Some (VPtr l) => PGet l (VString field) k
  | _ => PRet (Err (EMsg "no such attribute"))
  end.

Definition demo_type : MetaType := mkMetaType "docs.doc" ["id"] ["title"].
Definition demo_reg : Registry := {[ "docs.doc" := demo_type ]}.

Definition demo_meta : Meta := mkMeta "docs" demo_type
  (mkProgram (requestEnv "docs" demo_type) false (fun act =>
     select act "input" "id" (fun r =>
       match r with
       | Ok (VString s) => PRet (Ok (VMetaRequest (mkMetaRequest "GET" ("/d/" +:+ s) None "")))
       | _ => PRet (Err (EMsg "no id"))
       end)))
  [("title", mkProgram (outputEnv "docs" demo_type demo_reg) false (fun act =>
     match act !! "response" with
     | Some (VResponse r) =>
         PRet (Ok (match resp_Body r with Some (PString s) => VString s | _ => VNull end))
     | _ => PRet (Err (EMsg "no response"))
     end))].

Definition demo_metas : gmap string Meta := {[ "docs.doc" := demo_meta ]}.

Definition demo_bind : BoundVariable := mkBoundVariable "docs.doc"
  (mkBind (mkProgram (bindEnv "docs" demo_reg) false (fun _ =>
     PNew "docs.doc" {[ "id" := VString "7" ]} PRet)) (TObject "docs.doc")) demo_meta.

Definition demo_cond (want : string) : program :=
  mkProgram (policyEnv "docs" demo_reg) true (fun act =>
    select act "docs.doc" "title" (fun _ =>
    select act "docs.doc" "title" (fun r =>
      match r with
      | Ok (VString s) => PRet (Ok (VBool (bool_decide (s = want))))
      | Ok _ => PRet (Err (EMsg "no such overload"))
      | Err e => PRet (Err e)
      end))).

Definition demo_policy (name : string) (res : PolicyResult) (want : string) : CPolicy :=
  mkCPolicy "docs" name res (fun _ => Ok (VBool true)) (fun _ => Ok (VBool true))
    (demo_cond want) (mkPolicy "docs" name "" "" "" want res).

Definition demo_action : CAction :=
  mkCAction "read" (Some (mkTemplate "GET" [mkSeg "d" ""; mkSeg "" "id"])) None [demo_bind].

Definition demo_req : Request := mkRequest "GET" "/d/7" ["d"; "7"] [] None.
Definition demo_principal : option Principal := Some (mkPrincipal "alice" "user" []).
