(* ===== verification/EvaluatorFacts.v ===== *)
(** * Accounting of the evaluator

    [ext x s s'] relates two states of one evaluation: locations and their
    shape persist, a finished value never changes again (except [x], the one a
    completer is populating), and no call is made for a finished value.  Every
    run of the machine is such an extension, so an upstream call is made at
    most once per value, an API client is built at most once, and a field that
    was read keeps its value. *)

From S2P Require Import Prelude GoStd Models PathTemplate Messages Compiled Evaluator.

Section facts.
Context `{CelEngine} `{Upstream}.

Definition is_call (l : nat) (ev : event) : bool :=
match ev with EvCall l' _ _ _ _ => bool_decide (l' = l) | _ => false end.
Definition is_resolve (name : string) (ev : event) : bool :=
match ev with EvResolve n => bool_decide (n = name) | _ => false end.

Definition fetches (l : nat) (tr : list event) : nat := length (List.filter (is_call l) tr).
Definition resolves (n : string) (tr : list event) : nat :=
length (List.filter (is_resolve n) tr).

Definition is_done (v : Value completer) : bool :=
match v_complete v with Some c => cp_done c | None => false end.

Definition done_at (s : st) (l : nat) : Prop :=
exists v, s.1 !! l = Some v /\ is_done v = true.

Definition own_closure (l : nat) (v : Value completer) : Prop :=
forall c m l', v_complete v = Some c -> cp_fn c = Some (m, l') -> l' = l.

Record good (s : st) : Prop := {
good_own l v : s.1 !! l = Some v -> own_closure l v;
good_once l v : s.1 !! l = Some v ->
fetches l (x_trace s.2) <= (if is_done v then 1 else 0);
good_fresh l : length s.1 <= l -> fetches l (x_trace s.2) = 0;
good_cache n : resolves n (x_trace s.2) =
(if x_cache s.2 !! n then 1 else 0)
}.

Record same_shape (v v' : Value completer) : Prop := {
ss_typ : v_typ v' = v_typ v;
ss_view : v_view v' = v_view v;
ss_name : v_nameStr v' = v_nameStr v;
ss_inputs : v_inputs v' = v_inputs v
}.

Definition keeps (x : option nat) (l : nat) (v v' : Value completer) : Prop :=
same_shape v v' /\ (is_done v = true -> is_done v' = true /\ (Some l <> x -> v' = v)).

Record ext (x : option nat) (s s' : st) : Prop := {
ext_good : good s';
ext_heap l v : s.1 !! l = Some v -> exists v', s'.1 !! l = Some v' /\ keeps x l v v';
ext_fetch l : done_at s l -> Some l <> x ->
fetches l (x_trace s'.2) = fetches l (x_trace s.2);
ext_trace : x_trace s.2 `prefix_of` x_trace s'.2
}.

#[global] Instance same_shape_preorder : PreOrder same_shape.
Proof. split; [by split|]. intros ? ? ? [] []. split; congruence. Qed.

Lemma keeps_refl x l v : keeps x l v v.
Proof. split; [reflexivity|done]. Qed.

Lemma keeps_trans x l v1 v2 v3 : keeps x l v1 v2 -> keeps x l v2 v3 -> keeps x l v1 v3.
Proof.
intros [S1 D1] [S2 D2]. split; [by etrans|]. intros Hd.
destruct (D1 Hd) as [Hd2 E2]. destruct (D2 Hd2) as [Hd3 E3].
split; [done|]. intros Hx. rewrite E3, E2; done.
Qed.

Lemma ext_done x s s' l : ext x s s' -> done_at s l -> done_at s' l.
Proof.
intros E (v & Hl & Hd). destruct (ext_heap _ _ _ E _ _ Hl) as (v' & Hl' & _ & Hk).
exists v'. split; [done|]. by apply Hk.
Qed.

Lemma ext_refl x s : good s -> ext x s s.
Proof.
intros G. split; [done| |done|done]. intros l v Hl. exists v. split; [done|apply keeps_refl].
Qed.

#[global] Instance ext_trans x : Transitive (ext x).
Proof.
intros s1 s2 s3 E1 E2. split; [apply E2| | |etrans; [apply E1|apply E2]].
- intros l v Hl. destruct (ext_heap _ _ _ E1 _ _ Hl) as (v2 & Hl2 & K1).
destruct (ext_heap _ _ _ E2 _ _ Hl2) as (v3 & Hl3 & K2).
exists v3. split; [done|]. by eapply keeps_trans.
- intros l Hd Hx. rewrite (ext_fetch _ _ _ E2); [by apply E1| |done].
by eapply ext_done.
Qed.

Lemma ext_weaken x s s' : ext None s s' -> ext x s s'.
Proof.
intros E. split; [apply E| | |apply E].
- intros l v Hl. destruct (ext_heap _ _ _ E _ _ Hl) as (v' & Hl' & S & D).
exists v'. split; [done|]. split; [done|]. intros Hd. destruct (D Hd) as [? D'].
split; [done|]. intros _. by apply D'.
- intros l Hd _. by apply E.
Qed.

(** ** Primitive steps *)

Lemma alloc_ext v s l s' :
good s -> own_closure (length s.1) v -> alloc v s = (l, s') -> ext None s s'.
Proof.
intros G Hv [= <- <-]. split; [split|..]; simpl.
- intros l w [Hl|[? Hw]]%lookup_app_Some; [by apply G|].
apply list_lookup_singleton_Some in Hw as [? <-].
by replace l with (length s.1) by lia.
- intros l w [Hl|[? Hw]]%lookup_app_Some; [by apply G|].
rewrite (good_fresh _ G) by done. lia.
- intros l Hl. apply G. rewrite length_app in Hl. lia.
- apply G.
- intros l w Hl. exists w. split; [|apply keeps_refl]. by apply lookup_app_l_Some.
- done.
- done.
Qed.

(** Changing one value, the trace untouched. *)
Lemma heap_ext x l v v' (s : st) :
good s -> s.1 !! l = Some v -> own_closure l v' -> keeps x l v v' ->
ext x s (<[l := v']> s.1, s.2).
Proof.
intros G Hl Hown Hk. pose proof (lookup_lt_Some _ _ _ Hl) as Hlt.
split; [split|..]; simpl.
- intros j w Hj. destruct (decide (l = j)) as [->|].
+ rewrite list_lookup_insert_eq in Hj by done. by injection Hj as <-.
+ rewrite list_lookup_insert_ne in Hj by done. by apply G.
- intros j w Hj. destruct (decide (l = j)) as [->|].
+ rewrite list_lookup_insert_eq in Hj by done. injection Hj as <-.
  pose proof (good_once _ G _ _ Hl) as Ho. destruct (is_done v) eqn:Hd.
  * destruct Hk as [_ Hk]. destruct (Hk Hd) as [-> _]. lia.
  * destruct (is_done v'); lia.
+ rewrite list_lookup_insert_ne in Hj by done. by apply G.
- intros j Hj. rewrite length_insert in Hj. by apply G.
- apply G.
- intros j w Hj. destruct (decide (l = j)) as [->|].
+ exists v'. rewrite list_lookup_insert_eq by done. by simplify_eq.
+ exists w. rewrite list_lookup_insert_ne by done. split; [done|apply keeps_refl].
- done.
- done.
Qed.

Lemma upd_eq (f : Value completer -> Value completer) l (s : st) v :
s.1 !! l = Some v -> upd l f s = (<[l := f v]> s.1, s.2).
Proof.
intros Hl. unfold upd. f_equal. apply list_eq. intros j.
destruct (decide (l = j)) as [->|].
- rewrite list_lookup_alter_eq, Hl, list_lookup_insert_eq; [done|].
by eapply lookup_lt_Some.
- by rewrite list_lookup_alter_ne, list_lookup_insert_ne.
Qed.

Lemma upd_none (f : Value completer -> Value completer) l (s : st) :
s.1 !! l = None -> upd l f s = s.
Proof.
intros Hl. destruct s as [h x]. unfold upd. simpl in *. f_equal. apply list_eq. intros j.
rewrite list_lookup_alter. case_decide as E; [subst; by rewrite Hl|done].
Qed.

Lemma SetCompleter_keeps x l m v :
own_closure l v -> own_closure l (SetCompleter (m, l) v) /\ keeps x l v (SetCompleter (m, l) v).
Proof.
intros Hown. unfold SetCompleter. destruct (v_complete v) as [c|] eqn:Ec;
[destruct (cp_done c) eqn:Ed|]; (split; [|try apply keeps_refl]); try done.
- by intros ? ? ? [= <-] [= _ <-].
- split; [by split|]. unfold is_done. by rewrite Ec, Ed.
Qed.

Lemma set_completer_ext x l m (s : st) :
good s -> ext x s (upd l (SetCompleter (m, l)) s).
Proof.
intros G. destruct (s.1 !! l) as [v|] eqn:Hl.
- rewrite (upd_eq _ _ _ _ Hl).
destruct (SetCompleter_keeps x l m v (good_own _ G _ _ Hl)). by eapply heap_ext.
- rewrite upd_none by done. by apply ext_refl.
Qed.

Lemma trace_ext (x : option nat) (s : st) tr c :
good (s.1, mkX tr c) -> (forall l, done_at s l -> Some l <> x ->
fetches l tr = fetches l (x_trace s.2)) -> x_trace s.2 `prefix_of` tr ->
ext x s (s.1, mkX tr c).
Proof.
intros G Hf Hp. split; [done| |done|done]. intros l v Hl. exists v. split; [done|apply keeps_refl].
Qed.

Lemma fetches_app l tr ev :
fetches l (tr ++ [ev]) = fetches l tr + (if is_call l ev then 1 else 0).
Proof.
unfold fetches. rewrite List.filter_app, length_app. simpl. by destruct (is_call l ev).
Qed.

Lemma resolves_app n tr ev :
resolves n (tr ++ [ev]) = resolves n tr + (if is_resolve n ev then 1 else 0).
Proof.
unfold resolves. rewrite List.filter_app, length_app. simpl. by destruct (is_resolve n ev).
Qed.

(** An event that is neither a call nor a build. *)
Lemma emit_quiet_ext x ev (s : st) :
good s -> (forall l, is_call l ev = false) -> (forall n, is_resolve n ev = false) ->
ext x s (emit ev s).
Proof.
intros G Hc Hr.
apply trace_ext; [|by intros; rewrite fetches_app, Hc; lia|by apply prefix_app_r].
split; simpl.
- apply G.
- intros l v Hl. rewrite fetches_app, Hc, Nat.add_0_r. by apply G.
- intros l Hl. rewrite fetches_app, Hc, Nat.add_0_r. by apply G.
- intros n. rewrite resolves_app, Hr, Nat.add_0_r. apply G.
Qed.

(** The one call of the value being completed. *)
Lemma emit_call_ext l meta api mr resp (s : st) :
good s -> done_at s l -> fetches l (x_trace s.2) = 0 ->
ext (Some l) s (emit (EvCall l meta api mr resp) s).
Proof.
intros G (v & Hl & Hd) H0f.
assert (forall j, j <> l -> is_call j (EvCall l meta api mr resp) = false) as Hne.
{ intros j Hj. simpl. by rewrite bool_decide_eq_false_2. }
apply trace_ext.
- split; simpl; [apply G| | |].
+ intros j w Hj. rewrite fetches_app. destruct (decide (j = l)) as [->|Hjl].
  * simplify_eq. rewrite H0f, Hd. destruct (is_call _ _); lia.
  * rewrite Hne by done. rewrite Nat.add_0_r. by apply G.
+ intros j Hj. rewrite fetches_app, Hne; [rewrite Nat.add_0_r; by apply G|].
  intros ->. apply lookup_lt_Some in Hl. lia.
+ intros n. rewrite resolves_app, Nat.add_0_r. apply G.
- intros j _ Hx. rewrite fetches_app, Hne by congruence. lia.
- by apply prefix_app_r.
Qed.

Lemma memo_resolve_ext x n (s : st) r s' :
good s -> memo_resolve n s = (r, s') -> ext x s s'.
Proof.
intros G. unfold memo_resolve. destruct (x_cache s.2 !! n) as [e|] eqn:Hn.
- intros [= <- <-]. by apply ext_refl.
- intros [= <- <-]. 
apply trace_ext; [|intros; rewrite fetches_app; simpl; lia|by apply prefix_app_r].
split; simpl; [apply G| | |].
+ intros j w Hj. rewrite fetches_app, Nat.add_0_r. by apply G.
+ intros j Hj. rewrite fetches_app, Nat.add_0_r. by apply G.
+ intros k. rewrite resolves_app. cbn [is_resolve]. pose proof (good_cache _ G k) as Hk.
  destruct (decide (n = k)) as [->|].
  * rewrite lookup_insert_eq, bool_decide_eq_true_2 by done. rewrite Hn in Hk. lia.
  * rewrite lookup_insert_ne, bool_decide_eq_false_2 by done. lia.
Qed.

Variable reg : Registry.
Variable metas : gmap string Meta.
Variable req : Request.

Lemma install_ext x l (s : st) : good s -> ext x s (install metas l s).
Proof.
intros G. unfold install. repeat case_match; try by apply ext_refl.
by apply set_completer_ext.
Qed.

Lemma SetField_keeps l name out v v' :
SetField name out v = Some v' ->
keeps (Some l) l v v' /\ v_complete v' = v_complete v.
Proof.
unfold SetField. intros E. repeat case_match; simplify_eq.
split; [|done]. split; [by split|done].
Qed.

Lemma set_field_ext l name out (s s' : st) :
good s -> set_field l name out s = ODone s' -> ext (Some l) s s'.
Proof.
intros G. unfold set_field. destruct (s.1 !! l) as [v|] eqn:Hl; [|done].
destruct (SetField name out v) as [v'|] eqn:E; [|done]. intros [= <-].
destruct (SetField_keeps l _ _ _ _ E) as [Hk Hc].
apply (heap_ext _ _ v); [done..| |done].
pose proof (good_own _ G _ _ Hl) as Ho. unfold own_closure in *. by rewrite Hc.
Qed.

(** ** Runs *)

(** What the induction on fuel knows of the completers it may run. *)
Definition exec_ok (ex : completer -> st -> outcome (result unit * st)) : Prop :=
forall c s r s', good s -> done_at s c.2 -> fetches c.2 (x_trace s.2) = 0 ->
ex c s = ODone (r, s') -> ext (Some c.2) s s'.

Section runs.
Variable ex : completer -> st -> outcome (result unit * st).
Hypothesis Hex : exec_ok ex.

Lemma record_err_ext l r (s : st) : good s -> ext (Some l) s (record_err l r s).
Proof.
intros G. unfold record_err. destruct (s.1 !! l) as [v|] eqn:Hl.
- rewrite (upd_eq _ _ _ _ Hl). destruct (v_complete v) as [c|] eqn:Hc.
+ apply (heap_ext _ _ v); [done..| |].
* intros c' m l' [= <-] Hf. simpl in Hf. by eapply (good_own _ G _ _ Hl).
* split; [by split|]. unfold is_done. rewrite Hc. naive_solver.
+ apply (heap_ext _ _ v); [done..|by apply G|apply keeps_refl].
- rewrite upd_none by done. by apply ext_refl.
Qed.

(** What happened to a value that was not finished is not visible outside. *)
Lemma ext_own l v (s s' : st) :
s.1 !! l = Some v -> is_done v = false -> ext (Some l) s s' -> ext None s s'.
Proof.
intros Hl Hd E. split; [apply E| | |apply E].
- intros j w Hj. destruct (ext_heap _ _ _ E _ _ Hj) as (w' & Hw' & S & D).
exists w'. split; [done|]. split; [done|]. intros Hdw.
destruct (D Hdw) as [? D']. split; [done|]. intros _. apply D'.
intros [= ->]. congruence.
- intros j Hj _. apply E; [done|]. intros [= ->].
destruct Hj as (? & ? & ?). congruence.
Qed.

Lemma run_ext l v c (s : st) r s' :
good s -> s.1 !! l = Some v -> v_complete v = Some c ->
run ex l c s = ODone (r, s') -> ext None s s'.
Proof.
intros G Hl Hc. unfold run. destruct (cp_done c) eqn:Hd.
{ intros [= <- <-]. by apply ext_refl. }
assert (is_done v = false) as Hnd by (unfold is_done; by rewrite Hc).
rewrite (upd_eq _ _ _ _ Hl).
set (v1 := set_complete (mkCompletion (cp_fn c) true (cp_err c)) v).
set (s1 := (<[l := v1]> s.1, s.2)).
assert (ext (Some l) s s1) as E1.
{ apply (heap_ext _ _ v); [done..| |].
- intros c' m l' [= <-] Hf. by eapply (good_own _ G _ _ Hl).
- split; [by split|congruence]. }
assert (done_at s1 l) as Hd1.
{ exists v1. split; [|done]. simpl. apply list_lookup_insert_eq. by eapply lookup_lt_Some. }
intros Hr. apply (ext_own l v); [done..|]. etrans; [exact E1|].
destruct (cp_fn c) as [[m l']|] eqn:Hf.
- assert (l' = l) as -> by (by eapply (good_own _ G _ _ Hl)).
destruct (ex (m, l) s1) as [[r1 s2]| |] eqn:Hx; simpl in Hr; [|done..].
injection Hr as <- <-.
assert (ext (Some l) s1 s2) as E2.
{ apply (Hex (m, l) s1 r1); [apply E1|done| |done].
pose proof (good_once _ G _ _ Hl). rewrite Hnd in *. simpl. lia. }
etrans; [exact E2|]. apply record_err_ext, E2.
- injection Hr as <- <-. apply record_err_ext, E1.
Qed.

Lemma Get_ext l key (s : st) r s' : good s -> Get ex l key s = ODone (r, s') -> ext None s s'.
Proof.
intros G. unfold Get, getFullViewField.
destruct key; try (by intros [= <- <-]; apply ext_refl).
destruct (s.1 !! l) as [v|] eqn:Hl; [|done].
destruct (v_inputs v !! s0); [by intros [= <- <-]; apply ext_refl|].
destruct (v_view v); [|by intros [= <- <-]; apply ext_refl].
destruct (HasOutputField (v_typ v) s0); [|by case_match; intros [= <- <-]; apply ext_refl].
destruct (v_complete v) as [c|] eqn:Hc; [|done].
destruct (run ex l c s) as [[r1 s1]| |] eqn:Hr; simpl; [|done..].
pose proof (run_ext _ _ _ _ _ _ G Hl Hc Hr). destruct r1; by intros [= <- <-].
Qed.

Lemma NewValue_no_completer o ty fields v :
NewValue o ty fields = Ok (BValue v) -> exists c, v_complete v = Some c /\ cp_fn c = None.
Proof.
unfold NewValue, RequestProvider_NewValue, FullProvider_NewValue, NewFullValue.
assert (forall r : result cval, BOther <$> r = Ok (BValue v) -> False) as Hb by by intros [].
destruct (env_Provider o) as [|t|r]; [by intros ?%Hb|by case_match; intros; [|exfalso; eauto]|].
destruct (lookup_view r ty) as [[t []]|]; [|done|by intros ?%Hb].
destruct (check_literal _ _); [|done]. simpl.
destruct (r !! mt_FullName t); simpl; [|done]. intros [= <-]. simpl. eauto.
Qed.

Lemma run_prog_ext o inst p (s : st) r s' :
good s -> run_prog metas ex o inst p s = ODone (r, s') -> ext None s s'.
Proof.
revert s. induction p as [r0|l key k IH|ty fields k IH|k IH]; intros s G; simpl.
- intros [= <- <-]. by apply ext_refl.
- destruct (Get ex l key s) as [[r1 s1]| |] eqn:Hg; simpl; [|done..].
intros Hr. pose proof (Get_ext _ _ _ _ _ G Hg) as E. etrans; [exact E|].
eapply IH; [apply E|done].
- destruct (NewValue o ty fields) as [[v|v]|e] eqn:Hn; [|by apply IH|by apply IH].
destruct (alloc v s) as [l s1] eqn:Ha. simpl in *. intros Hr.
assert (ext None s s1) as E1.
{ apply (alloc_ext v _ l); [done| |done]. intros c m l' Hc Hf.
destruct (NewValue_no_completer _ _ _ _ Hn) as (c' & ? & ?). congruence. }
assert (ext None s1 (if inst then install metas l s1 else s1)) as E2.
{ destruct inst; [apply install_ext, E1|apply ext_refl, E1]. }
injection Ha as <- <-. etrans; [exact E1|]. etrans; [exact E2|]. eapply IH; [apply E2|done].
- by apply IH.
Qed.

Lemma run_outputs_ext l input resp ops (s : st) r s' :
good s -> run_outputs metas req ex l input resp ops s = ODone (r, s') ->
ext (Some l) s s'.
Proof.
revert s. induction ops as [|[name op] ops IH]; intros s G; simpl.
{ intros [= <- <-]. by apply ext_refl. }
destruct (run_program _ _ _ _ _) as [[r1 s1]| |] eqn:Hr; simpl; [|done..].
pose proof (run_prog_ext _ _ _ _ _ _ G Hr) as E1.
destruct r1 as [out|e]; [|intros [= <- <-]; by apply ext_weaken].
assert (ext None s1 (install_child metas out s1)) as E2.
{ unfold install_child. destruct out; try apply ext_refl, E1. apply install_ext, E1. }
destruct (set_field _ _ _ _) as [s2| |] eqn:Hs; simpl; [|done..]. intros Ho.
pose proof (set_field_ext _ _ _ _ _ (ext_good _ _ _ E2) Hs) as E3.
etrans; [by apply ext_weaken, E1|]. etrans; [by apply ext_weaken, E2|].
etrans; [exact E3|]. eapply IH; [apply E3|done].
Qed.

Lemma CompleterFor_ext m l (s : st) r s' :
good s -> done_at s l -> fetches l (x_trace s.2) = 0 ->
CompleterFor reg metas req ex m l s = ODone (r, s') -> ext (Some l) s s'.
Proof.
intros G Hd H0f. unfold CompleterFor. destruct (s.1 !! l) as [v|] eqn:Hl; [|done].
destruct (NewInputValue _ _ _) as [iv|e] eqn:Hi; [|by intros [= <- <-]; apply ext_refl].
destruct (alloc iv s) as [input s1] eqn:Ha.
assert (ext None s s1) as E1.
{ eapply alloc_ext; [done| |exact Ha]. intros c m' l' Hc _.
unfold NewInputValue in Hi. destruct (reg !! _); by simplify_eq/=. }
destruct (run_program _ _ _ _ _) as [[r1 s2]| |] eqn:Hr; simpl; [|done..].
pose proof (run_prog_ext _ _ _ _ _ _ (ext_good _ _ _ E1) Hr) as E2.
assert (ext None s s2) as E12 by (by etrans).
destruct (as_MetaRequest r1) as [mr|e]; [|intros [= <- <-]; by apply ext_weaken].
destruct (memo_resolve _ _) as [api s3] eqn:Hm.
pose proof (memo_resolve_ext None _ _ _ _ (ext_good _ _ _ E2) Hm) as E3.
assert (ext None s s3) as E13 by (by etrans).
destruct api as [api|e]; [|intros [= <- <-]; by apply ext_weaken].
set (ev := EvCall _ _ _ _ _). intros Ho.
assert (ext (Some l) s (emit ev s3)) as E4.
{ etrans; [by apply ext_weaken, E13|].
apply emit_call_ext; [apply E13|by eapply ext_done|].
rewrite (ext_fetch _ _ _ E13); done. }
destruct (Call _ _ _) as [resp|e]; [|by injection Ho as <- <-].
etrans; [exact E4|]. eapply run_outputs_ext; [apply E4|done].
Qed.
End runs.

Lemma exec_is_ok n : exec_ok (exec reg metas req n).
Proof.
induction n as [|n IH]; intros [m l] s r s' G Hd H0f; simpl; [done|].
by apply CompleterFor_ext.
Qed.

Lemma wire_binds_ext binds (s : st) r s' :
good s -> wire_binds metas binds s = (r, s') -> ext None s s'.
Proof.
revert s. induction binds as [|[name l] binds IH]; intros s G; simpl.
{ intros [= <- <-]. by apply ext_refl. }
destruct (metas !! name) as [m|]; [|by intros [= <- <-]; apply ext_refl].
intros Hw. pose proof (set_completer_ext None l m s G) as E.
etrans; [exact E|]. eapply IH; [apply E|done].
Qed.

Lemma Policy_Evaluate_ext n p a principal now binds (s : st) r s' :
good s -> Policy_Evaluate reg metas req n p a principal now binds s = ODone (r, s') ->
ext None s s'.
Proof.
intros G. unfold Policy_Evaluate, Condition_Eval.
destruct (wire_binds metas binds s) as [[u|e] s1] eqn:Hw;
pose proof (wire_binds_ext _ _ _ _ G Hw) as E1; [|by intros [= <- <-]].
destruct principal as [pr|]; simpl; [|by intros [= <- <-]].
destruct (run_program _ _ _ _ _) as [[r1 s2]| |] eqn:Hr; simpl; [|done..].
intros [= <- <-]. etrans; [exact E1|].
eapply (run_prog_ext _ (exec_is_ok n)); [apply E1|exact Hr].
Qed.

Lemma EvalBinds_ext n bs m (s : st) r s' :
good s -> EvalBinds reg metas req n bs m s = ODone (r, s') -> ext None s s'.
Proof.
revert s r. induction bs as [|b bs IH]; intros s r G; simpl.
{ intros [= <- <-]. by apply ext_refl. }
destruct (run_program _ _ _ _ _) as [[r1 s1]| |] eqn:Hr; simpl; [|done..].
pose proof (run_prog_ext _ (exec_is_ok n) _ _ _ _ _ _ G Hr) as E.
destruct (as_Value r1) as [l|e]; [|by intros [= <- <-]].
destruct (EvalBinds _ _ _ _ _ _ _) as [[r2 s2]| |] eqn:Hb; simpl; [|done..].
intros [= <- <-]. etrans; [exact E|]. eapply IH; [apply E|done].
Qed.
End facts.

(** ** A field that was read keeps its value *)

Lemma set_complete_view {C} c (v : Value C) : v_view (set_complete c v) = v_view v.
Proof. done. Qed.

(** What a read leaves behind: the answer can be read off the heap. *)
Definition settled `{CelEngine} `{Upstream} (l : nat) (field : string) (r : result cval)
    (s : st) : Prop :=
  exists v, s.1 !! l = Some v /\
    match v_inputs v !! field with
    | Some x => r = Ok x
    | None =>
        match v_view v with
        | inputView => r = Err (missingInputViewField v field)
        | fullView =>
            if HasOutputField (v_typ v) field then
              exists c, v_complete v = Some c /\ cp_done c = true /\
                r = match cp_err c with
                    | Some e => Err (complete_error e)
                    | None => match v_outputs v !! field with
                              | Some x => Ok x
                              | None => Err (EMsg "completer did not set output field")
                              end
                    end
            else r = Err (if HasInputField (v_typ v) field then EMsg "input field not set"
                          else EMsg "no field")
        end
    end.

Section stable.
Context `{CelEngine} `{Upstream}.
Variable ex : completer -> st -> outcome (result unit * st).
Hypothesis Hex : exec_ok ex.

Lemma run_settles l v c (s : st) r s' :
good s -> s.1 !! l = Some v -> v_complete v = Some c ->
run ex l c s = ODone (r, s') ->
exists v' c', s'.1 !! l = Some v' /\ same_shape v v' /\ v_complete v' = Some c' /\
cp_done c' = true /\ cp_err c' = match r with Ok _ => None | Err e => Some e end.
Proof.
intros G Hl Hc. unfold run. destruct (cp_done c) eqn:Hd.
{ intros [= <- <-]. exists v, c. unfold sticky. split; [done|]. split; [done|].
by destruct (cp_err c). }
rewrite (upd_eq _ _ _ _ Hl).
set (v1 := set_complete (mkCompletion (cp_fn c) true (cp_err c)) v).
assert (forall r0 (s0 : st) v0, s0.1 !! l = Some v0 -> same_shape v v0 -> is_done v0 = true ->
exists v' c', (record_err l r0 s0).1 !! l = Some v' /\ same_shape v v' /\
  v_complete v' = Some c' /\ cp_done c' = true /\
  cp_err c' = match r0 with Ok _ => None | Err e => Some e end) as Hrec.
{ intros r0 s0 v0 Hv0 S D. unfold record_err. rewrite (upd_eq _ _ _ _ Hv0). simpl.
rewrite list_lookup_insert_eq by (by eapply lookup_lt_Some).
unfold is_done in D. destruct (v_complete v0) as [c0|]; [|done].
eexists _, _. split; [done|]. split; [|by split].
etrans; [exact S|]. by split. }
assert (ext (Some l) s (<[l := v1]> s.1, s.2)) as E1.
{ apply (heap_ext _ _ v); [done..| |].
- intros c' m' l' [= <-] Hf'. by eapply (good_own _ G _ _ Hl).
- split; [by split|]. unfold is_done at 1. rewrite Hc. congruence. }
assert ((<[l := v1]> s.1) !! l = Some v1) as Hl1.
{ apply list_lookup_insert_eq. by eapply lookup_lt_Some. }
destruct (cp_fn c) as [[m l']|] eqn:Hf.
- assert (l' = l) as -> by (by eapply (good_own _ G _ _ Hl)).
destruct (ex (m, l) _) as [[r1 s2]| |] eqn:Hx; simpl; [|done..].
intros [= <- <-].
assert (ext (Some l) (<[l := v1]> s.1, s.2) s2) as E2.
{ apply (Hex (m, l) _ r1); [apply E1|by exists v1| |done].
  pose proof (good_once _ G _ _ Hl) as Ho. unfold is_done in Ho. rewrite Hc, Hd in Ho.
  simpl. lia. }
destruct (ext_heap _ _ _ E2 _ _ Hl1) as (v2 & Hv2 & S2 & D2).
apply (Hrec r1 _ v2); [done| |by apply D2]. etrans; [|exact S2]. by split.
- intros [= <- <-]. by apply (Hrec (Err errNoCompleter) _ v1).
Qed.

Lemma Get_settles l field (s : st) r s' :
good s -> Get ex l (VString field) s = ODone (r, s') -> settled l field r s'.
Proof.
intros G. unfold Get, getFullViewField. destruct (s.1 !! l) as [v|] eqn:Hl; [|done].
destruct (v_inputs v !! field) eqn:Hi.
{ intros [= <- <-]. exists v. by rewrite Hi. }
destruct (v_view v) eqn:Hv; [|intros [= <- <-]; exists v; by rewrite Hi, Hv].
destruct (HasOutputField (v_typ v) field) eqn:Ho.
- destruct (v_complete v) as [c|] eqn:Hc; [|done].
destruct (run ex l c s) as [[r1 s1]| |] eqn:Hr; simpl; [|done..].
destruct (run_settles _ _ _ _ _ _ G Hl Hc Hr) as (v' & c' & Hv' & [S1 S2 S3 S4] & Hc' & Hd & He).
intros Hres. assert (s1 = s') as -> by (destruct r1; by injection Hres).
exists v'. split; [done|]. rewrite S4, Hi, S2, Hv, S1, Ho.
exists c'. split; [done|]. split; [done|]. rewrite He.
destruct r1; injection Hres as <-; [|done]. unfold output_field. by rewrite Hv'.
- intros Hres. exists v. destruct (HasInputField (v_typ v) field) eqn:Hin;
  injection Hres as <- <-; by rewrite ?Hl, Hi, Hv, Ho.
Qed.

Lemma settled_ext l field r (s s' : st) : settled l field r s -> ext None s s' -> settled l field r s'.
Proof.
intros (v & Hl & Hr) E. destruct (ext_heap _ _ _ E _ _ Hl) as (v' & Hv' & [S1 S2 S3 S4] & D).
exists v'. split; [done|]. rewrite S4, S2, S1. destruct (v_inputs v !! field); [done|].
unfold missingInputViewField in *. rewrite S1. destruct (v_view v); [|done].
destruct (HasOutputField (v_typ v) field); [|done]. destruct Hr as (c & Hc & Hd & ->).
destruct D as [_ D]; [unfold is_done; by rewrite Hc|]. rewrite D by done. eauto.
Qed.

Lemma settled_Get l field r (s : st) : settled l field r s -> Get ex l (VString field) s = ODone (r, s).
Proof.
intros (v & Hl & Hr). unfold Get, getFullViewField. rewrite Hl.
destruct (v_inputs v !! field); [by subst|]. destruct (v_view v); [|by subst].
destruct (HasOutputField (v_typ v) field); [|by rewrite Hr; case_match].
destruct Hr as (c & -> & Hd & ->). unfold run, sticky. rewrite Hd. simpl.
destruct (cp_err c); [done|]. unfold output_field. by rewrite Hl.
Qed.
End stable.
