(* ===== verification/PolicyStore.v ===== *)
(** * The per-API policy store: [policyStore] of [internal/runtime/api.go]

    Two buckets, deny before permit, kept as slices in evaluation order.  The
    theorems: a store maintained by [replace] and [remove] refines a finite
    map from names to compiled policies, and an edit never moves a policy
    unless it flips its result.  (Every operation runs under one mutex, so
    operations are atomic steps.) *)

From S2P Require Import Prelude GoStd Models PathTemplate Messages Compiled.

Record policyStore := mkStore {
  ps_deny : list CPolicy;
  ps_permit : list CPolicy
}.

Definition newPolicyStore : policyStore := mkStore [] [].

Definition has_name (name : string) (p : CPolicy) : bool := bool_decide (cp_Name p = name).

Definition indexByName (ps : list CPolicy) (name : string) : option nat :=
  find_index (has_name name) ps.

Definition appendLocked (p : CPolicy) (s : policyStore) : policyStore :=
  if decide (cp_Result p = Deny)
  then mkStore (ps_deny s ++ [p]) (ps_permit s)
  else mkStore (ps_deny s) (ps_permit s ++ [p]).

Definition removeLocked (name : string) (s : policyStore) : bool * policyStore :=
  match indexByName (ps_deny s) name with
  | Some i => (true, mkStore (remove_at i (ps_deny s)) (ps_permit s))
  | None =>
      match indexByName (ps_permit s) name with
      | Some i => (true, mkStore (ps_deny s) (remove_at i (ps_permit s)))
      | None => (false, s)
      end
  end.

Definition ps_add (p : CPolicy) (s : policyStore) : policyStore := appendLocked p s.

Definition ps_replace (p : CPolicy) (s : policyStore) : bool * policyStore :=
  let is_deny := bool_decide (cp_Result p = Deny) in
  let bucket := if is_deny then ps_deny s else ps_permit s in
  match indexByName bucket (cp_Name p) with
  | Some i =>
      (true, if is_deny then mkStore (<[i := p]> (ps_deny s)) (ps_permit s)
             else mkStore (ps_deny s) (<[i := p]> (ps_permit s)))
  | None =>
      let '(existed, s) := removeLocked (cp_Name p) s in
      (existed, appendLocked p s)
  end.

Definition ps_remove (name : string) (s : policyStore) : bool * policyStore :=
  removeLocked name s.

Definition ps_list (s : policyStore) : list Policy :=
  map cp_source (ps_deny s) ++ map cp_source (ps_permit s).

Definition ps_all (s : policyStore) : list CPolicy := ps_deny s ++ ps_permit s.

(** ** Invariant *)

Definition names (ps : list CPolicy) : list string := map cp_Name ps.

Record store_wf (s : policyStore) : Prop := {
  wf_deny : Forall (fun p => cp_Result p = Deny) (ps_deny s);
  wf_permit : Forall (fun p => cp_Result p <> Deny) (ps_permit s);
  wf_names : NoDup (names (ps_all s))
}.

Lemma newPolicyStore_wf : store_wf newPolicyStore.
Proof. split; constructor. Qed.

Lemma indexByName_None ps name :
  indexByName ps name = None <-> forall p, p ∈ ps -> cp_Name p <> name.
Proof.
  unfold indexByName. rewrite find_index_None, Forall_forall. unfold has_name.
  by setoid_rewrite bool_decide_eq_false.
Qed.

Lemma indexByName_Some ps name i :
  indexByName ps name = Some i ->
  exists l1 p l2, ps = l1 ++ p :: l2 /\ length l1 = i /\ cp_Name p = name.
Proof.
  unfold indexByName, has_name. rewrite find_index_Some.
  intros (l1 & p & l2 & -> & <- & Hp & _). exists l1, p, l2. by bool_simp.
Qed.

(** Replacing or dropping the one policy of a name, as a list with a hole. *)
Lemma names_hole l1 p l2 :
  NoDup (names (l1 ++ p :: l2)) ->
  NoDup (names (l1 ++ l2)) /\ forall q, q ∈ l1 ++ l2 <-> q ∈ l1 ++ p :: l2 /\ cp_Name q <> cp_Name p.
Proof.
  unfold names. rewrite map_app, map_cons.
  rewrite <- Permutation_middle, NoDup_cons, <- map_app. intros [Hp Hnd].
  split; [done|]. intros q. rewrite <- Permutation_middle, elem_of_cons. split.
  - intros Hq. split; [by right|]. intros E. apply Hp. rewrite <- E.
    apply list_elem_of_fmap. by exists q.
  - intros [[->|Hq] Hne]; [done|done].
Qed.

Lemma names_fill l1 q l2 :
  NoDup (names (l1 ++ l2)) -> (forall p, p ∈ l1 ++ l2 -> cp_Name p <> cp_Name q) ->
  NoDup (names (l1 ++ q :: l2)).
Proof.
  intros Hnd Hq. unfold names in *. rewrite map_app, map_cons.
  rewrite <- Permutation_middle, NoDup_cons, <- map_app. split; [|done].
  rewrite list_elem_of_fmap. intros (p & E & Hp). by apply (Hq p).
Qed.

(** The two buckets as one list around the policy called [name]. *)
Lemma store_split s name :
  (forall p, p ∈ ps_all s -> cp_Name p <> name) \/
  exists l1 p l2, cp_Name p = name /\
    (ps_deny s = l1 ++ p :: l2 /\ indexByName (ps_deny s) name = Some (length l1) \/
     ps_permit s = l1 ++ p :: l2 /\
       indexByName (ps_deny s) name = None /\ indexByName (ps_permit s) name = Some (length l1)).
Proof.
  destruct s as [d p]. simpl.
  destruct (indexByName d name) as [i|] eqn:Hd.
  { right. destruct (indexByName_Some _ _ _ Hd) as (l1 & q & l2 & -> & <- & Hq).
    exists l1, q, l2. naive_solver. }
  destruct (indexByName p name) as [i|] eqn:Hp.
  { right. destruct (indexByName_Some _ _ _ Hp) as (l1 & q & l2 & -> & <- & Hq).
    exists l1, q, l2. naive_solver. }
  left. rewrite indexByName_None in Hd, Hp. unfold ps_all. set_solver.
Qed.

Lemma removeLocked_spec name s b s' :
  store_wf s -> removeLocked name s = (b, s') ->
  store_wf s' /\
  (forall q, q ∈ ps_all s' <-> q ∈ ps_all s /\ cp_Name q <> name) /\
  (b = true <-> exists q, q ∈ ps_all s /\ cp_Name q = name).
Proof.
  destruct s as [d pm]. intros [Hd Hp Hn] Hr.
  destruct (store_split (mkStore d pm) name) as [Hno|(l1 & p & l2 & En & [[E Hi]|(E & Hi & Hj)])].
  - unfold removeLocked in Hr. cbn [ps_deny ps_permit] in Hr.
    assert (indexByName d name = None) as E1.
    { apply indexByName_None. intros q Hq. apply Hno. unfold ps_all. set_solver. }
    assert (indexByName pm name = None) as E2.
    { apply indexByName_None. intros q Hq. apply Hno. unfold ps_all. set_solver. }
    rewrite E1, E2 in Hr. injection Hr as <- <-. split; [by split|]. naive_solver.
  - unfold removeLocked in Hr. cbn [ps_deny ps_permit] in *. subst. rewrite Hi, remove_at_app in Hr. injection Hr as <- <-.
    unfold ps_all in *. cbn [ps_deny ps_permit] in *. rewrite <- app_assoc in Hn. cbn [app] in Hn.
    destruct (names_hole _ _ _ Hn) as [Hn' Hin]. rewrite app_assoc in Hn', Hin.
    apply Forall_app in Hd as [Hd1 [_ Hd2]%Forall_cons]. split; [split; simpl|].
    + by apply Forall_app.
    + done.
    + done.
    + split; [intros q; by rewrite Hin, <- app_assoc|]. split; [intros _|done].
      exists p. split; [|done]. set_solver.
  - unfold removeLocked in Hr. cbn [ps_deny ps_permit] in *. subst. rewrite Hi, Hj, remove_at_app in Hr.
    injection Hr as <- <-. unfold ps_all in *. cbn [ps_deny ps_permit] in *. rewrite app_assoc in Hn.
    destruct (names_hole _ _ _ Hn) as [Hn' Hin]. rewrite <- app_assoc in Hn', Hin.
    apply Forall_app in Hp as [Hp1 [_ Hp2]%Forall_cons]. split; [split; simpl|].
    + done.
    + by apply Forall_app.
    + done.
    + split; [intros q; by rewrite Hin, app_assoc|]. split; [intros _|done].
      exists p. split; [|done]. set_solver.
Qed.

Lemma appendLocked_spec p s :
  store_wf s -> (forall q, q ∈ ps_all s -> cp_Name q <> cp_Name p) ->
  store_wf (appendLocked p s) /\
  (forall q, q ∈ ps_all (appendLocked p s) <-> q = p \/ q ∈ ps_all s).
Proof.
  intros [Hd Hp Hn] Hno. unfold appendLocked, ps_all in *. case_decide as Hr; simpl.
  - split; [split; simpl|set_solver].
    + by apply Forall_app; split; [|constructor].
    + done.
    + unfold ps_all. simpl. rewrite <- app_assoc. by apply names_fill.
  - split; [split; simpl|set_solver].
    + done.
    + by apply Forall_app; split; [|constructor].
    + unfold ps_all. simpl. rewrite app_assoc. apply names_fill; by rewrite app_nil_r.
Qed.

(** Overwriting the hole: the members and the names. *)
Lemma overwrite_spec l1 p q l2 :
  cp_Name p = cp_Name q -> NoDup (names (l1 ++ p :: l2)) ->
  NoDup (names (l1 ++ q :: l2)) /\
  (forall r, r ∈ l1 ++ q :: l2 <-> r = q \/ r ∈ l1 ++ p :: l2 /\ cp_Name r <> cp_Name q).
Proof.
  intros E Hn. destruct (names_hole _ _ _ Hn) as [_ Hin]. split.
  - unfold names in *. rewrite map_app, map_cons in *. by rewrite <- E.
  - intros r. rewrite <- E, <- Hin. set_solver.
Qed.

(** Where [replace] puts the policy. *)
Lemma ps_replace_cases p s b s' :
  store_wf s -> ps_replace p s = (b, s') ->
  (exists l1 old l2, b = true /\ cp_Name old = cp_Name p /\
     ps_all s = l1 ++ old :: l2 /\ ps_all s' = l1 ++ p :: l2 /\
     (cp_Result p = Deny <-> cp_Result old = Deny) /\ store_wf s') \/
  exists s1, removeLocked (cp_Name p) s = (b, s1) /\ s' = appendLocked p s1 /\
    forall q, q ∈ ps_all s -> cp_Name q = cp_Name p -> ~ (cp_Result p = Deny <-> cp_Result q = Deny).
Proof.
  intros [Hd Hp Hn] Hr. unfold ps_replace in Hr.
  destruct (decide (cp_Result p = Deny)) as [Hpd|Hpd].
  - rewrite bool_decide_eq_true_2 in Hr by done.
    destruct (indexByName (ps_deny s) (cp_Name p)) as [i|] eqn:Hi.
    + left. destruct (indexByName_Some _ _ _ Hi) as (l1 & old & l2 & E & <- & En).
      rewrite E, insert_app_at in Hr. injection Hr as <- <-.
      exists l1, old, (l2 ++ ps_permit s). unfold ps_all in *. simpl. rewrite E, <- !app_assoc in *.
      apply Forall_app in Hd as [Hd1 [Hold Hd2]%Forall_cons].
      repeat split; try done. apply Forall_app; split; [done|by constructor].
      unfold ps_all. simpl. rewrite <- app_assoc. by apply (overwrite_spec l1 old p (l2 ++ ps_permit s)).
    + right. destruct (removeLocked _ s) as [b1 s1] eqn:Hrm. injection Hr as <- <-.
      exists s1. repeat split; try done. intros q [Hq|Hq]%elem_of_app En Hiff.
      * by apply (proj1 (indexByName_None _ _) Hi q).
      * rewrite Forall_forall in Hp. by apply (Hp q), Hiff.
  - rewrite bool_decide_eq_false_2 in Hr by done.
    destruct (indexByName (ps_permit s) (cp_Name p)) as [i|] eqn:Hi.
    + left. destruct (indexByName_Some _ _ _ Hi) as (l1 & old & l2 & E & <- & En).
      rewrite E, insert_app_at in Hr. injection Hr as <- <-.
      exists (ps_deny s ++ l1), old, l2. unfold ps_all in *. simpl. rewrite E, <- !app_assoc in *.
      apply Forall_app in Hp as [Hp1 [Hold Hp2]%Forall_cons].
      repeat split; try done. apply Forall_app; split; [done|by constructor].
      unfold ps_all. simpl. rewrite app_assoc in *. by apply (overwrite_spec _ old p l2).
    + right. destruct (removeLocked _ s) as [b1 s1] eqn:Hrm. injection Hr as <- <-.
      exists s1. repeat split; try done. intros q [Hq|Hq]%elem_of_app En Hiff.
      * rewrite Forall_forall in Hd. by apply Hpd, Hiff, (Hd q).
      * by apply (proj1 (indexByName_None _ _) Hi q).
Qed.

Lemma ps_replace_spec p s b s' :
  store_wf s -> ps_replace p s = (b, s') ->
  store_wf s' /\
  (forall q, q ∈ ps_all s' <-> q = p \/ q ∈ ps_all s /\ cp_Name q <> cp_Name p) /\
  (b = true <-> exists q, q ∈ ps_all s /\ cp_Name q = cp_Name p).
Proof.
  intros Hwf Hr.
  destruct (ps_replace_cases _ _ _ _ Hwf Hr) as
    [(l1 & old & l2 & -> & En & E & E' & _ & Hwf')|(s1 & Hrm & -> & _)].
  - split; [done|]. rewrite E'. pose proof (wf_names _ Hwf) as Hn. rewrite E in *.
    destruct (overwrite_spec _ _ p _ En Hn) as [_ Hin]. split; [done|].
    split; [intros _|done]. exists old. set_solver.
  - destruct (removeLocked_spec _ _ _ _ Hwf Hrm) as (Hwf1 & Hin & Hb).
    destruct (appendLocked_spec p s1 Hwf1) as [Hwf' Hin'].
    { intros q Hq. by apply Hin in Hq as [_ ?]. }
    split; [done|]. split; [|done]. intros q. by rewrite Hin', Hin.
Qed.

#[export] Hint Resolve newPolicyStore_wf : go.

(** ** Properties *)

(** The abstract store: the policy of each name. *)
Definition holds (s : policyStore) (name : string) (p : option CPolicy) : Prop :=
  match p with
  | Some p => p ∈ ps_all s /\ cp_Name p = name
  | None => forall q, q ∈ ps_all s -> cp_Name q <> name
  end.

(** One edit of the store. *)
Inductive store_op : Type := OpReplace (p : CPolicy) | OpRemove (name : string).

Definition store_step (o : store_op) (s : policyStore) : bool * policyStore :=
  match o with OpReplace p => ps_replace p s | OpRemove n => ps_remove n s end.

Definition spec_step (o : store_op) (m : string -> option CPolicy) : string -> option CPolicy :=
  match o with
  | OpReplace p => fun n => if decide (n = cp_Name p) then Some p else m n
  | OpRemove name => fun n => if decide (n = name) then None else m n
  end.

Definition op_name (o : store_op) : string :=
  match o with OpReplace p => cp_Name p | OpRemove n => n end.

Definition run_ops (os : list store_op) (s : policyStore) : policyStore :=
  fold_left (fun s o => (store_step o s).2) os s.

Definition spec_ops (os : list store_op) (m : string -> option CPolicy) : string -> option CPolicy :=
  fold_left (fun m o => spec_step o m) os m.

Lemma store_step_refines o s m :
  store_wf s -> (forall n, holds s n (m n)) ->
  store_wf (store_step o s).2 /\ (forall n, holds (store_step o s).2 n (spec_step o m n)) /\
  ((store_step o s).1 = true <-> is_Some (m (op_name o))).
Proof.
  intros Hwf Hm.
  assert (forall n, (exists q, q ∈ ps_all s /\ cp_Name q = n) <-> is_Some (m n)) as Hex.
  { intros n. specialize (Hm n). destruct (m n) as [p|]; simpl in Hm; split; naive_solver. }
  destruct o as [p|name]; simpl.
  - destruct (ps_replace p s) as [b s'] eqn:Hr.
    destruct (ps_replace_spec _ _ _ _ Hwf Hr) as (Hwf' & Hin & Hb).
    split; [done|]. split; [|by rewrite <- Hex]. intros n. specialize (Hm n). case_decide as En.
    + simpl. by rewrite Hin; eauto.
    + destruct (m n); simpl in *; [rewrite Hin; naive_solver|]. intros q. rewrite Hin. naive_solver.
  - destruct (ps_remove name s) as [b s'] eqn:Hr.
    destruct (removeLocked_spec _ _ _ _ Hwf Hr) as (Hwf' & Hin & Hb).
    split; [done|]. split; [|by rewrite <- Hex]. intros n. specialize (Hm n). case_decide as En.
    + subst. simpl. intros q. rewrite Hin. naive_solver.
    + destruct (m n); simpl in *; [rewrite Hin; naive_solver|]. intros q. rewrite Hin. naive_solver.
Qed.

(** The store refines a map: after any sequence of upserts and removals it
    holds, under each name, exactly the policy the map holds; no name occurs
    twice, deny policies stay in front of permit policies, and the boolean of
    a further edit says whether the name was taken. *)
Theorem store_refines_map (os : list store_op) (o : store_op) :
  let s := run_ops os newPolicyStore in
  let m := spec_ops os (fun _ => None) in
  store_wf s /\ (forall n, holds s n (m n)) /\
  ((store_step o s).1 = true <-> is_Some (m (op_name o))).
Proof.
  simpl.
  assert (forall s m, store_wf s -> (forall n, holds s n (m n)) ->
    store_wf (run_ops os s) /\ forall n, holds (run_ops os s) n (spec_ops os m n)) as Hgo.
  { unfold run_ops, spec_ops. induction os as [|o' os IH]; intros s m Hwf Hm; simpl; [done|].
    destruct (store_step_refines o' s m Hwf Hm) as (Hwf' & Hm' & _). by apply IH. }
  destruct (Hgo newPolicyStore (fun _ => None)) as [Hwf Hm].
  { auto with go. } { intros n q Hq. by apply not_elem_of_nil in Hq. }
  split; [done|]. split; [done|]. by apply store_step_refines.
Qed.

(** Editing a policy without flipping its result leaves the evaluation
    order alone: the new version takes the place of the old one. *)
Theorem ps_replace_keeps_order (s : policyStore) (p old : CPolicy)
    (Hwf : store_wf s) (Hin : old ∈ ps_all s) (Hn : cp_Name old = cp_Name p)
    (Hr : cp_Result p = Deny <-> cp_Result old = Deny) :
  exists l1 l2, ps_all s = l1 ++ old :: l2 /\ ps_all (ps_replace p s).2 = l1 ++ p :: l2.
Proof.
  destruct (ps_replace p s) as [b s'] eqn:E. simpl.
  destruct (ps_replace_cases _ _ _ _ Hwf E) as
    [(l1 & old' & l2 & -> & En & Es & Es' & _)|(s1 & _ & _ & Hno)].
  - exists l1, l2. split; [|done]. pose proof (wf_names _ Hwf) as Hnd.
    destruct (names_hole l1 old' l2) as [_ Hhole]; [by rewrite <- Es|].
    rewrite Es, <- Permutation_middle, elem_of_cons in Hin. destruct Hin as [->|Hold]; [done|].
    apply Hhole in Hold as [_ Hold]. congruence.
  - exfalso. by apply (Hno old).
Qed.

Lemma ps_replace_keeps_order_witness :
  let q n r := mkCPolicy "a" n r (fun _ => Ok VNull) (fun _ => Ok VNull)
      (mkProgram filterEnv true (fun _ => PRet (Ok VNull))) (mkPolicy "a" n "" "" "" "" r) in
  exists l1 l2,
    ps_all (mkStore [q "d" Deny] [q "x" Permit; q "y" Permit]) = l1 ++ q "x" Permit :: l2 /\
    ps_all (ps_replace (mkCPolicy "a" "x" Permit (fun _ => Ok (VBool true)) (fun _ => Ok VNull)
        (mkProgram filterEnv true (fun _ => PRet (Ok VNull))) (mkPolicy "a" "x" "v2" "" "" "" Permit))
      (mkStore [q "d" Deny] [q "x" Permit; q "y" Permit])).2 =
    l1 ++ mkCPolicy "a" "x" Permit (fun _ => Ok (VBool true)) (fun _ => Ok VNull)
        (mkProgram filterEnv true (fun _ => PRet (Ok VNull))) (mkPolicy "a" "x" "v2" "" "" "" Permit) :: l2.
Proof.
  apply ps_replace_keeps_order.
  - split.
    + repeat constructor.
    + repeat (constructor; [discriminate|]). constructor.
    + apply (bool_decide_unpack _). vm_compute. exact I.
  - right. left.
  - reflexivity.
  - split; discriminate.
Defined.
