(* ===== verification/ApiRuntime.v ===== *)
(** * One API's evaluator: [APIRuntime] of [internal/runtime/api.go]

    Compiling an API (types, metas, actions), editing its policies, and
    [Evaluate]: match the actions, then walk the policies deny-first and stop
    at the first condition that fires.  The theorems: a permit means every
    deny policy was consulted and declined, any error denies, and a whole
    evaluation calls upstream at most once per value and builds each API
    client at most once. *)

From S2P Require Import Prelude GoStd Models PathTemplate Messages Compiled Evaluator EvaluatorFacts PolicyStore.

Section api.
Context `{CelEngine} `{Upstream}.

(** [net/url.Parse]: whether it accepts the base URL. *)
Variable url_Parse_ok : string -> bool.

Record APIRuntime := mkAPIRuntime {
ar_name : string;
ar_baseURL : string;
ar_accessDeniedStatus : Z;
ar_authOptional : bool;
ar_registry : Registry;
ar_metas : gmap string Meta;
ar_actions : list CAction;
ar_store : policyStore
}.

Definition with_store (s : policyStore) (r : APIRuntime) : APIRuntime :=
mkAPIRuntime (ar_name r) (ar_baseURL r) (ar_accessDeniedStatus r) (ar_authOptional r)
(ar_registry r) (ar_metas r) (ar_actions r) s.

(** ** Compiling *)

Definition full_name (a : API) (m : Metadata) : string := api_Name a +:+ "." +:+ meta_Name m.

(** The validation loop of [registerAPITypes]. *)
Fixpoint validate_metas (a : API) (ms : list Metadata) (seen : list string) (reg : Registry)
: result unit :=
match ms with
| [] => Ok tt
| m :: ms' =>
  let full := full_name a m in
  fail_if bool_decide (full ∈ seen) with EMsg "duplicate meta" ;;
  fail_if is_some_b (Registry_Get reg full) with EMsg "type is already registered" ;;
  (_ ← wrap_err "api" (ValidateMetaFields m);
   validate_metas a ms' (full :: seen) reg)
end.

Fixpoint register_metas (a : API) (ms : list Metadata) (reg : Registry)
(types : gmap string MetaType) : result (gmap string MetaType) * Registry :=
match ms with
| [] => (Ok types, reg)
| m :: ms' =>
  match RegisterMetaType m (api_Name a) reg with
  | Err e => (Err (EWrap "api" e), reg)
  | Ok (t, reg') => register_metas a ms' reg' (<[meta_Name m := t]> types)
  end
end.

(** The registry is shared and mutated in place: its state on the error path
is part of the result. *)
Definition registerAPITypes (a : API) (reg : Registry)
: result (gmap string MetaType) * Registry :=
match validate_metas a (api_Meta a) [] reg with
| Err e => (Err e, reg)
| Ok _ => register_metas a (api_Meta a) reg ∅
end.

(** A missing type is the nil pointer [types[m.Name]]; it does not arise. *)
Fixpoint compile_metas (a : API) (ms : list Metadata) (reg : Registry)
(types : gmap string MetaType) (acc : gmap string Meta) : result (gmap string Meta) :=
match ms with
| [] => Ok acc
| m :: ms' =>
  match types !! meta_Name m with
  | None => Err (EMsg "nil type")
  | Some t =>
      cm ← wrap_err "api" (CompileMeta m (api_Name a) t reg);
      compile_metas a ms' reg types (<[mt_FullName (m_Type cm) := cm]> acc)
  end
end.

Definition compileAPIMetas (a : API) (reg : Registry) (types : gmap string MetaType)
: result (gmap string Meta) :=
compile_metas a (api_Meta a) reg types ∅.

Definition validateAccessDeniedStatus (a : API) : result unit :=
let s := api_AccessDeniedStatus a in
if bool_decide (s = 0%Z) then Ok tt
else fail_if bool_decide (s < 200)%Z || bool_decide (s > 599)%Z
     with EMsg "access_denied_status must be in [200, 599]" ;; Ok tt.

Definition validateAuth (a : API) : result unit :=
if bool_decide (api_Auth a ∈ [""; "required"; "optional"]) then Ok tt
else Err (EMsg "auth must be one of required|optional").

Definition compileAPIActions (a : API) (reg : Registry) (allMetas : gmap string Meta)
: result APIRuntime :=
actions ← mapM (fun x => wrap_err "api action" (NewAction x (api_Name a) reg allMetas))
          (api_Actions a);
fail_if negb (url_Parse_ok (api_BaseURL a)) with EMsg "base_url" ;;
(_ ← validateAccessDeniedStatus a;
_ ← validateAuth a;
Ok (mkAPIRuntime (api_Name a) (api_BaseURL a) (api_AccessDeniedStatus a) (AuthOptional a)
     reg allMetas actions newPolicyStore)).

(** ** Editing policies *)

Definition compile (r : APIRuntime) (p : Policy) : result CPolicy :=
fail_if bool_decide (pol_API p <> ar_name r) with EMsg "policy targets another api" ;;
NewPolicy p (ar_name r) (ar_registry r).

Definition AR_Add (p : Policy) (r : APIRuntime) : result unit * APIRuntime :=
match compile r p with
| Err e => (Err e, r)
| Ok cp => (Ok tt, with_store (ps_add cp (ar_store r)) r)
end.

Definition AR_Replace (p : Policy) (r : APIRuntime) : result bool * APIRuntime :=
match compile r p with
| Err e => (Err e, r)
| Ok cp => let '(b, s) := ps_replace cp (ar_store r) in (Ok b, with_store s r)
end.

Definition AR_Remove (name : string) (r : APIRuntime) : bool * APIRuntime :=
let '(b, s) := ps_remove name (ar_store r) in (b, with_store s r).

Definition AR_List (r : APIRuntime) : list Policy := ps_list (ar_store r).

(** ** Evaluating *)

Record matchedAction := mkMatched {
ma_name : string;
ma_match : gmap string string;
ma_binds : list (string * nat)
}.

(** The pair Go returns: a decision and an error. *)
Definition decision := (PolicyResult * option goerr)%type.

Section request.
Variable r : APIRuntime.
Variable req : Request.
Variable fuel : nat.

Fixpoint match_actions (acts : list CAction) (s : st)
: outcome (result (list matchedAction) * st) :=
match acts with
| [] => ODone (Ok [], s)
| a :: acts' =>
match CAction_Match req a with
| Err e => ODone (Err e, s)
| Ok None => match_actions acts' s
| Ok (Some m) =>
  obind (EvalBinds (ar_registry r) (ar_metas r) req fuel (ca_Binds a) m s)
    (fun '(b, s) =>
      match b with
      | Err e => ODone (Err e, s)
      | Ok binds =>
          obind (match_actions acts' s) (fun '(rest, s) =>
            ODone ((fun ms => mkMatched (ca_Name a) m binds :: ms) <$> rest, s))
      end)
end
end.

Definition matchActions (s : st) : outcome (result (list matchedAction) * st) :=
match_actions (ar_actions r) s.

Definition MatchedActions (s : st) : outcome (result (list string) * st) :=
obind (matchActions s) (fun '(ms, s) => ODone (map ma_name <$> ms, s)).

Variable principal : option Principal.
Variable now : Z.

(** The inner loop, over the matched actions of one policy: [None] when no
pair fired, the decision that ends [Evaluate] otherwise. *)
Fixpoint eval_actions (p : CPolicy) (ms : list matchedAction) (s : st)
: outcome (option decision * st) :=
match ms with
| [] => ODone (None, s)
| m :: ms' =>
match AppliesTo req p (ma_name m) (ma_match m) principal now with
| Err e => ODone (Some (Deny, Some e), s)
| Ok false => eval_actions p ms' s
| Ok true =>
  obind (Policy_Evaluate (ar_registry r) (ar_metas r) req fuel p (ma_name m)
           principal now (ma_binds m) s)
    (fun '(fired, s) =>
      let s := emit (EvCond (ma_name m) (cp_Name p) (cp_Result p) fired) s in
      match fired with
      | Err e => ODone (Some (Deny, Some e), s)
      | Ok true =>
          ODone (Some (cp_Result p, None),
                 emit (EvFiring (ma_name m) (cp_Name p) (ma_binds m)) s)
      | Ok false => eval_actions p ms' s
      end)
end
end.

Fixpoint eval_policies (ps : list CPolicy) (ms : list matchedAction) (s : st)
: outcome (decision * st) :=
match ps with
| [] => ODone ((Deny, None), s)
| p :: ps' =>
match AppliesToPrincipal req p principal now with
| Err e => ODone ((Deny, Some e), s)
| Ok false => eval_policies ps' ms s
| Ok true =>
  obind (eval_actions p ms s) (fun '(d, s) =>
    match d with
    | Some d => ODone (d, s)
    | None => eval_policies ps' ms s
    end)
end
end.

Definition AR_Evaluate (s : st) : outcome (decision * st) :=
match principal with
| None => ODone ((Deny, Some (EMsg "principal is required")), s)
| Some _ =>
obind (matchActions s) (fun '(ms, s) =>
match ms with
| Err e => ODone ((Deny, Some e), s)
| Ok [] => ODone ((Deny, None), s)
| Ok ms => eval_policies (ps_all (ar_store r)) ms s
end)
end.
End request.
End api.

(** The state an evaluation starts from. *)
Definition init_st `{Upstream} : st := ([], mkX [] ∅).

(** ** How an evaluation ends *)

Section evaluate_facts.
Context `{CelEngine} `{Upstream}.
Variable r : APIRuntime.
Variable req : Request.
Variable fuel : nat.
Variable principal : option Principal.
Variable now : Z.

(** The pair was considered and did not fire, without an error: either the
action predicate said no, or the condition was run and is on record as
false. *)
Definition pair_declined (tr : list event) (q : CPolicy) (m : matchedAction) : Prop :=
AppliesTo req q (ma_name m) (ma_match m) principal now = Ok false \/
AppliesTo req q (ma_name m) (ma_match m) principal now = Ok true /\
EvCond (ma_name m) (cp_Name q) (cp_Result q) (Ok false) ∈ tr.

Definition declined (tr : list event) (ms : list matchedAction) (q : CPolicy) : Prop :=
AppliesToPrincipal req q principal now = Ok false \/
AppliesToPrincipal req q principal now = Ok true /\ Forall (pair_declined tr q) ms.

Definition fires (tr : list event) (ms : list matchedAction) (q : CPolicy) : Prop :=
AppliesToPrincipal req q principal now = Ok true /\
exists m, m ∈ ms /\ AppliesTo req q (ma_name m) (ma_match m) principal now = Ok true /\
EvCond (ma_name m) (cp_Name q) (cp_Result q) (Ok true) ∈ tr.

Lemma elem_of_prefix {A} (x : A) l l' : l `prefix_of` l' -> x ∈ l -> x ∈ l'.
Proof. intros [k ->] Hx. apply elem_of_app. by left. Qed.

Lemma pair_declined_mono tr tr' q m :
tr `prefix_of` tr' -> pair_declined tr q m -> pair_declined tr' q m.
Proof.
intros Hp [?|[? Hin]]; [by left|]. right. split; [done|]. by eapply elem_of_prefix.
Qed.

Lemma declined_mono tr tr' ms q : tr `prefix_of` tr' -> declined tr ms q -> declined tr' ms q.
Proof.
intros Hp [?|[? HF]]; [by left|]. right. split; [done|].
eapply Forall_impl; [exact HF|]. intros m. by apply pair_declined_mono.
Qed.

Lemma emit_last ev (s : st) : ev ∈ x_trace (emit ev s).2.
Proof. simpl. set_solver. Qed.

Lemma eval_actions_inv p ms (s : st) d s' :
good s -> eval_actions r req fuel principal now p ms s = ODone (d, s') ->
ext None s s' /\
match d with
| None => Forall (pair_declined (x_trace s'.2) p) ms
| Some (res, Some _) => res = Deny
| Some (res, None) => res = cp_Result p /\ exists m, m ∈ ms /\
  AppliesTo req p (ma_name m) (ma_match m) principal now = Ok true /\
  EvCond (ma_name m) (cp_Name p) (cp_Result p) (Ok true) ∈ x_trace s'.2
end.
Proof.
revert s. induction ms as [|m ms IH]; intros s G; simpl.
{ intros [= <- <-]. split; [by apply ext_refl|constructor]. }
destruct (AppliesTo req p _ _ _ _) as [[]|e] eqn:Ha.
2:{ intros Hr. destruct (IH _ G Hr) as [E Hd]. split; [done|].
  destruct d as [[res [e|]]|]; [done| |].
  - destruct Hd as (-> & m' & ? & ?). split; [done|]. exists m'. set_solver.
  - constructor; [by left|done]. }
2:{ intros [= <- <-]. split; [by apply ext_refl|done]. }
destruct (Policy_Evaluate _ _ _ _ _ _ _ _ _ _) as [[fired s1]| |] eqn:Hp; simpl; [|done..].
pose proof (Policy_Evaluate_ext _ _ _ _ _ _ _ _ _ _ _ _ G Hp) as E1.
set (ev := EvCond _ _ _ _).
assert (ext None s1 (emit ev s1)) as E2 by (by apply emit_quiet_ext; [apply E1|..]).
assert (ext None s (emit ev s1)) as E12 by (by etrans).
destruct fired as [[]|e].
- intros [= <- <-].
assert (ext None (emit ev s1) (emit (EvFiring (ma_name m) (cp_Name p) (ma_binds m)) (emit ev s1)))
  as E3 by (by apply emit_quiet_ext; [apply E2|..]).
split; [by etrans|]. split; [done|]. exists m. split; [set_solver|]. split; [done|].
eapply elem_of_prefix; [apply E3|apply emit_last].
- intros Hr. destruct (IH _ (ext_good _ _ _ E12) Hr) as [E Hd]. split; [by etrans|].
destruct d as [[res [e|]]|]; [done| |].
+ destruct Hd as (-> & m' & ? & ?). split; [done|]. exists m'. set_solver.
+ constructor; [|done]. right. split; [done|].
  eapply elem_of_prefix; [apply E|apply emit_last].
- intros [= <- <-]. by split.
Qed.

Lemma eval_policies_inv ps ms (s : st) d s' :
good s -> eval_policies r req fuel principal now ps ms s = ODone (d, s') ->
ext None s s' /\
match d with
| (res, Some _) => res = Deny
| (res, None) =>
  (res = Deny /\ Forall (declined (x_trace s'.2) ms) ps) \/
  exists l1 p l2, ps = l1 ++ p :: l2 /\ res = cp_Result p /\
    Forall (declined (x_trace s'.2) ms) l1 /\ fires (x_trace s'.2) ms p
end.
Proof.
revert s. induction ps as [|p ps IH]; intros s G; simpl.
{ intros [= <- <-]. split; [by apply ext_refl|]. left. by split. }
assert (forall s1 : st, ext None s s1 ->
eval_policies r req fuel principal now ps ms s1 = ODone (d, s') ->
declined (x_trace s1.2) ms p ->
ext None s s' /\ match d with
| (res, Some _) => res = Deny
| (res, None) =>
  (res = Deny /\ Forall (declined (x_trace s'.2) ms) (p :: ps)) \/
  exists l1 q l2, p :: ps = l1 ++ q :: l2 /\ res = cp_Result q /\
    Forall (declined (x_trace s'.2) ms) l1 /\ fires (x_trace s'.2) ms q
end) as Hnext.
{ intros s1 E1 Hr Hdec. destruct (IH _ (ext_good _ _ _ E1) Hr) as [E Hd].
split; [by etrans|]. apply (declined_mono _ (x_trace s'.2)) in Hdec; [|apply E].
destruct d as [res [e|]]; [done|]. destruct Hd as [[-> HF]|(l1 & q & l2 & -> & -> & HF & Hf)].
- left. split; [done|by constructor].
- right. exists (p :: l1), q, l2. split; [done|]. split; [done|]. split; [by constructor|done]. }
destruct (AppliesToPrincipal req p principal now) as [[]|e] eqn:Hpr.
- destruct (eval_actions _ _ _ _ _ _ _ _) as [[d1 s1]| |] eqn:Ha; simpl; [|done..].
destruct (eval_actions_inv _ _ _ _ _ G Ha) as [E1 Hd1].
destruct d1 as [[res [e|]]|].
+ intros [= <- <-]. by split.
+ intros [= <- <-]. destruct Hd1 as [-> Hm]. split; [done|]. right.
  exists [], p, ps. split; [done|]. split; [done|]. by split.
+ intros Hr. apply (Hnext s1); [done..|]. by right.
- intros Hr. apply (Hnext s); [by apply ext_refl|done|]. by left.
- intros [= <- <-]. split; [by apply ext_refl|done].
Qed.

Lemma match_actions_ext acts (s : st) ms s' :
good s -> match_actions r req fuel acts s = ODone (ms, s') -> ext None s s'.
Proof.
revert s ms. induction acts as [|a acts IH]; intros s ms G; simpl.
{ intros [= <- <-]. by apply ext_refl. }
destruct (CAction_Match req a) as [[m|]|e]; [|by apply IH|intros [= <- <-]; by apply ext_refl].
destruct (EvalBinds _ _ _ _ _ _ _) as [[b s1]| |] eqn:Hb; simpl; [|done..].
pose proof (EvalBinds_ext _ _ _ _ _ _ _ _ _ G Hb) as E1.
destruct b as [binds|e]; [|by intros [= <- <-]].
destruct (match_actions _ _ _ acts s1) as [[rest s2]| |] eqn:Hm; simpl; [|done..].
intros [= <- <-]. etrans; [exact E1|]. eapply IH; [apply E1|done].
Qed.

End evaluate_facts.

Lemma AR_Evaluate_inv `{CelEngine} `{Upstream} r req fuel principal now (s : st) d s' :
  good s -> AR_Evaluate r req fuel principal now s = ODone (d, s') ->
  ext None s s' /\
  (d.2 <> None -> d.1 = Deny) /\
  (d.1 = Deny \/ exists ms s1 l1 p l2,
     matchActions r req fuel s = ODone (Ok ms, s1) /\ ms <> [] /\
     ps_all (ar_store r) = l1 ++ p :: l2 /\ d.1 = cp_Result p /\
     Forall (declined req principal now (x_trace s'.2) ms) l1 /\
     fires req principal now (x_trace s'.2) ms p).
Proof.
  intros G. unfold AR_Evaluate, matchActions.
  destruct principal as [pr|]; [|intros [= <- <-]; split; [by apply ext_refl|]; naive_solver].
  destruct (match_actions r req fuel (ar_actions r) s) as [[[ms|e] s1]| |] eqn:Hm; simpl; [| |done..].
  2:{ intros [= <- <-]. split; [by eapply match_actions_ext|]. naive_solver. }
  pose proof (match_actions_ext _ _ _ _ _ _ _ G Hm) as E1.
  destruct ms as [|m ms]; [intros [= <- <-]; split; [done|]; naive_solver|].
  intros Hr. destruct (eval_policies_inv _ _ _ _ _ _ _ _ _ _ (ext_good _ _ _ E1) Hr) as [E Hd].
  split; [by etrans|]. destruct d as [res [e|]]; simpl; [naive_solver|].
  split; [done|]. destruct Hd as [[-> _]|(l1 & p & l2 & Hps & -> & HF & Hf)]; [by left|].
  right. by exists (m :: ms), s1, l1, p, l2.
Qed.

Lemma init_good `{CelEngine} `{Upstream} : good init_st.
Proof.
  by split.
Qed.

(** ** Properties *)

(** C1. A permit is earned.  When [Evaluate] answers anything but deny, it
    reported no error, some action matched, and the answer is the result of a
    policy of the store whose principal predicate, action predicate and
    condition all held for one matched action; every policy before it, hence
    every deny policy of the API, was consulted and declined: its principal
    predicate said no or, for each matched action, its action predicate said
    no or its condition was run and is on record as false. *)
Theorem AR_Evaluate_permit_sound `{CelEngine} `{Upstream} (r : APIRuntime) (req : Request)
    (fuel : nat) (principal : option Principal) (now : Z) (s s' : st)
    (res : PolicyResult) (err : option goerr)
    (Hg : good s) (Hwf : store_wf (ar_store r))
    (He : AR_Evaluate r req fuel principal now s = ODone ((res, err), s'))
    (Hres : res <> Deny) :
  err = None /\
  exists ms s1, matchActions r req fuel s = ODone (Ok ms, s1) /\ ms <> [] /\
    Forall (declined req principal now (x_trace s'.2) ms) (ps_deny (ar_store r)) /\
    exists l1 p l2, ps_permit (ar_store r) = l1 ++ p :: l2 /\ cp_Result p = res /\
      Forall (declined req principal now (x_trace s'.2) ms) l1 /\
      fires req principal now (x_trace s'.2) ms p.
Proof.
  destruct (AR_Evaluate_inv _ _ _ _ _ _ _ _ Hg He) as (_ & Herr & Hd). simpl in *.
  split. { destruct err; [|done]. exfalso. by apply Hres, Herr. }
  destruct Hd as [?|(ms & s1 & l1 & p & l2 & Hm & Hne & Hps & Hr & HF & Hf)]; [done|].
  exists ms, s1. split; [done|]. split; [done|]. unfold ps_all in Hps.
  destruct (app_eq_inv _ _ _ _ Hps) as [(k & Hk & Hk')|(k & Hk & Hk')].
  - destruct k as [|q k].
    + rewrite app_nil_r in Hk. rewrite Hk. split; [done|]. exists [], p, l2.
      split; [done|]. split; [done|]. by split; [constructor|].
    + simplify_eq/=. exfalso. apply Hres. pose proof (wf_deny _ Hwf) as Hd.
      rewrite Hk in Hd. apply Forall_app in Hd as [_ [Hd _]%Forall_cons]. congruence.
  - rewrite Hk in HF. apply Forall_app in HF as [HF1 HF2].
    split; [done|]. exists k, p, l2. repeat split; try done; apply Hf.
Qed.

(** The deny policy's condition fetches the title and is false; the permit
    policy's condition reads the same value. *)
Definition demo_runtime : APIRuntime :=
  mkAPIRuntime "docs" "https://docs" 0 false demo_reg demo_metas [demo_action]
    (mkStore [demo_policy "no-secrets" Deny "secret"] [demo_policy "readers" Permit "/d/7"]).

Definition demo_eval : outcome (decision * @st demo_up) :=
  @AR_Evaluate demo_cel demo_up demo_runtime demo_req 1 demo_principal 0%Z (@init_st demo_up).

Definition demo_final : @st demo_up :=
  match demo_eval with ODone (_, s) => s | _ => @init_st demo_up end.

Lemma AR_Evaluate_permit_sound_witness :
  demo_eval = ODone ((Permit, None), demo_final) /\
  (None : option goerr) = None /\
  exists ms s1,
    @matchActions demo_cel demo_up demo_runtime demo_req 1 (@init_st demo_up) = ODone (Ok ms, s1) /\
    ms <> [] /\
    Forall (declined demo_req demo_principal 0%Z (x_trace demo_final.2) ms)
      (ps_deny (ar_store demo_runtime)) /\
    exists l1 p l2, ps_permit (ar_store demo_runtime) = l1 ++ p :: l2 /\ cp_Result p = Permit /\
      Forall (declined demo_req demo_principal 0%Z (x_trace demo_final.2) ms) l1 /\
      fires demo_req demo_principal 0%Z (x_trace demo_final.2) ms p.
Proof.
  split; [vm_compute; reflexivity|].
  apply (@AR_Evaluate_permit_sound demo_cel demo_up demo_runtime demo_req 1 demo_principal 0%Z
    (@init_st demo_up)).
  - apply (@init_good demo_cel demo_up).
  - split.
    + repeat constructor.
    + repeat (constructor; [discriminate|]). constructor.
    + apply (bool_decide_unpack _). vm_compute. exact I.
  - vm_compute. reflexivity.
  - discriminate.
Defined.

(** C7. A whole evaluation, over all matched actions and policies, issues at
    most one upstream call per meta value, and builds each API's client at
    most once, successful or not: the completion is one-shot and sticky and
    the resolver is memoised. *)
Theorem AR_Evaluate_fetch_once `{CelEngine} `{Upstream} (r : APIRuntime) (req : Request)
    (fuel : nat) (principal : option Principal) (now : Z) (d : decision) (s' : st)
    (He : AR_Evaluate r req fuel principal now init_st = ODone (d, s')) :
  (forall l, fetches l (x_trace s'.2) <= 1) /\ (forall name, resolves name (x_trace s'.2) <= 1).
Proof.
  destruct (AR_Evaluate_inv _ _ _ _ _ _ _ _ init_good He) as [[G _ _ _] _]. split.
  - intros l. destruct (s'.1 !! l) as [v|] eqn:Hl.
    + etrans; [by apply G|]. case_match; lia.
    + rewrite (good_fresh _ G) by (by apply lookup_ge_None). lia.
  - intros n. rewrite (good_cache _ G). case_match; lia.
Qed.

Lemma AR_Evaluate_fetch_once_witness :
  fetches 0 (x_trace demo_final.2) = 1 /\
  ((forall l, fetches l (x_trace demo_final.2) <= 1) /\
   (forall name, resolves name (x_trace demo_final.2) <= 1)).
Proof.
  split; [vm_compute; reflexivity|].
  apply (@AR_Evaluate_fetch_once demo_cel demo_up demo_runtime demo_req 1 demo_principal 0%Z
    (Permit, None)).
  vm_compute. reflexivity.
Defined.
