(* ===== verification/Reads.v ===== *)
(** * What an evaluation reads

    The log of the field reads the binds and conditions of one [Evaluate] make,
    in order, each with the state it starts from and the one it leaves:
    [AR_Evaluate_reads] walks the loops of [APIRuntime.Evaluate] and replays
    every program with [prog_reads].  The theorem: two reads of one field of one
    value give the same answer, and the second runs no completer, whichever
    binds, conditions and policies make them.  Reads a completer makes of its
    own [input] are inside the read that fired it and are not listed. *)

From S2P Require Import Prelude GoStd Models PathTemplate Messages Compiled Evaluator EvaluatorFacts PolicyStore ApiRuntime.

(** ** The log *)

Record read `{Upstream} := mkRead {
  rd_loc : nat;
  rd_key : cval;
  rd_res : result cval;
  rd_from : st;
  rd_to : st
}.

Section log.
Context `{CelEngine} `{Upstream}.
Variable r : APIRuntime.
Variable req : Request.
Variable fuel : nat.
Notation ex := (exec (ar_registry r) (ar_metas r) req fuel).

(** The reads of one program: the walk of [run_prog]. *)
Fixpoint prog_reads (o : env_opts) (installs : bool) (p : prog) (s : st) : list read :=
match p with
| PRet _ => []
| PGet l key k =>
  match Get ex l key s with
  | ODone (v, s') => mkRead _ l key v s s' :: prog_reads o installs (k v) s'
  | _ => []
  end
| PNew ty fields k =>
  match NewValue o ty fields with
  | Err e => prog_reads o installs (k (Err e)) s
  | Ok (BOther v) => prog_reads o installs (k (Ok v)) s
  | Ok (BValue v) =>
    let '(l, s) := alloc v s in
    let s := if installs then install (ar_metas r) l s else s in
    prog_reads o installs (k (Ok (VPtr l))) s
  end
| PPeek k => prog_reads o installs (k (peek s)) s
end.

Definition program_reads (p : program) (act : activation) (s : st) : list read :=
prog_reads (prg_env p) (prg_installs p) (prg_Eval p act) s.

(** What follows a step, if it returned. *)
Definition and_then {A} (m : outcome (A * st)) (k : A -> st -> list read) : list read :=
match m with ODone (a, s) => k a s | _ => [] end.

Fixpoint EvalBinds_reads (bs : list BoundVariable) (m : gmap string string) (s : st) : list read :=
match bs with
| [] => []
| b :: bs' =>
  let act := bind_activation req m in
  program_reads (bind_program (bv_Bind b)) act s ++
  and_then (run_program (ar_metas r) ex (bind_program (bv_Bind b)) act s) (fun v s' =>
    match as_Value v with Ok _ => EvalBinds_reads bs' m s' | Err _ => [] end)
end.

Fixpoint match_reads (acts : list CAction) (s : st) : list read :=
match acts with
| [] => []
| a :: acts' =>
  match CAction_Match req a with
  | Err _ => []
  | Ok None => match_reads acts' s
  | Ok (Some m) =>
    EvalBinds_reads (ca_Binds a) m s ++
    and_then (EvalBinds (ar_registry r) (ar_metas r) req fuel (ca_Binds a) m s) (fun b s' =>
      match b with Ok _ => match_reads acts' s' | Err _ => [] end)
  end
end.

Variable principal : option Principal.
Variable now : Z.

(** One policy's condition, on the state its bind values were wired in. *)
Definition Policy_reads (p : CPolicy) (m : matchedAction) (s : st) : list read :=
match wire_binds (ar_metas r) (ma_binds m) s, principal with
| (Ok _, s'), Some pr =>
  program_reads (cp_condition p) (condition_activation (ma_name m) req pr now (ma_binds m)) s'
| _, _ => []
end.

Fixpoint actions_reads (p : CPolicy) (ms : list matchedAction) (s : st) : list read :=
match ms with
| [] => []
| m :: ms' =>
  match AppliesTo req p (ma_name m) (ma_match m) principal now with
  | Err _ => []
  | Ok false => actions_reads p ms' s
  | Ok true =>
    Policy_reads p m s ++
    and_then (Policy_Evaluate (ar_registry r) (ar_metas r) req fuel p (ma_name m)
                principal now (ma_binds m) s) (fun fired s' =>
      match fired with
      | Ok false =>
          actions_reads p ms' (emit (EvCond (ma_name m) (cp_Name p) (cp_Result p) fired) s')
      | _ => []
      end)
  end
end.

Fixpoint policies_reads (ps : list CPolicy) (ms : list matchedAction) (s : st) : list read :=
match ps with
| [] => []
| p :: ps' =>
  match AppliesToPrincipal req p principal now with
  | Err _ => []
  | Ok false => policies_reads ps' ms s
  | Ok true =>
    actions_reads p ms s ++
    and_then (eval_actions r req fuel principal now p ms s) (fun d s' =>
      match d with Some _ => [] | None => policies_reads ps' ms s' end)
  end
end.

Definition AR_Evaluate_reads (s : st) : list read :=
match principal with
| None => []
| Some _ =>
  match_reads (ar_actions r) s ++
  and_then (matchActions r req fuel s) (fun ms s' =>
    match ms with
    | Ok ((_ :: _) as ms) => policies_reads (ps_all (ar_store r)) ms s'
    | _ => []
    end)
end.
End log.

(** ** Reads in the order of the evaluation *)

Section chained.
Context `{CelEngine} `{Upstream}.
Variable r : APIRuntime.
Variable req : Request.
Variable fuel : nat.
Notation ex := (exec (ar_registry r) (ar_metas r) req fuel).

(** A read between two states of the evaluation. *)
Definition between (s s' : st) (a : read) : Prop :=
ext None s (rd_from a) /\ Get ex (rd_loc a) (rd_key a) (rd_from a) = ODone (rd_res a, rd_to a) /\
ext None (rd_to a) s'.

Definition later (a b : read) : Prop := ext None (rd_to a) (rd_from b).

(** Only finished runs are of interest here: [s'] is where the run ended. *)
Record chained (s : st) (log : list read) (s' : st) : Prop := {
ch_ext : ext None s s';
ch_reads : Forall (between s s') log;
ch_order : StronglySorted later log
}.

Lemma chained_nil s s' : ext None s s' -> chained s [] s'.
Proof. intros E. split; [done|constructor|constructor]. Qed.

Lemma chained_app s log s1 log' s' : chained s log s1 -> chained s1 log' s' -> chained s (log ++ log') s'.
Proof.
intros [E F O] [E' F' O']. split; [by etrans| |].
- apply Forall_app. split; (eapply Forall_impl; [eassumption|]; intros a).
+ intros (Ef & Hg & Et). split; [done|]. split; [done|]. by etrans.
+ intros (Ef & Hg & Et). split; [by etrans|]. by split.
- apply StronglySorted_app_2; [|done|done]. intros a b Ha Hb.
rewrite Forall_forall in F, F'. destruct (F _ Ha) as (_ & _ & Et), (F' _ Hb) as (Ef & _).
unfold later. etrans; [exact Et|exact Ef].
Qed.

Lemma chained_ext_l s s1 log s' : ext None s s1 -> chained s1 log s' -> chained s log s'.
Proof. intros E. apply (chained_app s [] s1). by apply chained_nil. Qed.

Lemma chained_ext_r s log s1 s' : chained s log s1 -> ext None s1 s' -> chained s log s'.
Proof.
intros C E. rewrite <- (app_nil_r log). eapply chained_app; [exact C|]. by apply chained_nil.
Qed.

Lemma prog_chained o inst p (s : st) v s' :
good s -> run_prog (ar_metas r) ex o inst p s = ODone (v, s') ->
chained s (prog_reads r req fuel o inst p s) s'.
Proof.
pose proof (exec_is_ok (ar_registry r) (ar_metas r) req fuel) as Hex.
revert s. induction p as [r0|l key k IH|ty fields k IH|k IH]; intros s G; simpl.
- intros [= <- <-]. by apply chained_nil, ext_refl.
- destruct (Get ex l key s) as [[v1 s1]| |] eqn:Hg; simpl; [|done..]. intros Hr.
pose proof (Get_ext _ Hex _ _ _ _ _ G Hg) as E.
pose proof (IH v1 s1 (ext_good _ _ _ E) Hr) as C.
apply (chained_app s [mkRead _ l key v1 s s1] s1); [|done]. split; [done| |by repeat constructor].
constructor; [|constructor]. split; [by apply ext_refl|]. split; [done|]. apply ext_refl, E.
- destruct (NewValue o ty fields) as [[v1|v1]|e] eqn:Hn; [|by apply IH..]. intros Hr.
set (l := length s.1) in *. set (s1 := (s.1 ++ [v1], s.2)) in *.
assert (ext None s s1) as E1.
{ apply (alloc_ext v1 _ l); [done| |done]. intros c m l' Hc Hf.
destruct (NewValue_no_completer _ _ _ _ Hn) as (c' & ? & ?). congruence. }
assert (ext None s (if inst then install (ar_metas r) l s1 else s1)) as E2.
{ destruct inst; [|done]. etrans; [exact E1|]. apply install_ext, E1. }
eapply chained_ext_l; [exact E2|]. apply (IH _ _ (ext_good _ _ _ E2) Hr).
- by apply IH.
Qed.

Lemma EvalBinds_chained bs m (s : st) v s' :
good s -> EvalBinds (ar_registry r) (ar_metas r) req fuel bs m s = ODone (v, s') ->
chained s (EvalBinds_reads r req fuel bs m s) s'.
Proof.
revert s v. induction bs as [|b bs IH]; intros s v G; cbn [EvalBinds EvalBinds_reads].
{ intros [= <- <-]. by apply chained_nil, ext_refl. }
destruct (run_program _ _ _ _ _) as [[v1 s1]| |] eqn:Hr; simpl; [|done..].
pose proof (prog_chained _ _ _ _ _ _ G Hr) as C.
destruct (as_Value v1) as [l|e]; [|intros [= <- <-]; by rewrite app_nil_r].
destruct (EvalBinds _ _ _ _ _ _ _) as [[r2 s2]| |] eqn:Hb; simpl; [|done..].
intros [= <- <-]. eapply chained_app; [exact C|].
eapply IH; [apply (ch_ext _ _ _ C)|exact Hb].
Qed.

Lemma match_chained acts (s : st) v s' :
good s -> match_actions r req fuel acts s = ODone (v, s') ->
chained s (match_reads r req fuel acts s) s'.
Proof.
revert s v. induction acts as [|a acts IH]; intros s v G; cbn [match_actions match_reads].
{ intros [= <- <-]. by apply chained_nil, ext_refl. }
destruct (CAction_Match req a) as [[m|]|e];
[|by apply IH|intros [= <- <-]; by apply chained_nil, ext_refl].
destruct (EvalBinds _ _ _ _ _ _ _) as [[b s1]| |] eqn:Hb; simpl; [|done..].
pose proof (EvalBinds_chained _ _ _ _ _ G Hb) as C.
destruct b as [binds|e]; [|intros [= <- <-]; by rewrite app_nil_r].
destruct (match_actions _ _ _ acts s1) as [[rest s2]| |] eqn:Hm; simpl; [|done..].
intros [= <- <-]. eapply chained_app; [exact C|]. eapply IH; [apply (ch_ext _ _ _ C)|exact Hm].
Qed.

Variable principal : option Principal.
Variable now : Z.

Lemma Policy_chained p m (s : st) v s' :
good s ->
Policy_Evaluate (ar_registry r) (ar_metas r) req fuel p (ma_name m) principal now (ma_binds m) s
= ODone (v, s') ->
chained s (Policy_reads r req fuel principal now p m s) s'.
Proof.
intros G. unfold Policy_Evaluate, Condition_Eval, Policy_reads.
destruct (wire_binds _ _ s) as [[u|e] s1] eqn:Hw; pose proof (wire_binds_ext _ _ _ _ _ G Hw) as E;
[|intros [= <- <-]; by apply chained_nil].
destruct principal as [pr|]; simpl; [|intros [= <- <-]; by apply chained_nil].
destruct (run_program _ _ _ _ _) as [[v1 s2]| |] eqn:Hr; simpl; [|done..]. intros [= <- <-].
eapply chained_ext_l; [exact E|]. eapply prog_chained; [apply E|exact Hr].
Qed.

Lemma actions_chained p ms (s : st) v s' :
good s -> eval_actions r req fuel principal now p ms s = ODone (v, s') ->
chained s (actions_reads r req fuel principal now p ms s) s'.
Proof.
revert s v. induction ms as [|m ms IH]; intros s v G; cbn [eval_actions actions_reads].
{ intros [= <- <-]. by apply chained_nil, ext_refl. }
destruct (AppliesTo _ _ _ _ _ _) as [[]|e];
[|by apply IH|intros [= <- <-]; by apply chained_nil, ext_refl].
destruct (Policy_Evaluate _ _ _ _ _ _ _ _ _ _) as [[fired s1]| |] eqn:Hp; simpl; [|done..].
pose proof (Policy_chained _ _ _ _ _ G Hp) as C.
assert (forall f, ext None s1 (emit (EvCond (ma_name m) (cp_Name p) (cp_Result p) f) s1)) as E.
{ intros f. by apply emit_quiet_ext; [apply (ch_ext _ _ _ C)|..]. }
destruct fired as [[]|e]; rewrite ?app_nil_r.
- intros [= <- <-]. eapply chained_ext_r; [exact C|]. etrans; [apply E|].
by apply emit_quiet_ext; [apply E|..].
- intros Hr. eapply chained_app; [exact C|]. eapply chained_ext_l; [apply E|].
eapply IH; [apply E|exact Hr].
- intros [= <- <-]. eapply chained_ext_r; [exact C|]. apply E.
Qed.

Lemma policies_chained ps ms (s : st) v s' :
good s -> eval_policies r req fuel principal now ps ms s = ODone (v, s') ->
chained s (policies_reads r req fuel principal now ps ms s) s'.
Proof.
revert s v. induction ps as [|p ps IH]; intros s v G; cbn [eval_policies policies_reads].
{ intros [= <- <-]. by apply chained_nil, ext_refl. }
destruct (AppliesToPrincipal _ _ _ _) as [[]|e];
[|by apply IH|intros [= <- <-]; by apply chained_nil, ext_refl].
destruct (eval_actions _ _ _ _ _ _ _ _) as [[d s1]| |] eqn:Ha; simpl; [|done..].
pose proof (actions_chained _ _ _ _ _ G Ha) as C.
destruct d as [d|]; [intros [= <- <-]; by rewrite app_nil_r|].
intros Hr. eapply chained_app; [exact C|]. eapply IH; [apply (ch_ext _ _ _ C)|exact Hr].
Qed.

Lemma AR_Evaluate_chained (s : st) d s' :
good s -> AR_Evaluate r req fuel principal now s = ODone (d, s') ->
chained s (AR_Evaluate_reads r req fuel principal now s) s'.
Proof.
intros G. unfold AR_Evaluate, AR_Evaluate_reads.
destruct principal as [pr|] eqn:Hp; [|intros [= <- <-]; by apply chained_nil, ext_refl].
destruct (matchActions r req fuel s) as [[ms s1]| |] eqn:Hm; simpl; [|done..].
pose proof (match_chained _ _ _ _ G Hm) as C.
destruct ms as [[|m ms]|e]; try (intros [= <- <-]; by rewrite app_nil_r).
intros Hr. eapply chained_app; [exact C|]. rewrite <- Hp in *.
eapply policies_chained; [apply (ch_ext _ _ _ C)|exact Hr].
Qed.

(** A field read once is settled: reading it later is a lookup. *)
Lemma Get_again l key v (s s1 s2 : st) :
good s -> Get ex l key s = ODone (v, s1) -> ext None s1 s2 -> Get ex l key s2 = ODone (v, s2).
Proof.
intros G Hg E. destruct key as [| | | | |field| | | | | | | | |];
try (simpl in *; by injection Hg as <- <-).
apply settled_Get. eapply settled_ext; [|exact E].
eapply Get_settles; [apply exec_is_ok|exact G|exact Hg].
Qed.
End chained.

(** ** Property *)

(** C8. Policies see one consistent world.  Take any two reads of one
    evaluation, made by whichever binds and conditions, of the same field of
    the same meta value: the later one gives the answer of the earlier one,
    value or error, and leaves the state as it found it, so it runs no
    completer and makes no call. *)
Theorem AR_Evaluate_reads_consistent `{CelEngine} `{Upstream} (r : APIRuntime) (req : Request)
    (fuel : nat) (principal : option Principal) (now : Z) (d : decision) (s' : st)
    (l1 l2 l3 : list read) (a b : read)
    (He : AR_Evaluate r req fuel principal now init_st = ODone (d, s'))
    (Hlog : AR_Evaluate_reads r req fuel principal now init_st = l1 ++ a :: l2 ++ b :: l3)
    (Hsame : rd_loc b = rd_loc a /\ rd_key b = rd_key a) :
  rd_res b = rd_res a /\ rd_to b = rd_from b.
Proof.
  destruct (AR_Evaluate_chained _ _ _ _ _ _ _ _ init_good He) as [_ F O].
  rewrite Hlog in F, O. rewrite Forall_app, Forall_cons, Forall_app, Forall_cons in F.
  destruct F as (_ & (Ga & Ha & _) & _ & (_ & Hb & _) & _). destruct Hsame as [El Ek].
  apply StronglySorted_app in O as (_ & _ & [Hl _]%StronglySorted_cons).
  rewrite Forall_app, Forall_cons in Hl. destruct Hl as (_ & Hab & _).
  rewrite El, Ek, (Get_again _ _ _ _ _ _ _ _ _ (ext_good _ _ _ Ga) Ha Hab) in Hb.
  by injection Hb.
Qed.

(** The reads of [demo_eval]: the deny policy's condition reads the title
    twice, the permit policy's twice more; only the first one fetches. *)
Definition demo_log : list (@read demo_up) :=
  @AR_Evaluate_reads demo_cel demo_up demo_runtime demo_req 1 demo_principal 0%Z (@init_st demo_up).

Definition demo_read (i : nat) : @read demo_up :=
  nth i demo_log (mkRead demo_up 0 VNull (Ok VNull) (@init_st demo_up) (@init_st demo_up)).

Lemma AR_Evaluate_reads_consistent_witness :
  (length demo_log = 4 /\ rd_res (demo_read 0) = Ok (VString "/d/7") /\
   fetches 0 (x_trace (rd_from (demo_read 0)).2) = 0 /\
   fetches 0 (x_trace (rd_to (demo_read 0)).2) = 1) /\
  (rd_res (demo_read 3) = rd_res (demo_read 0) /\ rd_to (demo_read 3) = rd_from (demo_read 3)).
Proof.
  split; [repeat split; vm_compute; reflexivity|].
  apply (@AR_Evaluate_reads_consistent demo_cel demo_up demo_runtime demo_req 1 demo_principal 0%Z
    (Permit, None) demo_final [] [demo_read 1; demo_read 2] []).
  - vm_compute. reflexivity.
  - vm_compute. reflexivity.
  - split; vm_compute; reflexivity.
Defined.
