(* ===== verification/Fuel.v ===== *)
(** * Fuel: more never changes a result, and one level is enough for flat metas

    Completers nest only when a request or output expression reads a lazy value
    it found among its inputs.  [le_o] orders outcomes by definedness and every
    function of the evaluator is monotone in the completers it may run.  When
    no [Type{...}] literal carries a meta value in its fields ([ground]) and
    meta expressions read only their [input] and the values they build
    ([scoped]), one level of completers is enough, so the evaluation returns. *)

From S2P Require Import Prelude GoStd Models PathTemplate Messages Compiled Evaluator EvaluatorFacts PolicyStore ApiRuntime.

(** ** Monotonicity *)

Definition le_o {A} (a b : outcome A) : Prop := a = OFuel \/ a = b.

#[export] Instance le_o_refl {A} : Reflexive (@le_o A).
Proof. by right. Qed.

Lemma obind_le {A B} (m m' : outcome A) (f f' : A -> outcome B) :
  le_o m m' -> (forall x, le_o (f x) (f' x)) -> le_o (obind m f) (obind m' f').
Proof. intros [->| ->] Hf; [by left|]. destruct m'; simpl; [apply Hf|by right..]. Qed.

Ltac mono :=
  repeat match goal with
  | |- le_o (obind _ _) (obind _ _) => apply obind_le; [|intros ?]
  | |- le_o ?a ?a => reflexivity
  | |- le_o (match ?x with _ => _ end) _ => destruct x
  | H : context [le_o] |- le_o _ _ => solve [apply H]
  end.

Section mono.
Context `{CelEngine} `{Upstream}.
Variable reg : Registry.
Variable metas : gmap string Meta.
Variable req : Request.

Section two.
Variables ex ex' : completer -> st -> outcome (result unit * st).
Hypothesis Hle : forall c s, le_o (ex c s) (ex' c s).

Lemma Get_mono l key (s : st) : le_o (Get ex l key s) (Get ex' l key s).
Proof. unfold Get, getFullViewField, run. mono. Qed.

Lemma run_prog_mono o inst p (s : st) :
le_o (run_prog metas ex o inst p s) (run_prog metas ex' o inst p s).
Proof.
revert s. induction p as [r|l key k IH|ty fields k IH|k IH]; intros s; simpl.
- reflexivity.
- apply obind_le; [apply Get_mono|]. intros [r s']. apply IH.
- destruct (NewValue o ty fields) as [[v|v]|e]; apply IH.
- apply IH.
Qed.

Lemma run_outputs_mono l input resp ops (s : st) :
le_o (run_outputs metas req ex l input resp ops s)
(run_outputs metas req ex' l input resp ops s).
Proof.
revert s. induction ops as [|[name op] ops IH]; intros s; simpl; [reflexivity|].
apply obind_le; [apply run_prog_mono|]. intros [[out|e] s1]; [|reflexivity].
apply obind_le; [reflexivity|]. intros s2. apply IH.
Qed.

Lemma CompleterFor_mono m l (s : st) :
le_o (CompleterFor reg metas req ex m l s) (CompleterFor reg metas req ex' m l s).
Proof.
unfold CompleterFor. destruct (s.1 !! l) as [v|]; [|reflexivity].
destruct (NewInputValue _ _ _) as [iv|]; [|reflexivity]. destruct (alloc iv s) as [i s1].
apply obind_le; [apply run_prog_mono|]. intros [r s2].
destruct (as_MetaRequest r); [|reflexivity]. destruct (memo_resolve _ _) as [[api|e] s3];
[|reflexivity]. destruct (Call _ _ _); [apply run_outputs_mono|reflexivity].
Qed.
End two.

Lemma exec_mono n c (s : st) : le_o (exec reg metas req n c s) (exec reg metas req (S n) c s).
Proof.
revert c s. induction n as [|n IH]; intros c s; [by left|].
change (exec reg metas req (S ?k) c s) with (CompleterFor reg metas req (exec reg metas req k) c.1 c.2 s).
apply CompleterFor_mono, IH.
Qed.

Lemma EvalBinds_mono n bs m (s : st) :
le_o (EvalBinds reg metas req n bs m s) (EvalBinds reg metas req (S n) bs m s).
Proof.
revert s. induction bs as [|b bs IH]; intros s; [reflexivity|].
cbn [EvalBinds]. apply obind_le; [apply run_prog_mono, exec_mono|]. intros [r s1].
destruct (as_Value r); [|reflexivity]. apply obind_le; [apply IH|]. by intros [].
Qed.

Lemma Policy_Evaluate_mono n p a pr now binds (s : st) :
le_o (Policy_Evaluate reg metas req n p a pr now binds s)
   (Policy_Evaluate reg metas req (S n) p a pr now binds s).
Proof.
unfold Policy_Evaluate, Condition_Eval. destruct (wire_binds metas binds s) as [[u|e] s1];
[|reflexivity]. apply obind_le; [|by intros []]. destruct pr; [|reflexivity].
apply obind_le; [apply run_prog_mono, exec_mono|]. by intros [].
Qed.
End mono.

Section mono_api.
Context `{CelEngine} `{Upstream}.
Variables (r : APIRuntime) (req : Request) (pr : option Principal) (now : Z).

Lemma match_actions_mono n acts (s : st) :
le_o (match_actions r req n acts s) (match_actions r req (S n) acts s).
Proof.
revert s. induction acts as [|a acts IH]; intros s; [reflexivity|]. cbn [match_actions].
destruct (CAction_Match req a) as [[m|]|e]; [|apply IH|reflexivity].
apply obind_le; [apply EvalBinds_mono|]. intros [[b|e] s1]; [|reflexivity].
apply obind_le; [apply IH|]. by intros [].
Qed.

Lemma eval_actions_mono n p ms (s : st) :
le_o (eval_actions r req n pr now p ms s) (eval_actions r req (S n) pr now p ms s).
Proof.
revert s. induction ms as [|m ms IH]; intros s; [reflexivity|]. cbn [eval_actions].
destruct (AppliesTo _ _ _ _ _ _) as [[]|]; [|apply IH|reflexivity].
apply obind_le; [apply Policy_Evaluate_mono|]. intros [[[]|] s1]; [reflexivity|apply IH|reflexivity].
Qed.

Lemma eval_policies_mono n ps ms (s : st) :
le_o (eval_policies r req n pr now ps ms s) (eval_policies r req (S n) pr now ps ms s).
Proof.
revert s. induction ps as [|p ps IH]; intros s; [reflexivity|]. cbn [eval_policies].
destruct (AppliesToPrincipal _ _ _ _) as [[]|]; [|apply IH|reflexivity].
apply obind_le; [apply eval_actions_mono|]. intros [[d|] s1]; [reflexivity|apply IH].
Qed.

End mono_api.

Lemma AR_Evaluate_mono `{CelEngine} `{Upstream} r req n pr now (s : st) :
  le_o (AR_Evaluate r req n pr now s) (AR_Evaluate r req (S n) pr now s).
Proof.
  unfold AR_Evaluate, matchActions. destruct pr; [|reflexivity].
  apply obind_le; [apply match_actions_mono|]. intros [[[|m ms]|e] s1]; try reflexivity.
  apply eval_policies_mono.
Qed.

(** A result reached with some fuel is the result with any larger fuel. *)
Lemma AR_Evaluate_fuel `{CelEngine} `{Upstream} r req pr now n n' (s : st) x :
  n <= n' -> AR_Evaluate r req n pr now s = ODone x -> AR_Evaluate r req n' pr now s = ODone x.
Proof.
  induction 1 as [|n' Hle IH]; [done|]. intros Hx. specialize (IH Hx).
  destruct (AR_Evaluate_mono r req n' pr now s) as [E|E]; congruence.
Qed.

(** ** One level of completers *)

(** The meta values a value holds. *)
Fixpoint ptrs (v : cval) : list nat :=
  match v with
  | VPtr l => [l]
  | VList l => concat (map ptrs l)
  | VMap kvs => concat (map (fun kv => ptrs kv.1 ++ ptrs kv.2) kvs)
  | VOpt (Some x) => ptrs x
  | _ => []
  end.

Definition no_ptr (v : cval) : bool := bool_decide (ptrs v = []).

Definition ground_fields (m : gmap string cval) : Prop := map_Forall (fun _ v => no_ptr v = true) m.

Definition ground_res (r : result cval) : Prop :=
  match r with Ok v => no_ptr v = true | Err _ => True end.

(** Every literal the program builds has fields without meta values. *)
Inductive ground : prog -> Prop :=
  | GRet r : ground (PRet r)
  | GGet l key k : (forall r, ground (k r)) -> ground (PGet l key k)
  | GNew ty fields k : ground_fields fields -> (forall r, ground (k r)) -> ground (PNew ty fields k)
  | GPeek k : (forall x, ground (k x)) -> ground (PPeek k).

(** Moreover it only reads the values [K] it was handed, and those it builds. *)
Inductive scoped : list nat -> prog -> Prop :=
  | SRet K r : scoped K (PRet r)
  | SGet K l key k : l ∈ K -> (forall r, ground_res r -> scoped K (k r)) -> scoped K (PGet l key k)
  | SNew K ty fields k : ground_fields fields -> (forall r, ground_res r -> scoped K (k r)) ->
      (forall l, scoped (l :: K) (k (Ok (VPtr l)))) -> scoped K (PNew ty fields k)
  | SPeek K k : (forall x, scoped K (k x)) -> scoped K (PPeek k).

(** A meta whose expressions are scoped to their [input]. *)
Definition flat_meta `{Upstream} (req : Request) (m : Meta) : Prop :=
  prg_installs (m_Request m) = false /\
  (forall l, scoped [l] (prg_Eval (m_Request m) (request_activation l))) /\
  Forall (fun op => prg_installs op.2 = false /\
    forall l resp, scoped [l] (prg_Eval op.2 (output_activation l req resp))) (m_Outputs m).

(** Enough fuel, and [P] of what is returned. *)
Definition total {A} (P : A -> Prop) (o : outcome A) : Prop :=
  match o with ODone a => P a | OPanic => True | OFuel => False end.

Lemma total_bind {A B} (P : A -> Prop) (Q : B -> Prop) m (f : A -> outcome B) :
  total P m -> (forall a, P a -> total Q (f a)) -> total Q (obind m f).
Proof. destruct m; simpl; auto. Qed.

Lemma total_impl {A} (P Q : A -> Prop) o : total P o -> (forall a, P a -> Q a) -> total Q o.
Proof. destruct o; simpl; auto. Qed.

Section flat.
Context `{CelEngine} `{Upstream}.
Variable reg : Registry.
Variable metas : gmap string Meta.
Variable req : Request.
Hypothesis Hbase : forall ty fields v, base_NewValue ty fields = Ok v -> no_ptr v = true.
Hypothesis Hmetas : map_Forall (fun _ m => flat_meta req m) metas.

Definition flat_value (v : Value completer) : Prop :=
ground_fields (v_inputs v) /\
forall c m l, v_complete v = Some c -> cp_fn c = Some (m, l) -> flat_meta req m.

Definition flat_heap (s : st) : Prop := forall l v, s.1 !! l = Some v -> flat_value v.

Definition input_value (v : Value completer) : Prop :=
v_view v = inputView /\ v_complete v = None.

(** An input view, or a literal nobody wired. *)
Definition inert_value (v : Value completer) : Prop :=
input_value v \/
v_view v = fullView /\ exists c, v_complete v = Some c /\ cp_fn c = None /\
(cp_done c = true -> is_Some (cp_err c)).

Definition at_loc (P : Value completer -> Prop) (s : st) (l : nat) : Prop :=
exists v, s.1 !! l = Some v /\ P v.

Definition flat_step (s s' : st) : Prop :=
flat_heap s' /\ (forall l, at_loc input_value s l -> at_loc input_value s' l).

Definition inert_step (s s' : st) : Prop :=
flat_step s s' /\ (forall l, at_loc inert_value s l -> at_loc inert_value s' l).

Lemma flat_step_refl s : flat_heap s -> flat_step s s.
Proof. by split. Qed.
Lemma flat_step_trans s1 s2 s3 : flat_step s1 s2 -> flat_step s2 s3 -> flat_step s1 s3.
Proof. intros [? E1] [? E2]. split; auto. Qed.
Lemma inert_step_trans s1 s2 s3 : inert_step s1 s2 -> inert_step s2 s3 -> inert_step s1 s3.
Proof. intros [? E1] [? E2]. split; [by eapply flat_step_trans|auto]. Qed.

(** Changing one value. *)
Lemma insert_at_loc P (l : nat) (v v' : Value completer) (s : st) j :
s.1 !! l = Some v -> (P v -> P v') ->
at_loc P s j -> at_loc P (<[l := v']> s.1, s.2) j.
Proof.
intros Hl HP (w & Hw & Pw). pose proof (lookup_lt_Some _ _ _ Hl) as Hlt.
unfold at_loc. simpl. destruct (decide (l = j)) as [->|].
- rewrite list_lookup_insert_eq by done. simplify_eq. eauto.
- rewrite list_lookup_insert_ne by done. eauto.
Qed.

Lemma insert_flat_heap (l : nat) v' (s : st) :
flat_heap s -> flat_value v' -> flat_heap (<[l := v']> s.1, s.2).
Proof.
intros Hs Hv j w. simpl. rewrite list_lookup_insert. case_decide as E; [|by apply Hs].
by intros [= <-].
Qed.

Lemma alloc_step v (s : st) :
flat_heap s -> flat_value v ->
inert_step s (alloc v s).2 /\ (alloc v s).2.1 !! (alloc v s).1 = Some v.
Proof.
intros Hs Hv. split; [split; [split|]|]; simpl.
- intros l w [Hl|[? Hw]]%lookup_app_Some; [by eapply Hs|].
by apply list_lookup_singleton_Some in Hw as [_ <-].
- intros l (w & Hw & ?). exists w. split; [by apply lookup_app_l_Some|done].
- intros l (w & Hw & ?). exists w. split; [by apply lookup_app_l_Some|done].
- by apply list_lookup_middle.
Qed.

Lemma set_complete_flat c v :
flat_value v -> (forall m l, cp_fn c = Some (m, l) -> flat_meta req m) ->
flat_value (set_complete c v).
Proof. intros [Hg _] Hc. split; [done|]. intros c' m l [= <-]. apply Hc. Qed.

Lemma set_completer_step l m (s : st) :
flat_heap s -> flat_meta req m -> flat_step s (upd l (SetCompleter (m, l)) s).
Proof.
intros Hs Hm. destruct (s.1 !! l) as [v|] eqn:Hl; [|rewrite upd_none by done; by apply flat_step_refl].
rewrite (upd_eq _ _ _ _ Hl). split.
- apply insert_flat_heap; [done|]. pose proof (Hs _ _ Hl) as Hv. unfold SetCompleter.
destruct (v_complete v) as [c|]; [|done]. destruct (cp_done c); [done|].
apply set_complete_flat; [done|]. by intros ? ? [= <- <-].
- intros j. apply (insert_at_loc _ _ v); [done|]. intros [Hv Hc]. unfold SetCompleter.
by rewrite Hc.
Qed.

Lemma install_step l (s : st) : flat_heap s -> flat_step s (install metas l s).
Proof.
intros Hs. unfold install. repeat case_match; try by apply flat_step_refl.
apply set_completer_step; [done|]. by eapply Hmetas.
Qed.

(** *** Reading an inert value runs nothing *)

Lemma Get_inert ex l key (s : st) :
flat_heap s -> at_loc inert_value s l ->
total (fun x => ground_res x.1 /\ inert_step s x.2) (Get ex l key s).
Proof.
intros Hs (v & Hl & Hv). assert (inert_step s s) as Hrefl by (by split; [split|]).
pose proof (Hs _ _ Hl) as [Hg Hfn]. unfold Get, getFullViewField.
destruct key as [| | | | |field| | | | | | | | |]; try by split.
rewrite Hl. destruct (v_inputs v !! field) as [x|] eqn:Hx; [split; [by eapply Hg|done]|].
destruct Hv as [[-> _]|(-> & c & Hc & Hf & Hd)]; [by split|].
destruct (HasOutputField _ _); [|by case_match]. rewrite Hc. unfold run, sticky.
destruct (cp_done c) eqn:Hdone; [destruct (Hd eq_refl) as [e ->]; by split|].
rewrite Hf. simpl. split; [done|]. unfold record_err. rewrite (upd_eq _ _ _ _ Hl).
set (v1 := set_complete _ v).
assert ((<[l := v1]> s.1) !! l = Some v1) as Hl1.
{ apply list_lookup_insert_eq. by eapply lookup_lt_Some. }
rewrite (upd_eq _ l (<[l := v1]> s.1, s.2) v1) by done. simpl.
rewrite list_insert_insert_eq. split; [split|].
- apply insert_flat_heap; [done|]. by repeat apply set_complete_flat.
- intros j. apply (insert_at_loc _ _ v); [done|]. intros [_ Hn]. congruence.
- intros j. apply (insert_at_loc _ _ v); [done|]. intros [[_ Hn]|[Hv _]]; [congruence|].
right. split; [done|]. simpl. eauto.
Qed.


Lemma NewValue_flat o ty fields b :
ground_fields fields -> NewValue o ty fields = Ok b ->
match b with BValue v => flat_value v /\ inert_value v | BOther x => no_ptr x = true end.
Proof.
intros Hf. unfold NewValue, RequestProvider_NewValue, FullProvider_NewValue, NewFullValue.
assert (BOther <$> base_NewValue ty fields = Ok b ->
match b with BValue v => flat_value v /\ inert_value v | BOther x => no_ptr x = true end) as Hb.
{ destruct (base_NewValue ty fields) eqn:E; simpl; [|done]. intros [= <-]. by eapply Hbase. }
destruct (env_Provider o) as [|t|r]; [done|by case_bool_decide|].
destruct (lookup_view r ty) as [[t []]|]; [|done..].
destruct (check_literal _ _); [|done]. simpl.
destruct (r !! mt_FullName t); simpl; [|done]. intros [= <-]. split; [split|right]; simpl.
- done.
- by intros ? ? ? [= <-].
- split; [done|]. eexists. split; [done|]. by split.
Qed.

Lemma run_prog_scoped ex o K p (s : st) :
scoped K p -> flat_heap s -> Forall (at_loc inert_value s) K ->
total (fun x => inert_step s x.2) (run_prog metas ex o false p s).
Proof.
intros Hp. revert s. induction Hp as [K r|K l key k Hl _ IH|K ty fields k Hf _ IHr _ IHl|K k _ IH];
intros s Hs HK; simpl.
- by split; [split|].
- rewrite Forall_forall in HK. eapply total_bind; [by apply Get_inert; [|apply HK]|].
intros [r s1] [Hr Hst]. eapply total_impl; [apply IH; [done|apply Hst|]|].
+ apply Forall_forall. intros j Hj. by apply Hst, HK.
+ intros x Hx. by eapply inert_step_trans.
- destruct (NewValue o ty fields) as [[v|v]|e] eqn:Hn.
+ destruct (NewValue_flat _ _ _ _ Hf Hn) as [Hv Hi].
  destruct (alloc_step v s Hs Hv) as [Hst Hl]. simpl in Hst, Hl.
  eapply total_impl; [apply IHl; [apply Hst|]|intros x Hx; by eapply inert_step_trans].
  constructor; [by exists v|]. eapply Forall_impl; [exact HK|]. intros j. apply Hst.
+ apply IHr; [|done..]. by apply (NewValue_flat _ _ _ _ Hf Hn).
+ by apply IHr.
- by apply IH.
Qed.

Lemma set_field_step l name out (s : st) :
flat_heap s -> total (flat_step s) (set_field l name out s).
Proof.
intros Hs. unfold set_field. destruct (s.1 !! l) as [v|] eqn:Hl; [|done].
destruct (SetField name out v) as [v'|] eqn:E; [|done]. simpl.
unfold SetField in E. case_bool_decide; [done|].
destruct (negb _); simplify_eq. split.
- apply insert_flat_heap; [done|]. destruct (Hs _ _ Hl). by split.
- intros j. apply (insert_at_loc _ _ v); [done|]. by intros [].
Qed.

Lemma at_input_inert s l : at_loc input_value s l -> at_loc inert_value s l.
Proof. intros (v & Hv & ?). exists v. split; [done|by left]. Qed.

Lemma run_outputs_scoped ex l input resp ops (s : st) :
Forall (fun op => prg_installs op.2 = false /\
forall i rs, scoped [i] (prg_Eval op.2 (output_activation i req rs))) ops ->
flat_heap s -> at_loc input_value s input ->
total (fun x => flat_step s x.2) (run_outputs metas req ex l input resp ops s).
Proof.
intros Hops. revert s. induction Hops as [|[name op] ops [Hi Hsc] _ IH]; intros s Hs Hin; simpl.
{ by split. }
simpl in *. unfold run_program. rewrite Hi. eapply total_bind.
{ eapply run_prog_scoped; [apply Hsc|done|]. constructor; [by apply at_input_inert|constructor]. }
intros [[out|e] s1] [Hst _]; simpl in *; [|done].
assert (flat_step s (install_child metas out s1)) as Hst1.
{ destruct out; try done. eapply flat_step_trans; [done|]. apply install_step, Hst. }
eapply total_bind; [apply set_field_step, Hst1|]. intros s2 Hst2.
assert (flat_step s s2) as Hst3 by (by eapply flat_step_trans).
eapply total_impl; [apply IH; [apply Hst3|by apply Hst3]|].
intros x Hx. by eapply flat_step_trans.
Qed.

Lemma CompleterFor_flat ex m l (s : st) :
flat_meta req m -> flat_heap s ->
total (fun x => flat_step s x.2) (CompleterFor reg metas req ex m l s).
Proof.
intros (Hri & Hr & Ho) Hs. unfold CompleterFor. destruct (s.1 !! l) as [v|] eqn:Hl; [|done].
unfold NewInputValue. destruct (reg !! _) as [t|]; [|by apply flat_step_refl].
set (iv := mkValue _ _ _ _ _ _).
destruct (alloc_step iv s Hs) as [[Hst _] Hi].
{ split; [|done]. apply (Hs _ _ Hl). }
destruct (alloc iv s) as [input s1]. simpl in Hst, Hi.
assert (at_loc input_value s1 input) as Hin by (by exists iv).
eapply total_bind.
{ unfold run_program. rewrite Hri. eapply run_prog_scoped; [apply Hr|apply Hst|].
constructor; [by apply at_input_inert|constructor]. }
intros [r s2] [Hst2 _]. simpl in Hst2.
assert (flat_step s s2) as Hs2 by (by eapply flat_step_trans).
destruct (as_MetaRequest r) as [mr|e]; [|done].
assert (forall s3 : st, s3.1 = s2.1 -> flat_step s s3 /\ at_loc input_value s3 input) as Hsame.
{ intros [h x]. simpl. intros ->. destruct s2 as [h2 x2]. split; [exact Hs2|by apply Hst2]. }
destruct (memo_resolve (m_APIName m) s2) as [api s3] eqn:Hm.
assert (s3.1 = s2.1) as E3.
{ unfold memo_resolve in Hm. destruct (x_cache _ !! _); by injection Hm as <- <-. }
destruct api as [api|e]; [|by apply Hsame].
destruct (Call _ api mr); [|by apply Hsame].
destruct (Hsame (emit (EvCall l (mt_FullName (m_Type m)) (m_APIName m) mr
(Ok a)) s3) E3) as [Hst4 Hin4].
eapply total_impl; [apply run_outputs_scoped; [done|apply Hst4|done]|].
intros x Hx. by eapply flat_step_trans.
Qed.

(** *** A condition may read lazy values: one level runs their completers *)

Lemma record_err_step l r (s : st) : flat_heap s -> flat_step s (record_err l r s).
Proof.
intros Hs. unfold record_err. destruct (s.1 !! l) as [v|] eqn:Hl;
[|rewrite upd_none by done; by apply flat_step_refl].
rewrite (upd_eq _ _ _ _ Hl). pose proof (Hs _ _ Hl) as Hv. destruct (v_complete v) as [c|] eqn:Hc.
- split; [apply insert_flat_heap; [done|]; apply set_complete_flat; [done|]; simpl;
  intros m j; by apply Hv|].
intros j. apply (insert_at_loc _ _ v); [done|]. intros [_ Hn]. congruence.
- rewrite list_insert_id by done. destruct s. by apply flat_step_refl.
Qed.

Lemma Get_flat n l key (s : st) :
flat_heap s -> total (fun x => flat_step s x.2) (Get (exec reg metas req (S n)) l key s).
Proof.
intros Hs. pose proof (flat_step_refl s Hs) as Hrefl. unfold Get, getFullViewField.
destruct key as [| | | | |field| | | | | | | | |]; try done.
destruct (s.1 !! l) as [v|] eqn:Hl; [|done].
destruct (v_inputs v !! field); [done|]. destruct (v_view v); [|done].
destruct (HasOutputField _ _); [|by case_match].
destruct (v_complete v) as [c|] eqn:Hc; [|done].
eapply (total_bind (fun x => flat_step s x.2)); [|by intros [[u|e] s1]].
unfold run. destruct (cp_done c); [done|]. rewrite (upd_eq _ _ _ _ Hl).
set (s1 := (<[l := _]> s.1, s.2)). pose proof (Hs _ _ Hl) as Hv.
assert (flat_step s s1) as Hst.
{ split; [apply insert_flat_heap; [done|]; apply set_complete_flat; [done|]; simpl;
  intros m j; by apply Hv|].
intros j. apply (insert_at_loc _ _ v); [done|]. intros [_ Hn]. congruence. }
destruct (cp_fn c) as [[m l']|] eqn:Hf.
- eapply total_bind; [apply CompleterFor_flat; [by eapply Hv|apply Hst]|].
intros [r s2] Hst2. simpl in *.
eapply flat_step_trans; [exact Hst|]. eapply flat_step_trans; [exact Hst2|].
apply record_err_step, Hst2.
- simpl. eapply flat_step_trans; [exact Hst|]. apply record_err_step, Hst.
Qed.

Lemma run_prog_ground n o inst p (s : st) :
ground p -> flat_heap s ->
total (fun x => flat_step s x.2) (run_prog metas (exec reg metas req (S n)) o inst p s).
Proof.
intros Hp. revert s. induction Hp as [r|l key k _ IH|ty fields k Hf _ IH|k _ IH];
intros s Hs; cbn [run_prog].
- by split.
- eapply total_bind; [by apply Get_flat|]. intros [r s1] Hst. simpl in Hst.
eapply total_impl; [apply IH, Hst|]. intros x Hx. by eapply flat_step_trans.
- destruct (NewValue o ty fields) as [[v|v]|e] eqn:Hn; [|by apply IH..].
destruct (NewValue_flat _ _ _ _ Hf Hn) as [Hv _].
destruct (alloc_step v s Hs Hv) as [[Hst _] _]. simpl in Hst |- *.
set (s1 := (s.1 ++ [v], s.2)) in *.
assert (flat_step s (if inst then install metas (length s.1) s1 else s1)) as Hst1.
{ destruct inst; [|done]. eapply flat_step_trans; [done|]. apply install_step, Hst. }
eapply total_impl; [apply IH, Hst1|]. intros x Hx. by eapply flat_step_trans.
- by apply IH.
Qed.

Lemma EvalBinds_flat n bs m (s : st) :
Forall (fun b => ground (prg_Eval (bind_program (bv_Bind b)) (bind_activation req m))) bs ->
flat_heap s ->
total (fun x => flat_step s x.2) (EvalBinds reg metas req (S n) bs m s).
Proof.
intros Hb. revert s. induction Hb as [|b bs Hg _ IH]; intros s Hs; cbn [EvalBinds]; [by split|].
eapply total_bind; [by apply run_prog_ground|]. intros [r s1] Hst. simpl in Hst.
destruct (as_Value r); [|done]. eapply total_bind; [apply IH, Hst|].
intros [rest s2] Hst2. by eapply flat_step_trans.
Qed.

Lemma wire_binds_flat binds (s : st) : flat_heap s -> flat_step s (wire_binds metas binds s).2.
Proof.
revert s. induction binds as [|[name l] binds IH]; intros s Hs; simpl; [by split|].
destruct (metas !! name) as [m|] eqn:Hm; [|by split].
assert (flat_step s (upd l (SetCompleter (m, l)) s)) as Hst.
{ apply set_completer_step; [done|]. by eapply Hmetas. }
eapply flat_step_trans; [exact Hst|]. apply IH, Hst.
Qed.

Lemma Policy_Evaluate_flat n p a pr now binds (s : st) :
(forall act, ground (prg_Eval (cp_condition p) act)) -> flat_heap s ->
total (fun x => flat_step s x.2) (Policy_Evaluate reg metas req (S n) p a pr now binds s).
Proof.
intros Hg Hs. unfold Policy_Evaluate, Condition_Eval.
pose proof (wire_binds_flat binds s Hs) as Hst. destruct (wire_binds metas binds s) as [[u|e] s1];
[|done]. simpl in Hst. destruct pr; simpl; [|done].
eapply (total_bind (fun x => flat_step s x.2)); [|intros [r s2] Hst2; exact Hst2].
eapply total_bind; [apply run_prog_ground; [apply Hg|apply Hst]|].
intros [r s2] Hst2. by eapply flat_step_trans.
Qed.
End flat.

(** The API's expressions are flat for this request. *)
Record flat_api `{CelEngine} `{Upstream} (r : APIRuntime) (req : Request) : Prop := {
  fa_base : forall ty fields v, base_NewValue ty fields = Ok v -> no_ptr v = true;
  fa_metas : map_Forall (fun _ m => flat_meta req m) (ar_metas r);
  fa_binds : Forall (fun a => Forall (fun b =>
    forall m, ground (prg_Eval (bind_program (bv_Bind b)) (bind_activation req m))) (ca_Binds a))
    (ar_actions r);
  fa_conds : Forall (fun p => forall act, ground (prg_Eval (cp_condition p) act))
    (ps_all (ar_store r))
}.

Section flat_api.
Context `{CelEngine} `{Upstream}.
Variables (r : APIRuntime) (req : Request) (n : nat) (pr : option Principal) (now : Z).
Hypothesis Hf : flat_api r req.
Notation step := (flat_step req).
Notation fheap := (flat_heap req).

Lemma match_actions_flat acts (s : st) :
Forall (fun a => Forall (fun b =>
forall m, ground (prg_Eval (bind_program (bv_Bind b)) (bind_activation req m))) (ca_Binds a)) acts ->
fheap s -> total (fun x => step s x.2) (match_actions r req (S n) acts s).
Proof.
intros Ha. revert s. induction Ha as [|a acts Hb _ IH]; intros s Hs; cbn [match_actions]; [by split|].
destruct (CAction_Match req a) as [[m|]|e]; [|by apply IH|by split].
eapply total_bind.
{ apply EvalBinds_flat; [apply Hf..| |done]. eapply Forall_impl; [exact Hb|]. auto. }
intros [[b|e] s1] Hst; simpl in Hst; [|done].
eapply total_bind; [apply IH, Hst|]. intros [rest s2] Hst2. by eapply flat_step_trans.
Qed.

Lemma eval_actions_flat p ms (s : st) :
(forall act, ground (prg_Eval (cp_condition p) act)) -> fheap s ->
total (fun x => step s x.2) (eval_actions r req (S n) pr now p ms s).
Proof.
intros Hg. revert s. induction ms as [|m ms IH]; intros s Hs; cbn [eval_actions]; [by split|].
destruct (AppliesTo _ _ _ _ _ _) as [[]|e]; [|by apply IH|by split].
eapply total_bind; [apply Policy_Evaluate_flat; [apply Hf..|done|done]|].
intros [[[]|e] s1] Hst; simpl in Hst; [done| |done].
eapply total_impl; [apply IH, Hst|]. intros x Hx. by eapply flat_step_trans.
Qed.

Lemma eval_policies_flat ps ms (s : st) :
Forall (fun p => forall act, ground (prg_Eval (cp_condition p) act)) ps -> fheap s ->
total (fun x => step s x.2) (eval_policies r req (S n) pr now ps ms s).
Proof.
intros Hg. revert s. induction Hg as [|p ps Hp _ IH]; intros s Hs; cbn [eval_policies]; [by split|].
destruct (AppliesToPrincipal _ _ _ _) as [[]|e]; [|by apply IH|by split].
eapply total_bind; [by apply eval_actions_flat|]. intros [[d|] s1] Hst; simpl in Hst; [done|].
eapply total_impl; [apply IH, Hst|]. intros x Hx. by eapply flat_step_trans.
Qed.
End flat_api.

Lemma AR_Evaluate_flat `{CelEngine} `{Upstream} r req n pr now (s : st) :
  flat_api r req -> flat_heap req s ->
  total (fun x => flat_step req s x.2) (AR_Evaluate r req (S n) pr now s).
Proof.
  intros Hf Hs. unfold AR_Evaluate, matchActions. destruct pr as [p|]; [|by split].
  eapply total_bind; [apply match_actions_flat; [done|apply Hf|done]|].
  intros [[[|m ms]|e] s1] Hst; simpl in Hst; try done.
  eapply total_impl; [apply eval_policies_flat; [done|apply Hf|apply Hst]|].
  intros x Hx. by eapply flat_step_trans.
Qed.

(** Fuel is not what an evaluation of flat expressions ends for. *)
Lemma AR_Evaluate_fuel_enough `{CelEngine} `{Upstream} (r : APIRuntime) (req : Request)
    (principal : option Principal) (now : Z) (Hf : flat_api r req) :
  AR_Evaluate r req 1 principal now init_st <> OFuel /\
  forall n, AR_Evaluate r req (S n) principal now init_st =
            AR_Evaluate r req 1 principal now init_st.
Proof.
  assert (flat_heap req init_st) as Hi by (by intros l v Hl).
  assert (forall n, AR_Evaluate r req (S n) principal now init_st <> OFuel) as Hn.
  { intros n E. pose proof (AR_Evaluate_flat r req n principal now init_st Hf Hi) as Ht.
    by rewrite E in Ht. }
  split; [exact (Hn 0)|]. induction n as [|n IH]; [reflexivity|].
  destruct (AR_Evaluate_mono r req (S n) principal now init_st) as [E|E].
  - destruct (Hn n E).
  - exact (eq_trans (eq_sym E) IH).
Qed.

(** ** The example engine's expressions are flat *)

Lemma demo_cond_ground want act : ground (prg_Eval (demo_cond want) act).
Proof.
  simpl. unfold select. destruct (act !! "docs.doc") as [v|]; [|apply GRet].
  destruct v; try apply GRet. apply GGet. intros _. apply GGet.
  intros [v|e]; [destruct v|]; apply GRet.
Qed.

Lemma demo_flat : @flat_api demo_cel demo_up demo_runtime demo_req.
Proof.
  split.
  - discriminate.
  - apply map_Forall_singleton. split; [reflexivity|]. split.
    + intros l. apply SGet; [left|].
      intros [v|e] _; [destruct v|]; apply SRet.
    + constructor; [|constructor]. split; [reflexivity|]. intros l resp. apply SRet.
  - constructor; [|constructor]. constructor; [|constructor].
    intros m. simpl. apply GNew; [|intros; apply GRet].
    apply map_Forall_singleton. reflexivity.
  - apply Forall_cons_2; [|apply Forall_cons_2; [|apply Forall_nil_2]]; apply demo_cond_ground.
Qed.
