(* ===== verification/Safety.v ===== *)
(** * Evaluation cannot panic

    The panics of value.go and meta.go: a read or a [SetField] through a
    pointer that is no value of this evaluation, a full view without its
    completion, a [SetField] on a name the type does not declare.  The
    invariant [closed] says every pointer stored in the heap is valid and every
    completer wired fits the type of its value; every function of the
    evaluator keeps it ([grow]) and, from it, ends without a panic ([safe]).
    With one level of completers (Fuel) the evaluation then returns. *)

From S2P Require Import Prelude GoStd Models PathTemplate Messages Compiled Evaluator EvaluatorFacts PolicyStore ApiRuntime Fuel.

(** ** Programs that use only the meta values they were given *)

Definition res_ptrs (r : result cval) : list nat := match r with Ok v => ptrs v | Err _ => [] end.

Definition fields_ptrs (m : gmap string cval) (l : nat) : Prop :=
  exists f v, m !! f = Some v /\ l ∈ ptrs v.

(** [K]: the values the program has seen. *)
Inductive honest : (nat -> Prop) -> prog -> Prop :=
  | HRet (K : nat -> Prop) r : (forall l, l ∈ res_ptrs r -> K l) -> honest K (PRet r)
  | HGet (K : nat -> Prop) l key k : K l ->
      (forall r, honest (fun j => K j \/ j ∈ res_ptrs r) (k r)) -> honest K (PGet l key k)
  | HNew (K : nat -> Prop) ty fields k : (forall l, fields_ptrs fields l -> K l) ->
      (forall r, honest (fun j => K j \/ j ∈ res_ptrs r) (k r)) -> honest K (PNew ty fields k)
  | HPeek (K : nat -> Prop) k : (forall x, honest K (k x)) -> honest K (PPeek k).

(** Its result, when a meta value, is one it built as a [T]. *)
Inductive makes (T : string) : (nat -> Prop) -> prog -> Prop :=
  | MRet (K : nat -> Prop) r : (forall l, r = Ok (VPtr l) -> K l) -> makes T K (PRet r)
  | MGet (K : nat -> Prop) l key k : (forall r, makes T K (k r)) -> makes T K (PGet l key k)
  | MNew (K : nat -> Prop) ty fields k :
      (forall r, makes T (fun j => K j \/ ty = T /\ r = Ok (VPtr j)) (k r)) ->
      makes T K (PNew ty fields k)
  | MPeek (K : nat -> Prop) k : (forall x, makes T K (k x)) -> makes T K (PPeek k).

(** The values of a registry the program's environment was made with. *)
Definition env_within (reg : Registry) (p : program) : Prop :=
  match env_Provider (prg_env p) with PvFull r => r ⊆ reg | _ => True end.

Definition honest_program (reg : Registry) (p : program) : Prop :=
  env_within reg p /\ forall act, honest (fields_ptrs act) (prg_Eval p act).

(** No panic, and [P] of what is returned. *)
Definition safe {A} (P : A -> Prop) (o : outcome A) : Prop :=
  match o with ODone a => P a | OPanic => False | OFuel => True end.

Lemma safe_bind {A B} (P : A -> Prop) (Q : B -> Prop) m (f : A -> outcome B) :
  safe P m -> (forall a, P a -> safe Q (f a)) -> safe Q (obind m f).
Proof. destruct m; simpl; auto; done. Qed.

Lemma safe_impl {A} (P Q : A -> Prop) o : safe P o -> (forall a, P a -> Q a) -> safe Q o.
Proof. destruct o; simpl; auto. Qed.

(** ** The invariant *)

Section closed.
Context `{CelEngine} `{Upstream}.
Variable reg : Registry.
Variable metas : gmap string Meta.
Variable req : Request.

Definition sound_meta (m : Meta) : Prop :=
honest_program reg (m_Request m) /\ Forall (fun op => honest_program reg op.2) (m_Outputs m).

(** Every output the meta computes is a declared field of the value. *)
Definition fits (m : Meta) (v : Value completer) : Prop :=
Forall (fun op => HasOutputField (v_typ v) op.1 = true) (m_Outputs m).

Hypothesis Hbase : forall ty fields v, base_NewValue ty fields = Ok v -> no_ptr v = true.
Hypothesis Hreg : registry_wf reg.
Hypothesis Hmetas : forall name m, metas !! name = Some m -> sound_meta m /\
exists t, reg !! name = Some t /\
Forall (fun op => HasOutputField t op.1 = true) (m_Outputs m).

Definition valid (s : st) (v : cval) : Prop := forall l, l ∈ ptrs v -> l < length s.1.

Definition wired (l : nat) (v : Value completer) (c : completion completer) : Prop :=
forall m l', cp_fn c = Some (m, l') -> l' = l /\ sound_meta m /\ fits m v.

Record value_ok (s : st) (l : nat) (v : Value completer) : Prop := {
vo_in f x : v_inputs v !! f = Some x -> valid s x;
vo_out f x : v_outputs v !! f = Some x -> valid s x;
vo_full : v_view v = fullView ->
  reg !! mt_FullName (v_typ v) = Some (v_typ v) /\
  exists c, v_complete v = Some c /\ wired l v c
}.

Definition closed (s : st) : Prop := forall l v, s.1 !! l = Some v -> value_ok s l v.

Record grow (s s' : st) : Prop := {
gr_closed : closed s';
gr_heap l v : s.1 !! l = Some v -> exists v', s'.1 !! l = Some v' /\ same_shape v v'
}.

Lemma grow_refl s : closed s -> grow s s.
Proof. intros C. split; [done|]. intros l v Hl. exists v. by split. Qed.

#[global] Instance grow_trans : Transitive grow.
Proof.
intros s1 s2 s3 [_ E1] [C E2]. split; [done|]. intros l v Hl.
destruct (E1 _ _ Hl) as (v2 & Hl2 & S2). destruct (E2 _ _ Hl2) as (v3 & Hl3 & S3).
exists v3. split; [done|]. by etrans.
Qed.

Lemma grow_length s s' : grow s s' -> length s.1 <= length s'.1.
Proof.
intros G. destruct (decide (length s.1 <= length s'.1)) as [|Hn]; [done|].
destruct (lookup_lt_is_Some_2 s.1 (length s'.1)) as [v Hv]; [lia|].
destruct (gr_heap _ _ G _ _ Hv) as (v' & Hv' & _). apply lookup_lt_Some in Hv'. lia.
Qed.

Lemma grow_valid s s' v : grow s s' -> valid s v -> valid s' v.
Proof. intros G%grow_length Hv l Hl. specialize (Hv l Hl). lia. Qed.

Lemma grow_res s s' r :
grow s s' -> (forall l, l ∈ res_ptrs r -> l < length s.1) ->
forall l, l ∈ res_ptrs r -> l < length s'.1.
Proof. intros G%grow_length Hv l Hl. specialize (Hv l Hl). lia. Qed.

(** A step of the trace or the cache. *)
Lemma same_heap_grow (s s' : st) : closed s -> s'.1 = s.1 -> grow s s'.
Proof.
intros C E. split.
- intros l v Hl. rewrite E in Hl. destruct (C _ _ Hl) as [I O F].
split; unfold valid in *; rewrite ?E; auto.
- intros l v Hl. exists v. rewrite E. by split.
Qed.

Lemma value_ok_mono s s' l v :
length s.1 <= length s'.1 -> value_ok s l v -> value_ok s' l v.
Proof.
intros Hlen [I O F]. split; [..|done]; intros f x Hf j Hj.
- specialize (I f x Hf j Hj). lia.
- specialize (O f x Hf j Hj). lia.
Qed.

Lemma insert_grow l v v' (s : st) :
closed s -> s.1 !! l = Some v -> same_shape v v' -> value_ok s l v' ->
grow s (<[l := v']> s.1, s.2).
Proof.
intros C Hl S Hv. pose proof (lookup_lt_Some _ _ _ Hl) as Hlt. split.
- intros j w Hw. apply (value_ok_mono s); [simpl; by rewrite length_insert|]. simpl in Hw.
rewrite list_lookup_insert in Hw. case_decide as E; [|by apply C].
destruct E as [<- _]. by injection Hw as <-.
- intros j w Hw. simpl. rewrite list_lookup_insert. case_decide as E; [|by exists w].
destruct E as [<- _]. exists v'. simplify_eq. done.
Qed.

Lemma alloc_grow v (s : st) :
closed s -> value_ok s (length s.1) v ->
grow s (alloc v s).2 /\ (alloc v s).2.1 !! (alloc v s).1 = Some v.
Proof.
intros C Hv. split; [split|]; simpl.
- intros l w Hw. apply (value_ok_mono s); [simpl; rewrite length_app; lia|].
apply lookup_app_Some in Hw as [Hl|[? Hw]]; [by apply C|].
apply list_lookup_singleton_Some in Hw as [? <-]. by replace l with (length s.1) by lia.
- intros l w Hw. exists w. split; [by apply lookup_app_l_Some|done].
- by apply list_lookup_middle.
Qed.

Lemma set_complete_ok c v s l :
value_ok s l v -> wired l v c -> value_ok s l (set_complete c v).
Proof.
intros [I O F] Hc. split; [done..|]. intros Hv. split; [by apply F|]. by exists c.
Qed.

(** Changing the completion of one value. *)
Lemma complete_grow l v c (s : st) :
closed s -> s.1 !! l = Some v -> wired l v c -> grow s (<[l := set_complete c v]> s.1, s.2).
Proof.
intros C Hl Hc. apply (insert_grow _ v); [done..|]. apply set_complete_ok; [by apply C|done].
Qed.

(** The value's type is [name], so the completer of [metas] fits it. *)
Lemma set_completer_grow l v name m (s : st) :
closed s -> s.1 !! l = Some v -> mt_FullName (v_typ v) = name -> v_view v = fullView ->
metas !! name = Some m -> grow s (upd l (SetCompleter (m, l)) s).
Proof.
intros C Hl Hn Hv Hm. rewrite (upd_eq _ _ _ _ Hl). unfold SetCompleter.
destruct (v_complete v) as [c|] eqn:Hc; [destruct (cp_done c)|];
try (rewrite list_insert_id by done; destruct s; by apply grow_refl).
apply complete_grow; [done..|]. intros m' l' [= <- <-]. split; [done|].
destruct (Hmetas _ _ Hm) as (Hs & t & Ht & Ho). split; [done|].
destruct (vo_full _ _ _ (C _ _ Hl) Hv) as [Hr _]. unfold fits.
rewrite Hn, Ht in Hr. by injection Hr as <-.
Qed.

Lemma install_grow l (s : st) : closed s -> grow s (install metas l s).
Proof.
intros C. unfold install. destruct (s.1 !! l) as [v|] eqn:Hl; [|by apply grow_refl].
unfold IsFullView. case_bool_decide as Hv; [|by apply grow_refl].
destruct (metas !! _) as [m|] eqn:Hm; [|by apply grow_refl].
by eapply set_completer_grow.
Qed.

(** *** Reads *)

(** What a completer may be relied on for. *)
Definition exec_safe (ex : completer -> st -> outcome (result unit * st)) : Prop :=
forall m l (s : st) v, closed s -> s.1 !! l = Some v -> v_view v = fullView ->
sound_meta m -> fits m v -> safe (fun x => grow s x.2) (ex (m, l) s).

Lemma record_err_grow l r (s : st) : closed s -> grow s (record_err l r s).
Proof.
intros C. unfold record_err. destruct (s.1 !! l) as [v|] eqn:Hl;
[|rewrite upd_none by done; by apply grow_refl].
rewrite (upd_eq _ _ _ _ Hl). destruct (v_complete v) as [c|] eqn:Hc;
[|rewrite list_insert_id by done; destruct s; by apply grow_refl].
destruct (decide (v_view v = fullView)) as [Hv|Hv].
- apply complete_grow; [done..|]. destruct (vo_full _ _ _ (C _ _ Hl) Hv) as (_ & c' & Hc' & Hw).
rewrite Hc in Hc'. injection Hc' as <-. exact Hw.
- apply (insert_grow _ v); [done..|]. destruct (C _ _ Hl) as [I O _].
split; [done..|]. intros Hv'. by destruct (Hv Hv').
Qed.

Section with_exec.
Variable ex : completer -> st -> outcome (result unit * st).
Hypothesis Hex : exec_safe ex.

Lemma run_safe l v c (s : st) :
closed s -> s.1 !! l = Some v -> v_view v = fullView -> v_complete v = Some c ->
safe (fun x => grow s x.2) (run ex l c s).
Proof.
intros C Hl Hv Hc. unfold run. destruct (cp_done c); [by apply grow_refl|].
destruct (vo_full _ _ _ (C _ _ Hl) Hv) as (_ & c' & Hc' & Hw).
rewrite Hc in Hc'. injection Hc' as <-. rewrite (upd_eq _ _ _ _ Hl).
set (v1 := set_complete _ v). set (s1 := (<[l := v1]> s.1, s.2)).
assert (grow s s1) as G1 by (by apply complete_grow).
assert (s1.1 !! l = Some v1) as Hl1.
{ apply list_lookup_insert_eq. by eapply lookup_lt_Some. }
destruct (cp_fn c) as [[m l']|] eqn:Hf.
- destruct (Hw _ _ Hf) as (-> & Hs & Hfit).
eapply safe_bind; [by apply (Hex m l s1 v1); [apply G1|..]|].
intros [r s2] G2. simpl in *. etrans; [exact G1|]. etrans; [exact G2|].
apply record_err_grow, G2.
- simpl. etrans; [exact G1|]. apply record_err_grow, G1.
Qed.

Lemma Get_safe l key (s : st) :
closed s -> l < length s.1 ->
safe (fun x => grow s x.2 /\ forall j, j ∈ res_ptrs x.1 -> j < length x.2.1) (Get ex l key s).
Proof.
intros C Hlt. pose proof (grow_refl s C) as G.
assert (forall e, grow s s /\ forall j, j ∈ res_ptrs (Err e) -> j < length s.1) as He.
{ intros e. split; [done|]. intros j Hj. by apply not_elem_of_nil in Hj. }
unfold Get, getFullViewField. destruct key as [| | | | |field| | | | | | | | |]; try apply He.
destruct (lookup_lt_is_Some_2 _ _ Hlt) as [v Hl]. rewrite Hl.
destruct (v_inputs v !! field) as [x|] eqn:Hx.
{ split; [done|]. by apply (vo_in _ _ _ (C _ _ Hl) field). }
destruct (v_view v) eqn:Hv; [|apply He].
destruct (HasOutputField _ _); [|case_match; apply He].
destruct (vo_full _ _ _ (C _ _ Hl) Hv) as (_ & c & Hc & _). rewrite Hc.
eapply safe_bind; [by eapply run_safe|]. intros [[u|e] s1] G1; simpl in *.
- split; [done|]. destruct (gr_heap _ _ G1 _ _ Hl) as (v1 & Hl1 & _).
unfold output_field. rewrite Hl1. destruct (v_outputs v1 !! field) as [x|] eqn:Ho.
+ by apply (vo_out _ _ _ (gr_closed _ _ G1 _ _ Hl1) field).
+ intros j Hj. by apply not_elem_of_nil in Hj.
- split; [done|]. intros j Hj. by apply not_elem_of_nil in Hj.
Qed.

(** A literal is a closed value, of the type it names. *)
Lemma NewValue_ok o ty fields b (s : st) :
match env_Provider o with PvFull r => r ⊆ reg | _ => True end ->
(forall l, fields_ptrs fields l -> l < length s.1) -> NewValue o ty fields = Ok b ->
match b with
| BValue v => value_ok s (length s.1) v /\ v_view v = fullView /\ mt_FullName (v_typ v) = ty
| BOther x => ptrs x = []
end.
Proof.
intros Ho Hf. unfold NewValue, RequestProvider_NewValue, FullProvider_NewValue, NewFullValue.
assert (BOther <$> base_NewValue ty fields = Ok b ->
match b with BValue v => value_ok s (length s.1) v /\ v_view v = fullView /\
  mt_FullName (v_typ v) = ty | BOther x => ptrs x = [] end) as Hb.
{ destruct (base_NewValue ty fields) eqn:E; simpl; [|done]. intros [= <-].
apply Hbase in E. by apply bool_decide_eq_true in E. }
destruct (env_Provider o) as [|t|r]; [done|by case_bool_decide|].
destruct (lookup_view r ty) as [[t []]|] eqn:Hlv; [|done..].
assert (r !! ty = Some t) as Ht.
{ unfold lookup_view in Hlv. repeat case_match; naive_solver. }
destruct (check_literal _ _); [|done]. simpl.
pose proof (lookup_weaken _ _ _ _ Ht Ho) as Ht'.
assert (mt_FullName t = ty) as Hty by (by apply (Hreg ty t)).
rewrite Hty, Ht. simpl. intros [= <-]. simpl. split; [|by split].
split; simpl; [|by intros f x Hx|].
- intros f x Hx l Hl. apply Hf. by exists f, x.
- intros _. rewrite Hty. split; [done|]. eexists. split; [done|]. by intros ? ? [=].
Qed.

Lemma run_prog_safe o inst p (K : nat -> Prop) (s : st) :
match env_Provider o with PvFull r => r ⊆ reg | _ => True end ->
honest K p -> closed s -> (forall l, K l -> l < length s.1) ->
safe (fun x => grow s x.2 /\ forall j, j ∈ res_ptrs x.1 -> j < length x.2.1)
(run_prog metas ex o inst p s).
Proof.
intros Ho Hp. revert s. induction Hp as [K r Hr|K l key k Hl _ IH|K ty fields k Hf _ IH|K k _ IH];
intros s C HK; simpl.
- split; [by apply grow_refl|auto].
- eapply safe_bind; [apply Get_safe; auto|]. intros [r s1] [G1 Hr]. simpl in *.
eapply safe_impl; [apply IH; [apply G1|]|].
+ intros j [Hj|Hj]; [|auto]. pose proof (grow_length _ _ G1). specialize (HK j Hj). lia.
+ intros x [Gx Hx]. split; [by etrans|done].
- assert (forall v, ptrs v = [] -> forall j, K j \/ j ∈ res_ptrs (Ok v) -> j < length s.1) as Hno.
{ intros v Hv j [Hj|Hj]; [auto|]. simpl in Hj. rewrite Hv in Hj. by apply not_elem_of_nil in Hj. }
assert (forall l, fields_ptrs fields l -> l < length s.1) as Hfl by eauto.
destruct (NewValue o ty fields) as [[v|v]|e] eqn:Hn.
+ destruct (NewValue_ok _ _ _ _ s Ho Hfl Hn) as (Hv & _).
destruct (alloc_grow v s C Hv) as [G1 Hl]. simpl in G1, Hl.
set (s1 := (s.1 ++ [v], s.2)) in *.
assert (grow s (if inst then install metas (length s.1) s1 else s1)) as G2.
{ destruct inst; [|done]. etrans; [exact G1|]. apply install_grow, G1. }
eapply safe_impl; [apply IH; [apply G2|]|intros x [Gx Hx]; split; [by etrans|done]].
pose proof (grow_length _ _ G2).
assert (length s.1 < length s1.1) as Hs1 by (unfold s1; simpl; rewrite length_app; simpl; lia).
assert (length s.1 < length (if inst then install metas (length s.1) s1 else s1).1) as Hlt.
{ destruct inst; [|done]. pose proof (grow_length _ _ (install_grow (length s.1) s1 (gr_closed _ _ G1))).
lia. }
intros j [Hj|Hj]; [specialize (HK j Hj); lia|]. apply list_elem_of_singleton in Hj as ->. done.
+ apply IH; [done|]. apply Hno. by apply (NewValue_ok _ _ _ _ s Ho Hfl Hn).
+ apply IH; [done|]. intros j [Hj|Hj]; [auto|]. by apply not_elem_of_nil in Hj.
- by apply IH.
Qed.

Lemma run_program_safe p act (s : st) :
honest_program reg p -> closed s -> (forall l, fields_ptrs act l -> l < length s.1) ->
safe (fun x => grow s x.2 /\ forall j, j ∈ res_ptrs x.1 -> j < length x.2.1)
(run_program metas ex p act s).
Proof. intros [He Hh] C Ha. by apply (run_prog_safe _ _ _ (fields_ptrs act)). Qed.

(** *** Completers *)

Lemma set_field_safe l v name out (s : st) :
closed s -> s.1 !! l = Some v -> v_view v = fullView -> HasOutputField (v_typ v) name = true ->
(forall j, j ∈ ptrs out -> j < length s.1) -> safe (grow s) (set_field l name out s).
Proof.
intros C Hl Hv Ho Hout. unfold set_field, SetField. rewrite Hl, Ho.
rewrite bool_decide_eq_false_2 by naive_solver. simpl.
apply (insert_grow _ v); [done..|by split|]. destruct (C _ _ Hl) as [I O F].
split; [done| |done]. intros f x. simpl. intros [[<- <-]|[_ Hx]]%lookup_insert_Some; [|by eapply O].
intros j Hj. apply Hout. by destruct out as [| | | | | | | | |[o|]| | | | |]; simpl in *;
try by apply not_elem_of_nil in Hj.
Qed.

Lemma install_child_grow out (s : st) : closed s -> grow s (install_child metas out s).
Proof. intros C. destruct out; try by apply grow_refl. by apply install_grow. Qed.

Lemma output_act_ptrs input resp l :
fields_ptrs (output_activation input req resp) l -> l = input.
Proof.
intros (f & v & Hf & Hl). unfold output_activation in Hf.
apply lookup_insert_Some in Hf as [[_ <-]|[_ Hf]]; [by apply list_elem_of_singleton in Hl|].
apply lookup_insert_Some in Hf as [[_ <-]|[_ Hf]]; [by apply not_elem_of_nil in Hl|].
apply lookup_singleton_Some in Hf as [_ <-]. by apply not_elem_of_nil in Hl.
Qed.

Lemma run_outputs_safe l v input resp ops (s : st) :
Forall (fun op => honest_program reg op.2) ops ->
Forall (fun op => HasOutputField (v_typ v) op.1 = true) ops ->
closed s -> s.1 !! l = Some v -> v_view v = fullView -> input < length s.1 ->
safe (fun x => grow s x.2) (run_outputs metas req ex l input resp ops s).
Proof.
intros Hops. revert s v. induction Hops as [|[name op] ops Hop _ IH];
intros s v Hfit C Hl Hv Hin; simpl; [by apply grow_refl|].
apply Forall_cons in Hfit as [Hn Hfit]. simpl in Hop, Hn. eapply safe_bind.
{ apply run_program_safe; [done..|]. by intros j ->%output_act_ptrs. }
intros [[out|e] s1] [G1 Hout]; simpl in *; [|done].
pose proof (install_child_grow out s1 (gr_closed _ _ G1)) as G2.
assert (grow s (install_child metas out s1)) as G3 by (by etrans).
destruct (gr_heap _ _ G3 _ _ Hl) as (v3 & Hl3 & S3).
eapply safe_bind.
{ apply (set_field_safe l v3); [apply G3|done|by rewrite (ss_view _ _ S3)|
by rewrite (ss_typ _ _ S3)|]. by apply (grow_valid _ _ out G2). }
intros s4 G4. assert (grow s s4) as G5 by (by etrans).
destruct (gr_heap _ _ G5 _ _ Hl) as (v5 & Hl5 & S5). pose proof (grow_length _ _ G5).
eapply safe_impl; [apply (IH s4 v5); [by rewrite (ss_typ _ _ S5)|apply G5|done|
by rewrite (ss_view _ _ S5)|lia]|]. intros x Gx. by etrans.
Qed.

Lemma CompleterFor_safe m l v (s : st) :
closed s -> s.1 !! l = Some v -> v_view v = fullView -> sound_meta m -> fits m v ->
safe (fun x => grow s x.2) (CompleterFor reg metas req ex m l s).
Proof.
intros C Hl Hv [Hmr Hmo] Hfit. unfold CompleterFor. rewrite Hl. unfold NewInputValue.
destruct (reg !! _) as [t|]; [|by apply grow_refl]. set (iv := mkValue _ _ _ _ _ _).
destruct (alloc_grow iv s C) as [G1 Hi].
{ split; simpl; [|by intros|by intros]. intros f x. by apply (vo_in _ _ _ (C _ _ Hl)). }
destruct (alloc iv s) as [input s1]. simpl in G1, Hi. apply lookup_lt_Some in Hi. eapply safe_bind.
{ apply run_program_safe; [done|apply G1|]. intros j (f & x & Hf & Hj).
unfold request_activation in Hf. apply lookup_singleton_Some in Hf as [_ <-]. by apply list_elem_of_singleton in Hj as ->. }
intros [r s2] [G2 _]. simpl in G2. assert (grow s s2) as G12 by (by etrans).
destruct (as_MetaRequest r) as [mr|e]; [|done].
destruct (memo_resolve (m_APIName m) s2) as [api s3] eqn:Hm.
assert (grow s2 s3) as G3.
{ apply same_heap_grow; [apply G12|]. unfold memo_resolve in Hm.
destruct (x_cache _ !! _); by injection Hm as <- <-. }
assert (grow s s3) as G13 by (by etrans). destruct api as [api|e]; [|done].
set (s4 := emit _ s3). assert (grow s s4) as G4.
{ etrans; [exact G13|]. apply same_heap_grow; [apply G13|done]. }
destruct (Call _ api mr) as [resp|e]; [|done].
destruct (gr_heap _ _ G4 _ _ Hl) as (v4 & Hl4 & S4).
eapply safe_impl; [apply (run_outputs_safe l v4); [done|by rewrite (ss_typ _ _ S4)|apply G4|done|
by rewrite (ss_view _ _ S4)|]|intros x Gx; by etrans].
pose proof (grow_length _ _ G2). pose proof (grow_length _ _ G3). simpl. lia.
Qed.
End with_exec.

Lemma exec_is_safe n : exec_safe (exec reg metas req n).
Proof.
induction n as [|n IH]; intros m l s v C Hl Hv Hm Hf; simpl; [done|].
by eapply CompleterFor_safe.
Qed.

(** *** Binds *)

(** The result of a bind is a value of the type it was compiled to. *)
Definition is_a (T : string) (s : st) (l : nat) : Prop :=
exists v, s.1 !! l = Some v /\ v_view v = fullView /\ mt_FullName (v_typ v) = T.

Lemma is_a_grow T s s' l : grow s s' -> is_a T s l -> is_a T s' l.
Proof.
intros G (v & Hl & Hv & Hn). destruct (gr_heap _ _ G _ _ Hl) as (v' & Hl' & S).
exists v'. by rewrite (ss_view _ _ S), (ss_typ _ _ S).
Qed.

Lemma run_prog_makes T n o inst p (K L : nat -> Prop) (s : st) :
match env_Provider o with PvFull r => r ⊆ reg | _ => True end ->
honest L p -> makes T K p -> closed s -> (forall l, L l -> l < length s.1) ->
(forall l, K l -> is_a T s l) ->
safe (fun x => forall l, x.1 = Ok (VPtr l) -> is_a T x.2 l)
(run_prog metas (exec reg metas req n) o inst p s).
Proof.
intros Ho Hp Hm. revert K Hm s.
induction Hp as [L r Hr|L l key k Hl _ IH|L ty fields k Hf _ IH|L k _ IH];
intros K Hm s C HL HK; inversion Hm; subst; cbn [run_prog].
- simpl. auto.
- eapply safe_bind; [apply (Get_safe _ (exec_is_safe n)); auto|]. intros [r s1] [G1 Hr]. simpl in *.
eapply IH; [eauto|apply G1| |intros j Hj; by eapply is_a_grow, HK].
intros j [Hj|Hj]; [|auto]. pose proof (grow_length _ _ G1). specialize (HL j Hj). lia.
- assert (forall l, fields_ptrs fields l -> l < length s.1) as Hfl by eauto.
destruct (NewValue o ty fields) as [[v|v]|e] eqn:Hn.
+ destruct (NewValue_ok _ _ _ _ s Ho Hfl Hn) as (Hv & Hvv & Hvt).
destruct (alloc_grow v s C Hv) as [G1 Hl]. simpl in G1, Hl |- *.
set (s1 := (s.1 ++ [v], s.2)) in *.
assert (is_a ty s1 (length s.1)) as Hty by (by exists v).
assert (grow s1 (if inst then install metas (length s.1) s1 else s1)) as G2.
{ destruct inst; [apply install_grow, G1|apply grow_refl, G1]. }
set (s2 := if inst then _ else _) in *. pose proof (grow_length _ _ G2).
assert (length s.1 < length s1.1) as Hs1 by (unfold s1; simpl; rewrite length_app; simpl; lia).
eapply IH; [eauto|apply G2| |].
* intros j [Hj|Hj]; [specialize (HL j Hj); lia|]. apply list_elem_of_singleton in Hj as ->. lia.
* intros j [Hj|[-> [= <-]]]; [|by eapply is_a_grow]. eapply is_a_grow; [|by apply HK]. by etrans.
+ pose proof (NewValue_ok _ _ _ _ s Ho Hfl Hn) as Hv. simpl in Hv. eapply IH; [eauto|done| |].
* intros j [Hj|Hj]; [auto|]. simpl in Hj. rewrite Hv in Hj. by apply not_elem_of_nil in Hj.
* intros j [Hj|[_ [= ->]]]; [auto|done].
+ eapply IH; [eauto|done| |].
* intros j [Hj|Hj]; [auto|]. by apply not_elem_of_nil in Hj.
* intros j [Hj|[_ [=]]]; auto.
- eauto.
Qed.

Lemma safe_and {A} (P Q : A -> Prop) o : safe P o -> safe Q o -> safe (fun a => P a /\ Q a) o.
Proof. destruct o; simpl; auto. Qed.

Definition sound_bind (b : BoundVariable) : Prop :=
honest_program reg (bind_program (bv_Bind b)) /\
forall act, makes (bv_MetaName b) (fun _ => False) (prg_Eval (bind_program (bv_Bind b)) act).

Definition bound (s : st) (binds : list (string * nat)) : Prop :=
Forall (fun b => is_a b.1 s b.2) binds.

Lemma bound_grow s s' binds : grow s s' -> bound s binds -> bound s' binds.
Proof. intros G H1. eapply Forall_impl; [exact H1|]. intros b. by apply is_a_grow. Qed.

Lemma bind_act_ptrs m l : ~ fields_ptrs (bind_activation req m) l.
Proof.
intros (f & v & Hf & Hl). unfold bind_activation in Hf.
apply lookup_insert_Some in Hf as [[_ <-]|[_ Hf]]; [by apply not_elem_of_nil in Hl|].
apply lookup_singleton_Some in Hf as [_ <-]. unfold match_val in Hl. simpl in Hl.
induction (map_to_list m) as [|[k w] kvs IH]; [by apply not_elem_of_nil in Hl|auto].
Qed.

Lemma condition_act_ptrs a pr now binds l :
fields_ptrs (condition_activation a req pr now binds) l -> exists b, b ∈ binds /\ b.2 = l.
Proof.
assert (forall act, fields_ptrs (foldl (fun act '(name, l) => <[name := VPtr l]> act) act binds) l ->
  fields_ptrs act l \/ exists b, b ∈ binds /\ b.2 = l) as Hfold.
{ induction binds as [|[name j] binds IH]; intros act; simpl; [by left|].
intros [Ha|(b & Hb & <-)]%IH; [|right; exists b; set_solver].
destruct Ha as (f & v & Hf & Hl). apply lookup_insert_Some in Hf as [[_ <-]|[_ Hf]].
- apply list_elem_of_singleton in Hl as ->. right. exists (name, j). set_solver.
- left. by exists f, v. }
intros [(f & v & Hf & Hl)|?]%Hfold; [|done]. exfalso.
repeat (apply lookup_insert_Some in Hf as [[_ <-]|[_ Hf]]; [by apply not_elem_of_nil in Hl|]).
apply lookup_singleton_Some in Hf as [_ <-]. by apply not_elem_of_nil in Hl.
Qed.

Lemma EvalBinds_safe n bs m (s : st) :
Forall sound_bind bs -> closed s ->
safe (fun x => grow s x.2 /\ forall binds, x.1 = Ok binds -> bound x.2 binds)
  (EvalBinds reg metas req n bs m s).
Proof.
intros Hb. revert s. induction Hb as [|b bs [Hh Hmk] _ IH]; intros s C; cbn [EvalBinds].
{ split; [by apply grow_refl|]. intros binds [= <-]. constructor. }
set (act := bind_activation req m).
assert (forall l, fields_ptrs act l -> l < length s.1) as Hact by (by intros l ?%bind_act_ptrs).
eapply safe_bind.
{ apply safe_and; [by apply (run_program_safe _ (exec_is_safe n))|].
apply (run_prog_makes (bv_MetaName b) n _ _ _ (fun _ => False) (fields_ptrs act));
  [apply Hh|apply Hh|apply Hmk|done|done|done]. }
intros [v s1] [[G1 _] Ht]; simpl in *.
destruct (as_Value v) as [l|e] eqn:Hv; [|by split].
assert (v = Ok (VPtr l)) as -> by (by destruct v as [[]|]; simpl in Hv; simplify_eq).
eapply safe_bind; [apply IH, G1|]. intros [rest s2] [G2 Hrest]. simpl in *.
split; [by etrans|]. destruct rest as [vs|e]; simpl; [|done]. intros binds [= <-].
constructor; [|by apply Hrest]. simpl. eapply is_a_grow; [exact G2|]. by apply Ht.
Qed.

Lemma wire_binds_grow binds (s : st) :
closed s -> bound s binds -> grow s (wire_binds metas binds s).2.
Proof.
revert s. induction binds as [|[name l] binds IH]; intros s C Hb; simpl; [by apply grow_refl|].
apply Forall_cons in Hb as [(v & Hl & Hv & Hn) Hb]. simpl in Hl, Hn.
destruct (metas !! name) as [m|] eqn:Hm; [|by apply grow_refl].
pose proof (set_completer_grow _ _ _ _ _ C Hl Hn Hv Hm) as G.
etrans; [exact G|]. apply IH; [apply G|]. by eapply bound_grow.
Qed.

Lemma Policy_Evaluate_safe n p a pr now binds (s : st) :
honest_program reg (cp_condition p) -> closed s -> bound s binds ->
safe (fun x => grow s x.2) (Policy_Evaluate reg metas req n p a pr now binds s).
Proof.
intros Hh C Hb. unfold Policy_Evaluate, Condition_Eval.
pose proof (wire_binds_grow binds s C Hb) as G.
destruct (wire_binds metas binds s) as [[u|e] s1]; [|done]. simpl in G.
destruct pr as [pr|]; simpl; [|done].
eapply (safe_bind (fun x => grow s x.2)); [|intros [r s2] G2; exact G2]. eapply safe_bind.
{ apply (run_program_safe _ (exec_is_safe n)); [done|apply G|].
intros j (b & Hj & <-)%condition_act_ptrs. pose proof (bound_grow _ _ _ G Hb) as Hb1.
unfold bound in Hb1. rewrite Forall_forall in Hb1. destruct (Hb1 _ Hj) as (v & Hl & _).
by eapply lookup_lt_Some. }
intros [r s2] [G2 _]. simpl in *. by etrans.
Qed.
End closed.

(** The API's expressions were checked: they use the meta values they are given,
    a bind makes a value of its declared type, a meta's outputs are fields of its
    type, and every environment was made with types of the registry. *)
Record sound_api `{CelEngine} `{Upstream} (r : APIRuntime) : Prop := {
  sa_base : forall ty fields v, base_NewValue ty fields = Ok v -> no_ptr v = true;
  sa_reg : registry_wf (ar_registry r);
  sa_metas : forall name m, ar_metas r !! name = Some m -> sound_meta (ar_registry r) m /\
    exists t, ar_registry r !! name = Some t /\
      Forall (fun op => HasOutputField t op.1 = true) (m_Outputs m);
  sa_binds : Forall (fun a => Forall (sound_bind (ar_registry r)) (ca_Binds a)) (ar_actions r);
  sa_conds : Forall (fun p => honest_program (ar_registry r) (cp_condition p)) (ps_all (ar_store r))
}.

Section sound_api.
Context `{CelEngine} `{Upstream}.
Variables (r : APIRuntime) (req : Request) (n : nat) (pr : option Principal) (now : Z).
Hypothesis Hs : sound_api r.
Notation closed := (closed (ar_registry r)).
Notation grow := (grow (ar_registry r)).

Definition wired_matches (s : st) (ms : list matchedAction) : Prop :=
Forall (fun m => bound s (ma_binds m)) ms.

Lemma wired_matches_grow s s' ms : grow s s' -> wired_matches s ms -> wired_matches s' ms.
Proof. intros G Hm. eapply Forall_impl; [exact Hm|]. intros m. by eapply bound_grow. Qed.

Lemma match_actions_safe acts (s : st) :
Forall (fun a => Forall (sound_bind (ar_registry r)) (ca_Binds a)) acts -> closed s ->
safe (fun x => grow s x.2 /\ forall ms, x.1 = Ok ms -> wired_matches x.2 ms)
  (match_actions r req n acts s).
Proof.
intros Ha. revert s. induction Ha as [|a acts Hb _ IH]; intros s C; cbn [match_actions].
{ split; [by apply grow_refl|]. intros ms [= <-]. constructor. }
destruct (CAction_Match req a) as [[m|]|e]; [|by apply IH|split; [by apply grow_refl|done]].
eapply safe_bind; [apply EvalBinds_safe; [apply Hs..|done|done]|].
intros [[b|e] s1] [G1 Hbound]; simpl in *; [|by split].
eapply safe_bind; [apply IH, G1|]. intros [rest s2] [G2 Hrest]. simpl in *.
split; [by etrans|]. destruct rest as [ms|e]; simpl; [|done]. intros ms' [= <-].
constructor; [|by apply Hrest]. simpl. eapply bound_grow; [exact G2|]. by apply Hbound.
Qed.

Lemma eval_actions_safe p ms (s : st) :
honest_program (ar_registry r) (cp_condition p) -> closed s -> wired_matches s ms ->
safe (fun x => grow s x.2) (eval_actions r req n pr now p ms s).
Proof.
intros Hh. revert s. induction ms as [|m ms IH]; intros s C Hm; cbn [eval_actions];
[by apply grow_refl|]. apply Forall_cons in Hm as [Hm Hms].
destruct (AppliesTo _ _ _ _ _ _) as [[]|e]; [|by apply IH|by apply grow_refl].
eapply safe_bind; [by apply Policy_Evaluate_safe; [apply Hs..|done|done|done]|].
intros [fired s1] G1. simpl in G1.
assert (forall ev, grow s (emit ev s1)) as Ge.
{ intros ev. etrans; [exact G1|]. apply same_heap_grow; [apply G1|done]. }
destruct fired as [[]|e]; [|..|apply Ge].
- simpl. etrans; [apply Ge|]. apply same_heap_grow; [apply (Ge (EvCond "" "" Deny (Ok true)))|done].
- eapply safe_impl; [apply IH; [apply (Ge (EvCond (ma_name m) (cp_Name p) (cp_Result p) (Ok false)))|]|].
+ eapply wired_matches_grow; [apply (Ge _)|done].
+ intros x Gx. etrans; [apply Ge|exact Gx].
Qed.

Lemma eval_policies_safe ps ms (s : st) :
Forall (fun p => honest_program (ar_registry r) (cp_condition p)) ps -> closed s ->
wired_matches s ms -> safe (fun x => grow s x.2) (eval_policies r req n pr now ps ms s).
Proof.
intros Hp. revert s. induction Hp as [|p ps Hh _ IH]; intros s C Hm; cbn [eval_policies];
[by apply grow_refl|].
destruct (AppliesToPrincipal _ _ _ _) as [[]|e]; [|by apply IH|by apply grow_refl].
eapply safe_bind; [by apply eval_actions_safe|]. intros [[d|] s1] G1; simpl in G1; [done|].
eapply safe_impl; [apply IH; [apply G1|by eapply wired_matches_grow]|]. intros x Gx. by etrans.
Qed.

Lemma AR_Evaluate_safe (s : st) :
closed s -> safe (fun x => grow s x.2) (AR_Evaluate r req n pr now s).
Proof.
intros C. unfold AR_Evaluate, matchActions. destruct pr as [p|] eqn:Hpr; [|by apply grow_refl].
eapply safe_bind; [apply match_actions_safe; [apply Hs|done]|].
intros [[[|m ms]|e] s1] [G1 Hm]; simpl in *; try done. rewrite <- Hpr.
eapply safe_impl; [apply eval_policies_safe; [apply Hs|apply G1|by apply Hm]|].
intros x Gx. by etrans.
Qed.
End sound_api.

(** ** What compiling guarantees of a meta *)

Lemma compile_outputs_names `{CelEngine} env os ops :
  compile_outputs env os = Ok ops -> ops.*1 = map of_Name os.
Proof.
  revert ops. induction os as [|o os IH]; intros ops; simpl; [by intros [= <-]|].
  intros (op & _ & (rest & Hr & [= <-])%bind_ok)%bind_ok. simpl. f_equal. by apply IH.
Qed.

(** The outputs condition of [sound_api] is what [RegisterMetaType] and
    [CompileMeta] build. *)
Lemma CompileMeta_fits `{CelEngine} meta api reg reg1 reg2 t m :
  RegisterMetaType meta api reg = Ok (t, reg1) -> CompileMeta meta api t reg2 = Ok m ->
  m_Type m = t /\ Forall (fun op => HasOutputField t op.1 = true) (m_Outputs m).
Proof.
  unfold RegisterMetaType, CompileMeta.
  intros (seen & _ & (reg' & _ & [= <- <-])%bind_ok)%bind_ok.
  intros (re & _ & (rp & _ & (oe & _ & (ops & Ho & [= <-])%bind_ok)%bind_ok)%bind_ok)%bind_ok.
  apply compile_outputs_names in Ho. split; [done|]. simpl. apply Forall_forall. intros op Hop.
  apply HasOutputField_spec. simpl. rewrite <- Ho. by apply list_elem_of_fmap_2.
Qed.

(** ** Property *)

(** C17. Evaluation returns.  When no literal of the API's expressions carries
    a meta value and meta expressions read only their [input] and what they
    build ([flat_api]), and the expressions are well typed ([sound_api]: they
    use the meta values they are given, a bind makes a value of its declared
    type, outputs are fields of the type), [Evaluate] ends with a decision,
    without a panic and without running out of fuel, whatever the upstreams
    answer: one level of completers is enough and every larger fuel gives the
    same decision and state. *)
Theorem AR_Evaluate_returns `{CelEngine} `{Upstream} (r : APIRuntime) (req : Request)
    (principal : option Principal) (now : Z) (Hf : flat_api r req) (Hs : sound_api r) :
  exists d s', forall n, AR_Evaluate r req (S n) principal now init_st = ODone (d, s').
Proof.
  destruct (AR_Evaluate_fuel_enough r req principal now Hf) as [Hn Hm].
  pose proof (AR_Evaluate_safe r req 1 principal now Hs init_st) as Hsafe.
  destruct (AR_Evaluate r req 1 principal now init_st) as [[d s']| |] eqn:E.
  - exists d, s'. intros n. by rewrite Hm.
  - destruct Hsafe. intros l v Hl. done.
  - done.
Qed.

Lemma honest_select (K : nat -> Prop) act name field k :
  (forall l, fields_ptrs act l -> K l) ->
  (forall r, honest (fun j => K j \/ j ∈ res_ptrs r) (k r)) -> honest K (select act name field k).
Proof.
  intros HK Hk. unfold select.
  repeat case_match; try (apply HRet; intros j Hj; by apply not_elem_of_nil in Hj).
  apply HGet; [|done]. apply HK. eexists name, (VPtr _). split; [eassumption|]. apply list_elem_of_here.
Qed.

Ltac honest_ret := apply HRet; intros ? ?%not_elem_of_nil; done.

Ltac within := unfold env_within; simpl; reflexivity.

Lemma demo_sound : @sound_api demo_cel demo_up demo_runtime.
Proof.
  split.
  - discriminate.
  - by apply map_Forall_singleton.
  - intros name m. simpl. unfold demo_metas. intros [<- <-]%lookup_singleton_Some. split; [split|].
    + split; [done|]. intros act. apply honest_select; [done|].
      intros [v|e]; [destruct v|]; honest_ret.
    + constructor; [|constructor]. split; [within|]. intros act. simpl.
      repeat case_match; honest_ret.
    + exists demo_type. split; [done|]. by repeat constructor.
  - constructor; [|constructor]. constructor; [|constructor]. split; [split; [within|]|]; simpl.
    + intros act. apply HNew.
      * intros l (f & v & Hf & Hl). apply lookup_singleton_Some in Hf as [_ <-].
        by apply not_elem_of_nil in Hl.
      * intros r. apply HRet. auto.
    + intros act. apply MNew. intros r. apply MRet. auto.
  - repeat apply Forall_cons_2; try apply Forall_nil_2; (split; [within|]);
      intros act; simpl; (apply honest_select; [done|]; intros r;
      apply honest_select; [auto|]; intros r'; destruct r' as [v|e]; [destruct v|]; honest_ret).
Qed.

Lemma AR_Evaluate_returns_witness :
  exists d s', forall n,
    @AR_Evaluate demo_cel demo_up demo_runtime demo_req (S n) demo_principal 0%Z (@init_st demo_up)
    = ODone (d, s').
Proof.
  apply (@AR_Evaluate_returns demo_cel demo_up); [exact demo_flat|exact demo_sound].
Defined.
