(* ===== verification/Runtime.v ===== *)
(** * Builder and runtime: [internal/runtime/runtime.go]

    [Builder.AddAPI] registers an API's types and queues it; [Build] compiles
    every API in name order; the [Runtime] routes a request to one
    [APIRuntime] and edits policies per API.  Theorems: a failing [AddAPI]
    leaves no trace in the builder, the order of the [AddAPI] calls does not
    matter, and editing the runtime's policies refines a map keyed by
    (api, name). *)

From S2P Require Import Prelude GoStd Models Interfaces PathTemplate Routes Messages Compiled Evaluator EvaluatorFacts PolicyStore ApiRuntime.

Record pendingAPI := mkPending {
  pa_spec : API;
  pa_types : gmap string MetaType
}.

Record Builder := mkBuilder {
  b_registry : Registry;
  b_pending : gmap string pendingAPI;
  b_built : bool
}.

Definition NewBuilder : Builder := mkBuilder NewRegistry ∅ false.

Definition reservedTopLevelCEL : gset string :=
  {[ "principal"; "request"; "action"; "match"; "input"; "response"; "now" ]}.

Definition AddAPI (a : API) (b : Builder) : result unit * Builder :=
  if b_built b then (Err (EMsg "builder already consumed by Build"), b)
  else if is_some_b (b_pending b !! api_Name a) then (Err (EMsg "api already registered"), b)
  else if bool_decide (api_Name a ∈ reservedTopLevelCEL)
    then (Err (EMsg "api name collides with a reserved top-level CEL variable"), b)
  else if existsb (fun m => bool_decide (meta_Name m ∈ reservedTopLevelCEL)) (api_Meta a)
    then (Err (EMsg "meta name collides with a reserved top-level CEL variable"), b)
  else
    match registerAPITypes a (b_registry b) with
    | (Err e, reg) => (Err e, mkBuilder reg (b_pending b) (b_built b))
    | (Ok types, reg) =>
        (Ok tt, mkBuilder reg (<[api_Name a := mkPending a types]> (b_pending b)) (b_built b))
    end.

Definition name_le (p q : pendingAPI) : Prop := String.le (api_Name (pa_spec p)) (api_Name (pa_spec q)).

#[export] Instance name_le_dec : RelDecision name_le.
Proof. intros p q. unfold name_le. apply _. Defined.

Definition sortedPending (b : Builder) : list pendingAPI :=
  merge_sort name_le (map_to_list (b_pending b)).*2.

Record Runtime := mkRuntime {
  r_registry : Registry;
  r_apis : gmap string APIRuntime;
  r_specs : gmap string API;
  r_metas : gmap string Meta;
  r_routes : list prefixRoute
}.

Section runtime.
Context `{CelEngine}.
Variable url_Parse_ok : string -> bool.

(** First pass of [Build]: every API's metas, merged. *)
Fixpoint build_metas (reg : Registry) (ps : list pendingAPI) (metas : gmap string Meta)
: result (gmap string Meta) :=
match ps with
| [] => Ok metas
| p :: ps' =>
  ms ← compileAPIMetas (pa_spec p) reg (pa_types p);
  build_metas reg ps' (ms ∪ metas)
end.

(** Second pass: the API runtimes and specs, by name. *)
Fixpoint build_apis (reg : Registry) (metas : gmap string Meta) (ps : list pendingAPI)
(apis : gmap string APIRuntime) (specs : gmap string API)
: result (gmap string APIRuntime * gmap string API) :=
match ps with
| [] => Ok (apis, specs)
| p :: ps' =>
  rt ← compileAPIActions url_Parse_ok (pa_spec p) reg metas;
  build_apis reg metas ps' (<[api_Name (pa_spec p) := rt]> apis)
    (<[api_Name (pa_spec p) := pa_spec p]> specs)
end.

Definition build (b : Builder) : result Runtime :=
let pending := sortedPending b in
metas ← build_metas (b_registry b) pending ∅;
res ← build_apis (b_registry b) metas pending ∅ ∅;
routes ← buildPrefixRoutes (map pa_spec pending);
Ok (mkRuntime (b_registry b) res.1 res.2 metas routes).

Definition Build (b : Builder) : result Runtime * Builder :=
if b_built b then (Err (EMsg "Builder.Build: already consumed"), b)
else
let b := mkBuilder (b_registry b) (b_pending b) true in
(build b, b).

(** ** Policies *)

Definition not_registered : goerr := EMsg "api is not registered".

Definition set_api (name : string) (a : APIRuntime) (r : Runtime) : Runtime :=
mkRuntime (r_registry r) (<[name := a]> (r_apis r)) (r_specs r) (r_metas r) (r_routes r).

Definition AddPolicy (p : Policy) (r : Runtime) : result unit * Runtime :=
match r_apis r !! pol_API p with
| None => (Err not_registered, r)
| Some a => let '(res, a') := AR_Add p a in (res, set_api (pol_API p) a' r)
end.

Definition ReplacePolicy (p : Policy) (r : Runtime) : result bool * Runtime :=
match r_apis r !! pol_API p with
| None => (Err not_registered, r)
| Some a => let '(res, a') := AR_Replace p a in (res, set_api (pol_API p) a' r)
end.

Definition RemovePolicy (api name : string) (r : Runtime) : result bool * Runtime :=
match r_apis r !! api with
| None => (Err not_registered, r)
| Some a => let '(b, a') := AR_Remove name a in (Ok b, set_api api a' r)
end.

Definition ValidatePolicy (p : Policy) (r : Runtime) : result unit :=
match r_apis r !! pol_API p with
| None => Err not_registered
| Some a => _ ← compile a p; Ok tt
end.

Definition sorted_keys {A} (m : gmap string A) : list string :=
sort_strings (map_to_list m).*1.

Definition ListPolicies (r : Runtime) : list Policy :=
flat_map (fun name => match r_apis r !! name with Some a => AR_List a | None => [] end)
(sorted_keys (r_apis r)).

(** ** Lookups *)

Definition Runtime_API (r : Runtime) (name : string) : option APIRuntime := r_apis r !! name.

Definition APISpecs (r : Runtime) : list API :=
omap (fun name => r_specs r !! name) (sorted_keys (r_specs r)).

(** In unspecified order. *)
Definition APINames (r : Runtime) : list string := (map_to_list (r_apis r)).*1.

Definition segs_request (segs : list string) : Request := mkRequest "" "" segs [] None.

Definition APIForPath (r : Runtime) (path : string) : string :=
routeRequest (r_routes r) (segs_request (SplitPath path)).

Definition APIForSegments (r : Runtime) (segs : list string) : string :=
routeRequest (r_routes r) (segs_request segs).
End runtime.

(** ** Evaluation *)

Section evaluate.
Context `{CelEngine} `{Upstream}.

(** A fresh heap and a fresh resolver cache per request.  A route to an API
that is not compiled is Go's nil dereference. *)
Definition Evaluate (r : Runtime) (fuel : nat) (req : Request) (principal : option Principal)
(now : Z) : outcome (string * decision * st) :=
match principal with
| None => ODone ("", (Deny, Some (EMsg "principal is required")), init_st)
| Some _ =>
  let apiName := routeRequest (r_routes r) req in
  if decide (apiName = "") then ODone ("", (Deny, None), init_st)
  else
    match r_apis r !! apiName with
    | None => OPanic
    | Some a =>
        obind (AR_Evaluate a req fuel principal now init_st)
          (fun '(d, s) => ODone (apiName, d, s))
    end
end.

Definition Runtime_MatchedActions (r : Runtime) (fuel : nat) (req : Request)
: outcome (string * result (list string)) :=
let apiName := routeRequest (r_routes r) req in
if decide (apiName = "") then ODone ("", Ok [])
else
match r_apis r !! apiName with
| None => OPanic
| Some a => obind (MatchedActions a req fuel init_st) (fun '(ms, _) => ODone (apiName, ms))
end.
End evaluate.

(** ** [AddAPI] *)

Definition type_of (a : API) (m : Metadata) : MetaType :=
  mkMetaType (full_name a m) (map if_Name (meta_Input m)) (map of_Name (meta_Output m)).

Definition fulls (a : API) : list string := map (full_name a) (api_Meta a).

Definition add_types (a : API) (ms : list Metadata) (reg : Registry) : Registry :=
  foldl (fun r m => <[full_name a m := type_of a m]> r) reg ms.

Definition short_types (a : API) (ms : list Metadata) (acc : gmap string MetaType)
    : gmap string MetaType :=
  foldl (fun t m => <[meta_Name m := type_of a m]> t) acc ms.

Lemma full_name_nonempty a m : full_name a m <> "".
Proof. unfold full_name. by destruct (api_Name a). Qed.

Lemma validate_metas_ok a ms seen reg u :
  validate_metas a ms seen reg = Ok u <->
  Forall (fun m => full_name a m ∉ seen /\ reg !! full_name a m = None /\
    ValidateMetaFields m = Ok tt) ms /\ NoDup (map (full_name a) ms).
Proof.
  revert seen. induction ms as [|m ms IH]; intros seen; simpl.
  { destruct u. split; [|done]. intros _. by split; constructor. }
  rewrite Forall_cons, NoDup_cons. case_bool_decide as Hs; [naive_solver|].
  unfold Registry_Get. destruct (reg !! full_name a m) eqn:Hr; simpl; [naive_solver|].
  destruct (ValidateMetaFields m) as [[]|e]; simpl; [|naive_solver].
  rewrite IH, !Forall_forall. split.
  - intros [HF Hnd]. split.
    + split; [done|]. intros x Hx. destruct (HF x Hx) as (? & ? & ?). set_solver.
    + split; [|done]. rewrite list_elem_of_fmap. intros (x & E & Hx).
      destruct (HF x Hx) as (Hn & _). rewrite E in Hn. set_solver.
  - intros [[_ HF] [Hn Hnd]]. split; [|done]. intros x Hx. destruct (HF x Hx) as (? & ? & ?).
    split; [|done]. rewrite elem_of_cons. intros [E|?]; [|done]. apply Hn.
    rewrite <- E. apply list_elem_of_fmap. eauto.
Qed.

(** Once the batch is validated, registering it cannot fail. *)
Lemma register_metas_ok a ms reg types :
  Forall (fun m => reg !! full_name a m = None /\ ValidateMetaFields m = Ok tt) ms ->
  NoDup (map (full_name a) ms) ->
  register_metas a ms reg types = (Ok (short_types a ms types), add_types a ms reg).
Proof.
  revert reg types. induction ms as [|m ms IH]; intros reg types; simpl; [done|].
  rewrite Forall_cons, NoDup_cons. intros [[Hr Hv] HF] [Hn Hnd].
  unfold RegisterMetaType, Register. rewrite Hv. simpl. fold (full_name a m).
  rewrite bool_decide_eq_false_2 by apply full_name_nonempty. rewrite Hr. simpl.
  apply IH; [|done]. rewrite Forall_forall in *. intros x Hx. destruct (HF x Hx). split; [|done].
  rewrite lookup_insert_ne; [done|]. intros E. apply Hn. rewrite E. apply list_elem_of_fmap. eauto.
Qed.

(** When [AddAPI] accepts. *)
Record acceptable (a : API) (b : Builder) : Prop := {
  acc_open : b_built b = false;
  acc_new : b_pending b !! api_Name a = None;
  acc_name : api_Name a ∉ reservedTopLevelCEL;
  acc_metas : Forall (fun m => meta_Name m ∉ reservedTopLevelCEL /\
    ValidateMetaFields m = Ok tt) (api_Meta a);
  acc_nodup : NoDup (fulls a);
  acc_types : forall k, k ∈ fulls a -> b_registry b !! k = None
}.

Definition added (a : API) (b : Builder) : Builder :=
  mkBuilder (add_types a (api_Meta a) (b_registry b))
    (<[api_Name a := mkPending a (short_types a (api_Meta a) ∅)]> (b_pending b)) (b_built b).

Lemma existsb_reserved (ms : list Metadata) :
  existsb (fun m => bool_decide (meta_Name m ∈ reservedTopLevelCEL)) ms = false <->
  Forall (fun m => meta_Name m ∉ reservedTopLevelCEL) ms.
Proof.
  induction ms as [|m ms IH]; simpl; [by split|].
  rewrite orb_false_iff, bool_decide_eq_false, IH, Forall_cons. done.
Qed.

Lemma AddAPI_cases a b :
  (acceptable a b /\ AddAPI a b = (Ok tt, added a b)) \/
  (~ acceptable a b /\ exists e, AddAPI a b = (Err e, b)).
Proof.
  unfold AddAPI. destruct (b_built b) eqn:Hb; [right; split; [by intros []; congruence|eauto]|].
  destruct (b_pending b !! api_Name a) eqn:Hp; simpl;
    [right; split; [by intros []; congruence|eauto]|].
  case_bool_decide; [right; split; [by intros []|eauto]|].
  destruct (existsb _ _) eqn:Hm.
  { right. split; [|eauto]. intros [_ _ _ HF _ _].
    assert (Forall (fun m => meta_Name m ∉ reservedTopLevelCEL) (api_Meta a)) as Hx.
    { eapply Forall_impl; [exact HF|]. by intros ? []. }
    apply existsb_reserved in Hx. congruence. }
  apply existsb_reserved in Hm. unfold registerAPITypes.
  destruct (validate_metas a (api_Meta a) [] (b_registry b)) as [u|e] eqn:Hv.
  - apply validate_metas_ok in Hv as [HF Hnd].
    rewrite register_metas_ok; [|eapply Forall_impl; [exact HF|]; by intros ? (? & ? & ?)|done].
    left. split; [|unfold added; by rewrite Hb]. split; try done.
    + rewrite Forall_forall in *. intros m Hin. split; [by apply Hm|]. by apply HF.
    + unfold fulls. intros k (m & -> & Hin)%list_elem_of_fmap. rewrite Forall_forall in HF.
      by apply HF.
  - right. split; [|destruct b; simpl in *; subst; eauto]. intros [_ _ _ HF Hnd Ht].
    assert (validate_metas a (api_Meta a) [] (b_registry b) = Ok tt) as E; [|congruence].
    apply validate_metas_ok. split; [|done]. rewrite Forall_forall in *. intros m Hin.
    split; [set_solver|]. split; [|by apply HF]. apply Ht. apply list_elem_of_fmap. eauto.
Qed.

Lemma add_types_lookup_None a ms reg k :
  add_types a ms reg !! k = None <-> k ∉ map (full_name a) ms /\ reg !! k = None.
Proof.
  unfold add_types. revert reg. induction ms as [|m ms IH]; intros reg; simpl; [set_solver|].
  rewrite IH, lookup_insert_None, not_elem_of_cons. naive_solver.
Qed.

Lemma add_types_insert a ms reg k t :
  k ∉ map (full_name a) ms -> add_types a ms (<[k := t]> reg) = <[k := t]> (add_types a ms reg).
Proof.
  unfold add_types. revert reg. induction ms as [|m ms IH]; intros reg; simpl; [done|].
  intros [Hne Hn]%not_elem_of_cons. rewrite insert_insert_ne by done. by apply IH.
Qed.

Lemma add_types_comm a c ms ms' reg :
  (forall k, k ∈ map (full_name a) ms -> k ∉ map (full_name c) ms') ->
  add_types a ms (add_types c ms' reg) = add_types c ms' (add_types a ms reg).
Proof.
  revert reg. induction ms as [|m ms IH]; intros reg Hd; simpl; [done|].
  unfold add_types at 1. simpl. fold (add_types a ms (<[full_name a m := type_of a m]> (add_types c ms' reg))).
  rewrite <- add_types_insert by (apply Hd; set_solver). apply IH. set_solver.
Qed.

(** Two acceptable APIs commute. *)
Lemma added_comm a c b :
  acceptable a b -> acceptable c (added a b) ->
  acceptable c b /\ acceptable a (added c b) /\ added a (added c b) = added c (added a b).
Proof.
  intros [A1 A2 A3 A4 A5 A6] [C1 C2 C3 C4 C5 C6]. simpl in *.
  assert (api_Name c <> api_Name a /\ b_pending b !! api_Name c = None) as [Hne Hc].
  { apply lookup_insert_None in C2 as [? ?]. by split. }
  assert (forall k, k ∈ fulls c -> k ∉ fulls a /\ b_registry b !! k = None) as Hd.
  { intros k Hk. by apply add_types_lookup_None, C6. }
  split; [|split].
  - split; try done. intros k Hk. by apply Hd.
  - split; simpl; try done; [by rewrite lookup_insert_ne|].
    intros k Hk. apply add_types_lookup_None. split; [|by apply A6].
    intros Hk'. by apply (Hd k).
  - unfold added. simpl. f_equal; [|by apply insert_insert_ne].
    apply add_types_comm. intros k Hk Hk'. by apply (Hd k).
Qed.

Definition add_all (l : list API) (b : Builder) : result Builder :=
  fold_left (fun r a => b ← r; match AddAPI a b with (Ok _, b') => Ok b' | (Err e, _) => Err e end)
    l (Ok b).

Lemma fold_err l e :
  fold_left (fun r a => b ← r; match AddAPI a b with (Ok _, b') => Ok b' | (Err e, _) => Err e end)
    l (Err e : result Builder) = Err e.
Proof. induction l as [|a l IH]; [done|]. apply IH. Qed.

Lemma add_all_cons a l b b' :
  add_all (a :: l) b = Ok b' <-> acceptable a b /\ add_all l (added a b) = Ok b'.
Proof.
  unfold add_all. cbn [fold_left].
  change (mbind ?f (Ok b)) with (f b).
  destruct (AddAPI_cases a b) as [[Ha ->]|[Ha [e ->]]]; [naive_solver|].
  rewrite fold_err. naive_solver.
Qed.

(** [AddAPI] is atomic.  Either it succeeds and the builder holds the API
    and all its types, or it reports an error and the builder, registry
    included, is exactly what it was; it succeeds exactly when the builder is
    open, the name is new and not reserved, and no meta is reserved,
    malformed, duplicated or already registered. *)
Theorem AddAPI_atomic (a : API) (b : Builder) :
  ((AddAPI a b).1 = Ok tt <-> acceptable a b) /\
  (AddAPI a b).2 = (if is_ok (AddAPI a b).1 then added a b else b).
Proof.
  destruct (AddAPI_cases a b) as [[Ha ->]|[Ha [e ->]]]; simpl; [done|]. split; [|done].
  by split.
Qed.

(** Insertion order is irrelevant: if a list of APIs loads, every
    permutation of it loads and gives the same builder, hence the same
    [Build]. *)
Theorem AddAPI_order_independent (l l' : list API) (b b' : Builder)
    (Hp : l ≡ₚ l') (Hadd : add_all l b = Ok b') : add_all l' b = Ok b'.
Proof.
  revert b b' Hadd. induction Hp as [|a l l' _ IH|c a l|l1 l2 l3 _ IH1 _ IH2]; intros b b'.
  - done.
  - rewrite !add_all_cons. intros [Ha Hl]. split; [done|]. by apply IH.
  - rewrite !add_all_cons. intros [Hc [Ha Hl]].
    destruct (added_comm _ _ _ Hc Ha) as (Ha' & Hc' & E). split; [done|]. split; [done|].
    by rewrite E.
  - intros Hl. by apply IH2, IH1.
Qed.

Definition demo_gmail : API :=
  mkAPI "google.gmail" "https://g" ["/gmail/v1"]
    [mkMetadata "message" "" [mkInputField "id"] "get('/m')" [mkOutputField "sender" "x"]] [] 0 "".
Definition demo_slack : API :=
  mkAPI "slack" "https://s" ["/api"]
    [mkMetadata "channel" "" [mkInputField "id"] "get('/c')" [mkOutputField "name" "x"]] [] 200 "".

Lemma AddAPI_order_independent_witness :
  add_all [demo_slack; demo_gmail] NewBuilder = Ok (added demo_slack (added demo_gmail NewBuilder)).
Proof.
  apply (AddAPI_order_independent [demo_gmail; demo_slack]).
  - apply perm_swap.
  - vm_compute. reflexivity.
Defined.

(** ** The runtime keeps its contract *)

Section contract.
Context `{CelEngine}.

Lemma NewPolicy_shape p apiName reg cp :
NewPolicy p apiName reg = Ok cp ->
cp_Name cp = pol_Name p /\ cp_Result cp = pol_Result p /\ cp_source cp = p.
Proof.
unfold NewPolicy. intros E. autorewrite with go_rw in E. destruct E as (? & _ & E).
repeat (apply bind_ok in E as (? & _ & E)). by injection E as <-.
Qed.

Record api_inv (name : string) (a : APIRuntime) : Prop := {
ai_name : ar_name a = name;
ai_wf : store_wf (ar_store a);
ai_source p : p ∈ ps_all (ar_store a) -> pol_key (cp_source p) = (name, cp_Name p)
}.

Definition runtime_inv (r : Runtime) : Prop := map_Forall api_inv (r_apis r).

Lemma elem_of_ListPolicies r p :
p ∈ ListPolicies r <->
exists name a cp, r_apis r !! name = Some a /\ cp ∈ ps_all (ar_store a) /\ cp_source cp = p.
Proof.
unfold ListPolicies. rewrite list_elem_of_In, in_flat_map. unfold sorted_keys, sort_strings.
setoid_rewrite <- list_elem_of_In. setoid_rewrite merge_sort_Permutation. split.
- intros (name & _ & Hp). destruct (r_apis r !! name) as [a|] eqn:Ha;
  [|by apply not_elem_of_nil in Hp].
unfold AR_List, ps_list in Hp. rewrite <- map_app in Hp.
apply list_elem_of_fmap in Hp as (cp & -> & Hcp). by exists name, a, cp.
- intros (name & a & cp & Ha & Hcp & <-). exists name. split.
+ apply list_elem_of_fmap. exists (name, a). split; [done|]. by apply elem_of_map_to_list.
+ rewrite Ha. unfold AR_List, ps_list. rewrite <- map_app. apply list_elem_of_fmap. eauto.
Qed.

(** A policy of the list, through its key. *)
Lemma listed_iff r p :
runtime_inv r ->
p ∈ ListPolicies r <->
exists a cp, r_apis r !! pol_API p = Some a /\ cp ∈ ps_all (ar_store a) /\ cp_source cp = p.
Proof.
intros Hr. rewrite elem_of_ListPolicies. split; [|naive_solver].
intros (name & a & cp & Ha & Hcp & <-). exists a, cp.
destruct (Hr _ _ Ha) as [_ _ Hs]. injection (Hs _ Hcp) as -> _. done.
Qed.

Lemma names_inj ps p q : NoDup (names ps) -> p ∈ ps -> q ∈ ps -> cp_Name p = cp_Name q -> p = q.
Proof.
induction ps as [|x ps IH]; intros Hnd Hp Hq E; [by apply not_elem_of_nil in Hp|].
apply NoDup_cons in Hnd as [Hx Hnd].
apply elem_of_cons in Hp as [->|Hp], Hq as [->|Hq]; [done| | |by apply IH].
- destruct Hx. rewrite E. apply list_elem_of_fmap. eauto.
- destruct Hx. rewrite <- E. apply list_elem_of_fmap. eauto.
Qed.

Lemma listed_unique r : runtime_inv r -> keys_unique (ListPolicies r).
Proof.
intros Hr p q Hp Hq E. apply listed_iff in Hp as (a & cp & Ha & Hcp & Ep); [|done].
apply listed_iff in Hq as (a' & cq & Ha' & Hcq & Eq); [|done].
injection E as E1 E2. rewrite E1, Ha' in Ha. injection Ha as ->.
destruct (Hr _ _ Ha') as [_ Hwf Hs].
pose proof (Hs _ Hcp) as [= _ Hn1]. pose proof (Hs _ Hcq) as [= _ Hn2].
assert (cp = cq) as ->; [|congruence].
apply (names_inj (ps_all (ar_store a))); [apply Hwf|done|done|congruence].
Qed.

Definition runtime_find (r : Runtime) (k : string * string) : option Policy :=
find_policy k.1 k.2 (ListPolicies r).

(** Looking a key up, through the API's store. *)
Lemma runtime_find_Some r k p :
runtime_inv r ->
runtime_find r k = Some p <->
exists a cp, r_apis r !! k.1 = Some a /\ cp ∈ ps_all (ar_store a) /\ cp_Name cp = k.2 /\
cp_source cp = p.
Proof.
intros Hr. destruct k as [api name]. unfold runtime_find. simpl.
rewrite find_policy_iff by (by apply listed_unique). rewrite (listed_iff _ _ Hr). split.
- intros [(a & cp & Ha & Hcp & <-) E]. destruct (Hr _ _ Ha) as [_ _ Hs].
pose proof (Hs _ Hcp) as E'. unfold pol_key in E, E'. exists a, cp. naive_solver.
- intros (a & cp & Ha & Hcp & <- & <-). destruct (Hr _ _ Ha) as [_ _ Hs].
pose proof (Hs _ Hcp) as E'. split; [|done]. exists a, cp. unfold pol_key in E'.
by injection E' as -> _.
Qed.

(** Swapping one API for an edited one: only its keys are affected. *)
Lemma set_api_find r api a a' m :
runtime_inv r -> r_apis r !! api = Some a -> api_inv api a' ->
(forall n, match m n with
 | Some p => exists cp, cp ∈ ps_all (ar_store a') /\ cp_Name cp = n /\ cp_source cp = p
 | None => forall cp, cp ∈ ps_all (ar_store a') -> cp_Name cp <> n
 end) ->
runtime_inv (set_api api a' r) /\
forall k, runtime_find (set_api api a' r) k =
if decide (k.1 = api) then m k.2 else runtime_find r k.
Proof.
intros Hr Ha Ha' Hm.
assert (runtime_inv (set_api api a' r)) as Hr' by (by apply map_Forall_insert_2).
split; [done|]. intros k. case_decide as Ek.
- specialize (Hm k.2). destruct (m k.2) as [p|].
+ apply runtime_find_Some; [done|]. destruct Hm as (cp & ? & ? & ?). exists a', cp.
  simpl. by rewrite Ek, lookup_insert_eq.
+ destruct (runtime_find _ k) as [p|] eqn:E; [|done]. exfalso.
  apply runtime_find_Some in E as (a2 & cp & Ha2 & Hcp & Hn & _); [|done].
  simpl in Ha2. rewrite Ek, lookup_insert_eq in Ha2. injection Ha2 as <-.
  by apply (Hm cp).
- apply option_eq. intros p. rewrite !runtime_find_Some by done. simpl.
by rewrite lookup_insert_ne by done.
Qed.

(** The API's own part of the map. *)
Definition own (r : Runtime) (api : string) (n : string) : option Policy :=
runtime_find r (api, n).

Lemma own_spec r api a n :
runtime_inv r -> r_apis r !! api = Some a ->
match own r api n with
| Some p => exists cp, cp ∈ ps_all (ar_store a) /\ cp_Name cp = n /\ cp_source cp = p
| None => forall cp, cp ∈ ps_all (ar_store a) -> cp_Name cp <> n
end.
Proof.
intros Hr Ha. unfold own. destruct (runtime_find r (api, n)) as [p|] eqn:E.
- apply runtime_find_Some in E as (a2 & cp & Ha2 & ? & ? & ?); [|done]. simpl in *.
simplify_eq. eauto.
- intros cp Hcp Hn. assert (runtime_find r (api, n) = Some (cp_source cp)); [|congruence].
apply runtime_find_Some; [done|]. by exists a, cp.
Qed.

Lemma ReplacePolicy_ok p r :
runtime_inv r -> ValidatePolicy p r = Ok tt ->
exists b r', ReplacePolicy p r = (Ok b, r') /\ runtime_inv r' /\
(forall k, runtime_find r' k = if decide (k = pol_key p) then Some p else runtime_find r k) /\
(b = true <-> is_Some (runtime_find r (pol_key p))) /\
(forall q, ValidatePolicy q r' = ValidatePolicy q r).
Proof.
intros Hr. unfold ValidatePolicy, ReplacePolicy, AR_Replace.
destruct (r_apis r !! pol_API p) as [a|] eqn:Ha; [|done].
destruct (compile a p) as [cp|e] eqn:Hc; [|done]. intros _.
assert (cp_Name cp = pol_Name p /\ cp_source cp = p) as [En Es].
{ unfold compile in Hc. case_bool_decide; [done|]. apply NewPolicy_shape in Hc. naive_solver. }
destruct (ps_replace cp (ar_store a)) as [b s'] eqn:Hps.
destruct (Hr _ _ Ha) as [Hname Hwf Hsrc].
destruct (ps_replace_spec _ _ _ _ Hwf Hps) as (Hwf' & Hin & Hb).
destruct (set_api_find r (pol_API p) a (with_store s' a)
(fun n => if decide (n = pol_Name p) then Some p else own r (pol_API p) n)) as [Hr' Hf]; try done.
{ split; [done|done|]. simpl. intros q [->|[Hq _]]%Hin; [|by apply Hsrc].
by rewrite Es, En. }
{ intros n. pose proof (own_spec r _ a n Hr Ha) as Ho. simpl. case_decide as E.
- exists cp. rewrite Hin. split; [by left|]. by split; [congruence|].
- destruct (own r (pol_API p) n) as [q|].
  + destruct Ho as (cq & Hcq & <- & <-). exists cq. rewrite Hin.
    split; [|done]. right. split; [done|congruence].
  + intros cq. rewrite Hin. intros [->|[Hcq _]]; [congruence|by apply Ho]. }
exists b, (set_api (pol_API p) (with_store s' a) r). split; [done|]. split; [done|].
split; [|split].
- intros [api n]. rewrite Hf. unfold own, pol_key. simpl.
repeat case_decide; naive_solver.
- rewrite Hb, En. unfold pol_key. pose proof (own_spec r _ a (pol_Name p) Hr Ha) as Ho.
unfold own in Ho. destruct (runtime_find r _) as [q|]; split; naive_solver.
- intros q. simpl. unfold set_api. simpl. destruct (decide (pol_API q = pol_API p)) as [->|Hq].
+ rewrite lookup_insert_eq, Ha. done.
+ by rewrite lookup_insert_ne by done.
Qed.

Lemma ReplacePolicy_err p r e : ValidatePolicy p r = Err e -> ReplacePolicy p r = (Err e, r).
Proof.
unfold ValidatePolicy, ReplacePolicy, AR_Replace.
destruct (r_apis r !! pol_API p) as [a|] eqn:Ha; [|by intros [= <-]].
destruct (compile a p) as [cp|e'] eqn:Hc; [done|]. intros [= <-].
unfold set_api. rewrite insert_id by done. by destruct r.
Qed.

Lemma RemovePolicy_ok api name r :
runtime_inv r -> is_Some (runtime_find r (api, name)) ->
exists r', RemovePolicy api name r = (Ok true, r') /\ runtime_inv r' /\
(forall k, runtime_find r' k = if decide (k = (api, name)) then None else runtime_find r k) /\
(forall q, ValidatePolicy q r' = ValidatePolicy q r).
Proof.
intros Hr [p Hp]. apply runtime_find_Some in Hp as (a & cp & Ha & Hcp & Hn & _); [|done].
simpl in *. unfold RemovePolicy, AR_Remove. rewrite Ha.
destruct (ps_remove name (ar_store a)) as [b s'] eqn:Hps.
destruct (Hr _ _ Ha) as [Hname Hwf Hsrc].
destruct (removeLocked_spec _ _ _ _ Hwf Hps) as (Hwf' & Hin & Hb).
destruct (set_api_find r api a (with_store s' a)
(fun n => if decide (n = name) then None else own r api n)) as [Hr' Hf]; try done.
{ split; [done|done|]. simpl. intros q [Hq _]%Hin. by apply Hsrc. }
{ intros n. pose proof (own_spec r _ a n Hr Ha) as Ho. simpl. case_decide as E.
- intros cq [_ Hne]%Hin. congruence.
- destruct (own r api n) as [q|].
  + destruct Ho as (cq & Hcq & <- & <-). exists cq. rewrite Hin. done.
  + intros cq [Hcq _]%Hin. by apply Ho. }
exists (set_api api (with_store s' a) r).
assert (b = true) as -> by (apply Hb; eauto).
split; [done|]. split; [done|]. split.
- intros [api' n]. rewrite Hf. unfold own. simpl. repeat case_decide; naive_solver.
- intros q. unfold ValidatePolicy, set_api. simpl.
destruct (decide (pol_API q = api)) as [->|Hq].
+ rewrite lookup_insert_eq, Ha. done.
+ by rewrite lookup_insert_ne by done.
Qed.

#[export] Instance runtime_ops : PolicyRuntime Runtime := {|
pr_replace := ReplacePolicy;
pr_remove := RemovePolicy;
pr_validate := ValidatePolicy;
pr_list := ListPolicies
|}.

#[export] Instance runtime_laws : PolicyRuntimeLaws Runtime := {|
pr_inv := runtime_inv;
pr_replace_ok := ReplacePolicy_ok;
pr_replace_err := ReplacePolicy_err;
pr_remove_ok := RemovePolicy_ok
|}.
End contract.
