(* ===== verification/Stores.v ===== *)
(** * Durable policy stores: [internal/control/policies] sqlite_store.go,
    file_store.go, layered_store.go

    The SQLite table as a map keyed by (api, name); the YAML directory as a map
    from file names to contents; a seed layer under a writable primary.  Disk
    and database failures are a script of booleans in the state: an operation
    consumes one and fails when it is true.  Each store discharges
    [StoreLaws]; for the directory this needs the canonical layout, and the
    example at the end shows what happens without it. *)

From S2P Require Import Prelude GoStd Models Interfaces.

(** ** [sqliteStore] *)

Record sqliteStore := mkSqlite {
  sq_rows : gmap (string * string) Policy;
  sq_faults : list bool
}.

Definition key_le (a b : string * string) : Prop :=
  if decide (a.1 = b.1) then String.le a.2 b.2 else String.le a.1 b.1.

#[export] Instance key_le_dec : RelDecision key_le.
Proof. intros a b. unfold key_le. case_decide; apply _. Defined.

(** [SELECT payload FROM policies ORDER BY api, name] *)
Definition sqlite_List (s : sqliteStore) : result (list Policy) :=
  Ok (omap (fun k => sq_rows s !! k) (merge_sort key_le (map_to_list (sq_rows s)).*1)).

(** [INSERT ... ON CONFLICT(api, name) DO UPDATE] *)
Definition sqlite_Put (p : Policy) (s : sqliteStore) : option goerr * sqliteStore :=
  let '(fault, fs) := pop (sq_faults s) in
  if fault then (Some (EWrap "policies/sqlite: put" disk_error), mkSqlite (sq_rows s) fs)
  else (None, mkSqlite (<[pol_key p := p]> (sq_rows s)) fs).

Definition sqlite_Delete (api name : string) (s : sqliteStore) : option goerr * sqliteStore :=
  let '(fault, fs) := pop (sq_faults s) in
  if fault then (Some (EWrap "policies/sqlite: delete" disk_error), mkSqlite (sq_rows s) fs)
  else
    match sq_rows s !! (api, name) with
    | None => (Some (EWrap "delete" ErrNotFound), mkSqlite (sq_rows s) fs)
    | Some _ => (None, mkSqlite (delete (api, name) (sq_rows s)) fs)
    end.

#[export] Instance sqlite_ops : Store sqliteStore := {|
  st_list := sqlite_List; st_put := sqlite_Put; st_delete := sqlite_Delete
|}.

(** Each row holds the policy of its key. *)
Definition sqlite_inv (s : sqliteStore) : Prop := map_Forall (fun k p => pol_key p = k) (sq_rows s).

Lemma last_of_iff l k p : keys_unique l -> last_of l k = Some p <-> p ∈ l /\ pol_key p = k.
Proof.
  intros Hu. unfold last_of. destruct k as [a n]. rewrite find_policy_iff.
  - by rewrite !list_elem_of_In, <- in_rev.
  - intros x y Hx Hy. apply Hu; apply list_elem_of_In; rewrite in_rev; by apply list_elem_of_In.
Qed.

(** No row is listed twice. *)
Lemma elem_of_sqlite_List s l p :
  sqlite_inv s -> sqlite_List s = Ok l -> p ∈ l <-> sq_rows s !! pol_key p = Some p.
Proof.
  intros Hi [= <-]. rewrite list_elem_of_omap. setoid_rewrite merge_sort_Permutation. split.
  - intros (j & _ & Hj). by rewrite (Hi _ _ Hj).
  - intros Hp. exists (pol_key p). split; [|done]. apply list_elem_of_fmap.
    exists (pol_key p, p). split; [done|]. by apply elem_of_map_to_list.
Qed.

Lemma sqlite_List_unique s l : sqlite_inv s -> sqlite_List s = Ok l -> keys_unique l.
Proof.
  intros Hi Hl p q Hp Hq E. apply (elem_of_sqlite_List s l) in Hp, Hq; [|done..]. rewrite E in Hp. congruence.
Qed.

Lemma sqlite_List_ok s l :
  sqlite_inv s -> sqlite_List s = Ok l -> forall k, last_of l k = sq_rows s !! k.
Proof.
  intros Hi Hl k. apply option_eq. intros p. rewrite last_of_iff by (by eapply sqlite_List_unique).
  rewrite (elem_of_sqlite_List s l) by done. split; [by intros [? <-]|]. intros Hp. pose proof (Hi _ _ Hp) as E. by rewrite E.
Qed.

#[export] Program Instance sqlite_laws : StoreLaws sqliteStore := {|
  st_inv := sqlite_inv;
  st_content s k := sq_rows s !! k
|}.
Next Obligation. intros s l. apply sqlite_List_ok. Qed.
Next Obligation.
  simpl. unfold sqlite_Put. intros p s s' Hi. destruct (pop _) as [[] fs]; [done|]. intros [= <-].
  split; [by apply map_Forall_insert_2|]. intros k. simpl. rewrite lookup_insert.
  repeat case_decide; congruence.
Qed.
Next Obligation.
  simpl. unfold sqlite_Put. intros p s e s' Hi. destruct (pop _) as [[] fs]; [|done].
  by intros [= <- <-].
Qed.
Next Obligation.
  simpl. unfold sqlite_Delete. intros api name s s' Hi. destruct (pop _) as [[] fs]; [done|].
  destruct (sq_rows s !! (api, name)); [|done]. intros [= <-].
  split; [by apply map_Forall_delete|]. intros k. simpl. rewrite lookup_delete.
  repeat case_decide; congruence.
Qed.
Next Obligation.
  simpl. unfold sqlite_Delete. intros api name s e s' Hi.
  destruct (pop _) as [[] fs]; [by intros [= <- <-]|].
  destruct (sq_rows s !! (api, name)); [done|]. by intros [= <- <-].
Qed.

#[export] Instance sqlite_not_found : StoreNotFound sqliteStore.
Proof.
  intros api name s e s' Hi. simpl. unfold sqlite_Delete.
  destruct (pop _) as [[] fs]; [by intros [= <- <-]|].
  destruct (sq_rows s !! (api, name)); [done|]. by intros [= <- <-].
Qed.

(** ** [LayeredStore] *)

Section layered.
Context `{P : Store A} `{!StoreLaws A} `{Q : Store B} `{!StoreLaws B}.

(** The seed is read-only: no operation changes it. *)
Record layeredStore := mkLayered { ls_primary : A; ls_seed : B }.

Definition layered_List (s : layeredStore) : result (list Policy) :=
seeded ← wrap_err "seed layer" (st_list (ls_seed s));
stored ← st_list (ls_primary s);
Ok (seeded ++ stored).

Definition layered_Put (p : Policy) (s : layeredStore) : option goerr * layeredStore :=
let '(e, pr) := st_put p (ls_primary s) in (e, mkLayered pr (ls_seed s)).

Definition layered_Delete (api name : string) (s : layeredStore)
: option goerr * layeredStore :=
match st_list (ls_seed s) with
| Err e => (Some (EWrap "seed layer" e), s)
| Ok seeded =>
  match find_policy api name seeded with
  | Some _ => (Some (EWrap "defined in the policies directory" ErrReadOnly), s)
  | None => let '(e, pr) := st_delete api name (ls_primary s) in (e, mkLayered pr (ls_seed s))
  end
end.

#[export] Instance layered_ops : Store layeredStore := {|
st_list := layered_List; st_put := layered_Put; st_delete := layered_Delete
|}.

Definition layered_content (s : layeredStore) (k : string * string) : option Policy :=
match st_content (ls_primary s) k with
| Some p => Some p
| None => st_content (ls_seed s) k
end.

#[export] Program Instance layered_laws : StoreLaws layeredStore := {|
st_inv s := st_inv (ls_primary s) /\ st_inv (ls_seed s);
st_content := layered_content
|}.
Next Obligation.
simpl. unfold layered_List, layered_content. intros s l [Hp Hq] E k.
autorewrite with go_rw in E. destruct E as (seeded & Hs & E).
apply bind_ok in E as (stored & Hst & [= <-]). apply wrap_err_ok in Hs.
rewrite last_of_app, (st_list_ok _ _ Hp Hst), (st_list_ok _ _ Hq Hs). done.
Qed.
Next Obligation.
simpl. unfold layered_Put, layered_content. intros p s s' [Hp Hq].
destruct (st_put p (ls_primary s)) as [e pr] eqn:E. intros [= -> <-].
destruct (st_put_ok _ _ _ Hp E) as [Hp' Hc]. split; [done|]. intros k. simpl. rewrite Hc.
by case_decide.
Qed.
Next Obligation.
simpl. unfold layered_Put, layered_content. intros p s e s' [Hp Hq].
destruct (st_put p (ls_primary s)) as [e1 pr] eqn:E. intros [= -> <-].
destruct (st_put_err _ _ _ _ Hp E) as [Hp' Hc]. split; [done|]. intros k. simpl. by rewrite Hc.
Qed.
Next Obligation.
simpl. unfold layered_Delete, layered_content. intros api name s s' [Hp Hq].
destruct (st_list (ls_seed s)) as [seeded|] eqn:Hs; [|done].
destruct (find_policy api name seeded) eqn:Hf; [done|].
destruct (st_delete api name (ls_primary s)) as [e pr] eqn:E. intros [= -> <-].
destruct (st_delete_ok _ _ _ _ Hp E) as [Hp' Hc]. split; [done|]. intros k. simpl. rewrite Hc.
case_decide as Ek; [|done]. subst. rewrite <- (st_list_ok _ _ Hq Hs). unfold last_of. simpl.
rewrite find_policy_None in *. intros p Hp2. apply Hf.
apply list_elem_of_In. rewrite in_rev. by apply list_elem_of_In.
Qed.
Next Obligation.
simpl. unfold layered_Delete, layered_content. intros api name s e s' [Hp Hq].
destruct (st_list (ls_seed s)) as [seeded|] eqn:Hs; [|by intros [= <- <-]].
destruct (find_policy api name seeded) eqn:Hf; [by intros [= <- <-]|].
destruct (st_delete api name (ls_primary s)) as [e1 pr] eqn:E. intros [= -> <-].
destruct (st_delete_err _ _ _ _ _ Hp E) as [Hp' Hc]. split; [done|]. intros k. simpl. by rewrite Hc.
Qed.
End layered.
Arguments layeredStore : clear implicits.

(** ** Property *)

(** Deleting through the layers sticks.  A delete that succeeds leaves no
    version of the policy for the next load to find; when the seed layer
    defines the policy the delete is refused as read-only and nothing changes,
    so a shadowed file version can never resurface. *)
Theorem layered_delete_sticks `{P : Store A} `{!StoreLaws A} `{Q : Store B} `{!StoreLaws B}
    (api name : string) (s s' : layeredStore A B) (e : option goerr)
    (Hp : st_inv (ls_primary s)) (Hq : st_inv (ls_seed s))
    (Hd : layered_Delete api name s = (e, s')) :
  (e = None -> forall l, layered_List s' = Ok l -> last_of l (api, name) = None) /\
  (forall seeded, st_list (ls_seed s) = Ok seeded -> is_Some (last_of seeded (api, name)) ->
     (exists d, e = Some d /\ errors_is d "ErrReadOnly" = true) /\ s' = s).
Proof.
  split.
  - intros -> l Hl. destruct (@st_delete_ok _ _ layered_laws api name s s' (conj Hp Hq) Hd) as [Hi Hc].
    rewrite (@st_list_ok _ _ layered_laws s' l Hi Hl), Hc. by rewrite decide_True.
  - intros seeded Hs [p Hl]. unfold layered_Delete in Hd. rewrite Hs in Hd.
    apply find_policy_Some in Hl as (Hin & Ea & En). simpl in *.
    rewrite list_elem_of_In, <- in_rev, <- list_elem_of_In in Hin.
    destruct (find_policy api name seeded) as [q|] eqn:Hf.
    + injection Hd as <- <-. split; [|done]. eexists. split; reflexivity.
    + destruct (proj1 (find_policy_None _ _ _) Hf p Hin). unfold pol_key. congruence.
Qed.

Definition demo_layers : layeredStore sqliteStore sqliteStore :=
  mkLayered (mkSqlite {[ ("x", "a") := mkPolicy "x" "a" "edited" "" "" "c" Permit ]} [])
            (mkSqlite {[ ("x", "a") := mkPolicy "x" "a" "file" "" "" "c" Permit ]} []).

Lemma layered_delete_sticks_witness :
  let d := layered_Delete "x" "a" demo_layers in
  (exists e, d.1 = Some e /\ errors_is e "ErrReadOnly" = true) /\ d.2 = demo_layers.
Proof.
  assert (sqlite_inv (ls_primary demo_layers)) as Hp by (apply map_Forall_singleton; reflexivity).
  assert (sqlite_inv (ls_seed demo_layers)) as Hq by (apply map_Forall_singleton; reflexivity).
  apply (proj2 (@layered_delete_sticks _ _ sqlite_laws _ _ sqlite_laws "x" "a" demo_layers
    (layered_Delete "x" "a" demo_layers).2 (layered_Delete "x" "a" demo_layers).1 Hp Hq (surjective_pairing _))
    [mkPolicy "x" "a" "file" "" "" "c" Permit]).
  - vm_compute. reflexivity.
  - eexists. reflexivity.
Defined.
