(* ===== verification/FileStore.v ===== *)
(** * The YAML policy directory: [internal/control/policies/file_store.go]

    A directory maps file names to contents.  YAML itself (gopkg.in/yaml.v3) is
    a parameter, the class [Yaml]; reading back what was encoded is its law.
    On a directory in the canonical layout, every API in its own file, the
    store keeps the contract of [StoreLaws].  The counterexample at the end
    shows the stale copy a hand-edited layout leaves behind. *)

From S2P Require Import Prelude GoStd Models Interfaces Stores.

Class Yaml := {
  Raw : Type;
  yaml_decode : Raw -> result (list Policy);
  yaml_encode : list Policy -> result Raw;
  raw_empty : Raw;
  raw_contains : Raw -> string -> bool
}.

Class YamlLaws `{Yaml} :=
  yaml_roundtrip ps raw : yaml_encode ps = Ok raw -> yaml_decode raw = Ok ps.

Section files.
Context `{Yaml}.

Record fileStore := mkFiles {
fs_files : gmap string Raw;
fs_faults : list bool
}.

Definition canonical (api : string) : string := api +:+ "_policy.yaml".

Definition isYAML (name : string) : bool :=
let n := to_lower name in has_suffix ".yaml" n || has_suffix ".yml" n.

Definition validAPIName (api : string) : bool :=
negb (bool_decide (api = "") || bool_decide (api = ".") || bool_decide (api = ".."))
&& negb (has_byte "/" api || has_byte "\" api)
&& negb (has_prefix "/" api).

(** File names in sorted order. *)
Definition dir (s : fileStore) : list string := sort_strings (map_to_list (fs_files s)).*1.

Fixpoint read_files (files : gmap string Raw) (names : list string) : result (list Policy) :=
match names with
| [] => Ok []
| n :: names' =>
  match files !! n with
  | Some raw =>
      if negb (isYAML n) then read_files files names'
      else
        (ps ← wrap_err "decode" (yaml_decode raw);
         rest ← read_files files names'; Ok (ps ++ rest))
  | None => read_files files names'
  end
end.

Definition readAll (s : fileStore) : result (list Policy) := read_files (fs_files s) (dir s).

Definition filterByAPI (all : list Policy) (api : string) : list Policy :=
List.filter (fun p => bool_decide (pol_API p = api)) all.

Fixpoint upsert (ps : list Policy) (p : Policy) : list Policy :=
match ps with
| [] => [p]
| q :: ps' => if bool_decide (pol_Name q = pol_Name p) then p :: ps' else q :: upsert ps' p
end.

Fixpoint remove (ps : list Policy) (name : string) : list Policy :=
match ps with
| [] => []
| q :: ps' => if bool_decide (pol_Name q = name) then ps' else q :: remove ps' name
end.

Definition withoutEntry (ps : list Policy) (api name : string) : list Policy :=
List.filter (fun p => negb (bool_decide (pol_API p = api) && bool_decide (pol_Name p = name))) ps.

Definition mightContainEntry (raw : Raw) (api name : string) : bool :=
raw_contains raw api && raw_contains raw name.

(** [atomicWrite]: a temporary file beside the target, whose name no reader takes
    for a policy file, is written, synced, closed and renamed over it, and
    removed on the way out; [rename] is atomic, so one fault stands for the
    failure of any of these calls and the target has its old content or the
    whole new one. *)
Definition atomicWrite (path : string) (raw : Raw) (s : fileStore) : option goerr * fileStore :=
let '(fault, fs) := pop (fs_faults s) in
if fault then (Some disk_error, mkFiles (fs_files s) fs)
else (None, mkFiles (<[path := raw]> (fs_files s)) fs).

Definition writeAPIFile (api : string) (ps : list Policy) (s : fileStore)
: option goerr * fileStore :=
if negb (validAPIName api) then (Some (EMsg "invalid api name"), s)
else
match ps with
| [] =>
    let '(fault, fs) := pop (fs_faults s) in
    if fault then (Some (EWrap "remove empty" disk_error), mkFiles (fs_files s) fs)
    else (None, mkFiles (delete (canonical api) (fs_files s)) fs)
| _ =>
    match yaml_encode ps with
    | Err e => (Some (EWrap "encode policy" e), s)
    | Ok raw => atomicWrite (canonical api) raw s
    end
end.

(** One file of the scrub loop: [None] to go on. *)
Definition scrub_file (api name : string) (n : string) (s : fileStore)
: option goerr * fileStore :=
match fs_files s !! n with
| None => (None, s)
| Some raw =>
  if negb (isYAML n) || bool_decide (n = canonical api) then (None, s)
  else if negb (mightContainEntry raw api name) then (None, s)
  else
    match yaml_decode raw with
    | Err e => (Some (EWrap "decode" e), s)
    | Ok ps =>
        let kept := withoutEntry ps api name in
        if bool_decide (length kept = length ps) then (None, s)
        else
          match (match kept with [] => Ok raw_empty | _ => yaml_encode kept end) with
          | Err e => (Some (EWrap "encode" e), s)
          | Ok raw' => atomicWrite n raw' s
          end
    end
end.

Fixpoint scrub_files (api name : string) (names : list string) (s : fileStore)
: option goerr * fileStore :=
match names with
| [] => (None, s)
| n :: names' =>
  match scrub_file api name n s with
  | (Some e, s) => (Some e, s)
  | (None, s) => scrub_files api name names' s
  end
end.

Definition scrubLegacyEntry (api name : string) (s : fileStore) : option goerr * fileStore :=
scrub_files api name (dir s) s.

(** A scrub failure is logged only. *)
Definition file_Put (p : Policy) (s : fileStore) : option goerr * fileStore :=
match readAll s with
| Err e => (Some e, s)
| Ok all =>
  match writeAPIFile (pol_API p) (upsert (filterByAPI all (pol_API p)) p) s with
  | (Some e, s) => (Some e, s)
  | (None, s) => (None, (scrubLegacyEntry (pol_API p) (pol_Name p) s).2)
  end
end.

Definition file_Delete (api name : string) (s : fileStore) : option goerr * fileStore :=
match readAll s with
| Err e => (Some e, s)
| Ok all =>
  let scoped := filterByAPI all api in
  let ps := remove scoped name in
  if bool_decide (length ps = length scoped) then (Some (EWrap "delete" ErrNotFound), s)
  else
    match writeAPIFile api ps s with
    | (Some e, s) => (Some e, s)
    | (None, s) => (None, (scrubLegacyEntry api name s).2)
    end
end.

#[export] Instance file_ops : Store fileStore := {|
st_list := readAll; st_put := file_Put; st_delete := file_Delete
|}.
End files.

(** ** Without the canonical layout: a stale copy survives

    Two policies of one API in a hand-edited file.  Editing the first migrates
    a copy of the second into the canonical file; editing the second then
    replaces only its first occurrence, and the copy left in the canonical
    file is the last one a reload replays. *)

Definition list_yaml : Yaml := {|
  Raw := list Policy;
  yaml_decode ps := Ok ps;
  yaml_encode ps := Ok ps;
  raw_empty := [];
  raw_contains _ _ := true
|}.

Definition xa (v : string) : Policy := mkPolicy "x" "a" "" "" "" v Permit.
Definition xb (v : string) : Policy := mkPolicy "x" "b" "" "" "" v Permit.

Definition legacy_dir : @fileStore list_yaml := mkFiles {[ "legacy.yaml" := [xa "a1"; xb "b1"] ]} [].

Definition put_put : @fileStore list_yaml :=
  (@file_Put list_yaml (xb "b2") (@file_Put list_yaml (xa "a2") legacy_dir).2).2.

Example file_put_stale :
  exists l, @readAll list_yaml put_put = Ok l /\ last_of l ("x", "b") = Some (xb "b1").
Proof. eexists. split; vm_compute; reflexivity. Qed.

Example file_delete_reanimates :
  exists l, @file_Delete list_yaml "x" "b" (@file_Put list_yaml (xa "a2") legacy_dir).2 =
    (None, (@file_Delete list_yaml "x" "b" (@file_Put list_yaml (xa "a2") legacy_dir).2).2) /\
  @readAll list_yaml
    (@file_Delete list_yaml "x" "b" (@file_Put list_yaml (xa "a2") legacy_dir).2).2 = Ok l /\
  last_of l ("x", "b") = Some (xb "b1").
Proof. eexists. split; [|split]; vm_compute; reflexivity. Qed.

(** ** The canonical layout *)

Section canonical.
Context `{Yaml} `{!YamlLaws}.

(** The policies of one API, no name twice. *)
Record api_file (api : string) (ps : list Policy) : Prop := {
af_api p : p ∈ ps -> pol_API p = api;
af_names : NoDup (map pol_Name ps)
}.

Definition canon (s : fileStore) : Prop := forall n raw,
fs_files s !! n = Some raw -> isYAML n = true ->
exists ps, yaml_decode raw = Ok ps /\ NoDup (map pol_Name ps) /\
forall p, p ∈ ps -> canonical (pol_API p) = n.

Definition file_of (s : fileStore) (api : string) : list Policy :=
match fs_files s !! canonical api with
| Some raw => match yaml_decode raw with Ok ps => ps | Err _ => [] end
| None => []
end.

Definition file_content (s : fileStore) (k : string * string) : option Policy :=
last_of (file_of s k.1) k.

Lemma canonical_inj a b : canonical a = canonical b -> a = b.
Proof. apply string_app_inj_r. Qed.

Lemma canonical_yaml a : isYAML (canonical a) = true.
Proof.
unfold isYAML, canonical, to_lower. rewrite string_map_app. apply orb_true_iff. left.
apply has_suffix_spec. exists (string_map lower_byte a +:+ "_policy").
by rewrite string_app_assoc.
Qed.

Lemma file_of_api s api : canon s -> api_file api (file_of s api).
Proof.
intros Hc. unfold file_of. destruct (fs_files s !! canonical api) as [raw|] eqn:E;
[|split; [by intros p ?%not_elem_of_nil|constructor]].
destruct (Hc _ _ E (canonical_yaml _)) as (ps & -> & Hnd & Hp).
split; [|done]. intros p Hin. by apply canonical_inj, Hp.
Qed.

Lemma api_file_unique api ps : api_file api ps -> keys_unique ps.
Proof.
intros [_ Hnd] p q Hp Hq E. unfold pol_key in E. injection E as _ En.
apply list_elem_of_lookup in Hp as [i Hi], Hq as [j Hj].
assert (i = j) as ->; [|congruence].
apply (NoDup_lookup (map pol_Name ps) i j (pol_Name p)); [done|..].
- change (map pol_Name ps) with (pol_Name <$> ps). by rewrite list_lookup_fmap, Hi.
- change (map pol_Name ps) with (pol_Name <$> ps). by rewrite list_lookup_fmap, Hj, En.
Qed.

Lemma filter_api_all api ps : (forall p, p ∈ ps -> pol_API p = api) -> filterByAPI ps api = ps.
Proof.
intros Hp. unfold filterByAPI. induction ps as [|p ps IH]; [done|]. simpl.
rewrite bool_decide_eq_true_2 by (apply Hp; left). f_equal. apply IH. set_solver.
Qed.

Lemma filter_api_none api ps : (forall p, p ∈ ps -> pol_API p <> api) -> filterByAPI ps api = [].
Proof.
intros Hp. unfold filterByAPI. induction ps as [|p ps IH]; [done|]. simpl.
rewrite bool_decide_eq_false_2 by (apply Hp; left). apply IH. set_solver.
Qed.

Lemma read_filter s names l api :
canon s -> NoDup names -> read_files (fs_files s) names = Ok l ->
filterByAPI l api = if decide (canonical api ∈ names) then file_of s api else [].
Proof.
intros Hc. revert l. induction names as [|n names IH]; intros l Hnd; simpl; [by intros [= <-]|].
apply NoDup_cons in Hnd as [Hn Hnd]. destruct (fs_files s !! n) as [raw|] eqn:Hraw.
2:{ intros Hl. rewrite (IH l Hnd Hl). repeat case_decide; try set_solver.
  replace n with (canonical api) in Hraw by set_solver. unfold file_of. by rewrite Hraw. }
destruct (isYAML n) eqn:Hy; simpl.
2:{ intros Hl. rewrite (IH l Hnd Hl). assert (canonical api <> n).
  { intros <-. by rewrite canonical_yaml in Hy. }
  repeat case_decide; set_solver. }
destruct (Hc _ _ Hraw Hy) as (ps & Hd & _ & Hp). rewrite Hd. simpl.
intros (rest & Hrest & [= <-])%bind_ok.
unfold filterByAPI. rewrite List.filter_app. fold (filterByAPI ps api) (filterByAPI rest api).
rewrite (IH rest Hnd Hrest). destruct (decide (n = canonical api)) as [->|Hne].
- rewrite filter_api_all by (intros p ?; by apply canonical_inj, Hp).
rewrite decide_False by done. rewrite app_nil_r, decide_True by set_solver.
unfold file_of. by rewrite Hraw, Hd.
- rewrite filter_api_none by (intros p ? <-; by apply Hne; rewrite Hp).
repeat case_decide; set_solver.
Qed.

Lemma dir_NoDup s : NoDup (dir s).
Proof.
unfold dir, sort_strings. rewrite merge_sort_Permutation. apply NoDup_fst_map_to_list.
Qed.

Lemma elem_of_dir s n : n ∈ dir s <-> is_Some (fs_files s !! n).
Proof.
unfold dir, sort_strings. rewrite merge_sort_Permutation, list_elem_of_fmap. split.
- intros ([k raw] & -> & Hk%elem_of_map_to_list). by exists raw.
- intros [raw Hr]. exists (n, raw). split; [done|]. by apply elem_of_map_to_list.
Qed.

Lemma readAll_filter s l api : canon s -> readAll s = Ok l -> filterByAPI l api = file_of s api.
Proof.
intros Hc Hl. rewrite (read_filter s (dir s) l api Hc (dir_NoDup s) Hl).
case_decide as Hd; [done|]. rewrite elem_of_dir in Hd. unfold file_of.
destruct (fs_files s !! canonical api); [|done]. by destruct Hd.
Qed.

Lemma last_of_filter l k : last_of (filterByAPI l k.1) k = last_of l k.
Proof.
induction l as [|p l IH]; [done|]. unfold filterByAPI in *. simpl.
rewrite last_of_cons. case_bool_decide as E.
- by rewrite last_of_cons, IH.
- rewrite IH. destruct (last_of l k); [done|]. rewrite decide_False; [done|].
intros <-. by apply E.
Qed.

(** *** Upsert and removal in one API's file *)

Lemma elem_of_upsert api ps p q :
api_file api ps -> q ∈ upsert ps p <-> q = p \/ q ∈ ps /\ pol_Name q <> pol_Name p.
Proof.
intros [_ Hnd]. induction ps as [|x ps IH]; simpl; [set_solver|].
simpl in Hnd. apply NoDup_cons in Hnd as [Hx Hnd]. specialize (IH Hnd).
case_bool_decide as E.
- rewrite !elem_of_cons. split; [|naive_solver].
intros [->|Hq]; [by left|]. right. split; [by right|]. intros E'. apply Hx.
rewrite E, <- E'. apply list_elem_of_fmap. eauto.
- rewrite !elem_of_cons, IH. naive_solver.
Qed.

Lemma upsert_names ps p x : x ∈ map pol_Name (upsert ps p) -> x = pol_Name p \/ x ∈ map pol_Name ps.
Proof.
induction ps as [|q ps IH]; simpl; [set_solver|]. case_bool_decide; simpl; set_solver.
Qed.

Lemma upsert_api_file api ps p :
api_file api ps -> pol_API p = api -> api_file api (upsert ps p).
Proof.
intros Hf Hp. split.
- intros q [->|[Hq _]]%(elem_of_upsert api); [done|by apply Hf|done].
- destruct Hf as [_ Hnd]. induction ps as [|q ps IH]; simpl in *; [by apply NoDup_singleton|].
apply NoDup_cons in Hnd as [Hq Hnd]. case_bool_decide as E; simpl; apply NoDup_cons.
+ by rewrite <- E.
+ split; [|by apply IH]. intros [E'|?]%upsert_names; congruence.
Qed.

Lemma elem_of_remove api ps name q :
api_file api ps -> q ∈ remove ps name <-> q ∈ ps /\ pol_Name q <> name.
Proof.
intros [_ Hnd]. induction ps as [|x ps IH]; simpl; [set_solver|].
simpl in Hnd. apply NoDup_cons in Hnd as [Hx Hnd]. specialize (IH Hnd).
case_bool_decide as E.
- rewrite elem_of_cons. split; [|naive_solver].
intros Hq. split; [by right|]. intros E'. apply Hx. rewrite E, <- E'.
apply list_elem_of_fmap. eauto.
- rewrite !elem_of_cons, IH. naive_solver.
Qed.

Lemma remove_api_file api ps name : api_file api ps -> api_file api (remove ps name).
Proof.
intros Hf. split.
- intros q [Hq _]%(elem_of_remove api); [by apply Hf|done].
- destruct Hf as [_ Hnd]. induction ps as [|q ps IH]; simpl in *; [done|].
apply NoDup_cons in Hnd as [Hq Hnd]. case_bool_decide; [done|]. simpl. apply NoDup_cons.
split; [|by apply IH]. intros Hin. apply Hq. clear -Hin.
induction ps as [|x ps IH]; simpl in *; [done|]. case_bool_decide; set_solver.
Qed.

(** *** Writing one API's file *)

Lemma writeAPIFile_ok api ps s s' :
canon s -> api_file api ps -> writeAPIFile api ps s = (None, s') ->
canon s' /\ file_of s' api = ps /\ forall b, b <> api -> file_of s' b = file_of s b.
Proof.
intros Hc Hps. unfold writeAPIFile, atomicWrite. destruct (negb _); [done|].
destruct (decide (ps = [])) as [->|Hne].
- destruct (pop _) as [[] fs]; [done|]. intros [= <-]. split; [|split].
+ intros n raw. simpl. intros [_ Hn]%lookup_delete_Some. by apply Hc.
+ unfold file_of. simpl. by rewrite lookup_delete_eq.
+ intros b Hb. unfold file_of. simpl. rewrite lookup_delete_ne; [done|].
  by intros ?%canonical_inj.
- destruct ps as [|p ps]; [done|]. destruct (yaml_encode (p :: ps)) as [raw|] eqn:Henc; [|done].
destruct (pop _) as [[] fs]; [done|]. intros [= <-].
pose proof (yaml_roundtrip _ _ Henc) as Hd. split; [|split].
+ intros n raw'. simpl. intros [[<- <-]|[_ Hn]]%lookup_insert_Some; [|by apply Hc].
  intros _. exists (p :: ps). split; [done|]. split; [apply Hps|].
  intros q Hq. by rewrite (af_api _ _ Hps).
+ unfold file_of. simpl. by rewrite lookup_insert_eq, Hd.
+ intros b Hb. unfold file_of. simpl. rewrite lookup_insert_ne; [done|].
  by intros ?%canonical_inj.
Qed.

Lemma writeAPIFile_err api ps s e s' :
writeAPIFile api ps s = (Some e, s') -> fs_files s' = fs_files s.
Proof.
unfold writeAPIFile, atomicWrite. destruct (negb _); [by intros [= <- <-]|].
destruct ps as [|p ps]; [destruct (pop _) as [[] fs]; by intros [= <- <-]|].
destruct (yaml_encode _); [|by intros [= <- <-]].
destruct (pop _) as [[] fs]; by intros [= <- <-].
Qed.

(** In the canonical layout there is no legacy entry to scrub. *)
Lemma scrub_noop api name s : canon s -> scrubLegacyEntry api name s = (None, s).
Proof.
intros Hc. unfold scrubLegacyEntry. induction (dir s) as [|n names IH]; [done|]. simpl.
assert (scrub_file api name n s = (None, s)) as ->; [|done]. unfold scrub_file.
destruct (fs_files s !! n) as [raw|] eqn:Hr; [|done].
destruct (isYAML n) eqn:Hy; [|done]. simpl. case_bool_decide as Hn; [done|].
destruct (mightContainEntry raw api name); [|done].
destruct (Hc _ _ Hr Hy) as (ps & -> & _ & Hp). simpl.
assert (withoutEntry ps api name = ps) as ->; [|by rewrite bool_decide_eq_true_2].
clear -Hp Hn. unfold withoutEntry. induction ps as [|p ps IH]; [done|]. simpl.
rewrite (bool_decide_eq_false_2 (pol_API p = api)).
- simpl. f_equal. apply IH. intros q Hq. apply Hp. by right.
- intros <-. apply Hn. symmetry. apply Hp. left.
Qed.

Lemma file_content_write api ps s s' k :
canon s -> api_file api ps -> writeAPIFile api ps s = (None, s') ->
file_content s' k = if decide (k.1 = api) then last_of ps k else file_content s k.
Proof.
intros Hc Hf Hw. destruct (writeAPIFile_ok _ _ _ _ Hc Hf Hw) as (_ & E1 & E2).
unfold file_content. case_decide as Ek; [by rewrite Ek, E1|by rewrite E2].
Qed.

Lemma last_of_upsert api ps p k :
api_file api ps -> pol_API p = api -> k.1 = api ->
last_of (upsert ps p) k = if decide (k = pol_key p) then Some p else last_of ps k.
Proof.
intros Hf Hp Hk. apply option_eq. intros q.
rewrite last_of_iff by (eapply api_file_unique, upsert_api_file; done).
rewrite (elem_of_upsert api) by done. case_decide as E.
- subst k. split; [|naive_solver]. intros [[->|[Hq Hne]] Eq]; [done|].
unfold pol_key in Eq. congruence.
- rewrite last_of_iff by (by eapply api_file_unique). split; [naive_solver|].
intros [Hq <-]. split; [|done]. right. split; [done|]. intros En. apply E.
unfold pol_key. rewrite (af_api _ _ Hf q Hq). congruence.
Qed.

Lemma last_of_remove api ps name k :
api_file api ps -> k.1 = api ->
last_of (remove ps name) k = if decide (k = (api, name)) then None else last_of ps k.
Proof.
intros Hf Hk. apply option_eq. intros q.
rewrite last_of_iff by (eapply api_file_unique, remove_api_file; done).
rewrite (elem_of_remove api) by done. case_decide as E.
- subst k. split; [|done]. intros [[Hq Hne] Eq]. unfold pol_key in Eq. congruence.
- rewrite last_of_iff by (by eapply api_file_unique). split; [naive_solver|].
intros [Hq <-]. split; [|done]. split; [done|]. intros En. apply E.
unfold pol_key. by rewrite (af_api _ _ Hf q Hq), En.
Qed.

Lemma canon_same_files s s' : fs_files s' = fs_files s -> canon s -> canon s' /\
forall k, file_content s' k = file_content s k.
Proof. intros E Hc. unfold canon, file_content, file_of. by rewrite E. Qed.

(** A canonical directory lists no policy twice. *)
Lemma readAll_unique s l : canon s -> readAll s = Ok l -> keys_unique l.
Proof.
intros Hc Hl p q Hp Hq E. pose proof (readAll_filter s l (pol_API p) Hc Hl) as Hf.
apply (api_file_unique _ _ (file_of_api s (pol_API p) Hc)); [..|done]; rewrite <- Hf; unfold filterByAPI;
  apply list_elem_of_In, filter_In; (split; [by apply list_elem_of_In|]); apply bool_decide_eq_true; [done|].
unfold pol_key in E. congruence.
Qed.

#[export] Program Instance file_laws : StoreLaws fileStore := {|
st_inv := canon;
st_content := file_content
|}.
Next Obligation.
simpl. intros s l Hc Hl k. unfold file_content.
by rewrite <- (readAll_filter s l k.1 Hc Hl), last_of_filter.
Qed.
Next Obligation.
simpl. unfold file_Put. intros p s s' Hc. destruct (readAll s) as [all|] eqn:Hr; [|done].
rewrite (readAll_filter _ _ _ Hc Hr).
pose proof (file_of_api s (pol_API p) Hc) as Hf.
assert (api_file (pol_API p) (upsert (file_of s (pol_API p)) p)) as Hu by (by apply upsert_api_file).
destruct (writeAPIFile _ _ s) as [[e|] s1] eqn:Hw; [done|].
destruct (writeAPIFile_ok _ _ _ _ Hc Hu Hw) as (Hc1 & _).
rewrite scrub_noop by done. intros [= <-]. split; [done|]. intros k.
rewrite (file_content_write _ _ _ _ k Hc Hu Hw). case_decide as Ek.
- rewrite (last_of_upsert (pol_API p)) by done. unfold file_content. by rewrite Ek.
- rewrite decide_False; [done|]. by intros ->.
Qed.
Next Obligation.
simpl. unfold file_Put. intros p s e s' Hc. destruct (readAll s); [|by intros [= _ <-]].
destruct (writeAPIFile _ _ s) as [[e1|] s1] eqn:Hw; [|done]. intros [= _ <-].
apply canon_same_files; [|done]. by eapply writeAPIFile_err.
Qed.
Next Obligation.
simpl. unfold file_Delete. intros api name s s' Hc. destruct (readAll s) as [all|] eqn:Hr; [|done].
rewrite (readAll_filter _ _ _ Hc Hr). pose proof (file_of_api s api Hc) as Hf.
case_bool_decide; [done|].
assert (api_file api (remove (file_of s api) name)) as Hu by (by apply remove_api_file).
destruct (writeAPIFile _ _ s) as [[e|] s1] eqn:Hw; [done|].
destruct (writeAPIFile_ok _ _ _ _ Hc Hu Hw) as (Hc1 & _).
rewrite scrub_noop by done. intros [= <-]. split; [done|]. intros k.
rewrite (file_content_write _ _ _ _ k Hc Hu Hw). case_decide as Ek.
- rewrite (last_of_remove api) by done. unfold file_content. by rewrite Ek.
- rewrite decide_False; [done|]. by intros ->.
Qed.
Next Obligation.
simpl. unfold file_Delete. intros api name s e s' Hc. destruct (readAll s); [|by intros [= _ <-]].
case_bool_decide; [by intros [= _ <-]|].
destruct (writeAPIFile _ _ s) as [[e1|] s1] eqn:Hw; [|done]. intros [= _ <-].
apply canon_same_files; [|done]. by eapply writeAPIFile_err.
Qed.
End canonical.

(** ** Property *)

Inductive file_op : Type := FPut (p : Policy) | FDelete (api name : string).

Definition file_step `{Yaml} (o : file_op) (s : fileStore) : option goerr * fileStore :=
  match o with FPut p => file_Put p s | FDelete api name => file_Delete api name s end.

Definition file_effect (o : file_op) (m : string * string -> option Policy) (k : string * string)
    : option Policy :=
  match o with
  | FPut p => if decide (k = pol_key p) then Some p else m k
  | FDelete api name => if decide (k = (api, name)) then None else m k
  end.

(** C40. In the canonical layout, one file per API and no name twice, the
    directory is a faithful store: an edit that succeeds is what the next load
    sees, one that fails at any disk operation changes nothing, and the layout
    stays canonical. *)
Theorem file_store_edit `{Yaml} `{!YamlLaws} (o : file_op) (s s' : fileStore) (e : option goerr)
    (Hc : canon s) (Hstep : file_step o s = (e, s')) :
  canon s' /\
  forall l l', readAll s = Ok l -> readAll s' = Ok l' -> forall k,
    last_of l' k = match e with None => file_effect o (last_of l) k | Some _ => last_of l k end.
Proof.
  assert (canon s' /\ forall k, file_content s' k =
    match e with None => file_effect o (file_content s) k | Some _ => file_content s k end) as [Hc' Hk].
  { destruct o as [p|api name], e as [e|]; simpl in Hstep.
    - by apply (@st_put_err _ _ file_laws p s e s').
    - by apply (@st_put_ok _ _ file_laws p s s').
    - by apply (@st_delete_err _ _ file_laws api name s e s').
    - by apply (@st_delete_ok _ _ file_laws api name s s'). }
  split; [done|]. intros l l' Hl Hl' k. rewrite (@st_list_ok _ _ file_laws s' l' Hc' Hl' k).
  pose proof (@st_list_ok _ _ file_laws s l Hc Hl) as Hs. simpl. rewrite Hk.
  destruct e; [by rewrite Hs|]. destruct o; simpl; case_decide; by rewrite ?Hs.
Qed.

Definition demo_dir : @fileStore list_yaml :=
  mkFiles {[ "x_policy.yaml" := [xa "a1"; xb "b1"]; "notes.txt" := [] ]} [false; true].

Definition demo_dir_edit : option goerr * @fileStore list_yaml :=
  @file_step list_yaml (FPut (xb "b2")) demo_dir.

Lemma file_store_edit_witness :
  demo_dir_edit.1 = None /\
  @canon list_yaml demo_dir_edit.2 /\
  forall l l', @readAll list_yaml demo_dir = Ok l -> @readAll list_yaml demo_dir_edit.2 = Ok l' ->
    forall k, last_of l' k = file_effect (FPut (xb "b2")) (last_of l) k.
Proof.
  split; [vm_compute; reflexivity|].
  apply (@file_store_edit list_yaml ltac:(intros ps raw [= <-]; reflexivity) (FPut (xb "b2")) demo_dir
    demo_dir_edit.2 None).
  - intros n raw Hn Hy.
    change (((<["x_policy.yaml" := [xa "a1"; xb "b1"]]> {[ "notes.txt" := [] ]})
      : gmap string (list Policy)) !! n = Some raw) in Hn.
    apply lookup_insert_Some in Hn as [[<- <-]|[_ Hn]].
    + exists [xa "a1"; xb "b1"]. split; [reflexivity|]. split.
      * apply (bool_decide_unpack _). vm_compute. exact I.
      * intros p [->|[->|[]%not_elem_of_nil]%elem_of_cons]%elem_of_cons; reflexivity.
    + apply lookup_singleton_Some in Hn as [<- _]. discriminate Hy.
  - vm_compute. reflexivity.
Defined.
