(* ===== verification/PolicyService.v ===== *)
(** * The policy service: [internal/control/policies/policies.go]

    Every write validates, then persists, then applies to the live runtime.
    The service is proved against the two interfaces of [Interfaces]: whatever
    runtime and store obey their laws, the store's content and the runtime's
    policy set agree after every operation, on success and on failure; single
    writes are all-or-nothing; an import applies the last entry of each key; a
    reload rebuilds the same set.  All writes run under one mutex, so they are
    atomic steps. *)

From stdpp Require Import pretty.
From S2P Require Import Prelude GoStd Models Interfaces PathTemplate Routes Messages Compiled Evaluator EvaluatorFacts PolicyStore ApiRuntime Runtime Stores FileStore.

Definition basicSchema (p : Policy) : result unit :=
  fail_if bool_decide (pol_API p = "") with EMsg "api is required" ;;
  fail_if bool_decide (pol_Name p = "") with EMsg "name is required" ;;
  fail_if bool_decide (pol_Condition p = "") with EMsg "condition is required" ;;
  PolicyResult_Validate (pol_Result p).

(** [lastIdx] and [deduped] of [Import]: keyed by "api/name". *)
Definition import_key (p : Policy) : string := pol_API p +:+ "/" +:+ pol_Name p.

Definition lastIdx (incoming : list Policy) : gmap string nat :=
  foldl (fun m '(i, p) => <[import_key p := i]> m) ∅ (indexed incoming).

Definition dedup (incoming : list Policy) : list Policy :=
  let last := lastIdx incoming in
  map snd (List.filter (fun '(i, p) => bool_decide (last !! import_key p = Some i))
             (indexed incoming)).

Record ImportResult := mkImportResult {
  ir_Created : list string;
  ir_Overwritten : list string;
  ir_Errors : list string
}.

Definition no_result : ImportResult := mkImportResult [] [] [].

Section service.
Context `{PolicyRuntime R} `{Store St}.

Record Service := mkService {
sv_rt : R;
sv_store : St;
sv_readOnly : bool
}.

Definition New (rt : R) (store : St) : Service := mkService rt store false.

Definition SetReadOnly (ro : bool) (s : Service) : Service :=
mkService (sv_rt s) (sv_store s) ro.

Definition Writeable (s : Service) : bool := negb (sv_readOnly s).

(** The loop of [LoadFromStore]; policies before a failing one stay applied. *)
Fixpoint replay (l : list Policy) (rt : R) : option goerr * R :=
match l with
| [] => (None, rt)
| p :: l' =>
  match pr_replace p rt with
  | (Err e, rt) => (Some (EWrap "load policy" e), rt)
  | (Ok _, rt) => replay l' rt
  end
end.

Definition LoadFromStore (s : Service) : option goerr * Service :=
match st_list (sv_store s) with
| Err e => (Some (EWrap "load" e), s)
| Ok all =>
  let '(e, rt) := replay all (sv_rt s) in
  (e, mkService rt (sv_store s) (sv_readOnly s))
end.

(** [fmt.Errorf("%w: %s", ErrInvalid, err.Error())] keeps only the sentinel. *)
Definition invalid {A} (r : result A) : result unit :=
match r with Ok _ => Ok tt | Err _ => Err (EWrap "validation" ErrInvalid) end.

Definition Validate (p : Policy) (s : Service) : result unit :=
_ ← invalid (basicSchema p); invalid (pr_validate p (sv_rt s)).

Definition find (api name : string) (s : Service) : option Policy :=
find_policy api name (pr_list (sv_rt s)).

Definition persistAndApply (p : Policy) (s : Service) : option goerr * Service :=
match st_put p (sv_store s) with
| (Some e, st) => (Some (EWrap "store put" e), mkService (sv_rt s) st (sv_readOnly s))
| (None, st) =>
  match pr_replace p (sv_rt s) with
  | (Err e, rt) => (Some (EWrap "runtime apply" e), mkService rt st (sv_readOnly s))
  | (Ok _, rt) => (None, mkService rt st (sv_readOnly s))
  end
end.

Definition Create (p : Policy) (s : Service) : option goerr * Service :=
if sv_readOnly s then (Some ErrReadOnly, s)
else
match Validate p s with
| Err e => (Some e, s)
| Ok _ =>
    match find (pol_API p) (pol_Name p) s with
    | Some _ => (Some (EWrap "create" ErrConflict), s)
    | None => persistAndApply p s
    end
end.

Definition Replace (api name : string) (p : Policy) (s : Service) : option goerr * Service :=
if sv_readOnly s then (Some ErrReadOnly, s)
else if bool_decide (pol_API p <> api) || bool_decide (pol_Name p <> name)
then (Some (EWrap "replace" ErrAPIPath), s)
else
match Validate p s with
| Err e => (Some e, s)
| Ok _ => persistAndApply p s
end.

Definition Delete (api name : string) (s : Service) : option goerr * Service :=
if sv_readOnly s then (Some ErrReadOnly, s)
else
match find api name s with
| None => (Some (EWrap "delete" ErrNotFound), s)
| Some _ =>
    match st_delete api name (sv_store s) with
    | (Some e, st) => (Some (EWrap "store delete" e), mkService (sv_rt s) st (sv_readOnly s))
    | (None, st) =>
        match pr_remove api name (sv_rt s) with
        | (Err e, rt) => (Some (EWrap "runtime remove" e), mkService rt st (sv_readOnly s))
        | (Ok _, rt) => (None, mkService rt st (sv_readOnly s))
        end
    end
end.

Definition List_ (s : Service) : list Policy := pr_list (sv_rt s).

Definition Get (api name : string) (s : Service) : result Policy :=
match find api name s with
| Some p => Ok p
| None => Err (EWrap "get" ErrNotFound)
end.

(** The validation pass of [Import]; an error line is kept as its label. *)
Definition import_label (i : nat) (p : Policy) : string :=
if bool_decide (pol_API p = "") || bool_decide (pol_Name p = "")
then "entry " +:+ pretty (S i) else import_key p.

Definition import_check (s : Service) (res : ImportResult) (ip : nat * Policy) : ImportResult :=
let '(i, p) := ip in
match Validate p s with
| Err _ =>
  mkImportResult (ir_Created res) (ir_Overwritten res) (ir_Errors res ++ [import_label i p])
| Ok _ =>
  match find (pol_API p) (pol_Name p) s with
  | Some _ =>
      mkImportResult (ir_Created res) (ir_Overwritten res ++ [import_key p]) (ir_Errors res)
  | None =>
      mkImportResult (ir_Created res ++ [import_key p]) (ir_Overwritten res) (ir_Errors res)
  end
end.

Fixpoint persist_all (l : list Policy) (s : Service) : option goerr * Service :=
match l with
| [] => (None, s)
| p :: l' =>
  match persistAndApply p s with
  | (Some e, s) => (Some (EWrap "persist" e), s)
  | (None, s) => persist_all l' s
  end
end.

Definition Import (incoming : list Policy) (dryRun : bool) (s : Service)
: ImportResult * option goerr * Service :=
if sv_readOnly s then (no_result, Some ErrReadOnly, s)
else
let deduped := dedup incoming in
let res := foldl (import_check s) no_result (indexed deduped) in
if bool_decide (0 < length (ir_Errors res)) then
  (res, Some (EWrap "import has validation errors" ErrInvalid), s)
else if dryRun then (res, None, s)
else let '(e, s) := persist_all deduped s in (res, e, s).
End service.
Arguments Service : clear implicits.

(** ** Deduplication keeps the last entry of each key *)

Fixpoint keep_last (l : list Policy) : list Policy :=
  match l with
  | [] => []
  | p :: l' =>
      if bool_decide (import_key p ∈ map import_key l') then keep_last l' else p :: keep_last l'
  end.

(** The fold of [lastIdx], from index [n]. *)
Definition idx_from (n : nat) (l : list Policy) (m : gmap string nat) : gmap string nat :=
  foldl (fun m '(i, p) => <[import_key p := i]> m) m (zip (seq n (length l)) l).

Lemma idx_from_notin n l m k : k ∉ map import_key l -> idx_from n l m !! k = m !! k.
Proof.
  unfold idx_from. revert n m. induction l as [|p l IH]; intros n m; simpl; [done|].
  intros [Hne Hn]%not_elem_of_cons. rewrite IH by done. by apply lookup_insert_ne.
Qed.

Lemma idx_from_in n l k :
  k ∈ map import_key l -> exists j, n <= j /\ forall m, idx_from n l m !! k = Some j.
Proof.
  revert n. induction l as [|p l IH]; intros n; simpl; [by intros ?%not_elem_of_nil|].
  intros Hk. change (idx_from n (p :: l)) with (fun m => idx_from (S n) l (<[import_key p := n]> m)).
  destruct (decide (k ∈ map import_key l)) as [Hin|Hn].
  - destruct (IH (S n) Hin) as (j & Hj & Hm). exists j. split; [lia|]. intros m. apply Hm.
  - apply elem_of_cons in Hk as [->|]; [|done]. exists n. split; [done|]. intros m. simpl.
    rewrite idx_from_notin by done. by rewrite lookup_insert_eq.
Qed.

Lemma filter_last n l (M : gmap string nat) :
  (forall k, k ∈ map import_key l -> M !! k = idx_from n l ∅ !! k) ->
  map snd (List.filter (fun '(i, p) => bool_decide (M !! import_key p = Some i))
             (zip (seq n (length l)) l)) = keep_last l.
Proof.
  revert n. induction l as [|p l IH]; intros n HM; [done|].
  assert (forall m, idx_from n (p :: l) m = idx_from (S n) l (<[import_key p := n]> m)) as Hc
    by done.
  assert (forall k, k ∈ map import_key l -> M !! k = idx_from (S n) l ∅ !! k) as HM'.
  { intros k Hk. rewrite HM by (by right). rewrite Hc.
    destruct (idx_from_in (S n) l k Hk) as (j & _ & Hj). by rewrite !Hj. }
  specialize (IH (S n) HM'). specialize (HM (import_key p) ltac:(left)). rewrite Hc in HM.
  cbn [length seq zip zip_with List.filter keep_last]. rewrite HM.
  destruct (decide (import_key p ∈ map import_key l)) as [Hin|Hn].
  - destruct (idx_from_in (S n) l _ Hin) as (j & Hj & Hm). rewrite Hm.
    rewrite bool_decide_eq_false_2 by (intros [= ->]; lia).
    by rewrite bool_decide_eq_true_2 by done.
  - rewrite idx_from_notin, lookup_insert_eq by done.
    rewrite bool_decide_eq_true_2 by done. rewrite bool_decide_eq_false_2 by done.
    simpl. by f_equal.
Qed.

Lemma dedup_keep_last l : dedup l = keep_last l.
Proof. apply filter_last. done. Qed.

Lemma keep_last_sub l p : p ∈ keep_last l -> p ∈ l.
Proof.
  induction l as [|q l IH]; simpl; [done|]. case_bool_decide; [intros; right; auto|].
  intros [->|Hp]%elem_of_cons; [left|right; auto].
Qed.

(** Two policies share an import key only if they share their key. *)
Definition keys_injective (l : list Policy) : Prop :=
  forall p q, p ∈ l -> q ∈ l -> import_key p = import_key q -> pol_key p = pol_key q.

Lemma last_of_keep_last l k : keys_injective l -> last_of (keep_last l) k = last_of l k.
Proof.
  induction l as [|p l IH]; intros Hinj; simpl; [done|].
  assert (keys_injective l) as Hl.
  { intros x y Hx Hy. apply Hinj; by right. }
  rewrite last_of_cons. case_bool_decide as Hin.
  - rewrite IH by done. destruct (last_of l k) as [q|] eqn:E; [done|].
    case_decide as Ek; [|done]. exfalso. apply list_elem_of_fmap in Hin as (q & Eq & Hq).
    unfold last_of in E. destruct k as [a n]. rewrite find_policy_None in E.
    apply (E q); [apply list_elem_of_In; rewrite <- in_rev; by apply list_elem_of_In|].
    rewrite <- Ek. symmetry. apply Hinj; [left|by right|done].
  - rewrite last_of_cons. by rewrite IH.
Qed.

(** ** Store and runtime in step *)

Section laws.
Context `{PR : PolicyRuntime R} `{!PolicyRuntimeLaws R} `{SS : Store St} `{!StoreLaws St}.
Implicit Type s : Service R St.

Definition policy_at (s : Service R St) (k : string * string) : option Policy :=
pr_find (sv_rt s) k.

Record in_sync (s : Service R St) : Prop := {
sy_rt : pr_inv (sv_rt s);
sy_store : st_inv (sv_store s);
sy_same k : st_content (sv_store s) k = policy_at s k;
sy_valid k p : policy_at s k = Some p -> pr_validate p (sv_rt s) = Ok tt
}.

(** Content after an upsert, as a map. *)
Definition put_key (p : Policy) (m : string * string -> option Policy) :=
fun k => if decide (k = pol_key p) then Some p else m k.

Lemma invalid_ok {A} (r : result A) : invalid r = Ok tt <-> exists a, r = Ok a.
Proof. destruct r; simpl; naive_solver. Qed.

Lemma Validate_ok p s :
Validate p s = Ok tt <-> basicSchema p = Ok tt /\ pr_validate p (sv_rt s) = Ok tt.
Proof.
unfold Validate. destruct (basicSchema p) as [[]|], (pr_validate p (sv_rt s)) as [[]|];
simpl; naive_solver.
Qed.

Lemma Validate_unit p s u : Validate p s = Ok u -> Validate p s = Ok tt.
Proof. by destruct u. Qed.

(** Writing policies never changes which policies validate. *)
Definition same_catalog s s' : Prop :=
forall q, pr_validate q (sv_rt s') = pr_validate q (sv_rt s).

Lemma same_catalog_refl s : same_catalog s s.
Proof. done. Qed.
#[local] Hint Resolve same_catalog_refl : go.

Lemma persistAndApply_spec p s e s' :
in_sync s -> pr_validate p (sv_rt s) = Ok tt -> persistAndApply p s = (e, s') ->
in_sync s' /\ same_catalog s s' /\
forall k, policy_at s' k = match e with None => put_key p (policy_at s) k | Some _ => policy_at s k end.
Proof.
intros [Hrt Hst Hsame Hvalid] Hv. unfold persistAndApply.
destruct (st_put p (sv_store s)) as [[e1|] st'] eqn:Hput.
- intros [= <- <-]. destruct (st_put_err _ _ _ _ Hst Hput) as [Hst' Hc].
split; [|done]. split; [done|done| |exact Hvalid]. intros k. simpl. rewrite Hc. apply Hsame.
- destruct (st_put_ok _ _ _ Hst Hput) as [Hst' Hc].
destruct (pr_replace_ok p (sv_rt s) Hrt Hv) as (b & rt' & -> & Hrt' & Hf & _ & Hval).
intros [= <- <-]. split; [|by split]. unfold policy_at in *. split; cbn [sv_rt sv_store]; [done|done| |].
+ intros k. unfold policy_at. cbn [sv_rt]. rewrite Hc, Hf. case_decide; [done|]. apply Hsame.
+ intros k q. unfold policy_at. cbn [sv_rt]. rewrite Hf, Hval. case_decide; [by intros [= <-]|].
  apply Hvalid.
Qed.

(** Policies written over others, the last of a key winning. *)
Definition overlay (l : list Policy) (m : string * string -> option Policy) (k : string * string) : option Policy :=
match last_of l k with Some p => Some p | None => m k end.

Lemma overlay_cons p l m m' k :
(forall k, m' k = put_key p m k) -> overlay l m' k = overlay (p :: l) m k.
Proof.
intros Hm. unfold overlay. rewrite last_of_cons. destruct (last_of l k); [done|]. rewrite Hm. unfold put_key.
repeat case_decide; congruence.
Qed.

(** All is written, or a part up to the policy that could not be. *)
Lemma persist_all_spec l s e s' :
in_sync s -> Forall (fun p => pr_validate p (sv_rt s) = Ok tt) l -> persist_all l s = (e, s') ->
in_sync s' /\ same_catalog s s' /\
(e = None -> forall k, policy_at s' k = overlay l (policy_at s) k) /\
(e <> None -> exists written p rest, l = written ++ p :: rest /\
   forall k, policy_at s' k = overlay written (policy_at s) k).
Proof.
revert s. induction l as [|p l IH]; intros s Hs Hv; simpl.
{ by intros [= <- <-]. }
apply Forall_cons in Hv as [Hp Hv].
destruct (persistAndApply p s) as [e1 s1] eqn:E1.
destruct (persistAndApply_spec _ _ _ _ Hs Hp E1) as (Hs1 & Hval & Hk).
destruct e1 as [e1|].
{ intros [= <- <-]. split; [done|]. split; [done|]. split; [done|]. intros _. by exists [], p, l. }
intros Hr. destruct (IH s1 Hs1) as (Hs' & Hval' & Hk' & Hf).
{ eapply Forall_impl; [exact Hv|]. intros q. by rewrite Hval. }
{ done. }
split; [done|]. split; [intros q; by rewrite Hval'|]. split.
- intros He k. rewrite Hk' by done. by apply overlay_cons.
- intros He. destruct (Hf He) as (written & q & rest & -> & Hw). exists (p :: written), q, rest. split; [done|].
  intros k. rewrite Hw. by apply overlay_cons.
Qed.

(** *** Operations *)

Inductive service_op : Type :=
| OpCreate (p : Policy)
| OpReplace (api name : string) (p : Policy)
| OpDelete (api name : string)
| OpImport (incoming : list Policy) (dryRun : bool).

Definition service_step (o : service_op) (s : Service R St) : option goerr * Service R St :=
match o with
| OpCreate p => Create p s
| OpReplace api name p => Replace api name p s
| OpDelete api name => Delete api name s
| OpImport l dry => let '(_, e, s') := Import l dry s in (e, s')
end.

(** What a successful operation does to the map. *)
Definition service_effect (o : service_op) (m : string * string -> option Policy)
: string * string -> option Policy :=
match o with
| OpCreate p | OpReplace _ _ p => put_key p m
| OpDelete api name => fun k => if decide (k = (api, name)) then None else m k
| OpImport l dry => fun k => if dry then m k else overlay (dedup l) m k
end.

(** An import that gets past its checks and starts to write. *)
Definition import_starts (l : list Policy) (s : Service R St) : Prop :=
sv_readOnly s = false /\ Forall (fun p => Validate p s = Ok tt) (dedup l).

(** What a failed operation does: nothing, unless it is an import that had
started to write, which has written the policies before one of them. *)
Definition failed_effect (o : service_op) (s s' : Service R St) : Prop :=
match o with
| OpImport l false =>
    (~ import_starts l s /\ forall k, policy_at s' k = policy_at s k) \/
    (import_starts l s /\ exists written p rest, dedup l = written ++ p :: rest /\
       forall k, policy_at s' k = overlay written (policy_at s) k)
| _ => forall k, policy_at s' k = policy_at s k
end.

Lemma import_checks s l res :
ir_Errors (foldl (import_check s) res l) = [] ->
ir_Errors res = [] /\ Forall (fun ip => Validate ip.2 s = Ok tt) l.
Proof.
revert res. induction l as [|[i p] l IH]; intros res; simpl; [done|]. intros E.
apply IH in E as [E HF]. destruct (Validate p s) as [u|e] eqn:Hv; [|by apply app_nil in E as [_ ?]].
split; [by destruct (find _ _ _)|]. constructor; [by destruct u|done].
Qed.

Lemma indexed_snd {A} (P : A -> Prop) l : Forall (fun ip => P ip.2) (indexed l) -> Forall P l.
Proof.
rewrite !Forall_forall. intros HF x Hx. apply list_elem_of_lookup in Hx as [i Hi].
by apply (HF (i, x)), elem_of_indexed.
Qed.

Lemma import_checks_pass l s (res : ImportResult) :
Forall (fun ip => Validate ip.2 s = Ok tt) l -> ir_Errors res = [] ->
ir_Errors (foldl (import_check s) res l) = [].
Proof.
intros Hl. revert res. induction Hl as [|[i p] l Hp _ IH]; intros res Hr; simpl; [done|].
apply IH. simpl in Hp. rewrite Hp. by destruct (find _ _ s).
Qed.

Lemma indexed_Forall {A} (P : A -> Prop) (l : list A) : Forall P l -> Forall (fun ip => P ip.2) (indexed l).
Proof.
rewrite !Forall_forall. intros HF [i x] Hx. apply elem_of_indexed in Hx. by apply HF, (list_elem_of_lookup_2 _ i).
Qed.

Lemma Import_spec l dry s res e s' :
in_sync s -> Import l dry s = (res, e, s') ->
in_sync s' /\ same_catalog s s' /\
(dry = true -> s' = s) /\
(e = None -> forall k, policy_at s' k = service_effect (OpImport l dry) (policy_at s) k) /\
(e <> None -> failed_effect (OpImport l dry) s s').
Proof.
intros Hs. unfold Import. destruct (sv_readOnly s) eqn:Hro.
{ intros [= <- <- <-]. split; [done|]. split; [done|]. split; [done|]. split; [done|]. intros _.
  destruct dry; [done|]. left. split; [|done]. intros [H1 _]. congruence. }
set (r := foldl _ _ _). case_bool_decide as Hlen.
{ intros [= <- <- <-]. split; [done|]. split; [done|]. split; [done|]. split; [done|]. intros _.
  destruct dry; [done|]. left. split; [|done]. intros [_ HF]. apply indexed_Forall, (import_checks_pass _ _ no_result) in HF; [|done].
  fold r in HF. rewrite HF in Hlen. simpl in Hlen. lia. }
destruct dry; [by intros [= <- <- <-]|].
destruct (persist_all (dedup l) s) as [e1 s1] eqn:Hp. intros [= <- <- <-].
assert (ir_Errors r = []) as Hr by (destruct (ir_Errors r); [done|simpl in *; lia]).
apply import_checks in Hr as [_ HF]. apply (indexed_snd (fun p => Validate p s = Ok tt)) in HF.
destruct (persist_all_spec _ _ _ _ Hs ltac:(eapply Forall_impl; [exact HF|];
intros p; apply Validate_ok) Hp) as (Hs1 & Hcat & Hk & Hf).
split; [done|]. split; [done|]. split; [done|]. split; [done|]. intros He. right. split; [by split|by apply Hf].
Qed.

Lemma service_step_spec o s e s' :
in_sync s -> service_step o s = (e, s') ->
in_sync s' /\ same_catalog s s' /\
(e = None -> forall k, policy_at s' k = service_effect o (policy_at s) k) /\
(e <> None -> failed_effect o s s').
Proof.
intros Hs. destruct o as [p|api name p|api name|l dry]; simpl.
- unfold Create. destruct (sv_readOnly s); [by intros [= <- <-]|].
destruct (Validate p s) as [u|] eqn:Hv; [|by intros [= <- <-]].
apply Validate_unit, Validate_ok in Hv as [_ Hv].
destruct (find _ _ s); [by intros [= <- <-]|]. intros Hp.
destruct (persistAndApply_spec _ _ _ _ Hs Hv Hp) as (Hs' & Hcat & Hk). split; [done|]. split; [done|].
split; [by intros ->|]. by destruct e.
- unfold Replace. destruct (sv_readOnly s); [by intros [= <- <-]|].
destruct (_ || _); [by intros [= <- <-]|].
destruct (Validate p s) as [u|] eqn:Hv; [|by intros [= <- <-]].
apply Validate_unit, Validate_ok in Hv as [_ Hv]. intros Hp.
destruct (persistAndApply_spec _ _ _ _ Hs Hv Hp) as (Hs' & Hcat & Hk). split; [done|]. split; [done|].
split; [by intros ->|]. by destruct e.
- unfold Delete. destruct (sv_readOnly s); [by intros [= <- <-]|].
destruct (find api name s) as [p|] eqn:Hf; [|by intros [= <- <-]].
destruct Hs as [Hrt Hst Hsame Hvalid].
destruct (st_delete api name (sv_store s)) as [[e1|] st'] eqn:Hd.
+ intros [= <- <-]. destruct (st_delete_err _ _ _ _ _ Hst Hd) as [Hst' Hc].
  split; [|done]. split; [done|done| |exact Hvalid]. intros k. simpl. rewrite Hc. apply Hsame.
+ destruct (st_delete_ok _ _ _ _ Hst Hd) as [Hst' Hc].
  destruct (pr_remove_ok api name (sv_rt s) Hrt) as (rt' & -> & Hrt' & Hk & Hval); [by exists p|].
  intros [= <- <-]. split; [|by split; [exact Hval|]]. unfold policy_at in *. split; cbn [sv_rt sv_store]; [done|done| |].
  * intros k. unfold policy_at. cbn [sv_rt]. rewrite Hc, Hk. case_decide; [done|]. apply Hsame.
  * intros k q. unfold policy_at. cbn [sv_rt]. rewrite Hk, Hval. case_decide; [done|]. apply Hvalid.
- destruct (Import l dry s) as [[res e1] s1] eqn:Hi. intros [= <- <-].
by destruct (Import_spec _ _ _ _ _ _ Hs Hi) as (Hs' & Hcat & Hdry & Hk).
Qed.

Definition service_run (os : list service_op) (s : Service R St) : Service R St :=
fold_left (fun s o => (service_step o s).2) os s.

Lemma service_run_sync os s :
in_sync s -> in_sync (service_run os s) /\ same_catalog s (service_run os s).
Proof.
unfold service_run. revert s. induction os as [|o os IH]; intros s Hs; [done|]. simpl.
destruct (service_step o s) as [e s'] eqn:E.
destruct (service_step_spec _ _ _ _ Hs E) as (Hs' & Hcat & _). destruct (IH _ Hs') as [Hr Hc].
split; [done|]. intros q. by rewrite Hc.
Qed.

(** *** Reloading *)

Lemma replay_spec l (rt : R) rt' :
pr_inv rt -> replay l rt = (None, rt') ->
pr_inv rt' /\ (forall q, pr_validate q rt' = pr_validate q rt) /\
Forall (fun p => pr_validate p rt = Ok tt) l /\
forall k, pr_find rt' k = match last_of l k with Some p => Some p | None => pr_find rt k end.
Proof.
revert rt. induction l as [|p l IH]; intros rt Hrt; simpl; [by intros [= <-]|].
destruct (pr_validate p rt) as [[]|e] eqn:Hv; [|by rewrite (pr_replace_err _ _ _ Hv)].
destruct (pr_replace_ok _ _ Hrt Hv) as (b & rt1 & -> & Hrt1 & Hf & _ & Hval). intros Hr.
destruct (IH _ Hrt1 Hr) as (Hrt' & Hval' & Hall & Hk). split; [done|].
split; [intros q; by rewrite Hval'|]. split.
- constructor; [done|]. eapply Forall_impl; [exact Hall|]. intros q Hq. by rewrite <- Hval.
- intros k. rewrite Hk, last_of_cons.
destruct (last_of l k); [done|]. rewrite Hf. repeat case_decide; congruence.
Qed.

(** A load fails only on a policy that does not validate. *)
Lemma replay_total l (rt : R) :
pr_inv rt -> Forall (fun p => pr_validate p rt = Ok tt) l -> exists rt', replay l rt = (None, rt').
Proof.
revert rt. induction l as [|p l IH]; intros rt Hrt; simpl; [by exists rt|].
intros [Hp Hl]%Forall_cons. destruct (pr_replace_ok _ _ Hrt Hp) as (b & rt1 & -> & Hrt1 & _ & _ & Hval).
apply IH; [done|]. eapply Forall_impl; [exact Hl|]. intros q. by rewrite Hval.
Qed.

Lemma LoadFromStore_spec s s' :
pr_inv (sv_rt s) -> st_inv (sv_store s) -> (forall k, policy_at s k = None) ->
LoadFromStore s = (None, s') ->
in_sync s' /\ sv_store s' = sv_store s.
Proof.
intros Hrt Hst He. unfold LoadFromStore.
destruct (st_list (sv_store s)) as [all|] eqn:Hl; [|done].
destruct (replay all (sv_rt s)) as [e rt'] eqn:Hr. intros [= -> <-].
destruct (replay_spec _ _ _ Hrt Hr) as (Hrt' & Hval & Hall & Hk). split; [|done].
split; [done|done| |]; intros k; unfold policy_at in *; cbn [sv_rt sv_store];
rewrite ?Hk, He, <- ?(st_list_ok _ _ Hst Hl).
- by destruct (last_of all k).
- intros p. rewrite Hval. destruct (last_of all k) as [q|] eqn:Hq; [|done]. intros [= <-].
rewrite Forall_forall in Hall. apply Hall. by apply last_of_elem in Hq.
Qed.

(** The entries of a list that later ones of the same key shadow. *)
Definition shadowed (l : list Policy) (p : Policy) : Prop := last_of l (pol_key p) <> Some p.

Lemma unique_unshadowed l p : keys_unique l -> p ∈ l -> ~ shadowed l p.
Proof. intros Hu Hp Hs. apply Hs. by apply last_of_iff. Qed.

Lemma LoadFromStore_total s l :
pr_inv (sv_rt s) -> st_inv (sv_store s) -> st_list (sv_store s) = Ok l ->
(forall k p, st_content (sv_store s) k = Some p -> pr_validate p (sv_rt s) = Ok tt) ->
(forall p, p ∈ l -> shadowed l p -> pr_validate p (sv_rt s) = Ok tt) ->
exists s', LoadFromStore s = (None, s').
Proof.
intros Hrt Hst Hl Hc Hsh. unfold LoadFromStore. rewrite Hl.
destruct (replay_total l (sv_rt s) Hrt) as [rt' ->]; [|by eexists].
apply Forall_forall. intros p Hp. destruct (decide (last_of l (pol_key p) = Some p)) as [E|E].
- apply (Hc (pol_key p)). by rewrite <- (st_list_ok _ _ Hst Hl).
- by apply Hsh.
Qed.
End laws.

(** ** Properties *)

(** A live runtime over an empty SQLite store, whose second write fails. *)
Definition demo_service : Service Runtime sqliteStore :=
  New (mkRuntime demo_reg
         {[ "docs" := mkAPIRuntime "docs" "https://docs" 0 false demo_reg demo_metas [demo_action]
              newPolicyStore ]} ∅ demo_metas [])
      (mkSqlite ∅ [false; true]).

Lemma demo_in_sync :
  @in_sync Runtime (@runtime_ops demo_cel) (@runtime_laws demo_cel) sqliteStore _ _ demo_service.
Proof.
  split.
  - apply map_Forall_singleton. split; [done|auto with go|]. intros p Hp.
    by apply not_elem_of_nil in Hp.
  - apply map_Forall_empty.
  - intros [a n]. reflexivity.
  - intros [a n] p Hp. change (@None Policy = Some p) in Hp. discriminate Hp.
Qed.

Definition doc_policy (name desc : string) (r : PolicyResult) : Policy :=
  mkPolicy "docs" name desc "" "" "doc.title == 'x'" r.

(** C3. Disk and memory never drift.  Starting in step, from a well-formed store
    (a database always is; a directory of YAML files is when it is canonical, one
    file per API under its canonical name and no policy twice: a legacy layout is
    outside of this theorem), after any sequence of creates, replaces, deletes and
    imports, each succeeding or failing at validation, in the store or halfway
    through an import, the policies the runtime enforces are exactly the content
    of the store; and a restart with the same API catalog, whose empty runtime
    loads a readable store, succeeds and enforces the same set, provided the
    entries that later ones shadow in the listing still compile (only a layered
    store has any: those of the seed directory that the database overrides). *)
Theorem service_restart_equivalent `{PR : PolicyRuntime R} `{!PolicyRuntimeLaws R}
    `{SS : Store St} `{!StoreLaws St} (os : list service_op) (s restarted : Service R St)
    (l : list Policy)
    (Hs : in_sync s)
    (Hstore : sv_store restarted = sv_store (service_run os s))
    (Hcatalog : forall p, pr_validate p (sv_rt restarted) = pr_validate p (sv_rt s))
    (Hrt : pr_inv (sv_rt restarted)) (Hempty : forall k, policy_at restarted k = None)
    (Hread : st_list (sv_store restarted) = Ok l)
    (Hshadow : forall p, p ∈ l -> shadowed l p -> pr_validate p (sv_rt restarted) = Ok tt) :
  (forall k, st_content (sv_store (service_run os s)) k = policy_at (service_run os s) k) /\
  exists s', LoadFromStore restarted = (None, s') /\
    forall k, policy_at s' k = policy_at (service_run os s) k.
Proof.
  destruct (service_run_sync os s Hs) as [[H1 H2 H3 H4] Hcat]. split; [done|].
  assert (st_inv (sv_store restarted)) as Hst by (by rewrite Hstore).
  destruct (LoadFromStore_total restarted l Hrt Hst Hread) as [s' Hload]; [|done|].
  { intros k p. rewrite Hstore, H3, Hcatalog, <- Hcat. apply H4. }
  exists s'. split; [done|]. intros k.
  destruct (LoadFromStore_spec _ _ Hrt Hst Hempty Hload) as [[_ _ Hsame] Estore].
  by rewrite <- Hsame, Estore, Hstore.
Qed.

Definition demo_ops : list service_op :=
  [OpCreate (doc_policy "a" "v1" Permit); OpReplace "docs" "a" (doc_policy "a" "v2" Deny);
   OpCreate (doc_policy "b" "v1" Deny); OpDelete "docs" "a"].

Definition demo_run : Service Runtime sqliteStore :=
  @service_run Runtime (@runtime_ops demo_cel) sqliteStore _ demo_ops demo_service.

Definition demo_restarted : Service Runtime sqliteStore :=
  mkService (sv_rt demo_service) (sv_store demo_run) false.

Lemma service_restart_equivalent_witness :
  (forall k, st_content (sv_store demo_run) k = @policy_at Runtime (@runtime_ops demo_cel) _ demo_run k) /\
  exists s', @LoadFromStore Runtime (@runtime_ops demo_cel) sqliteStore _ demo_restarted = (None, s') /\
    (forall k, @policy_at Runtime (@runtime_ops demo_cel) _ s' k =
             @policy_at Runtime (@runtime_ops demo_cel) _ demo_run k).
Proof.
  apply (@service_restart_equivalent Runtime (@runtime_ops demo_cel) (@runtime_laws demo_cel)
    sqliteStore _ _ demo_ops demo_service demo_restarted [doc_policy "b" "v1" Deny]).
  - apply demo_in_sync.
  - reflexivity.
  - intros p. reflexivity.
  - apply demo_in_sync.
  - intros [a n]. reflexivity.
  - vm_compute. reflexivity.
  - intros p Hp Hsh. exfalso. apply Hsh. apply elem_of_cons in Hp as [->|Hp]; [reflexivity|].
    by apply not_elem_of_nil in Hp.
Defined.

(** C10. Writes are all-or-nothing and do what they say.  A create, replace or
    delete that reports success makes exactly its change to the policy set, a
    dry run changes nothing, and an import leaves the last entry of each
    "api/name" string, which is the last entry of each key unless two keys share
    such a string.  Any that reports an error leaves the set as it was, an import
    that is refused for one entry included; an import that passes its checks and
    fails while it writes has written the entries before one of them. *)
Theorem service_step_effect `{PR : PolicyRuntime R} `{!PolicyRuntimeLaws R} `{SS : Store St}
    `{!StoreLaws St} (o : service_op) (s s' : Service R St) (e : option goerr)
    (Hs : in_sync s) (Hstep : service_step o s = (e, s')) :
  (e = None -> forall k, policy_at s' k = service_effect o (policy_at s) k) /\
  (e <> None -> failed_effect o s s') /\
  (forall l k, keys_injective l -> last_of (dedup l) k = last_of l k).
Proof.
  destruct (service_step_spec _ _ _ _ Hs Hstep) as (_ & _ & Hok & Hfail). split; [done|]. split; [done|].
  intros l k Hl. rewrite dedup_keep_last. by apply last_of_keep_last.
Qed.

Definition demo_import : service_op :=
  OpImport [doc_policy "a" "first" Permit; doc_policy "b" "" Deny; doc_policy "a" "last" Deny] false.

Lemma service_step_effect_witness :
  let step := @service_step Runtime (@runtime_ops demo_cel) sqliteStore _ demo_import in
  let srv := mkService (sv_rt demo_service) (mkSqlite ∅ []) false in
  (step srv).1 = None /\
  @policy_at Runtime (@runtime_ops demo_cel) _ (step srv).2 ("docs", "a")
    = Some (doc_policy "a" "last" Deny).
Proof.
  split; [vm_compute; reflexivity|].
  rewrite (proj1 (@service_step_effect Runtime (@runtime_ops demo_cel) (@runtime_laws demo_cel)
    sqliteStore _ _ demo_import (mkService (sv_rt demo_service) (mkSqlite ∅ []) false) _ None
    ltac:(split; apply demo_in_sync) ltac:(vm_compute; reflexivity))).
  - reflexivity.
  - reflexivity.
Defined.

(** Two different keys can share the "api/name" string [Import] deduplicates
    by: of these two entries only the second is imported. *)
Example import_key_collision :
  let p := mkPolicy "a" "b/c" "" "" "" "x" Permit in
  let q := mkPolicy "a/b" "c" "" "" "" "x" Permit in
  pol_key p <> pol_key q /\ dedup [p; q] = [q].
Proof. split; [discriminate|vm_compute; reflexivity]. Qed.
