(* ===== verification/Proposals.v ===== *)
(** * Policy proposals: [internal/control/proposals/proposals.go]

    A proposal carries a candidate policy through proposed, then approved or
    rejected.  The store is the SQLite table of sqlite_store.go with scripted
    faults; the validator is the policy service itself.  Every write runs under
    the service's mutex.  The theorems: records only move along the state
    machine and never lose who made them, and nothing but an approval reaches
    the enforced policies. *)

From S2P Require Import Prelude GoStd Models Interfaces PathTemplate Routes Messages Compiled Evaluator EvaluatorFacts PolicyStore ApiRuntime Runtime Stores PolicyService.

(** ** Data *)

Definition StatusProposed : string := "proposed".
Definition StatusApproved : string := "approved".
Definition StatusRejected : string := "rejected".

Definition OriginManual : string := "manual".
Definition OriginAgent : string := "agent".
Definition OriginFromRequest : string := "from_request".

Definition OriginKind_Validate (k : string) : result unit :=
  if bool_decide (k ∈ [""; OriginManual; OriginAgent; OriginFromRequest]) then Ok tt
  else Err (EMsg "unknown origin kind").

Definition KindApply : string := "apply".
Definition KindDelete : string := "delete".

Definition Kind_Validate (k : string) : result unit :=
  if bool_decide (k ∈ [""; KindApply; KindDelete]) then Ok tt
  else Err (EMsg "unknown proposal kind").

Definition Kind_Resolve (k : string) : string := if decide (k = "") then KindApply else k.

Record Origin := mkOrigin {
  or_Kind : string;
  or_Agent : string;
  or_RequestID : string
}.

Record Proposal := mkProposal {
  p_ID : string;
  p_Kind : string;
  p_Policy : Policy;
  p_Status : string;
  p_Origin : Origin;
  p_Author : string;
  p_Rationale : string;
  p_CreatedAt : Z;
  p_UpdatedAt : Z;
  p_DecidedAt : option Z;
  p_DecidedBy : string;
  p_RejectionReason : string
}.

Record CreateInput := mkCreateInput {
  ci_Kind : string;
  ci_Policy : Policy;
  ci_Origin : Origin;
  ci_Author : string;
  ci_Rationale : string
}.

Record UpdateInput := mkUpdateInput {
  ui_Policy : option Policy;
  ui_Rationale : option string
}.

Record ListOpts := mkListOpts { lo_Status : string; lo_API : string }.

Definition PErrNotFound : goerr := ESentinel "proposals.ErrNotFound".
Definition PErrInvalid : goerr := ESentinel "proposals.ErrInvalid".
Definition PErrBadTransition : goerr := ESentinel "proposals.ErrBadTransition".
Definition PErrPolicyConflict : goerr := ESentinel "proposals.ErrPolicyConflict".

(** ** The table *)

Record proposalDB := mkDB {
  db_rows : gmap string Proposal;
  db_faults : list bool
}.

Definition db_get (id : string) (d : proposalDB) : result Proposal * proposalDB :=
  let '(fault, fs) := pop (db_faults d) in
  let d := mkDB (db_rows d) fs in
  if fault then (Err (EWrap "proposals/sqlite: get" disk_error), d)
  else
    match db_rows d !! id with
    | Some p => (Ok p, d)
    | None => (Err (EWrap "get" PErrNotFound), d)
    end.

Definition db_put (p : Proposal) (d : proposalDB) : option goerr * proposalDB :=
  let '(fault, fs) := pop (db_faults d) in
  if fault then (Some (EWrap "proposals/sqlite: put" disk_error), mkDB (db_rows d) fs)
  else (None, mkDB (<[p_ID p := p]> (db_rows d)) fs).

Definition db_delete (id : string) (d : proposalDB) : option goerr * proposalDB :=
  let '(fault, fs) := pop (db_faults d) in
  if fault then (Some (EWrap "proposals/sqlite: delete" disk_error), mkDB (db_rows d) fs)
  else
    match db_rows d !! id with
    | Some _ => (None, mkDB (delete id (db_rows d)) fs)
    | None => (Some (EWrap "delete" PErrNotFound), mkDB (db_rows d) fs)
    end.

Definition listHardLimit : nat := N.to_nat 10000.

(** [WHERE status = ? AND api = ? ORDER BY id LIMIT ?] *)
Definition matches_opts (o : ListOpts) (p : Proposal) : bool :=
  (bool_decide (lo_Status o = "") || bool_decide (p_Status p = lo_Status o)) &&
  (bool_decide (lo_API o = "") || bool_decide (pol_API (p_Policy p) = lo_API o)).

Definition db_list (o : ListOpts) (d : proposalDB) : result (list Proposal) * proposalDB :=
  let '(fault, fs) := pop (db_faults d) in
  let d := mkDB (db_rows d) fs in
  if fault then (Err (EWrap "proposals/sqlite: list" disk_error), d)
  else
    (Ok (take listHardLimit (List.filter (matches_opts o)
       (omap (fun id => db_rows d !! id) (sort_strings (map_to_list (db_rows d)).*1)))), d).

Section proposals.
Context `{PolicyRuntime R} `{Store St}.

Record PService := mkPService {
pv_store : proposalDB;
pv_policies : Service R St
}.

Definition with_db (d : proposalDB) (s : PService) : PService := mkPService d (pv_policies s).

Definition validateForKind (kind : string) (p : Policy) (v : Service R St) : result unit :=
if decide (kind = KindDelete) then
fail_if bool_decide (pol_API p = "") || bool_decide (pol_Name p = "")
  with EMsg "api and name are required for kind=delete" ;; Ok tt
else Validate p v.

(** [fmt.Errorf("%w: %s", ErrInvalid, err)] *)
Definition p_invalid {A} (r : result A) : result unit :=
match r with Ok _ => Ok tt | Err _ => Err (EWrap "proposal" PErrInvalid) end.

(** The put that ends every operation. *)
Definition store_proposal (p : Proposal) (s : PService) : result Proposal * PService :=
match db_put p (pv_store s) with
| (Some e, d) => (Err (EWrap "store" e), with_db d s)
| (None, d) => (Ok p, with_db d s)
end.

Definition PCreate (i : CreateInput) (id : string) (now : Z) (s : PService)
: result Proposal * PService :=
let kind := Kind_Resolve (ci_Kind i) in
match
(_ ← p_invalid (Kind_Validate (ci_Kind i));
 _ ← p_invalid (OriginKind_Validate (or_Kind (ci_Origin i)));
 p_invalid (validateForKind kind (ci_Policy i) (pv_policies s)))
with
| Err e => (Err e, s)
| Ok _ =>
  store_proposal (mkProposal id kind (ci_Policy i) StatusProposed (ci_Origin i)
    (ci_Author i) (ci_Rationale i) now now None "" "") s
end.

(** [cur.Status != StatusProposed] after the lookup. *)
Definition get_proposed (id : string) (s : PService) : result Proposal * PService :=
match db_get id (pv_store s) with
| (Err e, d) => (Err e, with_db d s)
| (Ok cur, d) =>
  if decide (p_Status cur = StatusProposed) then (Ok cur, with_db d s)
  else (Err (EWrap "status" PErrBadTransition), with_db d s)
end.

Definition with_edit (i : UpdateInput) (now : Z) (cur : Proposal) : Proposal :=
mkProposal (p_ID cur) (p_Kind cur) (default (p_Policy cur) (ui_Policy i)) (p_Status cur)
(p_Origin cur) (p_Author cur) (default (p_Rationale cur) (ui_Rationale i))
(p_CreatedAt cur) now (p_DecidedAt cur) (p_DecidedBy cur) (p_RejectionReason cur).

Definition edit_ok (i : UpdateInput) (cur : Proposal) (s : PService) : result unit :=
match ui_Policy i with
| Some p => p_invalid (validateForKind (Kind_Resolve (p_Kind cur)) p (pv_policies s))
| None => Ok tt
end.

Definition PUpdate (id : string) (i : UpdateInput) (now : Z) (s : PService)
: result Proposal * PService :=
match get_proposed id s with
| (Err e, s) => (Err e, s)
| (Ok cur, s) =>
  match edit_ok i cur s with
  | Err e => (Err e, s)
  | Ok _ => store_proposal (with_edit i now cur) s
  end
end.

(** The switch of [Approve]: what reaches the policy service. *)
Definition apply_decision (cur : Proposal) (overwrite : bool) (v : Service R St)
: option goerr * Service R St :=
let pol := p_Policy cur in
if decide (Kind_Resolve (p_Kind cur) = KindDelete) then
match Delete (pol_API pol) (pol_Name pol) v with
| (Some e, v) =>
    if errors_is e "ErrNotFound" then (None, v)
    else (Some (EWrap "apply policy delete" e), v)
| (None, v) => (None, v)
end
else
let conflict :=
  if overwrite then None
  else
    match Get (pol_API pol) (pol_Name pol) v with
    | Ok _ => Some (EWrap "conflict" PErrPolicyConflict)
    | Err e => if errors_is e "ErrNotFound" then None else Some (EWrap "conflict check" e)
    end in
match conflict with
| Some e => (Some e, v)
| None =>
    match Replace (pol_API pol) (pol_Name pol) pol v with
    | (Some e, v) => (Some (EWrap "apply policy" e), v)
    | (None, v) => (None, v)
    end
end.

Definition with_decision (status : string) (by_ reason : string) (now : Z) (cur : Proposal)
: Proposal :=
mkProposal (p_ID cur) (p_Kind cur) (p_Policy cur) status (p_Origin cur) (p_Author cur)
(p_Rationale cur) (p_CreatedAt cur) now (Some now) by_ reason.

Definition PApprove (id by_ : string) (overwrite : bool) (now : Z) (s : PService)
: result Proposal * PService :=
match get_proposed id s with
| (Err e, s) => (Err e, s)
| (Ok cur, s) =>
  match apply_decision cur overwrite (pv_policies s) with
  | (Some e, v) => (Err e, mkPService (pv_store s) v)
  | (None, v) =>
      store_proposal (with_decision StatusApproved by_ (p_RejectionReason cur) now cur)
        (mkPService (pv_store s) v)
  end
end.

Definition PReject (id by_ reason : string) (now : Z) (s : PService)
: result Proposal * PService :=
match get_proposed id s with
| (Err e, s) => (Err e, s)
| (Ok cur, s) => store_proposal (with_decision StatusRejected by_ reason now cur) s
end.

Definition PDelete (id : string) (s : PService) : option goerr * PService :=
let '(e, d) := db_delete id (pv_store s) in (e, with_db d s).

Definition PGet (id : string) (s : PService) : result Proposal * PService :=
let '(r, d) := db_get id (pv_store s) in (r, with_db d s).

Definition PList (o : ListOpts) (s : PService) : result (list Proposal) * PService :=
let '(r, d) := db_list o (pv_store s) in (r, with_db d s).

(** ** Steps *)

Inductive p_op : Type :=
| PoCreate (i : CreateInput) (id : string) (now : Z)
| PoUpdate (id : string) (i : UpdateInput) (now : Z)
| PoApprove (id by_ : string) (overwrite : bool) (now : Z)
| PoReject (id by_ reason : string) (now : Z)
| PoDelete (id : string).

(** The proposals service runs [o]; [true] when it reported success. *)
Definition p_step (o : p_op) (s : PService) : bool * PService :=
match o with
| PoCreate i id now => let '(r, s) := PCreate i id now s in (is_ok r, s)
| PoUpdate id i now => let '(r, s) := PUpdate id i now s in (is_ok r, s)
| PoApprove id b ow now => let '(r, s) := PApprove id b ow now s in (is_ok r, s)
| PoReject id b why now => let '(r, s) := PReject id b why now s in (is_ok r, s)
| PoDelete id => let '(e, s) := PDelete id s in (bool_decide (e = None), s)
end.

(** [NewProposalID] draws an identifier no row has. *)
Definition fresh_op (o : p_op) (s : PService) : Prop :=
match o with PoCreate _ id _ => db_rows (pv_store s) !! id = None | _ => True end.

Inductive p_steps : PService -> PService -> Prop :=
| ps_refl s : p_steps s s
| ps_step s o s' : fresh_op o s -> p_steps (p_step o s).2 s' -> p_steps s s'.
End proposals.
Arguments PService : clear implicits.

(** ** The state machine *)

(** Rows are filed under their identifier. *)
Definition db_wf (d : proposalDB) : Prop := map_Forall (fun id p => p_ID p = id) (db_rows d).

(** What no operation may change. *)
Definition same_provenance (p p' : Proposal) : Prop :=
  p_ID p' = p_ID p /\ p_Kind p' = p_Kind p /\ p_Origin p' = p_Origin p /\
  p_Author p' = p_Author p /\ p_CreatedAt p' = p_CreatedAt p.

Inductive edge : Proposal -> Proposal -> Prop :=
  | edge_edit i now p : p_Status p = StatusProposed -> edge p (with_edit i now p)
  | edge_approve b why now p : p_Status p = StatusProposed ->
      edge p (with_decision StatusApproved b why now p)
  | edge_reject b why now p : p_Status p = StatusProposed ->
      edge p (with_decision StatusRejected b why now p).

(** Where one operation may take a row; [purged] says it is its deletion. *)
Inductive row_step (purged : Prop) : option Proposal -> option Proposal -> Prop :=
  | row_same o : row_step purged o o
  | row_new p : p_Status p = StatusProposed -> p_DecidedAt p = None -> row_step purged None (Some p)
  | row_edge p p' : edge p p' -> row_step purged (Some p) (Some p')
  | row_gone p : purged -> row_step purged (Some p) None.

Section lifecycle.
Context `{PolicyRuntime R} `{Store St}.
Implicit Type s : PService R St.

Definition row s (id : string) : option Proposal := db_rows (pv_store s) !! id.

Lemma get_proposed_inv id s r s' :
get_proposed id s = (r, s') ->
db_rows (pv_store s') = db_rows (pv_store s) /\ pv_policies s' = pv_policies s /\
forall cur, r = Ok cur -> row s id = Some cur /\ p_Status cur = StatusProposed.
Proof.
unfold get_proposed, db_get, row. destruct (pop (db_faults (pv_store s))) as [[] fs]; simpl.
{ intros Heq. by injection Heq as <- <-. }
destruct (db_rows (pv_store s) !! id) as [p|] eqn:E; simpl.
2: { intros Heq. by injection Heq as <- <-. }
destruct (decide (p_Status p = StatusProposed)) as [Hst|Hst]; intros Heq; injection Heq as <- <-;
(split; [done|]); (split; [done|]); [by intros cur [= <-]|done].
Qed.

Lemma store_proposal_inv p s r s' :
store_proposal p s = (r, s') ->
pv_policies s' = pv_policies s /\
db_rows (pv_store s') = (if is_ok r then <[p_ID p := p]> (db_rows (pv_store s)) else db_rows (pv_store s)).
Proof.
unfold store_proposal, db_put. destruct (pop _) as [[] fs]; by intros [= <- <-].
Qed.

(** Writing back an edge of the row that was read. *)
Lemma store_edge P id cur p' s s1 r s' :
db_wf (pv_store s) -> db_rows (pv_store s1) = db_rows (pv_store s) -> row s id = Some cur ->
edge cur p' -> store_proposal p' s1 = (r, s') ->
db_wf (pv_store s') /\ forall j, row_step (P j) (row s j) (row s' j).
Proof.
intros Hwf Es Hrow He Hp. destruct (store_proposal_inv _ _ _ _ Hp) as [_ Hrows].
rewrite Es in Hrows. unfold row, db_wf in *.
assert (p_ID p' = id) as Hid.
{ rewrite <- (Hwf _ _ Hrow). by destruct He. }
rewrite Hrows. destruct (is_ok r); [|split; [done|constructor]]. split.
- by apply map_Forall_insert_2.
- intros j. rewrite lookup_insert. case_decide as Ej; [|constructor].
rewrite <- Ej, Hid, Hrow. by constructor.
Qed.

Lemma same_rows (P : string -> Prop) s s' :
db_wf (pv_store s) -> db_rows (pv_store s') = db_rows (pv_store s) ->
db_wf (pv_store s') /\ forall j, row_step (P j) (row s j) (row s' j).
Proof. intros Hwf E. unfold db_wf, row. rewrite E. split; [done|constructor]. Qed.

Lemma p_step_rows o s :
db_wf (pv_store s) -> fresh_op o s ->
db_wf (pv_store (p_step o s).2) /\
forall j, row_step (o = PoDelete j) (row s j) (row (p_step o s).2 j).
Proof.
intros Hwf Hf. pose proof (same_rows (fun j => o = PoDelete j)) as Hsame.
pose proof (store_edge (fun j => o = PoDelete j)) as Hedge. destruct o as [i id now|id i now|id b ow now|id b why now|id]; simpl.
- unfold PCreate. destruct (mbind _ _); [|by apply Hsame].
destruct (store_proposal _ s) as [r s'] eqn:Hp. simpl.
destruct (store_proposal_inv _ _ _ _ Hp) as [_ Hrows]. unfold row, db_wf in *. rewrite Hrows.
destruct (is_ok r); [|split; [done|constructor]]. simpl in *. split.
+ by apply map_Forall_insert_2.
+ intros j. rewrite lookup_insert. case_decide as Ej; [|constructor].
  subst j. rewrite Hf. by constructor.
- unfold PUpdate. destruct (get_proposed id s) as [[cur|e] s1] eqn:Hg;
  destruct (get_proposed_inv _ _ _ _ Hg) as (Es & _ & Hc); [|by apply Hsame].
destruct (Hc _ eq_refl) as [Hrow Hst]. destruct (edit_ok i cur s1); [|by apply Hsame].
destruct (store_proposal _ s1) as [r s'] eqn:Hp. simpl.
eapply Hedge; [done|exact Es|exact Hrow|by constructor|exact Hp].
- unfold PApprove. destruct (get_proposed id s) as [[cur|e] s1] eqn:Hg;
  destruct (get_proposed_inv _ _ _ _ Hg) as (Es & _ & Hc); [|by apply Hsame].
destruct (Hc _ eq_refl) as [Hrow Hst].
destruct (apply_decision cur ow (pv_policies s1)) as [[e|] v]; [by apply Hsame|].
destruct (store_proposal _ _) as [r s'] eqn:Hp. simpl.
eapply (Hedge id cur); [done| |exact Hrow|by constructor|exact Hp]. exact Es.
- unfold PReject. destruct (get_proposed id s) as [[cur|e] s1] eqn:Hg;
  destruct (get_proposed_inv _ _ _ _ Hg) as (Es & _ & Hc); [|by apply Hsame].
destruct (Hc _ eq_refl) as [Hrow Hst]. destruct (store_proposal _ s1) as [r s'] eqn:Hp. simpl.
eapply Hedge; [done|exact Es|exact Hrow|by constructor|exact Hp].
- unfold PDelete, db_delete. destruct (pop _) as [[] fs]; [by apply Hsame|].
destruct (db_rows (pv_store s) !! id) as [p|] eqn:Hid; [|by apply Hsame]. simpl. split.
+ by apply map_Forall_delete.
+ intros j. unfold row. simpl. rewrite lookup_delete. case_decide as Ej; [|constructor].
  subst j. rewrite Hid. by constructor.
Qed.

(** Runs in which nobody purges proposal [id]. *)
Inductive runs_keeping (id : string) : PService R St -> PService R St -> Prop :=
| rk_refl s : runs_keeping id s s
| rk_step s o s' : fresh_op o s -> o <> PoDelete id ->
  runs_keeping id (p_step o s).2 s' -> runs_keeping id s s'.

End lifecycle.

Definition decided_ok (p : Proposal) : Prop :=
  (p_Status p = StatusProposed /\ p_DecidedAt p = None) \/
  (p_Status p ∈ [StatusApproved; StatusRejected] /\ is_Some (p_DecidedAt p)).

(** What every chain of edges keeps. *)
Record follows (p p' : Proposal) : Prop := {
  fo_provenance : same_provenance p p';
  fo_terminal : p_Status p <> StatusProposed -> p' = p;
  fo_decided : decided_ok p -> decided_ok p'
}.

#[export] Instance follows_preorder : PreOrder follows.
Proof.
  split.
  - intros p. by split.
  - intros p q r [(A1 & A2 & A3 & A4 & A5) A6 A7] [(B1 & B2 & B3 & B4 & B5) B6 B7].
    split; [unfold same_provenance; repeat split; congruence| |tauto].
    intros Hp. rewrite (A6 Hp) in *. by apply B6.
Qed.

Lemma edge_follows p p' : edge p p' -> follows p p'.
Proof.
  destruct 1 as [i now p Hp|b why now p Hp|b why now p Hp]; split; try done; intros _;
    right; (split; [set_solver|done]).
Qed.

Section approval.
Context `{PR : PolicyRuntime R} `{!PolicyRuntimeLaws R} `{SS : Store St} `{!StoreLaws St}
`{!StoreNotFound St}.

Definition deletes (p : Proposal) : Prop := Kind_Resolve (p_Kind p) = KindDelete.

(** What approving a proposal means for the policy set. *)
Definition decision_effect (p : Proposal) (m : string * string -> option Policy)
: string * string -> option Policy :=
if decide (Kind_Resolve (p_Kind p) = KindDelete)
then fun k => if decide (k = pol_key (p_Policy p)) then None else m k
else put_key (p_Policy p) m.

(** Without [overwrite], nothing that was live is displaced. *)
Definition no_displacement (p : Proposal) (overwrite : bool) (m : string * string -> option Policy)
: Prop := ~ deletes p -> overwrite = false -> m (pol_key (p_Policy p)) = None.

Lemma Delete_missing api name (v v' : Service R St) e :
in_sync v -> Delete api name v = (Some e, v') -> errors_is e "ErrNotFound" = true ->
policy_at v (api, name) = None.
Proof.
intros [Hrt Hst Hsame]. unfold Delete. destruct (sv_readOnly v); [by intros [= <- <-]|].
destruct (find api name v) as [p|] eqn:Hf; [|done].
destruct (st_delete api name (sv_store v)) as [[e1|] st'] eqn:Hd.
- intros [= <- <-] He. rewrite <- Hsame. by eapply st_delete_missing.
- destruct (pr_remove_ok api name (sv_rt v) Hrt) as (rt' & -> & _); [by exists p|done].
Qed.

Lemma apply_decision_spec cur ow (v v' : Service R St) e :
in_sync v -> apply_decision cur ow v = (e, v') ->
in_sync v' /\
match e with
| None => (forall k, policy_at v' k = decision_effect cur (policy_at v) k) /\
        no_displacement cur ow (policy_at v)
| Some _ => forall k, policy_at v' k = policy_at v k
end.
Proof.
intros Hs. unfold apply_decision, decision_effect, no_displacement, deletes.
destruct (p_Policy cur) as [api name] eqn:Hpol. rewrite <- Hpol. case_decide as Hk.
- destruct (Delete _ _ v) as [e1 v1] eqn:Hd.
destruct (service_step_spec (OpDelete (pol_API (p_Policy cur)) (pol_Name (p_Policy cur)))
  _ _ _ Hs Hd) as (Hs1 & _ & Hok & Herr).
destruct e1 as [e1|]; [|intros [= <- <-]; split; [done|by split; [apply Hok|]]].
destruct (errors_is e1 "ErrNotFound") eqn:En; intros [= <- <-]; (split; [done|]); [|by apply Herr].
split; [|done]. intros k. rewrite Herr by done. case_decide as E; [|done]. rewrite E.
by eapply Delete_missing.
- match goal with |- context [match ?c with Some e => (Some e, v) | None => _ end] =>
  destruct c as [ec|] eqn:Hc end; [by intros [= <- <-]|].
destruct (Replace _ _ _ v) as [e1 v1] eqn:Hr.
destruct (service_step_spec (OpReplace (pol_API (p_Policy cur)) (pol_Name (p_Policy cur))
  (p_Policy cur)) _ _ _ Hs Hr) as (Hs1 & _ & Hok & Herr).
destruct e1 as [e1|]; intros [= <- <-]; (split; [done|]); [by apply Herr|].
split; [by apply Hok|]. intros _ ->. unfold Get in Hc.
destruct (find _ _ v) eqn:Hf; [done|]. exact Hf.
Qed.

(** An approval in detail. *)
Definition approved (id by_ : string) (ow : bool) (now : Z) (b : bool) (s s' : PService R St) : Prop :=
let applied p := p_Status p = StatusProposed /\
(forall k, policy_at (pv_policies s') k = decision_effect p (policy_at (pv_policies s)) k) /\
no_displacement p ow (policy_at (pv_policies s)) in
if b then exists p, row s id = Some p /\ applied p /\
row s' id = Some (with_decision StatusApproved by_ (p_RejectionReason p) now p)
else (forall j, row s' j = row s j) /\
((forall k, policy_at (pv_policies s') k = policy_at (pv_policies s) k) \/
 exists p, row s id = Some p /\ applied p).

Lemma approve_spec id by_ ow now (s s' : PService R St) b :
in_sync (pv_policies s) -> db_wf (pv_store s) ->
p_step (PoApprove id by_ ow now) s = (b, s') ->
in_sync (pv_policies s') /\ approved id by_ ow now b s s'.
Proof.
intros Hs Hwf. simpl. unfold PApprove, approved, row.
destruct (get_proposed id s) as [[cur|e] s1] eqn:Hg;
destruct (get_proposed_inv _ _ _ _ Hg) as (Es & Ep & Hc); rewrite <- Es, <- Ep in *.
2: { intros Heq. injection Heq as <- <-. split; [done|]. split; [done|by left]. }
destruct (Hc _ eq_refl) as [Hrow Hst]. unfold row in Hrow. rewrite <- Es in Hrow.
destruct (apply_decision cur ow (pv_policies s1)) as [e v] eqn:Ha.
destruct (apply_decision_spec _ _ _ _ _ Hs Ha) as [Hv Hspec]. destruct e as [e|].
{ intros Heq. injection Heq as <- <-. split; [done|]. split; [done|by left]. }
destruct Hspec as [He Hd]. destruct (store_proposal _ _) as [r s2] eqn:Hp.
apply store_proposal_inv in Hp as [Epol Erows]. intros Heq. injection Heq as <- <-.
rewrite Epol. split; [done|]. rewrite Erows. destruct (is_ok r); simpl.
- exists cur. split; [done|]. split; [done|].
assert (p_ID cur = id) as -> by (rewrite Es in Hrow; apply (Hwf _ _ Hrow)).
by rewrite lookup_insert_eq.
- split; [done|]. right. by exists cur.
Qed.
End approval.

(** ** Properties *)

Section facts.
Context `{PR : PolicyRuntime R} `{!PolicyRuntimeLaws R} `{SS : Store St} `{!StoreLaws St}.
Implicit Type s : PService R St.

Lemma runs_keeping_follows id s s' p :
db_wf (pv_store s) -> row s id = Some p -> runs_keeping id s s' ->
exists p', row s' id = Some p' /\ follows p p'.
Proof.
intros Hwf Hp Hr. revert p Hwf Hp. induction Hr as [s|s o s' Hf Ho _ IH]; intros p Hwf Hp.
{ by exists p. }
destruct (p_step_rows o s Hwf Hf) as [Hwf' Hj]. specialize (Hj id). rewrite Hp in Hj.
assert (exists q, row (p_step o s).2 id = Some q /\ follows p q) as (q & Hq & Hpq).
{ inversion Hj; subst; [by exists p| |done]. eexists. split; [done|]. by apply edge_follows. }
destruct (IH _ Hwf' Hq) as (p' & Hp' & Hqp'). exists p'. split; [done|]. by trans q.
Qed.
End facts.

(** C13. A proposal's audit trail holds.  Over any run of creates, edits,
    approvals, rejections and deletes of other proposals, each with the disk
    failures it meets, a proposal stays on file with its identifier, kind,
    origin, author and creation time; once decided its record never changes
    again; and a decision time is present exactly when it is decided. *)
Theorem proposal_lifecycle `{PR : PolicyRuntime R} `{SS : Store St} (id : string)
    (s s' : PService R St) (p : Proposal)
    (Hwf : db_wf (pv_store s)) (Hp : row s id = Some p) (Hrun : runs_keeping id s s') :
  exists p', row s' id = Some p' /\ same_provenance p p' /\
    (p_Status p <> StatusProposed -> p' = p) /\ (decided_ok p -> decided_ok p').
Proof.
  destruct (runs_keeping_follows _ _ _ _ Hwf Hp Hrun) as (p' & Hp' & []). by exists p'.
Qed.

Definition demo_proposals : PService Runtime sqliteStore :=
  mkPService (mkDB ∅ []) (mkService (sv_rt demo_service) (mkSqlite ∅ []) false).

Definition demo_input : CreateInput :=
  mkCreateInput "" (doc_policy "a" "v1" Permit) (mkOrigin OriginAgent "bot" "") "ann" "needed".

Definition demo_step := @p_step Runtime (@runtime_ops demo_cel) sqliteStore _.

Definition demo_created : PService Runtime sqliteStore :=
  (demo_step (PoCreate demo_input "p1" 10) demo_proposals).2.

Definition demo_proposal : Proposal :=
  mkProposal "p1" "apply" (doc_policy "a" "v1" Permit) "proposed" (mkOrigin OriginAgent "bot" "")
    "ann" "needed" 10 10 None "" "".

Lemma proposal_lifecycle_witness :
  let s' := (demo_step (PoReject "p1" "rev" "no" 20)
              (demo_step (PoApprove "p1" "rev" false 15) demo_created).2).2 in
  (exists p', row s' "p1" = Some p' /\ same_provenance demo_proposal p') /\
  p_Status <$> row s' "p1" = Some StatusApproved.
Proof.
  split; [|vm_compute; reflexivity].
  destruct (@proposal_lifecycle Runtime (@runtime_ops demo_cel) sqliteStore _ "p1" demo_created
    (demo_step (PoReject "p1" "rev" "no" 20)
      (demo_step (PoApprove "p1" "rev" false 15) demo_created).2).2 demo_proposal) as (p' & H1 & H2 & _).
  - apply map_Forall_singleton. reflexivity.
  - vm_compute. reflexivity.
  - apply (rk_step _ _ (PoApprove "p1" "rev" false 15)); [exact I|discriminate|].
    apply (rk_step _ _ (PoReject "p1" "rev" "no" 20)); [exact I|discriminate|]. apply rk_refl.
  - exists p'. split; [exact H1|exact H2].
Defined.

(** C12. Only an approval reaches enforcement, and it does what was approved.
    No other operation touches the policy service.  An approval that reports
    success found the proposal undecided, changed the policy set by exactly the
    proposed apply or delete, displaced a live policy only when told to, and
    recorded the decision; one that fails leaves every record as it was, and
    the policies too unless it was the recording that failed.  Store and runtime
    stay in step throughout. *)
Theorem only_approval_applies `{PR : PolicyRuntime R} `{!PolicyRuntimeLaws R} `{SS : Store St}
    `{!StoreLaws St} `{!StoreNotFound St} (o : p_op) (s s' : PService R St) (b : bool)
    (Hs : in_sync (pv_policies s)) (Hwf : db_wf (pv_store s)) (Hstep : p_step o s = (b, s')) :
  in_sync (pv_policies s') /\
  match o with
  | PoApprove id by_ ow now =>
      approved id by_ ow now b s s'
  | _ => pv_policies s' = pv_policies s
  end.
Proof.
  destruct o as [i id now|id i now|id by_ ow now|id by_ why now|id]; simpl in Hstep.
  - unfold PCreate in Hstep. destruct (mbind _ _); [|by injection Hstep as <- <-].
    destruct (store_proposal _ s) as [r s1] eqn:Hp. injection Hstep as <- <-.
    apply store_proposal_inv in Hp as [-> _]. done.
  - unfold PUpdate in Hstep. destruct (get_proposed id s) as [[cur|e] s1] eqn:Hg;
      destruct (get_proposed_inv _ _ _ _ Hg) as (_ & Ep & _); rewrite <- Ep in *;
      [|by injection Hstep as <- <-].
    destruct (edit_ok i cur s1); [|by injection Hstep as <- <-].
    destruct (store_proposal _ s1) as [r s2] eqn:Hp. injection Hstep as <- <-.
    apply store_proposal_inv in Hp as [-> _]. done.
  - apply approve_spec; done.
  - unfold PReject in Hstep. destruct (get_proposed id s) as [[cur|e] s1] eqn:Hg;
      destruct (get_proposed_inv _ _ _ _ Hg) as (_ & Ep & _); rewrite <- Ep in *;
      [|by injection Hstep as <- <-].
    destruct (store_proposal _ s1) as [r s2] eqn:Hp. injection Hstep as <- <-.
    apply store_proposal_inv in Hp as [-> _]. done.
  - unfold PDelete in Hstep. destruct (db_delete _ _). injection Hstep as <- <-. done.
Qed.

Lemma only_approval_applies_witness :
  let o := PoApprove "p1" "rev" false 15 in
  let s' := (demo_step o demo_created).2 in
  (demo_step o demo_created).1 = true /\
  exists p, row demo_created "p1" = Some p /\ p_Status p = StatusProposed /\
    forall k, @policy_at Runtime (@runtime_ops demo_cel) _ (pv_policies s') k =
      decision_effect p (@policy_at Runtime (@runtime_ops demo_cel) _ (pv_policies demo_created)) k.
Proof.
  split; [vm_compute; reflexivity|].
  destruct (@only_approval_applies Runtime (@runtime_ops demo_cel) (@runtime_laws demo_cel)
    sqliteStore _ _ _ (PoApprove "p1" "rev" false 15) demo_created
    (demo_step (PoApprove "p1" "rev" false 15) demo_created).2 true) as [_ (p & Hp & (Hst & He & _) & _)].
  - split; apply demo_in_sync.
  - apply map_Forall_singleton. reflexivity.
  - vm_compute. reflexivity.
  - exists p. split; [exact Hp|]. split; [exact Hst|exact He].
Defined.
