(* ===== verification/Traffic.v ===== *)
(** * Traffic events: [internal/control/traffic] traffic.go, sanitize.go

    The data of the traffic log and the redaction every event goes through
    before a store sees it.  A [[]byte] is the string of its bytes, nil and
    empty identified; a [time.Time] is its instant in nanoseconds since the
    Unix epoch.  [Sanitize] threads the [Truncated] flag the way the code
    threads the pointer to it; the theorems say what can reach a store, that
    the flag is exact, and that sanitising twice is sanitising once. *)

From S2P Require Import Prelude GoStd.

(** ** Data *)

Record KV := mkKV { kv_Key : string; kv_Value : string }.

Record ResolvedBind := mkResolvedBind { rb_Name : string; rb_Value : string }.

Record MetaFetch := mkMetaFetch {
  mf_Meta : string;
  mf_API : string;
  mf_Method : string;
  mf_Path : string;
  mf_RequestBody : string;
  mf_Status : Z;
  mf_ResponseBody : string;
  mf_LatencyMS : Z;
  mf_Error : string
}.

Record PolicyEvaluation := mkPolicyEvaluation {
  pe_Policy : string;
  pe_Action : string;
  pe_Result : string;
  pe_Fired : bool;
  pe_Error : string
}.

Definition DecisionPermit : string := "permit".
Definition DecisionDeny : string := "deny".
Definition DecisionNoMatch : string := "no_match".
Definition DecisionError : string := "error".

Record Event := mkEvent {
  ev_ID : string;
  ev_Timestamp : Z;
  ev_Subject : string;
  ev_Method : string;
  ev_URL : string;
  ev_RequestHeaders : list KV;
  ev_RequestBody : string;
  ev_API : string;
  ev_Action : string;
  ev_Binds : list ResolvedBind;
  ev_MetaFetches : list MetaFetch;
  ev_Decision : string;
  ev_Policy : string;
  ev_PolicyEvaluations : list PolicyEvaluation;
  ev_UpstreamStatus : Z;
  ev_UpstreamHeaders : list KV;
  ev_UpstreamBody : string;
  ev_LatencyMS : Z;
  ev_Error : string;
  ev_Truncated : bool
}.

#[export] Instance KV_eq_dec : EqDecision KV.
Proof. solve_decision. Defined.
#[export] Instance MetaFetch_eq_dec : EqDecision MetaFetch.
Proof. solve_decision. Defined.

(** ** [Sanitize] *)

Record SanitizeOptions := mkSanitizeOptions {
  so_MaxBodyBytes : Z;
  so_NoBodyAPIs : gmap string bool;
  so_SensitiveHeaders : list string
}.

Definition DefaultMaxBodyBytes : Z := 8 * 1024.

Definition DefaultSensitiveHeaders : list string :=
  ["Authorization"; "Cookie"; "Set-Cookie"; "Proxy-Authorization"].

Definition DefaultNoBodyAPIs : gmap string bool :=
  {[ "google.gmail" := true; "google.drive" := true ]}.

Definition blen (b : string) : Z := Z.of_nat (String.length b).

Definition truncateBody (maxBytes : Z) (body : string) (truncated : bool) : string * bool :=
  if bool_decide (blen body <= maxBytes)%Z then (body, truncated)
  else (String.substring 0 (Z.to_nat maxBytes) body, true).

(** The returned slice is fresh only when something is dropped; the values are
    the same.  [to_lower] folds ASCII, which is what header names are made of;
    [strings.ToLower] would fold the other letters of an operator's name too. *)
Definition stripHeaders (l : list KV) (names : list string) : list KV :=
  let deny := to_lower <$> names in
  List.filter (fun kv => negb (bool_decide (to_lower (kv_Key kv) ∈ deny))) l.

Definition with_bodies (f : MetaFetch) (q r : string) : MetaFetch :=
  mkMetaFetch (mf_Meta f) (mf_API f) (mf_Method f) (mf_Path f) q (mf_Status f) r
    (mf_LatencyMS f) (mf_Error f).

(** The bodies go, and the flag is raised if there were any. *)
Definition drop_bodies (f : MetaFetch) (truncated : bool) : MetaFetch * bool :=
  (with_bodies f "" "",
   if bool_decide (0 < blen (mf_RequestBody f))%Z || bool_decide (0 < blen (mf_ResponseBody f))%Z
   then true else truncated).

Definition noBody_api (noBody : gmap string bool) (api : string) : bool :=
  default false (noBody !! api).

Definition sanitize_fetch (maxBytes : Z) (noBody : gmap string bool) (f : MetaFetch)
    (truncated : bool) : MetaFetch * bool :=
  if noBody_api noBody (mf_API f) then drop_bodies f truncated
  else
    let '(q, truncated) := truncateBody maxBytes (mf_RequestBody f) truncated in
    let '(r, truncated) := truncateBody maxBytes (mf_ResponseBody f) truncated in
    (with_bodies f q r, truncated).

(** The loops over the fetches. *)
Fixpoint each_fetch (step : MetaFetch -> bool -> MetaFetch * bool) (l : list MetaFetch)
    (truncated : bool) : list MetaFetch * bool :=
  match l with
  | [] => ([], truncated)
  | f :: l =>
      let '(f, truncated) := step f truncated in
      let '(l, truncated) := each_fetch step l truncated in
      (f :: l, truncated)
  end.

Definition sanitizeFetches (l : list MetaFetch) (maxBytes : Z) (noBody : gmap string bool)
    (truncated : bool) : list MetaFetch * bool :=
  each_fetch (sanitize_fetch maxBytes noBody) l truncated.

Definition redactAllFetchBodies (l : list MetaFetch) (truncated : bool) : list MetaFetch * bool :=
  each_fetch drop_bodies l truncated.

Definition max_body (o : SanitizeOptions) : Z :=
  if bool_decide (so_MaxBodyBytes o <= 0)%Z then DefaultMaxBodyBytes else so_MaxBodyBytes o.

Definition sensitive_names (o : SanitizeOptions) : list string :=
  DefaultSensitiveHeaders ++ so_SensitiveHeaders o.

(** The defaults are copied first, then the operator's entries over them. *)
Definition no_body (o : SanitizeOptions) : gmap string bool := so_NoBodyAPIs o ∪ DefaultNoBodyAPIs.

(** What [Sanitize] rewrites of an event. *)
Definition with_content (ev : Event) (rh uh : list KV) (q u : string) (fs : list MetaFetch)
    (truncated : bool) : Event :=
  mkEvent (ev_ID ev) (ev_Timestamp ev) (ev_Subject ev) (ev_Method ev) (ev_URL ev) rh q (ev_API ev)
    (ev_Action ev) (ev_Binds ev) fs (ev_Decision ev) (ev_Policy ev) (ev_PolicyEvaluations ev)
    (ev_UpstreamStatus ev) uh u (ev_LatencyMS ev) (ev_Error ev) truncated.

Definition Sanitize (ev : Event) (o : SanitizeOptions) : Event :=
  let maxBytes := max_body o in
  let noBody := no_body o in
  let rh := stripHeaders (ev_RequestHeaders ev) (sensitive_names o) in
  let uh := stripHeaders (ev_UpstreamHeaders ev) (sensitive_names o) in
  if noBody_api noBody (ev_API ev) then
    let truncated :=
      if bool_decide (0 < blen (ev_RequestBody ev))%Z || bool_decide (0 < blen (ev_UpstreamBody ev))%Z
      then true else ev_Truncated ev in
    let '(fs, truncated) := redactAllFetchBodies (ev_MetaFetches ev) truncated in
    with_content ev rh uh "" "" fs truncated
  else
    let '(q, truncated) := truncateBody maxBytes (ev_RequestBody ev) (ev_Truncated ev) in
    let '(u, truncated) := truncateBody maxBytes (ev_UpstreamBody ev) truncated in
    let '(fs, truncated) := sanitizeFetches (ev_MetaFetches ev) maxBytes noBody truncated in
    with_content ev rh uh q u fs truncated.

(** ** Lemmas *)

Ltac apply_dec_stable :=
  repeat match goal with H : ~ (_ <> _) |- _ => apply dec_stable in H end.

Lemma blen_nonneg b : (0 <= blen b)%Z.
Proof. unfold blen. lia. Qed.

Lemma blen_pos b : (0 < blen b)%Z <-> b <> "".
Proof. unfold blen. destruct b; simpl; split; try done; lia. Qed.

Lemma max_body_pos o : (0 < max_body o)%Z.
Proof. unfold max_body, DefaultMaxBodyBytes. case_bool_decide; lia. Qed.

Lemma blen_substring n b :
  (0 <= n)%Z -> (blen (String.substring 0 (Z.to_nat n) b) = Z.min n (blen b))%Z.
Proof.
  intros Hn. unfold blen. rewrite <- (Z2Nat.id n) at 2 by done. generalize (Z.to_nat n) as k.
  induction b as [|a b IH]; intros [|k]; simpl; try lia. specialize (IH k). lia.
Qed.

Lemma substring_long k b : (String.length b <= k)%nat -> String.substring 0 k b = b.
Proof.
  revert k. induction b as [|a b IH]; intros [|k]; simpl; try done; try lia.
  intros Hk. by rewrite IH by lia.
Qed.

(** The body [truncateBody] leaves. *)
Definition clip (maxBytes : Z) (b : string) : string := String.substring 0 (Z.to_nat maxBytes) b.

Lemma truncateBody_clip m b t :
  (0 <= m)%Z -> truncateBody m b t = (clip m b, t || bool_decide (clip m b <> b)).
Proof.
  intros Hm. unfold truncateBody, clip. case_bool_decide as Hb.
  - rewrite substring_long by (unfold blen in Hb; lia).
    rewrite bool_decide_eq_false_2 by tauto. by rewrite orb_false_r.
  - rewrite (bool_decide_eq_true_2 (_ <> _)); [by rewrite orb_true_r|].
    intros E. apply Hb. rewrite <- E, blen_substring; lia.
Qed.

Lemma clip_idem m b : (0 <= m)%Z -> clip m (clip m b) = clip m b.
Proof.
  intros Hm. apply substring_long. pose proof (blen_substring m b Hm). unfold clip, blen in *. lia.
Qed.

Lemma clip_le m b : (0 <= m)%Z -> (blen (clip m b) <= m)%Z.
Proof. intros Hm. unfold clip. rewrite blen_substring; lia. Qed.

(** What becomes of one fetch. *)
Definition fetch_of (m : Z) (nb : gmap string bool) (f : MetaFetch) : MetaFetch :=
  if noBody_api nb (mf_API f) then with_bodies f "" ""
  else with_bodies f (clip m (mf_RequestBody f)) (clip m (mf_ResponseBody f)).

Lemma with_bodies_eq f q r :
  with_bodies f q r = f <-> q = mf_RequestBody f /\ r = mf_ResponseBody f.
Proof. destruct f. unfold with_bodies. simpl. split; [by intros [= -> ->]|by intros [-> ->]]. Qed.

(** A step of a fetch loop: what it makes of a fetch, and the flag raised exactly
    when it changed something. *)
Definition flags_change (step : MetaFetch -> bool -> MetaFetch * bool) (g : MetaFetch -> MetaFetch) : Prop :=
  forall f t, step f t = (g f, t || bool_decide (g f <> f)).

Lemma drop_bodies_flags : flags_change drop_bodies (fun f => with_bodies f "" "").
Proof.
  intros f t. unfold drop_bodies. f_equal.
  destruct (decide (with_bodies f "" "" = f)) as [E|E].
  - rewrite (bool_decide_eq_false_2 (_ <> _)) by tauto. apply with_bodies_eq in E as [<- <-].
    rewrite !bool_decide_eq_false_2 by (unfold blen; simpl; lia). simpl. by rewrite orb_false_r.
  - rewrite (bool_decide_eq_true_2 (_ <> _)), orb_true_r by done.
    rewrite with_bodies_eq in E. destruct (_ || _) eqn:Eb; [done|].
    apply orb_false_iff in Eb as [Eq Er]. apply bool_decide_eq_false in Eq, Er.
    rewrite blen_pos in Eq, Er. apply dec_stable in Eq, Er. destruct E. by rewrite Eq, Er.
Qed.

Lemma sanitize_fetch_flags m nb : (0 <= m)%Z -> flags_change (sanitize_fetch m nb) (fetch_of m nb).
Proof.
  intros Hm f t. unfold sanitize_fetch, fetch_of. destruct (noBody_api nb (mf_API f)).
  - apply drop_bodies_flags.
  - rewrite !truncateBody_clip by done. f_equal. rewrite <- orb_assoc. f_equal.
    pose proof (with_bodies_eq f (clip m (mf_RequestBody f)) (clip m (mf_ResponseBody f))) as Heq.
    repeat case_bool_decide; try done; exfalso; apply_dec_stable; tauto.
Qed.

Lemma each_fetch_flags step g l t :
  flags_change step g -> each_fetch step l t = (map g l, t || bool_decide (map g l <> l)).
Proof.
  intros Hs. revert t. induction l as [|f l IH]; intros t; simpl.
  - by rewrite orb_false_r.
  - rewrite Hs, IH. f_equal. rewrite <- orb_assoc. f_equal.
    repeat case_bool_decide; try done; exfalso; apply_dec_stable; naive_solver congruence.
Qed.

(** *** [Sanitize] in closed form *)

Definition clean_body (o : SanitizeOptions) (api b : string) : string :=
  if noBody_api (no_body o) api then "" else clip (max_body o) b.

Definition clean_fetch (o : SanitizeOptions) (api : string) (f : MetaFetch) : MetaFetch :=
  if noBody_api (no_body o) api then with_bodies f "" "" else fetch_of (max_body o) (no_body o) f.

(** Every body an event carries. *)
Definition bodies (ev : Event) : list string :=
  ev_RequestBody ev :: ev_UpstreamBody ev ::
  concat (map (fun f => [mf_RequestBody f; mf_ResponseBody f]) (ev_MetaFetches ev)).

Definition clean_headers (o : SanitizeOptions) (l : list KV) : list KV :=
  stripHeaders l (sensitive_names o).

Definition content (ev : Event) : string * string * list MetaFetch :=
  (ev_RequestBody ev, ev_UpstreamBody ev, ev_MetaFetches ev).

Lemma triple_changed (a b a' b' : string) (c c' : list MetaFetch) :
  bool_decide ((a, b, c) <> (a', b', c')) =
  bool_decide (a <> a') || bool_decide (b <> b') || bool_decide (c <> c').
Proof.
  destruct (decide (a = a')) as [->|], (decide (b = b')) as [->|], (decide (c = c')) as [->|];
    repeat case_bool_decide; simpl; try done; exfalso; apply_dec_stable; congruence.
Qed.

Lemma blen_changed b : bool_decide (0 < blen b)%Z = bool_decide ("" <> b).
Proof. apply bool_decide_ext. rewrite blen_pos. naive_solver. Qed.

Lemma Sanitize_eq ev o :
  let q := clean_body o (ev_API ev) (ev_RequestBody ev) in
  let u := clean_body o (ev_API ev) (ev_UpstreamBody ev) in
  let fs := map (clean_fetch o (ev_API ev)) (ev_MetaFetches ev) in
  Sanitize ev o =
    with_content ev (clean_headers o (ev_RequestHeaders ev)) (clean_headers o (ev_UpstreamHeaders ev))
      q u fs (ev_Truncated ev || bool_decide ((q, u, fs) <> content ev)).
Proof.
  pose proof (max_body_pos o) as Hm. unfold Sanitize, clean_body, clean_fetch, content. cbn zeta.
  rewrite triple_changed. destruct (noBody_api (no_body o) (ev_API ev)); simpl.
  - unfold redactAllFetchBodies. rewrite (each_fetch_flags _ _ _ _ drop_bodies_flags), !blen_changed.
    f_equal. by destruct (bool_decide ("" <> _)), (bool_decide ("" <> _)), (ev_Truncated ev).
  - rewrite !truncateBody_clip by lia. unfold sanitizeFetches.
    rewrite (each_fetch_flags _ _ _ _ (sanitize_fetch_flags _ _ (Z.lt_le_incl _ _ Hm))).
    f_equal. by rewrite !orb_assoc.
Qed.

Lemma clean_headers_idem o l : clean_headers o (clean_headers o l) = clean_headers o l.
Proof.
  unfold clean_headers, stripHeaders. induction l as [|kv l IH]; simpl; [done|].
  destruct (negb _) eqn:E; simpl; [rewrite E; by f_equal|done].
Qed.

Lemma clean_body_idem o api b : clean_body o api (clean_body o api b) = clean_body o api b.
Proof.
  unfold clean_body. destruct (noBody_api _ _); [done|]. pose proof (max_body_pos o). apply clip_idem. lia.
Qed.

Lemma clean_fetch_idem o api f : clean_fetch o api (clean_fetch o api f) = clean_fetch o api f.
Proof.
  pose proof (max_body_pos o). unfold clean_fetch, fetch_of. destruct (noBody_api _ api); [done|].
  destruct (noBody_api _ (mf_API f)) eqn:E; simpl; rewrite E; [done|].
  by rewrite !clip_idem by lia.
Qed.

Lemma clean_body_le o api b : (blen (clean_body o api b) <= max_body o)%Z.
Proof.
  pose proof (max_body_pos o). unfold clean_body. destruct (noBody_api _ _); [unfold blen; simpl; lia|].
  apply clip_le. lia.
Qed.

Lemma clean_fetch_bodies o api f b :
  b ∈ [mf_RequestBody (clean_fetch o api f); mf_ResponseBody (clean_fetch o api f)] ->
  (blen b <= max_body o)%Z /\ (noBody_api (no_body o) api || noBody_api (no_body o) (mf_API f) = true -> b = "").
Proof.
  pose proof (max_body_pos o) as Hm. unfold clean_fetch, fetch_of.
  destruct (noBody_api _ api), (noBody_api _ (mf_API f)); simpl;
    rewrite !elem_of_cons, elem_of_nil; intros [->|[->|[]]]; (split; [|done]);
    try (unfold blen; simpl; lia); apply clip_le; lia.
Qed.

(** ** Properties *)

(** C36. What reaches a traffic store is redacted.  No header of a sanitised
    event bears a sensitive name (the built-in ones and the operator's, in any
    case), while every other header is kept in place; no body, of the request,
    the answer or a side fetch, is longer than the cap; an event of a no-body
    API carries no body at all, and neither does a side fetch to one; and
    [Truncated] is raised exactly when a body was cut. *)
Theorem Sanitize_safe (ev : Event) (o : SanitizeOptions) :
  let out := Sanitize ev o in
  let sensitive kv := to_lower (kv_Key kv) ∈ to_lower <$> sensitive_names o in
  (forall kv, kv ∈ ev_RequestHeaders out <-> kv ∈ ev_RequestHeaders ev /\ ~ sensitive kv) /\
  (forall kv, kv ∈ ev_UpstreamHeaders out <-> kv ∈ ev_UpstreamHeaders ev /\ ~ sensitive kv) /\
  (forall b, b ∈ bodies out -> (blen b <= max_body o)%Z) /\
  (noBody_api (no_body o) (ev_API ev) = true -> forall b, b ∈ bodies out -> b = "") /\
  (forall f, f ∈ ev_MetaFetches out -> noBody_api (no_body o) (mf_API f) = true ->
     mf_RequestBody f = "" /\ mf_ResponseBody f = "") /\
  (ev_Truncated out = true <-> ev_Truncated ev = true \/ content out <> content ev).
Proof.
  assert (forall l kv, kv ∈ clean_headers o l <->
    kv ∈ l /\ ~ (to_lower (kv_Key kv) ∈ to_lower <$> sensitive_names o)) as Hh.
  { intros l kv. unfold clean_headers, stripHeaders. rewrite !list_elem_of_In, filter_In.
    rewrite negb_true_iff, bool_decide_eq_false, list_elem_of_In. done. }
  cbn zeta. rewrite Sanitize_eq. cbn -[bodies content]. split; [apply Hh|]. split; [apply Hh|].
  assert (forall b, b ∈ bodies (Sanitize ev o) -> (blen b <= max_body o)%Z /\
    (noBody_api (no_body o) (ev_API ev) = true -> b = "")) as Hb.
  { intros b. rewrite Sanitize_eq. unfold bodies. cbn -[clean_body clean_fetch]. rewrite !elem_of_cons.
    intros [->|[->|Hb]];
      [split; [apply clean_body_le|unfold clean_body; intros E; by rewrite E]..|].
    apply list_elem_of_In, in_concat in Hb as (x & Hx & Hb). rewrite map_map in Hx.
    apply in_map_iff in Hx as (f & <- & Hf). apply list_elem_of_In in Hb.
    apply clean_fetch_bodies in Hb as [H1 H2]. split; [done|]. intros E. apply H2. by rewrite E. }
  rewrite Sanitize_eq in Hb. cbn zeta in Hb. split; [apply Hb|]. split; [intros E b ?; by apply Hb|].
  split.
  - intros f Hf Hn. apply list_elem_of_fmap in Hf as (g & -> & Hg).
    assert (mf_API (clean_fetch o (ev_API ev) g) = mf_API g) as Ea
      by (unfold clean_fetch, fetch_of; by repeat destruct (noBody_api _ _)).
    rewrite Ea in Hn. split; apply (clean_fetch_bodies o (ev_API ev) g); rewrite ?Hn, ?orb_true_r;
      set_solver.
  - rewrite orb_true_iff, bool_decide_eq_true. done.
Qed.

(** Sanitising is idempotent: a stored event is a fixed point, so an event
    that passes through twice is stored as it was the first time. *)
Theorem Sanitize_idempotent (ev : Event) (o : SanitizeOptions) :
  Sanitize (Sanitize ev o) o = Sanitize ev o.
Proof.
  rewrite (Sanitize_eq ev o), Sanitize_eq. unfold with_content, content. cbn zeta.
  cbn [ev_API ev_RequestBody ev_UpstreamBody ev_MetaFetches ev_RequestHeaders ev_UpstreamHeaders
       ev_Truncated ev_ID ev_Timestamp ev_Subject ev_Method ev_URL ev_Action ev_Binds ev_Decision
       ev_Policy ev_PolicyEvaluations ev_UpstreamStatus ev_LatencyMS ev_Error].
  rewrite !clean_headers_idem, !clean_body_idem, map_map.
  rewrite (map_ext _ _ (clean_fetch_idem o (ev_API ev))).
  match goal with |- context [bool_decide (?x <> ?x)] =>
    rewrite (bool_decide_eq_false_2 (x <> x)) by tauto end.
  by rewrite orb_false_r.
Qed.

(** The no-body floor yields to an operator who maps a default name to [false]:
    a mail body is then stored. *)
Example nobody_floor_lowered :
  let o := mkSanitizeOptions 0 {[ "google.gmail" := false ]} [] in
  let ev := mkEvent "e" 0 "" "GET" "/" [] "mail" "google.gmail" "" [] [] "permit" "" [] 200 [] "" 0 "" false in
  ev_RequestBody (Sanitize ev o) = "mail".
Proof. vm_compute. reflexivity. Qed.
