(* ===== verification/TrafficStore.v ===== *)
(** * Traffic stores: [internal/control/traffic] memory_store.go, cursor.go,
    sqlite_store.go (writes and eviction)

    The in-memory store as the code builds it: a map from identifiers to list
    elements (handles standing for the pointers), an insertion-ordered list and
    a running byte count; listing with filters, order and cursors.  The SQLite
    store's insert transaction with its eviction loop.  The wire form of a
    cursor (base64 of JSON) is the parameter [CursorCodec]. *)

From S2P Require Import Prelude GoStd Traffic.

Record Options := mkOptions { op_MaxBytes : Z; op_MaxAge : Z }.

Definition DefaultMaxBytes : Z := 16 * 1024 * 1024.
Definition DefaultMaxAge : Z := 24 * 3600 * 1000000000.
Definition DefaultListLimit : Z := 100.
Definition MaxListLimit : Z := 1000.

Definition ClampLimit (n : Z) : Z :=
  if bool_decide (n <= 0)%Z then DefaultListLimit
  else if bool_decide (MaxListLimit < n)%Z then MaxListLimit else n.

(** The construction both stores share. *)
Definition with_defaults (o : Options) : Options :=
  mkOptions (if bool_decide (op_MaxBytes o <= 0)%Z then DefaultMaxBytes else op_MaxBytes o)
            (if bool_decide (op_MaxAge o <= 0)%Z then DefaultMaxAge else op_MaxAge o).

(** The instant of [time.Time{}]. *)
Definition zero_time : Z := -62135596800 * 1000000000.

Definition sumZ {A} (f : A -> Z) (l : list A) : Z := foldr (fun x n => f x + n)%Z 0%Z l.

Definition approxSize (ev : Event) : Z :=
  (blen (ev_ID ev) + blen (ev_Subject ev) + blen (ev_Method ev) + blen (ev_URL ev) +
  blen (ev_API ev) + blen (ev_Action ev) + blen (ev_Decision ev) + blen (ev_Policy ev) +
  blen (ev_Error ev) +
  sumZ (fun kv => blen (kv_Key kv) + blen (kv_Value kv) + 2) (ev_RequestHeaders ev) +
  sumZ (fun kv => blen (kv_Key kv) + blen (kv_Value kv) + 2) (ev_UpstreamHeaders ev) +
  blen (ev_RequestBody ev) + blen (ev_UpstreamBody ev) +
  sumZ (fun b => blen (rb_Name b) + blen (rb_Value b) + 2) (ev_Binds ev) + 128)%Z.

(** ** The in-memory store *)

(** A [*list.Element]: the handle is the pointer, the entry never changes. *)
Record elem := mkElem { el_ptr : nat; el_ev : Event; el_size : Z }.

Record memoryStore := mkMem {
  ms_opts : Options;
  ms_byID : gmap string elem;
  ms_ll : list elem;
  ms_bytes : Z;
  ms_next : nat
}.

Definition newMemoryStore (o : Options) : memoryStore := mkMem (with_defaults o) ∅ [] 0 0.

(** [ll.Remove], [delete(byID, id)] and the count. *)
Definition drop_elem (e : elem) (s : memoryStore) : memoryStore :=
  mkMem (ms_opts s) (delete (ev_ID (el_ev e)) (ms_byID s))
    (List.filter (fun x => negb (bool_decide (el_ptr x = el_ptr e))) (ms_ll s))
    (ms_bytes s - el_size e)%Z (ms_next s).

Definition expired (o : Options) (now : Z) (ev : Event) : bool :=
  negb (bool_decide (ev_Timestamp ev = zero_time)) &&
  bool_decide (ev_Timestamp ev < now - op_MaxAge o)%Z.

(** The loop of [evictLocked], over the elements from the front. *)
Fixpoint evict_from (now : Z) (l : list elem) (s : memoryStore) : memoryStore :=
  match l with
  | [] => s
  | e :: l' =>
      let drop :=
        if bool_decide (op_MaxBytes (ms_opts s) < ms_bytes s)%Z then true
        else expired (ms_opts s) now (el_ev e) in
      evict_from now l' (if drop then drop_elem e s else s)
  end.

Definition evictLocked (now : Z) (s : memoryStore) : memoryStore := evict_from now (ms_ll s) s.

Definition push_elem (ev : Event) (s : memoryStore) : memoryStore :=
  let e := mkElem (ms_next s) ev (approxSize ev) in
  mkMem (ms_opts s) (<[ev_ID ev := e]> (ms_byID s)) (ms_ll s ++ [e])
    (ms_bytes s + el_size e)%Z (S (ms_next s)).

Definition Insert (ev : Event) (now : Z) (s : memoryStore) : memoryStore :=
  let s := match ms_byID s !! ev_ID ev with Some old => drop_elem old s | None => s end in
  evictLocked now (push_elem ev s).

Definition TErrNotFound : goerr := ESentinel "traffic.ErrNotFound".
Definition ErrBadCursor : goerr := ESentinel "traffic.ErrBadCursor".

(** The copy [Get] returns has the same value. *)
Definition Get (id : string) (s : memoryStore) : result Event :=
  match ms_byID s !! id with Some e => Ok (el_ev e) | None => Err TErrNotFound end.

Definition events (s : memoryStore) : list Event := map el_ev (ms_ll s).

(** *** Listing *)

Record ListOpts := mkListOpts {
  lo_API : string;
  lo_APIs : list string;
  lo_Action : string;
  lo_Method : string;
  lo_Decision : string;
  lo_PathPrefix : string;
  lo_Since : Z;
  lo_Until : Z;
  lo_Subject : option string;
  lo_Limit : Z;
  lo_Cursor : string
}.

Record Summary := mkSummary {
  su_ID : string;
  su_Timestamp : Z;
  su_Subject : string;
  su_Method : string;
  su_URL : string;
  su_API : string;
  su_Action : string;
  su_Decision : string;
  su_Policy : string;
  su_UpstreamStatus : Z;
  su_LatencyMS : Z
}.

Definition summary (ev : Event) : Summary :=
  mkSummary (ev_ID ev) (ev_Timestamp ev) (ev_Subject ev) (ev_Method ev) (ev_URL ev) (ev_API ev)
    (ev_Action ev) (ev_Decision ev) (ev_Policy ev) (ev_UpstreamStatus ev) (ev_LatencyMS ev).

(** A filter field that is empty does not filter. *)
Definition unset_or (want have : string) : bool := bool_decide (want = "") || bool_decide (have = want).

Definition match_event (o : ListOpts) (ev : Event) : bool :=
  (if bool_decide (0 < length (lo_APIs o)) then bool_decide (ev_API ev ∈ lo_APIs o)
   else unset_or (lo_API o) (ev_API ev)) &&
  unset_or (lo_Action o) (ev_Action ev) &&
  unset_or (lo_Method o) (ev_Method ev) &&
  unset_or (lo_Decision o) (ev_Decision ev) &&
  (bool_decide (lo_PathPrefix o = "") || has_prefix (lo_PathPrefix o) (ev_URL ev)) &&
  (bool_decide (lo_Since o = zero_time) || bool_decide (lo_Since o <= ev_Timestamp ev)%Z) &&
  (bool_decide (lo_Until o = zero_time) || bool_decide (ev_Timestamp ev <= lo_Until o)%Z) &&
  match lo_Subject o with None => true | Some sub => bool_decide (ev_Subject ev = sub) end.

(** Go's [<] on strings. *)
Definition str_lt (a b : string) : Prop := String.le a b /\ a <> b.

#[export] Instance str_lt_dec : RelDecision str_lt.
Proof. intros a b. unfold str_lt. apply _. Defined.

(** [ev.Timestamp.Before(ts) || ev.Timestamp.Equal(ts) && ev.ID < id] *)
Definition older (ts : Z) (id : string) (ev : Event) : Prop :=
  (ev_Timestamp ev < ts)%Z \/ (ev_Timestamp ev = ts /\ str_lt (ev_ID ev) id).

#[export] Instance older_dec ts id ev : Decision (older ts id ev).
Proof. unfold older. apply _. Defined.

(** Sorted by the code's [less]: [a] may come before [b] unless [b] is newer. *)
Definition newest_first (a b : Event) : Prop := ~ older (ev_Timestamp b) (ev_ID b) a.

#[export] Instance newest_first_dec : RelDecision newest_first.
Proof. intros a b. unfold newest_first. apply _. Defined.

(** The loop that resumes strictly after the cursor. *)
Fixpoint resume (ts : Z) (id : string) (l : list Event) : list Event :=
  match l with
  | [] => []
  | ev :: l' => if decide (older ts id ev) then l else resume ts id l'
  end.

(** The wire form of a cursor, base64 of JSON: opaque bytes. *)
Class CursorCodec := {
  encode_payload : Z -> string -> string;
  decode_payload : string -> option (Z * string)
}.

(** encoding/json writes instants to the nanosecond and base64 is total: what
    was encoded decodes, and no encoding is the empty string. *)
Class CursorCodecLaws `{CursorCodec} := {
  decode_encode ts id : decode_payload (encode_payload ts id) = Some (ts, id);
  encode_nonempty ts id : encode_payload ts id <> ""
}.

Section listing.
Context `{CursorCodec}.

Definition EncodeCursor (ts : Z) (id : string) : string :=
if decide (id = "") then "" else encode_payload ts id.

Definition DecodeCursor (c : string) : result (Z * string) :=
if decide (c = "") then Ok (zero_time, "")
else match decode_payload c with Some p => Ok p | None => Err ErrBadCursor end.

Definition List_ (o : ListOpts) (s : memoryStore) : result (list Summary * string) :=
'(curTS, curID) ← DecodeCursor (lo_Cursor o);
let limit := Z.to_nat (ClampLimit (lo_Limit o)) in
let matched := merge_sort newest_first (List.filter (match_event o) (events s)) in
let matched := if decide (curID = "") then matched else resume curTS curID matched in
let page := if bool_decide (limit < length matched) then take limit matched else matched in
let next :=
if bool_decide (limit < length matched) then
  match last page with Some ev => EncodeCursor (ev_Timestamp ev) (ev_ID ev) | None => "" end
else "" in
Ok (map summary page, next).

Definition with_cursor (c : string) (o : ListOpts) : ListOpts :=
mkListOpts (lo_API o) (lo_APIs o) (lo_Action o) (lo_Method o) (lo_Decision o) (lo_PathPrefix o)
(lo_Since o) (lo_Until o) (lo_Subject o) (lo_Limit o) c.

(** A client that follows the cursor to the end, [n] pages at most. *)
Fixpoint walk (n : nat) (o : ListOpts) (s : memoryStore) : option (list Summary) :=
match n with
| 0 => None
| S n =>
  match List_ o s with
  | Err _ => None
  | Ok (rows, next) =>
      if decide (next = "") then Some rows else (fun l => rows ++ l) <$> walk n (with_cursor next o) s
  end
end.
End listing.

(** ** The SQLite store *)

(** A row: the columns the statements read, and the event its payload encodes. *)
Record event_row := mkRow { r_ts : Z; r_size : Z; r_ev : Event }.

Notation event_table := (gmap string event_row).

Record trafficDB := mkTrafficDB {
  td_opts : Options;
  td_rows : event_table;
  td_faults : list bool
}.

(** [UnixMilli] *)
Definition unix_milli (t : Z) : Z := t / 1000000.

(** [ORDER BY ts ASC, id ASC] *)
Definition row_le (a b : Z * string) : Prop := (a.1 < b.1)%Z \/ (a.1 = b.1 /\ String.le a.2 b.2).

#[export] Instance row_le_dec : RelDecision row_le.
Proof. intros a b. unfold row_le. apply _. Defined.

Definition row_keys (rows : event_table) : list (Z * string) :=
  merge_sort row_le (map (fun '(id, r) => (r_ts r, id)) (map_to_list rows)).

Definition total_size (rows : event_table) : Z :=
  sumZ (fun '(_, r) => r_size r) (map_to_list rows).

Definition delete_oldest (n : nat) (rows : event_table) : event_table :=
  foldr (fun k m => delete k.2 m) rows (take n (row_keys rows)).

(** The loop of [evictTx] from batch size [n]; [None] when the fuel runs out.
    Each statement may fail, and the caller's rollback undoes the rest. *)
Fixpoint evict_bytes (fuel n : nat) (maxBytes : Z) (rows : event_table) (fs : list bool)
    : option (result event_table * list bool) :=
  match fuel with
  | 0 => None
  | S fuel =>
      let '(fault, fs) := pop fs in
      if fault then Some (Err (EWrap "traffic/sqlite: sum size" disk_error), fs)
      else if bool_decide (total_size rows <= maxBytes)%Z then Some (Ok rows, fs)
      else
        let '(fault, fs) := pop fs in
        if fault then Some (Err (EWrap "traffic/sqlite: evict by bytes" disk_error), fs)
        else
          let rows' := delete_oldest n rows in
          if decide (size rows' = size rows) then Some (Ok rows', fs)
          else evict_bytes fuel (n * 2) maxBytes rows' fs
  end.

Definition evictTx (fuel : nat) (o : Options) (now : Z) (rows : event_table) (fs : list bool)
    : option (result event_table * list bool) :=
  let cutoff := unix_milli (now - op_MaxAge o) in
  let '(fault, fs) := pop fs in
  if fault then Some (Err (EWrap "traffic/sqlite: evict by age" disk_error), fs)
  else evict_bytes fuel 32 (op_MaxBytes o) (filter (fun kr => (cutoff <= r_ts kr.2)%Z) rows) fs.

(** [Insert]'s transaction; [payload] is the length of the event's JSON. *)
Definition sqlite_Insert (fuel : nat) (ev : Event) (payload now : Z) (d : trafficDB)
    : option (option goerr * trafficDB) :=
  let '(fault, fs) := pop (td_faults d) in
  if fault then Some (Some (EWrap "traffic/sqlite: insert" disk_error), mkTrafficDB (td_opts d) (td_rows d) fs)
  else
    let rows := <[ev_ID ev := mkRow (unix_milli (ev_Timestamp ev)) payload ev]> (td_rows d) in
    match evictTx fuel (td_opts d) now rows fs with
    | None => None
    | Some (Err e, fs) => Some (Some e, mkTrafficDB (td_opts d) (td_rows d) fs)
    | Some (Ok rows, fs) =>
        let '(fault, fs) := pop fs in
        if fault then Some (Some (EWrap "commit" disk_error), mkTrafficDB (td_opts d) (td_rows d) fs)
        else Some (None, mkTrafficDB (td_opts d) rows fs)
    end.

(** ** The memory store's invariant *)

Definition el_id (e : elem) : string := ev_ID (el_ev e).

Record mem_inv (s : memoryStore) : Prop := {
  mi_ids : NoDup (map el_id (ms_ll s));
  mi_ptrs : NoDup (map el_ptr (ms_ll s));
  mi_fresh e : e ∈ ms_ll s -> el_ptr e < ms_next s;
  mi_byID id e : ms_byID s !! id = Some e <-> e ∈ ms_ll s /\ el_id e = id;
  mi_sizes e : e ∈ ms_ll s -> el_size e = approxSize (el_ev e);
  mi_bytes : ms_bytes s = sumZ approxSize (events s);
  mi_budget : (0 < op_MaxBytes (ms_opts s))%Z
}.

Lemma sumZ_app {A} (f : A -> Z) l1 l2 : sumZ f (l1 ++ l2) = (sumZ f l1 + sumZ f l2)%Z.
Proof. unfold sumZ. induction l1 as [|x l1 IH]; simpl; lia. Qed.

Lemma sumZ_nonneg {A} (f : A -> Z) l : (forall x, 0 <= f x)%Z -> (0 <= sumZ f l)%Z.
Proof. intros Hf. unfold sumZ. induction l as [|x l IH]; simpl; [lia|]. specialize (Hf x). lia. Qed.

Lemma approxSize_nonneg ev : (0 <= approxSize ev)%Z.
Proof.
  unfold approxSize.
  assert (forall l, 0 <= sumZ (fun kv => blen (kv_Key kv) + blen (kv_Value kv) + 2) l)%Z as Hk.
  { intros l. apply sumZ_nonneg. intros x. pose proof (blen_nonneg (kv_Key x)).
    pose proof (blen_nonneg (kv_Value x)). lia. }
  assert (0 <= sumZ (fun b => blen (rb_Name b) + blen (rb_Value b) + 2) (ev_Binds ev))%Z as Hb.
  { apply sumZ_nonneg. intros x. pose proof (blen_nonneg (rb_Name x)).
    pose proof (blen_nonneg (rb_Value x)). lia. }
  pose proof (Hk (ev_RequestHeaders ev)). pose proof (Hk (ev_UpstreamHeaders ev)).
  unfold blen in *. lia.
Qed.

#[local] Opaque approxSize.

Lemma newMemoryStore_inv o : mem_inv (newMemoryStore o).
Proof.
  split; simpl; try constructor; try set_solver.
  unfold DefaultMaxBytes. case_bool_decide; lia.
Qed.

Lemma nodup_middle {A B} (f : A -> B) l1 x l2 y :
  NoDup (map f (l1 ++ x :: l2)) -> y ∈ l1 ++ l2 -> f y <> f x.
Proof.
  rewrite map_app. simpl. intros Hn%NoDup_app Hy E. destruct Hn as (_ & Hd & Hn).
  apply NoDup_cons in Hn as [Hn _]. apply elem_of_app in Hy as [Hy|Hy].
  - apply (Hd (f y)); [by apply list_elem_of_fmap_2|]. rewrite E. left.
  - apply Hn. rewrite <- E. by apply list_elem_of_fmap_2.
Qed.

Lemma NoDup_map_delete {A B} (f : A -> B) l1 x l2 :
  NoDup (map f (l1 ++ x :: l2)) -> NoDup (map f (l1 ++ l2)).
Proof.
  rewrite !map_app. simpl. rewrite !NoDup_app, NoDup_cons. intros (H1 & H2 & _ & H3).
  split; [done|]. split; [|done]. intros y Hy Hy2. apply (H2 y Hy). by right.
Qed.

Lemma drop_elem_spec l1 e l2 s :
  mem_inv s -> ms_ll s = l1 ++ e :: l2 ->
  mem_inv (drop_elem e s) /\ ms_ll (drop_elem e s) = l1 ++ l2.
Proof.
  intros [Hids Hptr Hfresh Hby Hsz Hbytes Hmax] El.
  assert (ms_ll (drop_elem e s) = l1 ++ l2) as El'.
  { simpl. rewrite El, list_filter_app. simpl. rewrite bool_decide_eq_true_2 by done. simpl.
    rewrite <- list_filter_app. apply forallb_filter_id, forallb_forall. intros y Hy%list_elem_of_In.
    apply negb_true_iff, bool_decide_eq_false. rewrite El in Hptr.
    by apply (nodup_middle el_ptr _ _ _ _ Hptr). }
  split; [|done]. pose proof Hids as Hids2. rewrite El in Hids2. split; rewrite ?El'.
  - by eapply NoDup_map_delete.
  - rewrite El in Hptr. by eapply NoDup_map_delete.
  - intros y Hy. apply Hfresh. rewrite El. set_solver.
  - intros id y. simpl. fold (el_id e). split.
    + intros [Hne Hy%Hby]%lookup_delete_Some. destruct Hy as [Hy <-]. split; [|done].
      rewrite El in Hy. apply elem_of_app in Hy as [Hy|Hy]; [set_solver|].
      apply elem_of_cons in Hy as [->|Hy]; [done|set_solver].
    + intros [Hy <-]. apply lookup_delete_Some.
      split; [intros E; by apply (nodup_middle el_id _ _ _ _ Hids2 Hy)|]. apply Hby. split; [|done].
      rewrite El. set_solver.
  - intros y Hy. apply Hsz. rewrite El. set_solver.
  - unfold events in *. rewrite El'. simpl. rewrite Hbytes, El, !map_app, !sumZ_app. simpl.
    rewrite (Hsz e) by (rewrite El; set_solver). lia.
  - done.
Qed.

Lemma push_elem_spec ev s :
  mem_inv s -> ms_byID s !! ev_ID ev = None ->
  mem_inv (push_elem ev s) /\ events (push_elem ev s) = events s ++ [ev].
Proof.
  intros [Hids Hptr Hfresh Hby Hsz Hbytes Hmax] Hnew.
  assert (events (push_elem ev s) = events s ++ [ev]) as Ee by (unfold events; simpl; by rewrite map_app).
  split; [|done]. assert (forall e, e ∈ ms_ll s -> el_id e <> ev_ID ev) as Hne.
  { intros e He E. assert (ms_byID s !! ev_ID ev = Some e) by (by apply Hby). congruence. }
  split; simpl.
  - rewrite map_app. apply NoDup_app. split; [done|]. split; [|apply NoDup_singleton].
    intros x (e & -> & He)%list_elem_of_fmap Hx%list_elem_of_singleton. by apply (Hne e He).
  - rewrite map_app. apply NoDup_app. split; [done|]. split; [|apply NoDup_singleton].
    intros x (e & -> & He)%list_elem_of_fmap Hx%list_elem_of_singleton. simpl in Hx.
    specialize (Hfresh e He). lia.
  - intros e [He|He%list_elem_of_singleton]%elem_of_app; [specialize (Hfresh e He); lia|].
    subst e. simpl. lia.
  - intros id e. rewrite elem_of_app, list_elem_of_singleton, lookup_insert. case_decide as E.
    + split; [intros [= <-]; by split; [right|]|]. intros [[He| ->] Hid]; [|done].
      exfalso. apply (Hne e He). congruence.
    + rewrite Hby. split; [intros [? ?]; by split; [left|]|]. intros [[He| ->] Hid]; [done|].
      by unfold el_id in Hid.
  - intros e [He|He%list_elem_of_singleton]%elem_of_app; [by apply Hsz|]. rewrite He. reflexivity.
  - rewrite Ee, sumZ_app, Hbytes. simpl. lia.
  - done.
Qed.

(** *** Eviction *)

(** What eviction keeps of the events, oldest insertion first: an event stays if
    it has not expired and fits in the budget with everything inserted later. *)
Fixpoint retained (o : Options) (now : Z) (l : list Event) : list Event :=
  match l with
  | [] => []
  | ev :: l' =>
      if bool_decide (op_MaxBytes o < sumZ approxSize (ev :: l'))%Z || expired o now ev
      then retained o now l' else ev :: retained o now l'
  end.

Lemma evict_from_spec now l kept s :
  mem_inv s -> ms_ll s = kept ++ l ->
  (kept = [] \/ (ms_bytes s <= op_MaxBytes (ms_opts s))%Z) ->
  mem_inv (evict_from now l s) /\ ms_opts (evict_from now l s) = ms_opts s /\
  events (evict_from now l s) = map el_ev kept ++ retained (ms_opts s) now (map el_ev l).
Proof.
  revert kept s. induction l as [|e l IH]; intros kept s Hi El Hk; cbn [evict_from retained map].
  { split; [done|]. split; [done|]. unfold events. rewrite El. by rewrite !app_nil_r. }
  assert (ms_bytes s = sumZ approxSize (map el_ev kept) + sumZ approxSize (el_ev e :: map el_ev l))%Z as Eb.
  { rewrite (mi_bytes _ Hi). unfold events. rewrite El, map_app, sumZ_app. done. }
  assert (0 <= sumZ approxSize (map el_ev kept))%Z as Hpos by (apply sumZ_nonneg, approxSize_nonneg).
  assert (bool_decide (op_MaxBytes (ms_opts s) < ms_bytes s)%Z =
          bool_decide (op_MaxBytes (ms_opts s) < sumZ approxSize (el_ev e :: map el_ev l))%Z) as ->.
  { apply bool_decide_ext. destruct Hk as [->|Hk]; [|lia]. simpl in *. lia. }
  set (over := bool_decide _). destruct (if over then true else _) eqn:Ed.
  - replace (over || expired (ms_opts s) now (el_ev e)) with true by (by destruct over).
    destruct (drop_elem_spec _ _ _ _ Hi El) as [Hi' El']. apply (IH kept (drop_elem e s)); [done|done|].
    destruct Hk as [->|Hk]; [by left|right]. simpl. rewrite (mi_sizes _ Hi e) by (rewrite El; set_solver).
    pose proof (approxSize_nonneg (el_ev e)). lia.
  - replace (over || expired (ms_opts s) now (el_ev e)) with false by (by destruct over).
    destruct (IH (kept ++ [e]) s Hi) as (H1 & H2 & H3).
    + by rewrite <- app_assoc.
    + right. destruct over eqn:Eo; [done|]. subst over. apply bool_decide_eq_false in Eo.
      destruct Hk as [->|Hk]; [simpl in *; lia|done].
    + split; [done|]. split; [done|]. rewrite H3, map_app, <- app_assoc. done.
Qed.

Lemma retained_sub o now l : sublist (retained o now l) l.
Proof. induction l as [|ev l IH]; simpl; [done|]. destruct (_ || _); by constructor. Qed.

Lemma sumZ_sublist {A} (f : A -> Z) l l' :
  (forall x, 0 <= f x)%Z -> sublist l l' -> (sumZ f l <= sumZ f l')%Z.
Proof.
  intros Hf. induction 1 as [|x l l' _ IH|x l l' _ IH]; [done|..];
    unfold sumZ in *; simpl; specialize (Hf x); lia.
Qed.

Lemma retained_budget o now l :
  (0 <= op_MaxBytes o)%Z -> (sumZ approxSize (retained o now l) <= op_MaxBytes o)%Z.
Proof.
  intros Ho. induction l as [|ev l IH]; [done|]. cbn [retained]. destruct (_ || _) eqn:E; [done|].
  apply orb_false_iff in E as [E%bool_decide_eq_false _].
  etrans; [|apply Z.nlt_ge, E]. apply sumZ_sublist; [apply approxSize_nonneg|].
  constructor. apply retained_sub.
Qed.

Lemma retained_fresh o now l : Forall (fun ev => expired o now ev = false) (retained o now l).
Proof.
  induction l as [|ev l IH]; [constructor|]. cbn [retained]. destruct (_ || _) eqn:E; [done|].
  apply orb_false_iff in E as [_ E]. by constructor.
Qed.

(** The events an insertion of [ev] starts from. *)
Definition replaced (ev : Event) (l : list Event) : list Event :=
  List.filter (fun x => negb (bool_decide (ev_ID x = ev_ID ev))) l ++ [ev].

Lemma filter_id_unique (l1 : list Event) x l2 :
  NoDup (map ev_ID (l1 ++ x :: l2)) ->
  List.filter (fun y => negb (bool_decide (ev_ID y = ev_ID x))) (l1 ++ x :: l2) = l1 ++ l2.
Proof.
  intros Hn. rewrite list_filter_app. simpl. rewrite bool_decide_eq_true_2 by done. simpl.
  rewrite <- list_filter_app. apply forallb_filter_id, forallb_forall. intros y Hy%list_elem_of_In.
  apply negb_true_iff, bool_decide_eq_false. by apply (nodup_middle ev_ID _ _ _ _ Hn).
Qed.

Lemma Insert_spec ev now s :
  mem_inv s ->
  mem_inv (Insert ev now s) /\ ms_opts (Insert ev now s) = ms_opts s /\
  events (Insert ev now s) = retained (ms_opts s) now (replaced ev (events s)).
Proof.
  intros Hi. unfold Insert, replaced.
  assert (exists s1, s1 = match ms_byID s !! ev_ID ev with Some old => drop_elem old s | None => s end /\
    mem_inv s1 /\ ms_opts s1 = ms_opts s /\ ms_byID s1 !! ev_ID ev = None /\
    events s1 = List.filter (fun x => negb (bool_decide (ev_ID x = ev_ID ev))) (events s))
    as (s1 & -> & Hi1 & Ho & Hn & He).
  { eexists. split; [reflexivity|]. destruct (ms_byID s !! ev_ID ev) as [old|] eqn:E.
    - apply (mi_byID _ Hi) in E as [Hin Hid]. apply list_elem_of_split in Hin as (l1 & l2 & El).
      destruct (drop_elem_spec _ _ _ _ Hi El) as [Hi' El']. split; [done|]. split; [done|].
      unfold el_id in Hid. split; [simpl; rewrite Hid; by rewrite lookup_delete_eq|].
      unfold events. rewrite El', El, !map_app. simpl. rewrite <- Hid, filter_id_unique; [done|].
      pose proof (mi_ids _ Hi) as Hn. rewrite El, map_app in Hn. simpl in Hn.
      rewrite map_app, !map_map. simpl. rewrite map_map. exact Hn.
    - split; [done|]. split; [done|]. split; [done|]. symmetry. apply forallb_filter_id, forallb_forall.
      intros y (e & <- & Hy)%in_map_iff. apply negb_true_iff, bool_decide_eq_false. intros Ey.
      apply list_elem_of_In in Hy. assert (ms_byID s !! ev_ID ev = Some e) by (by apply (mi_byID _ Hi)).
      congruence. }
  rewrite <- He, <- Ho. clear He. destruct (push_elem_spec ev _ Hi1 Hn) as [Hi2 He2].
  rewrite <- He2. unfold evictLocked.
  destruct (evict_from_spec now _ [] _ Hi2 eq_refl (or_introl eq_refl)) as (H1 & H2 & H3).
  split; [done|]. split; [done|]. rewrite H3. done.
Qed.

Definition insert_all (l : list (Event * Z)) (s : memoryStore) : memoryStore :=
  fold_left (fun s '(ev, now) => Insert ev now s) l s.

Lemma insert_all_inv l s :
  mem_inv s -> mem_inv (insert_all l s) /\ ms_opts (insert_all l s) = ms_opts s.
Proof.
  unfold insert_all. revert s. induction l as [|[ev now] l IH]; intros s Hi; [done|]. simpl.
  destruct (Insert_spec ev now s Hi) as (Hi' & Ho & _). destruct (IH _ Hi') as [H1 H2].
  split; [done|congruence].
Qed.

Lemma insert_all_events l s ev :
  mem_inv s -> ev ∈ events (insert_all l s) -> ev ∈ events s \/ exists now, (ev, now) ∈ l.
Proof.
  unfold insert_all. revert s. induction l as [|[x now] l IH]; intros s Hi; [by left|]. simpl.
  destruct (Insert_spec x now s Hi) as (Hi' & _ & He). intros Hev.
  destruct (IH _ Hi' Hev) as [Hin|[t Ht]]; [|right; exists t; by right].
  rewrite He in Hin. pose proof (elem_of_sublist _ _ _ Hin (retained_sub _ _ _)) as Hin'.
  clear Hin. rename Hin' into Hin.
  unfold replaced in Hin. apply elem_of_app in Hin as [Hin|Hin%list_elem_of_singleton].
  - left. apply list_elem_of_In in Hin. apply filter_In in Hin as [Hin _]. by apply list_elem_of_In.
  - right. exists now. subst. left.
Qed.

(** *** Listing *)

Lemma str_lt_trichotomy a b : str_lt a b \/ a = b \/ str_lt b a.
Proof.
  destruct (decide (a = b)) as [->|Hne]; [auto|]. unfold str_lt.
  destruct (total String.le a b); [left|right; right]; split; congruence.
Qed.

Lemma str_lt_trans a b c : str_lt a b -> str_lt b c -> str_lt a c.
Proof.
  intros [H1 Hn] [H2 _]. split; [by trans b|]. intros <-. apply Hn. by apply (anti_symm String.le).
Qed.

Lemma str_lt_irrefl a : ~ str_lt a a.
Proof. intros [_ ?]. done. Qed.

Definition row_key (ev : Event) : Z * string := (ev_Timestamp ev, ev_ID ev).

Lemma newest_first_iff a b : newest_first a b <-> older (ev_Timestamp a) (ev_ID a) b \/ row_key a = row_key b.
Proof.
  unfold newest_first, older, row_key.
  destruct (str_lt_trichotomy (ev_ID a) (ev_ID b)) as [Hl|[Hl|Hl]]; split; intros Hx;
    try rewrite Hl in *; try (pose proof (str_lt_irrefl (ev_ID b)));
    try (assert (~ str_lt (ev_ID b) (ev_ID a)) by (intros ?; by eapply str_lt_irrefl, str_lt_trans));
    try (assert (~ str_lt (ev_ID a) (ev_ID b)) by (intros ?; by eapply str_lt_irrefl, str_lt_trans));
    destruct (Z.lt_trichotomy (ev_Timestamp a) (ev_Timestamp b)) as [?|[?|?]];
    naive_solver (congruence || lia).
Qed.

#[export] Instance newest_first_total : Total newest_first.
Proof.
  intros a b. destruct (decide (newest_first a b)) as [Hab|Hab]; [by left|right].
  apply newest_first_iff. left. unfold newest_first in Hab. by apply dec_stable.
Qed.

Lemma older_trans a b c :
  older (ev_Timestamp a) (ev_ID a) b -> older (ev_Timestamp b) (ev_ID b) c ->
  older (ev_Timestamp a) (ev_ID a) c.
Proof.
  unfold older. intros [H1|[E1 H1]] [H2|[E2 H2]]; [left; lia..|right].
  split; [congruence|]. by eapply str_lt_trans.
Qed.

#[export] Instance newest_first_trans : Transitive newest_first.
Proof.
  intros a b c. rewrite !newest_first_iff. unfold row_key.
  intros [H1|[= E1 E2]] [H2|[= E3 E4]].
  - left. by eapply older_trans.
  - left. unfold older in *. by rewrite <- E3, <- E4.
  - left. by rewrite E1, E2.
  - right. congruence.
Qed.

(** All that matches, newest first. *)
Definition listing (o : ListOpts) (s : memoryStore) : list Event :=
  merge_sort newest_first (List.filter (match_event o) (events s)).

Definition strictly_newest_first (l : list Event) : Prop :=
  StronglySorted (fun a b => older (ev_Timestamp a) (ev_ID a) b) l.

Lemma listing_perm o s : listing o s ≡ₚ List.filter (match_event o) (events s).
Proof. apply merge_sort_Permutation. Qed.

Lemma NoDup_map_filter {A B} (f : A -> B) (p : A -> bool) l :
  NoDup (map f l) -> NoDup (map f (List.filter p l)).
Proof.
  induction l as [|x l IH]; simpl; [done|]. intros [Hx Hn]%NoDup_cons.
  destruct (p x); [|by apply IH]. simpl. apply NoDup_cons. split; [|by apply IH].
  intros (y & E & Hy)%list_elem_of_fmap. apply Hx. rewrite E. apply list_elem_of_fmap_2.
  apply list_elem_of_In in Hy. apply filter_In in Hy as [Hy _]. by apply list_elem_of_In.
Qed.

Lemma listing_strict o s : NoDup (map ev_ID (events s)) -> strictly_newest_first (listing o s).
Proof.
  intros Hn. apply (NoDup_map_filter _ (match_event o)) in Hn. unfold strictly_newest_first, listing.
  assert (NoDup (map ev_ID (merge_sort newest_first (List.filter (match_event o) (events s))))) as Hn'.
  { by rewrite (Permutation_map ev_ID (merge_sort_Permutation _ _)). }
  pose proof (StronglySorted_merge_sort newest_first (List.filter (match_event o) (events s))) as Hs.
  induction Hs as [|x l Hs IH Hx]; constructor.
  - apply IH. simpl in Hn'. by apply NoDup_cons in Hn' as [_ ?].
  - simpl in Hn'. apply NoDup_cons in Hn' as [Hni _]. rewrite Forall_forall in Hx |- *.
    intros y Hy. destruct (proj1 (newest_first_iff x y) (Hx y Hy)) as [|E]; [done|].
    injection E as _ E. destruct Hni. rewrite E. by apply list_elem_of_fmap_2.
Qed.

Lemma resume_spec pre x rest :
  strictly_newest_first (pre ++ x :: rest) ->
  resume (ev_Timestamp x) (ev_ID x) (pre ++ x :: rest) = rest.
Proof.
  intros Hs. assert (forall y, y ∈ pre ++ [x] -> ~ older (ev_Timestamp x) (ev_ID x) y) as Hpre.
  { assert (~ older (ev_Timestamp x) (ev_ID x) x) as Hx.
    { intros [?|[_ ?]]; [lia|by eapply str_lt_irrefl]. }
    intros y [Hy|Hy%list_elem_of_singleton]%elem_of_app; [|by subst]. intros Ho. apply Hx.
    eapply older_trans; [exact Ho|].
    apply (StronglySorted_app_1_elem_of _ _ _ y x Hs Hy). left. }
  assert (forall l, (forall y, y ∈ l -> ~ older (ev_Timestamp x) (ev_ID x) y) ->
    resume (ev_Timestamp x) (ev_ID x) (l ++ rest) = resume (ev_Timestamp x) (ev_ID x) rest) as Hskip.
  { intros l. induction l as [|y l IH]; intros Hl; simpl; [done|].
    rewrite decide_False by (apply Hl; left). apply IH. intros z Hz. apply Hl. by right. }
  change (x :: rest) with ([x] ++ rest). rewrite app_assoc, (Hskip _ Hpre).
  destruct rest as [|y rest]; [done|]. simpl. rewrite decide_True; [done|].
  apply StronglySorted_app_1_r in Hs. apply StronglySorted_inv in Hs as [_ Hs].
  rewrite Forall_forall in Hs. apply Hs. left.
Qed.

Section pagination.
Context `{CursorCodecLaws}.

(** The cursor that stands after [pre]. *)
Definition cursor_at (c : string) (pre : list Event) : Prop :=
match last pre with
| None => c = ""
| Some x => c = EncodeCursor (ev_Timestamp x) (ev_ID x)
end.

Lemma ClampLimit_range n : (1 <= ClampLimit n <= MaxListLimit)%Z.
Proof. unfold ClampLimit, DefaultListLimit, MaxListLimit. repeat case_bool_decide; lia. Qed.

Lemma List_page o s pre rest :
let limit := Z.to_nat (ClampLimit (lo_Limit o)) in
NoDup (map ev_ID (events s)) -> (forall ev, ev ∈ events s -> ev_ID ev <> "") ->
listing o s = pre ++ rest -> cursor_at (lo_Cursor o) pre ->
exists next, List_ o s = Ok (map summary (take limit rest), next) /\
(length rest <= limit -> next = "") /\
(limit < length rest -> next <> "" /\ cursor_at next (pre ++ take limit rest)).
Proof.
intros limit Hn Hid El Hc.
assert (forall ev, ev ∈ pre ++ rest -> ev_ID ev <> "") as Hid'.
{ intros ev. rewrite <- El, listing_perm. intros Hev. apply Hid.
apply list_elem_of_In in Hev. apply filter_In in Hev as [Hev _]. by apply list_elem_of_In. }
assert (exists ts id, DecodeCursor (lo_Cursor o) = Ok (ts, id) /\
(if decide (id = "") then listing o s else resume ts id (listing o s)) = rest) as (ts & id & Hd & Hr).
{ unfold cursor_at in Hc. destruct (last pre) as [x|] eqn:Hl.
- apply last_Some in Hl as [pre' ->]. exists (ev_Timestamp x), (ev_ID x).
  assert (ev_ID x <> "") as Hx by (apply Hid'; set_solver).
  unfold DecodeCursor. rewrite Hc. unfold EncodeCursor.
  rewrite (decide_False (P := ev_ID x = "")) by done.
  rewrite decide_False by apply encode_nonempty. rewrite decode_encode. split; [done|].
  rewrite decide_False, El, <- app_assoc by done. apply resume_spec. change (x :: rest) with ([x] ++ rest).
  rewrite app_assoc, <- El. by apply listing_strict.
- apply last_None in Hl as ->. exists zero_time, "". unfold DecodeCursor. by rewrite Hc. }
unfold List_. rewrite Hd. simpl. fold (listing o s). rewrite Hr. fold limit.
eexists. split.
{ f_equal. f_equal. case_bool_decide; [done|]. by rewrite take_ge by lia. }
split; [intros Hle; by rewrite bool_decide_eq_false_2 by lia|]. intros Hlt.
rewrite !bool_decide_eq_true_2 by done.
assert (1 <= limit) as Hlim by (unfold limit; pose proof (ClampLimit_range (lo_Limit o)); lia).
clearbody limit. destruct (last (take limit rest)) as [x|] eqn:Hlast.
- unfold cursor_at. rewrite last_app, Hlast. split; [|done]. unfold EncodeCursor.
rewrite decide_False; [apply encode_nonempty|]. apply Hid'. apply last_Some in Hlast as [l' E].
rewrite <- (take_drop limit rest), E. set_solver.
- apply last_None in Hlast. destruct rest, limit; simpl in *; try lia; done.
Qed.

Lemma walk_page n o s pre rest :
NoDup (map ev_ID (events s)) -> (forall ev, ev ∈ events s -> ev_ID ev <> "") ->
listing o s = pre ++ rest -> cursor_at (lo_Cursor o) pre -> length rest < n ->
walk n o s = Some (map summary rest).
Proof.
intros Hn Hid. revert o pre rest. induction n as [|n IH]; intros o pre rest El Hc Hlen; [lia|].
destruct (List_page o s pre rest Hn Hid El Hc) as (next & Hp & Hend & Hmore). simpl. rewrite Hp.
destruct (decide (length rest <= Z.to_nat (ClampLimit (lo_Limit o)))) as [Hle|Hgt].
- rewrite (Hend Hle). simpl. by rewrite take_ge by done.
- destruct Hmore as [Hne Hc']; [lia|]. rewrite decide_False by done.
pose proof (ClampLimit_range (lo_Limit o)).
rewrite (IH (with_cursor next o) (pre ++ take (Z.to_nat (ClampLimit (lo_Limit o))) rest)
  (drop (Z.to_nat (ClampLimit (lo_Limit o))) rest)).
+ simpl. by rewrite <- map_app, take_drop.
+ change (listing (with_cursor next o) s) with (listing o s).
  by rewrite <- app_assoc, take_drop.
+ done.
+ rewrite length_drop. lia.
Qed.
End pagination.

(** ** Eviction in the database *)

#[export] Instance row_le_total : Total row_le.
Proof.
  intros a b. unfold row_le. destruct (Z.lt_trichotomy a.1 b.1) as [?|[?|?]]; [by left; left| |by right; left].
  destruct (total String.le a.2 b.2); [left|right]; right; by split.
Qed.

#[export] Instance row_le_trans : Transitive row_le.
Proof.
  intros a b c [H1|[E1 H1]] [H2|[E2 H2]]; [left; lia..|right]. split; [congruence|by trans b.2].
Qed.

#[export] Instance row_le_antisym : AntiSymm (=) row_le.
Proof.
  intros [t i] [t' i'] [H1|[E1 H1]] [H2|[E2 H2]]; simpl in *; try lia. subst.
  f_equal. by apply (anti_symm String.le).
Qed.

Lemma row_keys_sorted rows : StronglySorted row_le (row_keys rows).
Proof. apply StronglySorted_merge_sort; apply _. Qed.

Lemma elem_of_row_keys rows k :
  k ∈ row_keys rows <-> exists r, rows !! k.2 = Some r /\ r_ts r = k.1.
Proof.
  unfold row_keys. rewrite merge_sort_Permutation, list_elem_of_fmap. split.
  - intros ([id r] & -> & Hin%elem_of_map_to_list). by exists r.
  - intros (r & Hr & Et). exists (k.2, r). split; [destruct k; simpl in *; congruence|].
    by apply elem_of_map_to_list.
Qed.

Lemma row_keys_snd rows : map snd (row_keys rows) ≡ₚ (map_to_list rows).*1.
Proof.
  unfold row_keys. rewrite (Permutation_map snd (merge_sort_Permutation _ _)), map_map.
  by rewrite (map_ext (fun x => (let '(id, r) := x in (r_ts r, id)).2) fst) by (by intros [id r]).
Qed.

Lemma row_keys_nodup rows : NoDup (row_keys rows).
Proof.
  apply (NoDup_fmap_1 snd). change (snd <$> row_keys rows) with (map snd (row_keys rows)).
  rewrite row_keys_snd. apply NoDup_fst_map_to_list.
Qed.

Lemma length_row_keys rows : length (row_keys rows) = size rows.
Proof.
  unfold row_keys. by rewrite merge_sort_Permutation, length_map, length_map_to_list.
Qed.

Lemma lookup_delete_keys (ks : list (Z * string)) (rows : event_table) id :
  foldr (fun k m => delete k.2 m) rows ks !! id =
    if decide (id ∈ map snd ks) then None else rows !! id.
Proof.
  induction ks as [|k ks IH]; simpl; [done|]. rewrite lookup_delete, IH.
  repeat case_decide; set_solver.
Qed.

Lemma row_keys_delete n rows : row_keys (delete_oldest n rows) = drop n (row_keys rows).
Proof.
  assert (StronglySorted row_le (drop n (row_keys rows))) as Hd.
  { pose proof (row_keys_sorted rows) as Hs. rewrite <- (take_drop n (row_keys rows)) in Hs.
    by apply StronglySorted_app_1_r in Hs. }
  apply (StronglySorted_unique row_le); [apply row_keys_sorted|done|].
  pose proof (row_keys_nodup rows) as Hn. rewrite <- (take_drop n (row_keys rows)) in Hn.
  apply NoDup_app in Hn as (_ & Hdisj & Hnd). apply NoDup_Permutation; [apply row_keys_nodup|done|].
  intros k. rewrite elem_of_row_keys. unfold delete_oldest. split.
  - intros (r & Hr & Et). rewrite lookup_delete_keys in Hr. case_decide as Ek; [done|].
    assert (k ∈ row_keys rows) as Hk by (apply elem_of_row_keys; eauto).
    rewrite <- (take_drop n (row_keys rows)) in Hk. apply elem_of_app in Hk as [Hk|Hk]; [|done].
    destruct Ek. by apply list_elem_of_fmap_2.
  - intros Hk. assert (k ∈ row_keys rows) as Hk'.
    { rewrite <- (take_drop n (row_keys rows)). apply elem_of_app. by right. }
    apply elem_of_row_keys in Hk' as (r & Hr & Et). exists r. split; [|done].
    rewrite lookup_delete_keys, decide_False; [done|]. intros (k' & E & Hk')%list_elem_of_fmap.
    apply (Hdisj k'); [done|]. replace k' with k; [done|].
    assert (k' ∈ row_keys rows) as Hk2.
    { rewrite <- (take_drop n (row_keys rows)). apply elem_of_app. by left. }
    apply elem_of_row_keys in Hk2 as (r' & Hr' & Et'). rewrite <- E in Hr'.
    destruct k, k'. simpl in *. congruence.
Qed.

Lemma size_delete_oldest n rows : size (delete_oldest n rows) = size rows - n.
Proof. by rewrite <- !length_row_keys, row_keys_delete, length_drop. Qed.

Lemma delete_oldest_add a b rows : delete_oldest b (delete_oldest a rows) = delete_oldest (a + b) rows.
Proof.
  apply map_eq. intros id. unfold delete_oldest at 1. rewrite row_keys_delete.
  unfold delete_oldest. rewrite !lookup_delete_keys.
  replace (take (a + b) (row_keys rows))
    with (take a (row_keys rows) ++ take b (drop a (row_keys rows))) by (by rewrite take_take_drop).
  rewrite map_app. repeat case_decide; set_solver.
Qed.

Lemma delete_oldest_0 rows : delete_oldest 0 rows = rows.
Proof. done. Qed.

Lemma total_size_empty rows : size rows = 0 -> total_size rows = 0%Z.
Proof. intros ->%map_size_empty_inv. done. Qed.

(** The loop ends, within budget, having deleted a prefix of the oldest-first
    order. *)
Lemma evict_bytes_spec fuel n maxBytes rows fs :
  (0 <= maxBytes)%Z -> 1 <= n -> size rows < fuel ->
  exists r fs', evict_bytes fuel n maxBytes rows fs = Some (r, fs') /\
    forall rows', r = Ok rows' -> (total_size rows' <= maxBytes)%Z /\ exists m, rows' = delete_oldest m rows.
Proof.
  intros Hmax. revert n rows fs. induction fuel as [|fuel IH]; intros n rows fs Hn Hf; [lia|]. simpl.
  destruct (pop fs) as [[] fs1]; [by eexists _, _|]. case_bool_decide as Ht.
  { eexists _, _. split; [done|]. intros rows' [= <-]. split; [done|]. by exists 0. }
  destruct (pop fs1) as [[] fs2]; [by eexists _, _|].
  assert (size rows <> 0) as Hne by (intros E%total_size_empty; lia).
  pose proof (size_delete_oldest n rows). rewrite decide_False by lia.
  destruct (IH (n * 2) (delete_oldest n rows) fs2) as (r & fs' & -> & Hr); [lia..|].
  eexists _, _. split; [done|]. intros rows' E. destruct (Hr _ E) as [Hle [m ->]]. split; [done|].
  exists (n + m). apply delete_oldest_add.
Qed.

Lemma delete_oldest_order m rows id r id' r' :
  rows !! id = Some r -> delete_oldest m rows !! id = None ->
  delete_oldest m rows !! id' = Some r' -> row_le (r_ts r, id) (r_ts r', id').
Proof.
  intros Hr Hd Hr'. pose proof (row_keys_sorted rows) as Hs.
  rewrite <- (take_drop m (row_keys rows)) in Hs.
  refine (StronglySorted_app_1_elem_of _ _ _ _ _ Hs _ _).
  - assert ((r_ts r, id) ∈ row_keys rows) as Hk by (apply elem_of_row_keys; eauto).
    rewrite <- (take_drop m (row_keys rows)) in Hk. apply elem_of_app in Hk as [|Hk]; [done|].
    rewrite <- row_keys_delete, elem_of_row_keys in Hk. simpl in Hk. destruct Hk as (? & ? & _). congruence.
  - rewrite <- row_keys_delete. apply elem_of_row_keys. eauto.
Qed.

(** ** Properties *)

(** C34. The in-memory log honours its budgets and keeps all it can.  After any
    history of insertions, inserting an event replaces the one with its
    identifier and leaves exactly the events that are not expired and fit in
    the byte budget with everything inserted after them, so the total stays
    within the budget; [Get] then finds precisely those. *)
Theorem memory_store_retains (o : Options) (history : list (Event * Z)) (ev : Event) (now : Z) :
  let s := insert_all history (newMemoryStore o) in
  let s' := Insert ev now s in
  events s' = retained (with_defaults o) now (replaced ev (events s)) /\
  (ms_bytes s' <= op_MaxBytes (with_defaults o))%Z /\ ms_bytes s' = sumZ approxSize (events s') /\
  (forall x, x ∈ events s' -> expired (with_defaults o) now x = false) /\
  NoDup (map ev_ID (events s')) /\
  (forall id x, Get id s' = Ok x <-> x ∈ events s' /\ ev_ID x = id).
Proof.
  cbn zeta. destruct (insert_all_inv history _ (newMemoryStore_inv o)) as [Hi Ho].
  destruct (Insert_spec ev now _ Hi) as (Hi' & Ho' & He). rewrite Ho in He.
  change (ms_opts (newMemoryStore o)) with (with_defaults o) in *.
  pose proof (mi_budget _ Hi') as Hb. rewrite Ho', Ho in Hb. split; [exact He|].
  rewrite (mi_bytes _ Hi'). split; [rewrite He; apply retained_budget; lia|]. split; [done|].
  split; [intros x; rewrite He; intros Hx; pose proof (retained_fresh (with_defaults o) now
    (replaced ev (events (insert_all history (newMemoryStore o))))) as Hr;
    rewrite Forall_forall in Hr; by apply Hr|].
  split; [unfold events; rewrite map_map; apply (mi_ids _ Hi')|]. intros id x. unfold Get.
  destruct (ms_byID _ !! id) as [e|] eqn:E.
  - apply (mi_byID _ Hi') in E as [Hin Hid]. split.
    + intros [= <-]. split; [by apply list_elem_of_fmap_2|done].
    + intros [(e' & -> & He')%list_elem_of_fmap Hid']. f_equal.
      assert (ms_byID (Insert ev now (insert_all history (newMemoryStore o))) !! id = Some e) as E1
        by (by apply (mi_byID _ Hi')).
      assert (ms_byID (Insert ev now (insert_all history (newMemoryStore o))) !! id = Some e') as E2
        by (by apply (mi_byID _ Hi')).
      congruence.
  - split; [done|]. intros [(e' & -> & He')%list_elem_of_fmap Hid'].
    assert (ms_byID (Insert ev now (insert_all history (newMemoryStore o))) !! id = Some e') as E2
      by (by apply (mi_byID _ Hi')).
    congruence.
Qed.

(** C33. Paging loses and repeats nothing.  A client that follows the cursors
    from the first page terminates, having received every event that matches
    its filters exactly once, newest first. *)
Theorem pagination_complete `{CursorCodecLaws} (opts : Options) (history : list (Event * Z))
    (o : ListOpts)
    (Hids : forall ev now, (ev, now) ∈ history -> ev_ID ev <> "")
    (Hstart : lo_Cursor o = "") :
  let s := insert_all history (newMemoryStore opts) in
  exists l, walk (S (length (events s))) o s = Some (map summary l) /\
    l ≡ₚ List.filter (match_event o) (events s) /\ strictly_newest_first l.
Proof.
  cbn zeta. destruct (insert_all_inv history _ (newMemoryStore_inv opts)) as [Hi _].
  set (s := insert_all history (newMemoryStore opts)) in *.
  assert (NoDup (map ev_ID (events s))) as Hn by (unfold events; rewrite map_map; apply (mi_ids _ Hi)).
  assert (forall ev, ev ∈ events s -> ev_ID ev <> "") as Hid.
  { intros ev Hev. destruct (insert_all_events history _ ev (newMemoryStore_inv opts) Hev) as [Hin|[now Hin]].
    - by apply not_elem_of_nil in Hin.
    - by apply (Hids ev now). }
  exists (listing o s). split; [|split; [apply listing_perm|by apply listing_strict]].
  apply (walk_page _ o s []); try done. rewrite listing_perm.
  pose proof (filter_length_le (match_event o) (events s)). lia.
Qed.

(** A codec for examples: the sign, the instant in unary, the identifier. *)
Fixpoint ones (n : nat) (s : string) : string :=
  match n with 0 => s | S n => String "1" (ones n s) end.

Definition demo_encode (ts : Z) (id : string) : string :=
  String (if bool_decide (ts < 0)%Z then "-"%char else "+"%char)
    (ones (Z.to_nat (Z.abs ts)) (String "."%char id)).

Fixpoint demo_count (s : string) : option (Z * string) :=
  match s with
  | String "1" s' => '(n, id) ← demo_count s'; Some (n + 1, id)%Z
  | String "." id => Some (0%Z, id)
  | _ => None
  end.

Definition demo_decode (s : string) : option (Z * string) :=
  match s with
  | String "-" s' => '(n, id) ← demo_count s'; Some (- n, id)%Z
  | String "+" s' => demo_count s'
  | _ => None
  end.

#[export] Instance demo_codec : CursorCodec := {|
  encode_payload := demo_encode; decode_payload := demo_decode
|}.

Lemma demo_count_encode n id :
  demo_count (ones n (String "."%char id)) = Some (Z.of_nat n, id).
Proof.
  induction n as [|n IH]; [done|]. simpl. rewrite IH. cbn. do 2 f_equal. lia.
Qed.

#[export] Instance demo_codec_laws : CursorCodecLaws.
Proof.
  split; simpl; unfold demo_encode.
  - intros ts id. case_bool_decide; cbn [demo_decode];
      rewrite demo_count_encode; cbn; do 2 f_equal; lia.
  - intros ts id. by case_bool_decide.
Qed.

Definition demo_event (id : string) (ts : Z) : Event :=
  mkEvent id ts "" "GET" "/" [] "" "api" "" [] [] "permit" "" [] 200 [] "" 0 "" false.

Definition demo_history : list (Event * Z) :=
  [(demo_event "a" 3, 10); (demo_event "b" 5, 11); (demo_event "c" 5, 12)]%Z.

Definition all_events : ListOpts := mkListOpts "" [] "" "" "" "" zero_time zero_time None 2 "".

Lemma pagination_complete_witness :
  let s := insert_all demo_history (newMemoryStore (mkOptions 0 0)) in
  walk 2 all_events s = Some (map summary [demo_event "c" 5; demo_event "b" 5; demo_event "a" 3]) /\
  exists l, walk (S (length (events s))) all_events s = Some (map summary l) /\ strictly_newest_first l.
Proof.
  split; [vm_compute; reflexivity|].
  destruct (pagination_complete (mkOptions 0 0) demo_history all_events) as (l & H1 & _ & H2).
  - intros ev now Hin. unfold demo_history in Hin. rewrite !elem_of_cons, elem_of_nil in Hin.
    destruct Hin as [[= -> ->]|[[= -> ->]|[[= -> ->]|[]]]]; discriminate.
  - reflexivity.
  - exists l. split; [exact H1|exact H2].
Defined.

(** The database log is trimmed oldest first and transactionally.  With
    enough fuel for the rows at hand the insert's eviction loop ends; when the
    insert reports success the rows are within the byte budget, none is past
    the age cutoff, and whatever the budget pushed out is older than everything
    kept; when it reports an error the table is as it was. *)
Theorem sqlite_Insert_trims (fuel : nat) (ev : Event) (payload now : Z) (d : trafficDB)
    (Hmax : (0 <= op_MaxBytes (td_opts d))%Z) (Hfuel : S (size (td_rows d)) < fuel) :
  exists e d', sqlite_Insert fuel ev payload now d = Some (e, d') /\
    (e <> None -> td_rows d' = td_rows d) /\
    (e = None ->
       let cutoff := unix_milli (now - op_MaxAge (td_opts d)) in
       let rows := <[ev_ID ev := mkRow (unix_milli (ev_Timestamp ev)) payload ev]> (td_rows d) in
       (total_size (td_rows d') <= op_MaxBytes (td_opts d))%Z /\
       (forall id r, td_rows d' !! id = Some r -> rows !! id = Some r /\ (cutoff <= r_ts r)%Z) /\
       forall id r id' r', rows !! id = Some r -> (cutoff <= r_ts r)%Z -> td_rows d' !! id = None ->
         td_rows d' !! id' = Some r' -> row_le (r_ts r, id) (r_ts r', id')).
Proof.
  unfold sqlite_Insert. destruct (pop (td_faults d)) as [[] fs]; [by eexists _, _|].
  set (rows := <[_ := _]> _). unfold evictTx. destruct (pop fs) as [[] fs1]; [by eexists _, _|].
  set (cutoff := unix_milli _). set (fresh := filter _ rows).
  assert (size fresh < fuel) as Hsize.
  { assert (size fresh <= size rows) by (apply map_subseteq_size, map_filter_subseteq).
    assert (size rows <= S (size (td_rows d))) by (unfold rows; rewrite map_size_insert; destruct (td_rows d !! ev_ID ev); simpl; lia).
    lia. }
  destruct (evict_bytes_spec fuel 32 (op_MaxBytes (td_opts d)) fresh fs1) as (r & fs2 & -> & Hr); [lia..|].
  destruct r as [rows'|e]; [|by eexists _, _].
  destruct (pop fs2) as [[] fs3]; [by eexists _, _|]. eexists _, _. split; [done|].
  split; [done|]. intros _. simpl. destruct (Hr _ eq_refl) as [Hle [m ->]]. split; [done|].
  assert (forall id r, fresh !! id = Some r <-> rows !! id = Some r /\ (cutoff <= r_ts r)%Z) as Hfr.
  { intros id r. unfold fresh. rewrite map_lookup_filter_Some. done. }
  split.
  - intros id r Hid. apply Hfr. unfold delete_oldest in Hid. rewrite lookup_delete_keys in Hid.
    by case_decide.
  - intros id r id' r' Hr1 Hc Hn Hr2. eapply delete_oldest_order; [|exact Hn|exact Hr2]. by apply Hfr.
Qed.

(** Two rows of six bytes fit a budget of fifteen; a third does not. *)
Definition demo_db : trafficDB :=
  mkTrafficDB (mkOptions 15 1000000000) {[ "a" := mkRow 0 6 (demo_event "a" 0); "b" := mkRow 1 6 (demo_event "b" 1000000) ]} [].

Lemma sqlite_Insert_trims_witness :
  exists e d', sqlite_Insert 5 (demo_event "c" 2000000) 6 0 demo_db = Some (e, d') /\
    (e = None -> (total_size (td_rows d') <= 15)%Z).
Proof.
  destruct (sqlite_Insert_trims 5 (demo_event "c" 2000000) 6 0 demo_db) as (e & d' & H1 & _ & H2).
  - discriminate.
  - vm_compute. lia.
  - exists e, d'. split; [exact H1|]. intros E. apply (H2 E).
Defined.

(** The batch of 32 takes more than the budget asks for: here the overshoot of
    one row empties the table, the new event included. *)
Example overshoot_empties :
  option_map (fun r => map_to_list (td_rows r.2)) (sqlite_Insert 5 (demo_event "c" 2000000) 6 0 demo_db)
  = Some [].
Proof. vm_compute. reflexivity. Qed.
