(* ===== verification/TrafficSql.v ===== *)
(** * Reading the SQLite traffic log: [Get] and [List] of
    internal/control/traffic/sqlite_store.go

    The query is the filter, order and limit it spells, over the rows of
    [TrafficStore].  SQLite's [LIKE] is the class [SqlLike].  The theorem:
    the database lists what the in-memory store lists, page by page and cursor
    by cursor, once instants are rounded to the millisecond; the example shows
    the prefix filter on which they differ. *)

From S2P Require Import Prelude GoStd Traffic TrafficStore.

(** [url LIKE ? ESCAPE '\'] *)
Class SqlLike := sql_like : string -> string -> bool.

Definition ascii_byte (c : ascii) : bool := bool_decide (0 < nat_of_ascii c < 128).

Fixpoint ascii_text (s : string) : bool :=
  match s with EmptyString => true | String c s => ascii_byte c && ascii_text s end.

Definition backslash : ascii := "\"%char.

(** SQLite's documentation of [LIKE] on ASCII text: [%] matches any sequence,
    the escape character makes the next one literal, a literal matches itself
    up to the case of ASCII letters. *)
Class SqlLikeLaws `{SqlLike} := {
  like_any s : sql_like "%" s = true;
  like_literal c p d s :
    ascii_byte c = true -> ascii_byte d = true -> c <> percent -> c <> "_"%char -> c <> backslash ->
    sql_like (String c p) (String d s) = bool_decide (lower_byte c = lower_byte d) && sql_like p s;
  like_escaped c p d s :
    ascii_byte c = true -> ascii_byte d = true ->
    sql_like (String backslash (String c p)) (String d s) =
      bool_decide (lower_byte c = lower_byte d) && sql_like p s;
  like_nothing c p : c <> percent -> sql_like (String c p) "" = false
}.

(** The [NewReplacer] escapes byte by byte. *)
Definition like_meta (c : ascii) : bool :=
  bool_decide (c = backslash) || bool_decide (c = percent) || bool_decide (c = "_"%char).

Fixpoint escapeLike (s : string) : string :=
  match s with
  | EmptyString => EmptyString
  | String c s =>
      if like_meta c then String backslash (String c (escapeLike s)) else String c (escapeLike s)
  end.

(** [time.UnixMilli] *)
Definition from_milli (ms : Z) : Z := ms * 1000000.

Definition row : Type := string * event_row.

(** The columns of a row, as [List] scans them. *)
Definition scan_row (x : row) : Summary :=
  let ev := r_ev x.2 in
  mkSummary x.1 (from_milli (r_ts x.2)) (ev_Subject ev) (ev_Method ev) (ev_URL ev) (ev_API ev)
    (ev_Action ev) (ev_Decision ev) (ev_Policy ev) (ev_UpstreamStatus ev) (ev_LatencyMS ev).

Section sqlite.
Context `{CursorCodec} `{SqlLike}.

(** The WHERE clause but for the cursor. *)
Definition where_filters (o : ListOpts) (x : row) : bool :=
  let ev := r_ev x.2 in
  (if bool_decide (0 < length (lo_APIs o)) then bool_decide (ev_API ev ∈ lo_APIs o)
   else unset_or (lo_API o) (ev_API ev)) &&
  unset_or (lo_Action o) (ev_Action ev) &&
  unset_or (lo_Method o) (ev_Method ev) &&
  unset_or (lo_Decision o) (ev_Decision ev) &&
  (bool_decide (lo_PathPrefix o = "") || sql_like (escapeLike (lo_PathPrefix o) +:+ "%") (ev_URL ev)) &&
  (bool_decide (lo_Since o = zero_time) || bool_decide (unix_milli (lo_Since o) <= r_ts x.2)%Z) &&
  (bool_decide (lo_Until o = zero_time) || bool_decide (r_ts x.2 <= unix_milli (lo_Until o))%Z) &&
  match lo_Subject o with None => true | Some sub => bool_decide (ev_Subject ev = sub) end.

(** [ts < ? OR (ts = ? AND id < ?)] *)
Definition below (ts : Z) (id : string) (x : row) : Prop :=
  (r_ts x.2 < ts)%Z \/ (r_ts x.2 = ts /\ str_lt x.1 id).

#[export] Instance below_dec ts id x : Decision (below ts id x).
Proof. unfold below. apply _. Defined.

Definition where_clause (o : ListOpts) (curTS : Z) (curID : string) (x : row) : bool :=
  where_filters o x && (bool_decide (curID = "") || bool_decide (below (unix_milli curTS) curID x)).

(** [ORDER BY ts DESC, id DESC] *)
Definition row_ge (x y : row) : Prop := row_le (r_ts y.2, y.1) (r_ts x.2, x.1).

#[export] Instance row_ge_dec : RelDecision row_ge.
Proof. intros x y. unfold row_ge. apply _. Defined.

Definition select (o : ListOpts) (curTS : Z) (curID : string) (limit : nat) (rows : event_table) : list row :=
  take limit (merge_sort row_ge (List.filter (where_clause o curTS curID) (map_to_list rows))).

(** The query may fail, and so may the reading of its rows. *)
Definition sqlite_List (o : ListOpts) (d : trafficDB) : result (list Summary * string) * trafficDB :=
  match DecodeCursor (lo_Cursor o) with
  | Err e => (Err e, d)
  | Ok (curTS, curID) =>
      let limit := Z.to_nat (ClampLimit (lo_Limit o)) in
      let '(fault, fs) := pop (td_faults d) in
      let d := mkTrafficDB (td_opts d) (td_rows d) fs in
      if fault then (Err (EWrap "traffic/sqlite: list" disk_error), d)
      else
        let '(fault, fs) := pop fs in
        let d := mkTrafficDB (td_opts d) (td_rows d) fs in
        if fault then (Err (EWrap "traffic/sqlite: list rows" disk_error), d)
        else
          let out := map scan_row (select o curTS curID (limit + 1) (td_rows d)) in
          (if bool_decide (limit < length out) then
             let out := take limit out in
             Ok (out, match last out with Some su => EncodeCursor (su_Timestamp su) (su_ID su) | None => "" end)
           else Ok (out, ""), d)
  end.

Definition sqlite_Get (id : string) (d : trafficDB) : result Event * trafficDB :=
  let '(fault, fs) := pop (td_faults d) in
  let d := mkTrafficDB (td_opts d) (td_rows d) fs in
  if fault then (Err (EWrap "traffic/sqlite: get" disk_error), d)
  else (match td_rows d !! id with None => Err TErrNotFound | Some r => Ok (r_ev r) end, d).
End sqlite.

(** ** Escaping *)

Lemma escapeLike_prefix `{SqlLikeLaws} p s :
  ascii_text p = true -> ascii_text s = true ->
  sql_like (escapeLike p +:+ "%") s = has_prefix (to_lower p) (to_lower s).
Proof.
  revert s. induction p as [|c p IH]; intros s Hp Hs; [by rewrite like_any|].
  simpl in Hp. apply andb_true_iff in Hp as [Hc Hp]. destruct s as [|d s].
  - cbn [escapeLike]. destruct (like_meta c) eqn:Em; cbn; apply like_nothing; [done|].
    unfold like_meta in Em. intros ->. discriminate.
  - simpl in Hs. apply andb_true_iff in Hs as [Hd Hs]. unfold to_lower. cbn.
    fold (to_lower p) (to_lower s). rewrite <- (IH s Hp Hs). destruct (like_meta c) eqn:Em; cbn.
    + by apply like_escaped.
    + unfold like_meta in Em. rewrite !orb_false_iff, !bool_decide_eq_false in Em.
      destruct Em as [[??]?]. by apply like_literal.
Qed.

(** Where folding case makes no difference, [LIKE] is [HasPrefix]. *)
Definition case_exact (p s : string) : Prop :=
  has_prefix (to_lower p) (to_lower s) = true -> has_prefix p s = true.

Lemma has_prefix_lower p s : has_prefix p s = true -> has_prefix (to_lower p) (to_lower s) = true.
Proof.
  revert s. induction p as [|c p IH]; intros [|d s]; simpl; try done.
  intros [E Hp]%andb_true_iff. apply bool_decide_eq_true in E as ->.
  rewrite bool_decide_eq_true_2 by done. by apply IH.
Qed.

Lemma like_exact `{SqlLikeLaws} p s :
  ascii_text p = true -> ascii_text s = true -> case_exact p s ->
  sql_like (escapeLike p +:+ "%") s = has_prefix p s.
Proof.
  intros Hp Hs Hc. rewrite escapeLike_prefix by done. unfold case_exact in Hc.
  destruct (has_prefix p s) eqn:E; [by apply has_prefix_lower|].
  apply not_true_is_false. intros Hl%Hc. discriminate.
Qed.

(** ** The same list as the in-memory store *)

(** What a stored instant keeps. *)
Definition to_milli (t : Z) : Z := from_milli (unix_milli t).

Definition rounded (ev : Event) : Event :=
  mkEvent (ev_ID ev) (to_milli (ev_Timestamp ev)) (ev_Subject ev) (ev_Method ev) (ev_URL ev)
    (ev_RequestHeaders ev) (ev_RequestBody ev) (ev_API ev) (ev_Action ev) (ev_Binds ev)
    (ev_MetaFetches ev) (ev_Decision ev) (ev_Policy ev) (ev_PolicyEvaluations ev) (ev_UpstreamStatus ev)
    (ev_UpstreamHeaders ev) (ev_UpstreamBody ev) (ev_LatencyMS ev) (ev_Error ev) (ev_Truncated ev).

(** The rows are indexed as [Insert] writes them. *)
Definition rows_ok (rows : event_table) : Prop :=
  forall id r, rows !! id = Some r -> ev_ID (r_ev r) = id /\ r_ts r = unix_milli (ev_Timestamp (r_ev r)).

(** The in-memory store [s] holds the events of the table, rounded. *)
Definition mirrors (rows : event_table) (s : memoryStore) : Prop :=
  mem_inv s /\ rows_ok rows /\ forall id, (rounded ∘ r_ev) <$> rows !! id = el_ev <$> ms_byID s !! id.

(** A query both stores read the same way: the lower bound and the cursor are
    whole milliseconds, and the prefix finds the same URLs whatever its case. *)
Record same_query `{CursorCodec} (o : ListOpts) (rows : event_table) : Prop := {
  sq_since : lo_Since o = to_milli (lo_Since o);
  sq_cursor ts id : DecodeCursor (lo_Cursor o) = Ok (ts, id) -> ts = to_milli ts;
  sq_ascii : ascii_text (lo_PathPrefix o) = true;
  sq_urls id r : rows !! id = Some r ->
    ascii_text (ev_URL (r_ev r)) = true /\ case_exact (lo_PathPrefix o) (ev_URL (r_ev r))
}.

Lemma to_milli_le t t' : t = to_milli t -> (t <= to_milli t' <-> unix_milli t <= unix_milli t')%Z.
Proof. unfold to_milli, from_milli, unix_milli. intros ->. rewrite Z.div_mul by done. lia. Qed.

Lemma to_milli_until t t' : (to_milli t <= t' <-> unix_milli t <= unix_milli t')%Z.
Proof.
  unfold to_milli, from_milli, unix_milli. split; intros H.
  - apply (Z.div_le_mono _ _ 1000000) in H; [|done]. by rewrite Z.div_mul in H.
  - pose proof (Z.mul_div_le t' 1000000). nia.
Qed.

Lemma elem_of_rows (rows : event_table) (x : row) : x ∈ map_to_list rows <-> rows !! x.1 = Some x.2.
Proof. destruct x. apply elem_of_map_to_list. Qed.

Lemma elem_of_filter_b {A} (p : A -> bool) l x : x ∈ List.filter p l <-> p x = true /\ x ∈ l.
Proof. rewrite !list_elem_of_In, filter_In. tauto. Qed.

#[export] Instance filter_b_perm {A} (p : A -> bool) : Proper (Permutation ==> Permutation) (List.filter p).
Proof.
  intros l l'. induction 1 as [|x l l' _ IH|x y l|l l' l'' _ IH1 _ IH2]; simpl; [done| | |by etrans].
  - by destruct (p x); rewrite IH.
  - destruct (p x), (p y); try done. apply perm_swap.
Qed.

#[export] Instance row_ge_total : Total row_ge.
Proof. intros x y. unfold row_ge. apply row_le_total. Qed.

#[export] Instance row_ge_trans : Transitive row_ge.
Proof. intros x y z Hxy Hyz. unfold row_ge in *. by etrans. Qed.

Lemma older_step ts id a b : older ts id a -> older (ev_Timestamp a) (ev_ID a) b -> older ts id b.
Proof.
  unfold older. intros [H1|[E1 H1]] [H2|[E2 H2]]; [left; lia..|right].
  split; [congruence|]. by eapply str_lt_trans.
Qed.

Lemma resume_filter ts id l :
  strictly_newest_first l -> resume ts id l = List.filter (fun ev => bool_decide (older ts id ev)) l.
Proof.
  induction 1 as [|x l Hs IH Hx]; [done|]. simpl. destruct (decide (older ts id x)) as [Ho|Ho].
  - rewrite bool_decide_eq_true_2 by done. f_equal. symmetry. apply forallb_filter_id, forallb_forall.
    intros y Hy%list_elem_of_In. rewrite Forall_forall in Hx. apply bool_decide_eq_true_2.
    by eapply older_step; [exact Ho|apply Hx].
  - by rewrite bool_decide_eq_false_2.
Qed.

Lemma strictly_unique l l' : strictly_newest_first l -> strictly_newest_first l' -> l ≡ₚ l' -> l = l'.
Proof.
  apply StronglySorted_unique_strong. intros x y _ _ Hxy Hyx. exfalso.
  assert (older (ev_Timestamp x) (ev_ID x) x) as [?|[_ ?]] by (by eapply older_trans); [lia|].
  by eapply str_lt_irrefl.
Qed.

Definition row_event (x : row) : Event := rounded (r_ev x.2).

Lemma row_event_key rows x :
  rows_ok rows -> rows !! x.1 = Some x.2 ->
  ev_ID (row_event x) = x.1 /\ ev_Timestamp (row_event x) = from_milli (r_ts x.2).
Proof. intros Hok Hx. destruct (Hok _ _ Hx) as [Hi Ht]. by rewrite Ht. Qed.

Lemma rows_sorted rows l :
  rows_ok rows -> NoDup (map fst l) -> Forall (fun x : row => rows !! x.1 = Some x.2) l ->
  StronglySorted row_ge l -> strictly_newest_first (map row_event l).
Proof.
  intros Hok Hn Hl Hs. induction Hs as [|x l Hs IH Hx]; simpl in *; [constructor|].
  apply NoDup_cons in Hn as [Hn1 Hn]. apply Forall_cons in Hl as [Hr Hl]. constructor; [by apply IH|].
  apply Forall_map, Forall_forall. intros y Hy. rewrite Forall_forall in Hx, Hl.
  destruct (row_event_key rows x Hok Hr) as [Eix Etx].
  destruct (row_event_key rows y Hok (Hl y Hy)) as [Ei Et]. unfold older.
  cbv beta delta [compose]. rewrite Eix, Etx, Ei, Et.
  assert (y.1 <> x.1) as Hne by (intros E; apply Hn1; rewrite <- E; by apply list_elem_of_fmap_2).
  destruct (Hx y Hy) as [Hlt|[E Hle]]; simpl in *; unfold from_milli; [left; lia|right].
  split; [by rewrite E|]. by split.
Qed.

Lemma mirrors_events rows s : mirrors rows s -> map row_event (map_to_list rows) ≡ₚ events s.
Proof.
  intros (Hi & Hok & Hm). apply NoDup_Permutation.
  - apply (NoDup_fmap_1 ev_ID). change (NoDup (map ev_ID (map row_event (map_to_list rows)))). rewrite map_map.
    erewrite (map_ext_in _ (fst : row -> string)); [apply NoDup_fst_map_to_list|].
    intros x Hx%list_elem_of_In%elem_of_rows. apply (row_event_key _ _ Hok Hx).
  - apply (NoDup_fmap_1 ev_ID). change (NoDup (map ev_ID (map el_ev (ms_ll s)))). rewrite map_map. apply (mi_ids _ Hi).
  - intros ev. split.
    + intros ([id r] & -> & Hr%elem_of_rows)%list_elem_of_fmap. specialize (Hm id). simpl in Hr. rewrite Hr in Hm.
      destruct (ms_byID s !! id) as [e|] eqn:Ee; [|done]. injection Hm as Hm.
      unfold row_event. simpl in *. rewrite Hm. apply (mi_byID _ Hi) in Ee as [Ee _].
      by apply list_elem_of_fmap_2.
    + intros (e & -> & He)%list_elem_of_fmap.
      assert (ms_byID s !! el_id e = Some e) as Ee by (by apply (mi_byID _ Hi)).
      specialize (Hm (el_id e)). rewrite Ee in Hm. destruct (rows !! el_id e) as [r|] eqn:Er; [|done].
      injection Hm as Hm. apply list_elem_of_fmap. exists (el_id e, r). split; [done|]. by apply elem_of_rows.
Qed.

Lemma where_filters_event `{CursorCodec} `{SqlLikeLaws} o rows x :
  same_query o rows -> rows_ok rows -> rows !! x.1 = Some x.2 ->
  where_filters o x = match_event o (row_event x).
Proof.
  intros [Hs _ Ha Hu] Hok Hx. destruct (Hok _ _ Hx) as [_ Ht]. destruct (Hu _ _ Hx) as [Hau Hcu].
  unfold where_filters, match_event, row_event, rounded. simpl. rewrite (like_exact _ _ Ha Hau Hcu), Ht.
  rewrite (bool_decide_ext _ _ (to_milli_le (lo_Since o) (ev_Timestamp (r_ev x.2)) Hs)).
  by rewrite (bool_decide_ext _ _ (to_milli_until (ev_Timestamp (r_ev x.2)) (lo_Until o))).
Qed.

Lemma below_older rows ts id x :
  rows_ok rows -> rows !! x.1 = Some x.2 -> ts = to_milli ts ->
  below (unix_milli ts) id x <-> older ts id (row_event x).
Proof.
  intros Hok Hx Hts. destruct (row_event_key _ _ Hok Hx) as [Ei Et]. unfold below, older. rewrite Ei, Et.
  unfold to_milli, from_milli in *. rewrite Hts at 3 4. intuition lia.
Qed.

Lemma select_listing `{CursorCodec} `{SqlLikeLaws} o rows s ts id :
  same_query o rows -> mirrors rows s -> DecodeCursor (lo_Cursor o) = Ok (ts, id) ->
  map row_event (merge_sort row_ge (List.filter (where_clause o ts id) (map_to_list rows))) =
  (if decide (id = "") then listing o s else resume ts id (listing o s)).
Proof.
  intros Hq Hm Hd. pose proof Hm as (Hi & Hok & _).
  set (sel := List.filter _ _).
  assert (Forall (fun x : row => rows !! x.1 = Some x.2) sel) as Hsel.
  { apply Forall_forall. intros x [_ Hx%elem_of_rows]%elem_of_filter_b. done. }
  assert (NoDup (map ev_ID (events s))) as Hids by (unfold events; rewrite map_map; apply (mi_ids _ Hi)).
  pose proof (listing_strict o s Hids) as Hls.
  assert (map row_event sel ≡ₚ
    List.filter (fun ev => bool_decide (id = "") || bool_decide (older ts id ev))
      (List.filter (match_event o) (events s))) as Hperm.
  { rewrite <- (mirrors_events rows s Hm). clear Hsel. subst sel.
    assert (Forall (fun x : row => rows !! x.1 = Some x.2) (map_to_list rows)) as Hall
      by (apply Forall_forall; intros x; apply elem_of_rows).
    induction Hall as [|x l Hx _ IH]; [done|]. simpl. unfold where_clause at 1.
    rewrite (where_filters_event o rows x Hq Hok Hx), (bool_decide_ext _ _
      (below_older rows ts id x Hok Hx (sq_cursor _ _ Hq ts id Hd))).
    destruct (match_event o (row_event x)); simpl; [|exact IH].
    destruct (bool_decide (id = "") || bool_decide (older ts id (row_event x))); simpl; by rewrite IH. }
  apply strictly_unique.
  - apply (rows_sorted rows); [done| | |apply StronglySorted_merge_sort; apply _].
    + rewrite (Permutation_map fst (merge_sort_Permutation row_ge sel)). unfold sel.
      apply NoDup_map_filter, NoDup_fst_map_to_list.
    + by rewrite (merge_sort_Permutation row_ge sel).
  - case_decide; [done|]. rewrite resume_filter by done. unfold strictly_newest_first.
    revert Hls. unfold strictly_newest_first. clear. induction 1 as [|x l Hs IH Hx]; simpl; [constructor|].
    destruct (bool_decide _); [|done]. constructor; [done|]. rewrite Forall_forall in *.
    intros y [_ Hy]%elem_of_filter_b. by apply Hx.
  - rewrite (Permutation_map row_event (merge_sort_Permutation row_ge sel)), Hperm, <- listing_perm.
    destruct (decide (id = "")) as [E|E].
    + rewrite forallb_filter_id; [done|]. apply forallb_forall. intros. by rewrite bool_decide_eq_true_2.
    + rewrite resume_filter by done. erewrite List.filter_ext; [reflexivity|]. intros a. by rewrite (bool_decide_eq_false_2 (id = "")).
Qed.

Lemma scan_row_summary rows x :
  rows_ok rows -> rows !! x.1 = Some x.2 -> scan_row x = summary (row_event x).
Proof.
  intros Hok Hx. destruct (row_event_key _ _ Hok Hx) as [Ei Et].
  unfold scan_row, summary. rewrite Ei, Et. done.
Qed.

Lemma sqlite_Insert_rows_ok fuel ev payload now d e d' :
  rows_ok (td_rows d) -> sqlite_Insert fuel ev payload now d = Some (e, d') -> rows_ok (td_rows d').
Proof.
  intros Hok. unfold sqlite_Insert. destruct (pop (td_faults d)) as [[] fs]; [by intros [= <- <-]|].
  set (rows := <[_ := _]> _).
  assert (rows_ok rows) as Hok1.
  { intros id r [[<- <-]|[_ Hr]]%lookup_insert_Some; [done|]. by apply Hok. }
  assert (forall fuel n m rows fs r fs', rows_ok rows -> evict_bytes fuel n m rows fs = Some (Ok r, fs') -> rows_ok r) as Hev.
  { clear. induction fuel as [|fuel IH]; intros n m rows fs r fs' Hok; [done|]. simpl.
    destruct (pop fs) as [[] fs1]; [done|]. case_bool_decide; [by intros [= <- <-]|].
    destruct (pop fs1) as [[] fs2]; [done|].
    assert (rows_ok (delete_oldest n rows)) as Hd.
    { intros id x. unfold delete_oldest. rewrite lookup_delete_keys. case_decide; [done|]. apply Hok. }
    case_decide; [intros [= <- <-]; exact Hd|]. by apply IH. }
  unfold evictTx. destruct (pop fs) as [[] fs1]; [by intros [= <- <-]|].
  destruct (evict_bytes _ _ _ _ _) as [[[r|err] fs2]|] eqn:Er; [|by intros [= <- <-]|done].
  destruct (pop fs2) as [[] fs3]; intros [= <- <-]; [done|]. simpl. apply (Hev _ _ _ _ _ _ _) in Er; [done|].
  intros id x [Hx _]%map_lookup_filter_Some. by apply Hok1.
Qed.

Lemma last_map {A B} (f : A -> B) l : last (map f l) = f <$> last l.
Proof. apply fmap_last. Qed.

Lemma take_map {A B} (f : A -> B) n l : take n (map f l) = map f (take n l).
Proof. symmetry. apply fmap_take. Qed.

(** The rows of a page, as [List] scans them. *)
Lemma select_summaries `{CursorCodec} `{SqlLikeLaws} o rows s ts id n :
  same_query o rows -> mirrors rows s -> DecodeCursor (lo_Cursor o) = Ok (ts, id) ->
  map scan_row (select o ts id n rows) =
  take n (map summary (if decide (id = "") then listing o s else resume ts id (listing o s))).
Proof.
  intros Hq Hm Hd. rewrite <- (select_listing o rows s ts id Hq Hm Hd), map_map. unfold select.
  rewrite <- take_map. f_equal. apply map_ext_in.
  intros x Hx%list_elem_of_In. rewrite merge_sort_Permutation in Hx.
  apply elem_of_filter_b in Hx as [_ Hx%elem_of_rows]. destruct Hm as (_ & Hok & _).
  by apply (scan_row_summary rows).
Qed.

(** C35. The database lists what the in-memory store lists.  Take a table and
    an in-memory store that hold the same events, instants rounded to the
    millisecond, and a query whose lower bound and cursor are whole
    milliseconds and whose prefix is ASCII and matched by the stored URLs the
    same whatever its case (LIKE ignores case, the in-memory store does not).
    Then
    the page and the cursor [List] answers with are those of the in-memory
    store, filters, order and limit included, and [Get] finds the same events;
    a database failure is reported as an error and neither changes the table. *)
Theorem sqlite_reads_as_memory `{CursorCodec} `{SqlLikeLaws} (o : ListOpts) (d : trafficDB) (s : memoryStore)
    (Hm : mirrors (td_rows d) s) (Hq : same_query o (td_rows d)) :
  td_rows (sqlite_List o d).2 = td_rows d /\
  ((sqlite_List o d).1 = List_ o s \/
   exists ctx, (sqlite_List o d).1 = Err (EWrap ctx disk_error) /\ true ∈ td_faults d) /\
  forall id, td_rows (sqlite_Get id d).2 = td_rows d /\
    match (sqlite_Get id d).1 with
    | Ok ev => Get id s = Ok (rounded ev)
    | Err e => Get id s = Err e \/ true ∈ td_faults d
    end.
Proof.
  split; [|split].
  - unfold sqlite_List. destruct (DecodeCursor _) as [[ts id]|e]; [|done].
    destruct (pop (td_faults d)) as [[] fs]; [done|]. by destruct (pop fs) as [[] fs'].
  - unfold sqlite_List, List_. destruct (DecodeCursor (lo_Cursor o)) as [[ts id]|e] eqn:Ed; [|by left].
    destruct (td_faults d) as [|[] [|[] fs]]; simpl; try (right; eexists; split; [reflexivity|set_solver]); left.
    all: rewrite (select_summaries o _ s ts id _ Hq Hm Ed); fold (listing o s).
    all: set (M := if decide (id = "") then _ else _); set (n := Z.to_nat _).
    all: rewrite length_take, length_map, (bool_decide_ext (n < (n + 1) `min` length M) (n < length M)) by lia.
    all: rewrite take_take, Nat.min_l by lia; rewrite take_map, last_map.
    all: case_bool_decide; [|by rewrite !take_ge by (rewrite ?length_map; lia)].
    all: by destruct (last (take n M)).
  - intros id. unfold sqlite_Get, Get. destruct Hm as (_ & _ & Hm). specialize (Hm id).
    destruct (td_faults d) as [|[] fs]; simpl; try (split; [done|]; right; set_solver); (split; [done|]).
    all: destruct (td_rows d !! id) as [r|], (ms_byID s !! id) as [e|]; try done; simpl in *; [|by left].
    all: by injection Hm as ->.
Qed.

(** ** Examples *)

(** [LIKE] with [\] as its escape character. *)
Fixpoint demo_like (p : string) {struct p} : string -> bool :=
  match p with
  | EmptyString => fun s => bool_decide (s = "")
  | String c p' =>
      if decide (c = percent) then
        fix any s := demo_like p' s || match s with EmptyString => false | String _ s' => any s' end
      else if decide (c = backslash) then
        match p' with
        | EmptyString => fun _ => false
        | String e p'' => fun s =>
            match s with
            | EmptyString => false
            | String d s' => bool_decide (lower_byte e = lower_byte d) && demo_like p'' s'
            end
        end
      else fun s =>
        match s with
        | EmptyString => false
        | String d s' =>
            (bool_decide (c = "_"%char) || bool_decide (lower_byte c = lower_byte d)) && demo_like p' s'
        end
  end.

#[export] Instance demo_sql_like : SqlLike := demo_like.

#[export] Instance demo_sql_like_laws : SqlLikeLaws.
Proof.
  split; unfold sql_like, demo_sql_like.
  - intros s. by induction s.
  - intros c p d s _ _ H1 H2 H3. simpl. rewrite !decide_False by done. by rewrite (bool_decide_eq_false_2 (c = _)).
  - intros c p d s _ _. reflexivity.
  - intros c p Hc. simpl. rewrite decide_False by done. case_decide; [|done]. by destruct p.
Qed.

Definition demo_rows : event_table :=
  {[ "a" := mkRow 0 6 (demo_event "a" 5); "b" := mkRow 0 6 (demo_event "b" 999999) ]}.

Definition demo_mirror : memoryStore :=
  insert_all [(demo_event "a" 0, 10%Z); (demo_event "b" 0, 11%Z)] (newMemoryStore (mkOptions 0 0)).

Lemma demo_rows_all (P : string -> event_row -> Prop) :
  P "a" (mkRow 0 6 (demo_event "a" 5)) -> P "b" (mkRow 0 6 (demo_event "b" 999999)) ->
  forall id r, demo_rows !! id = Some r -> P id r.
Proof.
  intros Ha Hb id r Hr. unfold demo_rows in Hr.
  apply lookup_insert_Some in Hr as [[<- <-]|[_ [<- <-]%lookup_singleton_Some]]; done.
Qed.

Lemma demo_mirrors : mirrors demo_rows demo_mirror.
Proof.
  split; [apply insert_all_inv, newMemoryStore_inv|]. split.
  - refine (demo_rows_all _ _ _); by vm_compute.
  - assert (ms_byID demo_mirror = {[ "a" := mkElem 0 (demo_event "a" 0) 142;
      "b" := mkElem 1 (demo_event "b" 0) 142 ]}) as -> by (vm_compute; reflexivity).
    intros id. unfold demo_rows. destruct (decide (id = "a")) as [->|Ha]; [vm_compute; reflexivity|].
    rewrite !(lookup_insert_ne _ "a") by done. destruct (decide (id = "b")) as [->|Hb]; [vm_compute; reflexivity|].
    by rewrite !lookup_singleton_ne.
Qed.

Definition demo_query (prefix : string) : ListOpts :=
  mkListOpts "api" [] "" "" "" prefix zero_time zero_time None 1 (demo_encode 0 "b").

Lemma demo_same_query : same_query (demo_query "/") demo_rows.
Proof.
  split.
  - vm_compute. reflexivity.
  - intros ts id. unfold DecodeCursor. simpl. by intros [= <- _].
  - vm_compute. reflexivity.
  - refine (demo_rows_all _ _ _); by vm_compute.
Qed.

(** The second page of one row; both rows fall in one millisecond. *)
Lemma sqlite_reads_as_memory_witness :
  let d := mkTrafficDB (mkOptions 0 0) demo_rows [] in
  List_ (demo_query "/") demo_mirror = Ok ([summary (demo_event "a" 0)], "") /\
  (sqlite_List (demo_query "/") d).1 = Ok ([summary (demo_event "a" 0)], "").
Proof.
  assert (List_ (demo_query "/") demo_mirror = Ok ([summary (demo_event "a" 0)], "")) as E
    by (vm_compute; reflexivity).
  split; [exact E|]. rewrite <- E.
  destruct (sqlite_reads_as_memory (demo_query "/") (mkTrafficDB (mkOptions 0 0) demo_rows []) demo_mirror
    demo_mirrors demo_same_query) as (_ & [H|(ctx & _ & H)] & _); [exact H|].
  by apply not_elem_of_nil in H.
Defined.

(** A prefix of another case finds nothing in memory and every row in the
    database. *)
Definition upper_event (id : string) (ts : Z) : Event :=
  mkEvent id ts "" "GET" "/Drive/v3" [] "" "api" "" [] [] "permit" "" [] 200 [] "" 0 "" false.

Definition all_with_prefix (prefix : string) : ListOpts :=
  mkListOpts "" [] "" "" "" prefix zero_time zero_time None 10 "".

Example prefix_case_differs :
  List_ (all_with_prefix "/drive") (insert_all [(upper_event "a" 0, 0%Z)] (newMemoryStore (mkOptions 0 0))) = Ok ([], "") /\
  (sqlite_List (all_with_prefix "/drive")
    (mkTrafficDB (mkOptions 0 0) {[ "a" := mkRow 0 6 (upper_event "a" 0) ]} [])).1 =
  Ok ([summary (upper_event "a" 0)], "").
Proof. split; vm_compute; reflexivity. Qed.
