(* ===== verification/Recorder.v ===== *)
(** * The asynchronous recorder: [internal/control/traffic/recorder.go]

    A bounded channel between the proxy's goroutines and one writer, and a
    read-write mutex that keeps [Close] apart from [Record].  Each action below
    is one atomic step of one goroutine.  A drop takes three ([Add], [Load],
    [CompareAndSwap]) under the read lock and other goroutines may run between
    them; [Close] asks for the write lock, gets it when no reader is left, and
    waits for the writer; a [Record] that comes while a [Close] asks queues
    behind it, as sync.RWMutex documents.  The writer receives, sanitises and
    calls [Insert], which returns when the store pleases, with success or an
    error that is logged.  Counters are 64-bit.  Log lines and what was offered
    are ghosts of the trace, not of the code. *)

From S2P Require Import Prelude GoStd Traffic.

Definition u64 (n : Z) : Z := n mod 2 ^ 64.

(** Where a goroutine stands: in [onDrop] with the read lock, waiting for the
    read lock, or inside [Close]. *)
Inductive pc : Type :=
  | AtAdd
  | AtLoad (total : Z)
  | AtCAS (total last : Z)
  | AtRLock (ev : Event)
  | AtLock
  | AtExitCh.

Definition holds_rlock (p : pc) : bool :=
  match p with AtAdd | AtLoad _ | AtCAS _ _ => true | _ => false end.

Definition asks_lock (p : pc) : bool := match p with AtLock => true | _ => false end.

Record recorder := mkRecorder {
  rc_in : list Event;
  rc_cap : nat;
  rc_hand : option Event;
  rc_closed : bool;
  rc_exited : bool;
  rc_dropped : Z;
  rc_loggedDrops : Z;
  rc_dropLogEvery : Z;
  rc_sanitize : SanitizeOptions;
  rc_threads : gmap nat pc
}.

Definition DefaultBufferSize : Z := 1024.
Definition DefaultDropLogEvery : Z := 100.

Definition NewAsyncRecorder (bufferSize dropLogEvery : Z) (o : SanitizeOptions) : recorder :=
  mkRecorder [] (Z.to_nat (if bool_decide (bufferSize <= 0)%Z then DefaultBufferSize else bufferSize))
    None false false 0 0 (if bool_decide (dropLogEvery = 0)%Z then DefaultDropLogEvery else dropLogEvery) o ∅.

Inductive action : Type :=
  | DoRecord (tid : nat) (ev : Event)
  | DoRLock (tid : nat)
  | DoAdd (tid : nat)
  | DoLoad (tid : nat)
  | DoCAS (tid : nat)
  | DoLock (tid : nat)
  | DoClose (tid : nat)
  | DoReturn (tid : nat)
  | DoReceive
  | DoInsert (ok : bool)
  | DoExit.

(** What a step shows outside; [Wrote] is the call of [Insert], [Stored] and
    [Failed] its two ends. *)
Inductive effect : Type :=
  | NoEffect
  | Accepted (ev : Event)
  | Refused (ev : Event)
  | Late (ev : Event)
  | Wrote (ev : Event)
  | Stored (ev : Event)
  | Failed (ev : Event)
  | Logged (total : Z).

Definition set_in (q : list Event) (hand : option Event) (r : recorder) : recorder :=
  mkRecorder q (rc_cap r) hand (rc_closed r) (rc_exited r) (rc_dropped r) (rc_loggedDrops r)
    (rc_dropLogEvery r) (rc_sanitize r) (rc_threads r).

Definition set_threads (t : gmap nat pc) (r : recorder) : recorder :=
  mkRecorder (rc_in r) (rc_cap r) (rc_hand r) (rc_closed r) (rc_exited r) (rc_dropped r) (rc_loggedDrops r)
    (rc_dropLogEvery r) (rc_sanitize r) t.

Definition set_counts (dropped logged : Z) (r : recorder) : recorder :=
  mkRecorder (rc_in r) (rc_cap r) (rc_hand r) (rc_closed r) (rc_exited r) dropped logged
    (rc_dropLogEvery r) (rc_sanitize r) (rc_threads r).

Definition set_flags (closed exited : bool) (r : recorder) : recorder :=
  mkRecorder (rc_in r) (rc_cap r) (rc_hand r) closed exited (rc_dropped r) (rc_loggedDrops r)
    (rc_dropLogEvery r) (rc_sanitize r) (rc_threads r).

(** Whether the two locks can be had. *)
Definition no_reader (t : gmap nat pc) : Prop := map_Forall (fun _ p => holds_rlock p = false) t.
Definition no_closer (t : gmap nat pc) : Prop := map_Forall (fun _ p => asks_lock p = false) t.

#[export] Instance no_reader_dec t : Decision (no_reader t).
Proof. unfold no_reader. apply _. Defined.
#[export] Instance no_closer_dec t : Decision (no_closer t).
Proof. unfold no_closer. apply _. Defined.

(** [Record] once it has the read lock; a drop keeps it. *)
Definition record_body (tid : nat) (ev : Event) (r : recorder) : effect * recorder :=
  let gone := set_threads (delete tid (rc_threads r)) r in
  if rc_closed r then (Late ev, gone)
  else if bool_decide (length (rc_in r) < rc_cap r)
  then (Accepted ev, set_in (rc_in r ++ [ev]) (rc_hand r) gone)
  else (Refused ev, set_threads (<[tid := AtAdd]> (rc_threads r)) r).

(** One step; [None] when the goroutine cannot take it. *)
Definition act (a : action) (r : recorder) : option (effect * recorder) :=
  match a with
  | DoRecord tid ev =>
      match rc_threads r !! tid with
      | Some _ => None
      | None =>
          if decide (no_closer (rc_threads r)) then Some (record_body tid ev r)
          else Some (NoEffect, set_threads (<[tid := AtRLock ev]> (rc_threads r)) r)
      end
  | DoRLock tid =>
      match rc_threads r !! tid with
      | Some (AtRLock ev) =>
          if decide (no_closer (rc_threads r)) then Some (record_body tid ev r) else None
      | _ => None
      end
  | DoAdd tid =>
      match rc_threads r !! tid with
      | Some AtAdd =>
          let total := u64 (rc_dropped r + 1) in
          Some (NoEffect, set_threads (<[tid := AtLoad total]> (rc_threads r))
                            (set_counts total (rc_loggedDrops r) r))
      | _ => None
      end
  | DoLoad tid =>
      match rc_threads r !! tid with
      | Some (AtLoad total) =>
          let last := rc_loggedDrops r in
          if bool_decide (u64 (total - last) < rc_dropLogEvery r)%Z
          then Some (NoEffect, set_threads (delete tid (rc_threads r)) r)
          else Some (NoEffect, set_threads (<[tid := AtCAS total last]> (rc_threads r)) r)
      | _ => None
      end
  | DoCAS tid =>
      match rc_threads r !! tid with
      | Some (AtCAS total last) =>
          let r' := set_threads (delete tid (rc_threads r)) r in
          if bool_decide (rc_loggedDrops r = last)
          then Some (Logged total, set_counts (rc_dropped r) total r')
          else Some (NoEffect, r')
      | _ => None
      end
  | DoLock tid =>
      match rc_threads r !! tid with
      | Some _ => None
      | None => Some (NoEffect, set_threads (<[tid := AtLock]> (rc_threads r)) r)
      end
  | DoClose tid =>
      match rc_threads r !! tid with
      | Some AtLock =>
          if decide (no_reader (rc_threads r)) then
            if rc_closed r then Some (NoEffect, set_threads (delete tid (rc_threads r)) r)
            else Some (NoEffect, set_flags true (rc_exited r)
                                   (set_threads (<[tid := AtExitCh]> (rc_threads r)) r))
          else None
      | _ => None
      end
  | DoReturn tid =>
      match rc_threads r !! tid with
      | Some AtExitCh =>
          if rc_exited r then Some (NoEffect, set_threads (delete tid (rc_threads r)) r) else None
      | _ => None
      end
  | DoReceive =>
      match rc_hand r, rc_in r with
      | None, ev :: q =>
          if rc_exited r then None
          else let ev := Sanitize ev (rc_sanitize r) in Some (Wrote ev, set_in q (Some ev) r)
      | _, _ => None
      end
  | DoInsert ok =>
      match rc_hand r with
      | Some ev => Some (if ok then Stored ev else Failed ev, set_in (rc_in r) None r)
      | None => None
      end
  | DoExit =>
      if rc_closed r && bool_decide (rc_in r = []) && negb (is_some_b (rc_hand r)) && negb (rc_exited r)
      then Some (NoEffect, set_flags (rc_closed r) true r) else None
  end.

Fixpoint run (l : list action) (r : recorder) : option (list effect * recorder) :=
  match l with
  | [] => Some ([], r)
  | a :: l =>
      '(e, r) ← act a r;
      '(es, r) ← run l r;
      Some (e :: es, r)
  end.

(** *** Reading a trace *)

Definition accepted (es : list effect) : list Event :=
  omap (fun e => match e with Accepted ev => Some ev | _ => None end) es.
Definition refused (es : list effect) : list Event :=
  omap (fun e => match e with Refused ev => Some ev | _ => None end) es.
Definition written (es : list effect) : list Event :=
  omap (fun e => match e with Wrote ev => Some ev | _ => None end) es.
Definition answered (es : list effect) : list Event :=
  omap (fun e => match e with Stored ev | Failed ev => Some ev | _ => None end) es.
Definition logged (es : list effect) : list Z :=
  omap (fun e => match e with Logged n => Some n | _ => None end) es.

(** Goroutines that have been refused but not yet counted. *)
Definition uncounted_pc (p : pc) : bool := match p with AtAdd => true | _ => false end.

Definition uncounted (t : gmap nat pc) : nat := size (filter (fun kp => uncounted_pc kp.2 = true) t).

#[local] Arguments uncounted : simpl never.
#[local] Arguments u64 : simpl never.

Definition count_of (p : option pc) : nat := match p with Some AtAdd => 1 | _ => 0 end.

(** One goroutine moves. *)
Lemma uncounted_insert t i p :
  uncounted (<[i := p]> t) + count_of (t !! i) = uncounted t + count_of (Some p).
Proof.
  assert (forall t, t !! i = None -> uncounted (<[i := p]> t) = uncounted t + count_of (Some p)) as Hnew.
  { clear t. intros t Hi. unfold uncounted. destruct (decide (uncounted_pc p = true)) as [Hp|Hp].
    - rewrite map_filter_insert_True by done. rewrite map_size_insert_None.
      + destruct p; try done. simpl. lia.
      + apply map_lookup_filter_None. by left.
    - rewrite map_filter_insert_False by done. rewrite delete_id by done.
      destruct p; simpl; try lia. by destruct Hp. }
  assert (forall q, t !! i = Some q -> uncounted t = uncounted (delete i t) + count_of (Some q)) as Hold.
  { intros q Hq. rewrite <- (insert_delete_id t i q Hq) at 1. unfold uncounted at 1 2.
    assert (delete i t !! i = None) as Hd by apply lookup_delete_eq.
    destruct (decide (uncounted_pc q = true)) as [Hp|Hp].
    - rewrite map_filter_insert_True by done. rewrite map_size_insert_None.
      + destruct q; try done. simpl. lia.
      + apply map_lookup_filter_None. by left.
    - rewrite map_filter_insert_False by done. rewrite delete_id by done.
      destruct q; simpl; try lia. by destruct Hp. }
  destruct (t !! i) as [q|] eqn:Hi; [|rewrite Hnew by done; simpl; lia].
  rewrite <- insert_delete_eq, (Hnew (delete i t)), (Hold q eq_refl) by apply lookup_delete_eq. lia.
Qed.

Lemma uncounted_delete t i : uncounted (delete i t) + count_of (t !! i) = uncounted t.
Proof.
  destruct (t !! i) as [q|] eqn:Hi.
  - pose proof (uncounted_insert (delete i t) i q) as H. rewrite lookup_delete_eq in H.
    rewrite insert_delete_id in H by done. simpl in *. lia.
  - rewrite delete_id by done. simpl. lia.
Qed.

(** What holds of every recorder that a run reaches. *)
Record rec_inv (r : recorder) : Prop := {
  ri_cap : length (rc_in r) <= rc_cap r;
  ri_closed : rc_closed r = true -> no_reader (rc_threads r);
  ri_exited : rc_exited r = true -> rc_closed r = true /\ rc_in r = [] /\ rc_hand r = None
}.

(** One step, on the channel, on the writer's hand and on the counter. *)
Record step_ok (e : effect) (r r' : recorder) : Prop := {
  so_inv : rec_inv r';
  so_opts : rc_sanitize r' = rc_sanitize r;
  so_queue : written [e] ++ map (fun ev => Sanitize ev (rc_sanitize r)) (rc_in r') =
             map (fun ev => Sanitize ev (rc_sanitize r)) (rc_in r ++ accepted [e]);
  so_hand : answered [e] ++ option_list (rc_hand r') = option_list (rc_hand r) ++ written [e];
  so_count : u64 (rc_dropped r' + Z.of_nat (uncounted (rc_threads r'))) =
             u64 (rc_dropped r + Z.of_nat (uncounted (rc_threads r) + length (refused [e])))
}.

Lemma u64_add a b : u64 (u64 a + b) = u64 (a + b).
Proof. unfold u64. by rewrite Zplus_mod_idemp_l. Qed.

Lemma reader_closed r tid p :
  rec_inv r -> rc_threads r !! tid = Some p -> holds_rlock p = true -> rc_closed r = false.
Proof.
  intros Hi Ht Hp. destruct (rc_closed r) eqn:Ec; [|done]. apply (ri_closed _ Hi) in Ec.
  specialize (Ec _ _ Ht). simpl in Ec. congruence.
Qed.

Lemma no_reader_insert t i p : holds_rlock p = false -> no_reader t -> no_reader (<[i := p]> t).
Proof. intros. by apply map_Forall_insert_2. Qed.

Lemma no_reader_delete t i : no_reader t -> no_reader (delete i t).
Proof. apply map_Forall_delete. Qed.

(** A step that only moves a goroutine. *)
Lemma moved_ok e r t :
  rec_inv r -> (rc_closed r = true -> no_reader t) ->
  written [e] = [] -> accepted [e] = [] -> answered [e] = [] ->
  uncounted t = uncounted (rc_threads r) + length (refused [e]) -> step_ok e r (set_threads t r).
Proof.
  intros [Hcap Hcl Hex] Ht Hw Ha Hn Hc. split; [by split|done|..].
  - by rewrite Hw, Ha, app_nil_r.
  - by rewrite Hw, Hn, app_nil_r.
  - cbn [rc_threads rc_dropped set_threads]. by rewrite Hc.
Qed.

Lemma record_ok tid ev r :
  rec_inv r -> count_of (rc_threads r !! tid) = 0 ->
  (forall p, rc_threads r !! tid = Some p -> holds_rlock p = false) ->
  step_ok (record_body tid ev r).1 r (record_body tid ev r).2.
Proof.
  intros Hi Ht Hr. pose proof (uncounted_delete (rc_threads r) tid) as Hd. rewrite Ht, Nat.add_0_r in Hd.
  assert (rc_closed r = true -> no_reader (delete tid (rc_threads r))) as Hno.
  { intros Hc. apply no_reader_delete. by apply Hi. }
  unfold record_body. destruct (rc_closed r) eqn:Ec.
  { apply moved_ok; try done; [intros; by apply Hno|simpl; lia]. }
  pose proof Hi as [Hcap _ Hex]. assert (rc_exited r = false) as Ee.
  { destruct (rc_exited r); [|done]. destruct (Hex eq_refl) as [? _]. congruence. }
  case_bool_decide as Hl; simpl.
  - split; [split|..]; simpl; rewrite ?Ee, ?app_nil_r, ?Nat.add_0_r; try done.
    + rewrite length_app. simpl. lia.
    + congruence.
    + by rewrite Hd.
  - apply moved_ok; try done; try (intros; congruence). simpl.
    pose proof (uncounted_insert (rc_threads r) tid AtAdd) as H1. change (count_of (Some AtAdd)) with 1 in H1. simpl. lia.
Qed.

Lemma act_ok a r e r' : rec_inv r -> act a r = Some (e, r') -> step_ok e r r'.
Proof.
  intros Hi. pose proof Hi as [Hcap Hcl Hex].
  destruct a as [tid ev|tid|tid|tid|tid|tid|tid|tid| |ok|]; simpl.
  - destruct (rc_threads r !! tid) eqn:Ht; [done|]. case_decide.
    + intros E. injection E as E. replace e with (record_body tid ev r).1 by (by rewrite E).
      replace r' with (record_body tid ev r).2 by (by rewrite E).
      apply record_ok; [done|by rewrite Ht|by rewrite Ht].
    + intros [= <- <-]. apply moved_ok; try done; [intros; apply no_reader_insert; auto|].
      pose proof (uncounted_insert (rc_threads r) tid (AtRLock ev)) as H1. rewrite Ht in H1. simpl in *. lia.
  - destruct (rc_threads r !! tid) as [[| | |ev| |]|] eqn:Ht; try done. case_decide; [|done].
    intros E. injection E as E. replace e with (record_body tid ev r).1 by (by rewrite E).
    replace r' with (record_body tid ev r).2 by (by rewrite E).
    apply record_ok; [done|by rewrite Ht|]. rewrite Ht. by intros p [= <-].
  - destruct (rc_threads r !! tid) as [[]|] eqn:Ht; try done. intros [= <- <-].
    pose proof (reader_closed _ _ _ Hi Ht eq_refl) as Ec.
    split; [split|..]; simpl; rewrite ?app_nil_r; try done; try (intros; congruence).
    rewrite u64_add. f_equal.
    pose proof (uncounted_insert (rc_threads r) tid (AtLoad (u64 (rc_dropped r + 1)))) as H1.
    rewrite Ht in H1. simpl in H1. lia.
  - destruct (rc_threads r !! tid) as [[]|] eqn:Ht; try done.
    pose proof (reader_closed _ _ _ Hi Ht eq_refl) as Ec.
    case_bool_decide; intros [= <- <-]; (apply moved_ok; try done; try (intros; congruence); simpl).
    + pose proof (uncounted_delete (rc_threads r) tid) as H1. rewrite Ht in H1. simpl in H1. lia.
    + pose proof (uncounted_insert (rc_threads r) tid (AtCAS total (rc_loggedDrops r))) as H1.
      rewrite Ht in H1. simpl in H1. lia.
  - destruct (rc_threads r !! tid) as [[]|] eqn:Ht; try done.
    pose proof (reader_closed _ _ _ Hi Ht eq_refl) as Ec.
    pose proof (uncounted_delete (rc_threads r) tid) as H1. rewrite Ht in H1. simpl in H1.
    case_bool_decide; intros [= <- <-].
    + split; [split|..]; simpl; rewrite ?app_nil_r; try done; try (intros; congruence). do 2 f_equal. lia.
    + apply moved_ok; try done; try (intros; congruence). simpl. lia.
  - destruct (rc_threads r !! tid) eqn:Ht; [done|]. intros [= <- <-].
    apply moved_ok; try done; [intros; apply no_reader_insert; auto|].
    pose proof (uncounted_insert (rc_threads r) tid AtLock) as H1. rewrite Ht in H1. simpl in *. lia.
  - destruct (rc_threads r !! tid) as [[]|] eqn:Ht; try done. case_decide as Hn; [|done].
    destruct (rc_closed r) eqn:Ec; intros [= <- <-].
    + pose proof (uncounted_delete (rc_threads r) tid) as H1. rewrite Ht in H1. simpl in H1.
      apply moved_ok; try done; [intros; by apply no_reader_delete|simpl; lia].
    + pose proof (uncounted_insert (rc_threads r) tid AtExitCh) as H1. rewrite Ht in H1. simpl in H1.
      split; [split|..]; simpl; rewrite ?app_nil_r; try done.
      * intros _. by apply no_reader_insert.
      * intros Ee. by destruct (Hex Ee).
      * do 2 f_equal. lia.
  - destruct (rc_threads r !! tid) as [[]|] eqn:Ht; try done. destruct (rc_exited r); [|done].
    intros [= <- <-]. pose proof (uncounted_delete (rc_threads r) tid) as H1. rewrite Ht in H1. simpl in H1.
    apply moved_ok; try done; [intros; apply no_reader_delete; auto|simpl; lia].
  - destruct (rc_hand r) eqn:Eh; [done|]. destruct (rc_in r) as [|ev q] eqn:Eq; [done|].
    destruct (rc_exited r) eqn:Ee; [done|]. intros [= <- <-].
    split; [split|..]; simpl in *; rewrite ?Eq, ?Eh, ?app_nil_r, ?Nat.add_0_r, ?Ee; auto; try lia; done.
  - destruct (rc_hand r) as [ev|] eqn:Eh; [|done]. intros [= <- <-].
    assert (rc_exited r = false) as Ee by (destruct (rc_exited r); [by destruct Hex as (_ & _ & ?)|done]).
    destruct ok; (split; [split|..]); simpl in *; rewrite ?Eh, ?app_nil_r, ?Nat.add_0_r, ?Ee; auto; done.
  - destruct (_ && _ && _ && _) eqn:E; [|done]. intros [= <- <-].
    rewrite !andb_true_iff, !negb_true_iff, bool_decide_eq_true in E. destruct E as [[[Ec Eq] Eh] Ee].
    destruct (rc_hand r) eqn:Ehd; [done|].
    split; [split|..]; simpl; rewrite ?app_nil_r, ?Nat.add_0_r, ?Ehd; auto.
Qed.

Lemma NewAsyncRecorder_inv b n o : rec_inv (NewAsyncRecorder b n o).
Proof. split; simpl; [lia|done|done]. Qed.

Lemma effects_cons e es :
  written (e :: es) = written [e] ++ written es /\
  accepted (e :: es) = accepted [e] ++ accepted es /\
  refused (e :: es) = refused [e] ++ refused es /\
  answered (e :: es) = answered [e] ++ answered es.
Proof. by destruct e. Qed.

Lemma run_ok l r es r' :
  rec_inv r -> run l r = Some (es, r') ->
  rec_inv r' /\ rc_sanitize r' = rc_sanitize r /\
  written es ++ map (fun ev => Sanitize ev (rc_sanitize r)) (rc_in r') =
    map (fun ev => Sanitize ev (rc_sanitize r)) (rc_in r ++ accepted es) /\
  answered es ++ option_list (rc_hand r') = option_list (rc_hand r) ++ written es /\
  u64 (rc_dropped r' + Z.of_nat (uncounted (rc_threads r'))) =
    u64 (rc_dropped r + Z.of_nat (uncounted (rc_threads r) + length (refused es))).
Proof.
  revert r es. induction l as [|a l IH]; intros r es Hi; cbn [run].
  { intros [= <- <-]. cbn [accepted refused written answered omap list_omap].
    by rewrite !app_nil_r, Nat.add_0_r. }
  destruct (act a r) as [[e r1]|] eqn:Ea; [|done]. cbn [mbind option_bind].
  destruct (run l r1) as [[es1 r2]|] eqn:Er; [|done]. intros [= <- <-].
  destruct (act_ok _ _ _ _ Hi Ea) as [Hi1 Ho Hq Hh Hc].
  destruct (IH _ _ Hi1 Er) as (Hi2 & Ho2 & Hq2 & Hh2 & Hc2). rewrite Ho in *.
  destruct (effects_cons e es1) as (-> & -> & -> & ->). split; [done|]. split; [done|]. split; [|split].
  - rewrite <- app_assoc, Hq2, map_app, app_assoc, Hq, <- map_app. by rewrite app_assoc.
  - by rewrite <- app_assoc, Hh2, app_assoc, Hh, app_assoc.
  - rewrite Hc2, length_app. rewrite Nat2Z.inj_add, Z.add_assoc, <- u64_add, Hc, u64_add. f_equal. lia.
Qed.

(** A closed recorder can always finish: the writer drains what is left. *)
Definition drain (r : recorder) : list action :=
  match rc_hand r with Some _ => [DoInsert true] | None => [] end ++
  concat (repeat [DoReceive; DoInsert true] (length (rc_in r))) ++ [DoExit].

Lemma drain_exits r :
  rec_inv r -> rc_closed r = true -> rc_exited r = false ->
  exists es r', run (drain r) r = Some (es, r') /\ rc_exited r' = true.
Proof.
  assert (forall r, rec_inv r -> rc_closed r = true -> rc_exited r = false -> rc_hand r = None ->
    exists es r', run (concat (repeat [DoReceive; DoInsert true] (length (rc_in r))) ++ [DoExit]) r = Some (es, r') /\
      rc_exited r' = true) as Hfree.
  { clear r. intros r Hi Hc Hx Hh. remember (rc_in r) as q eqn:Eq. revert r Hi Hc Hx Hh Eq.
    induction q as [|ev q IH]; intros r Hi Hc Hx Hh Eq; cbn [length repeat concat app run act].
    - rewrite Hc, <- Eq, Hx, Hh, bool_decide_eq_true_2 by done. cbn. by eexists _, _.
    - rewrite Hh, <- Eq, Hx. cbn [mbind option_bind rc_hand set_in].
      destruct (IH (set_in q None r)) as (es & r' & Hr & Hr'); try done.
      + eapply (so_inv _ (set_in q (Some (Sanitize ev (rc_sanitize r))) r)).
        eapply (act_ok (DoInsert true)); [|reflexivity].
        eapply (so_inv _ r). eapply (act_ok DoReceive); [done|]. simpl. by rewrite Hh, <- Eq, Hx.
      + unfold set_in in Hr |- *. simpl in Hr |- *. rewrite Hr. cbn. by eexists _, _. }
  intros Hi Hc Hx. unfold drain. destruct (rc_hand r) as [ev|] eqn:Eh; [|by apply Hfree].
  cbn [app run act]. rewrite Eh. cbn [mbind option_bind].
  destruct (Hfree (set_in (rc_in r) None r)) as (es & r' & Hr & Hr'); try done.
  - eapply (so_inv _ r). eapply (act_ok (DoInsert true)); [done|]. simpl. by rewrite Eh.
  - simpl in Hr |- *. rewrite Hr. cbn. by eexists _, _.
Qed.

(** *** Progress *)

(** The goroutine a step belongs to; [None] is the writer. *)
Definition owner (a : action) : option nat :=
  match a with
  | DoRecord t _ | DoRLock t | DoAdd t | DoLoad t | DoCAS t | DoLock t | DoClose t | DoReturn t => Some t
  | DoReceive | DoInsert _ | DoExit => None
  end.

Definition next_step (tid : nat) (p : pc) : action :=
  match p with
  | AtAdd => DoAdd tid
  | AtLoad _ => DoLoad tid
  | AtCAS _ _ => DoCAS tid
  | AtRLock _ => DoRLock tid
  | AtLock => DoClose tid
  | AtExitCh => DoReturn tid
  end.

(** Steps a goroutine with the read lock still has to take before [Record] returns. *)
Definition steps_left (p : option pc) : nat :=
  match p with Some AtAdd => 3 | Some (AtLoad _) => 2 | Some (AtCAS _ _) => 1 | _ => 0 end.

Definition writer_turn (a : action) : bool :=
  match a with DoReceive | DoInsert _ | DoExit => true | _ => false end.
Definition writer_turns (l : list action) : nat := length (List.filter writer_turn l).

Lemma drop_advances tid p r :
  rc_threads r !! tid = Some p -> holds_rlock p = true ->
  exists e r', act (next_step tid p) r = Some (e, r') /\ steps_left (rc_threads r' !! tid) < steps_left (Some p).
Proof.
  intros Ht Hp. destruct p as [|n|n m| | |]; try done; simpl; rewrite Ht; try case_bool_decide;
    do 2 eexists; (split; [done|]); simpl; rewrite ?lookup_insert_eq, ?lookup_delete_eq; simpl; lia.
Qed.

Lemma record_body_others tid j ev r :
  j <> tid -> rc_threads (record_body j ev r).2 !! tid = rc_threads r !! tid.
Proof.
  intros Hj. unfold record_body. destruct (rc_closed r); [|case_bool_decide]; simpl;
    by rewrite ?lookup_insert_ne, ?lookup_delete_ne.
Qed.

Lemma undisturbed a tid r e r' :
  owner a <> Some tid -> act a r = Some (e, r') -> rc_threads r' !! tid = rc_threads r !! tid.
Proof.
  intros Hne. destruct a as [j ev|j|j|j|j|j|j|j| |ok|]; simpl in *; try (assert (j <> tid) by congruence);
    repeat case_match; intros; simplify_eq/=; rewrite ?lookup_insert_ne, ?lookup_delete_ne by done; try done;
    match goal with E : record_body _ _ _ = _ |- _ =>
      apply (f_equal snd) in E; simpl in E; subst; by apply record_body_others
    end.
Qed.

(** While a [Close] asks for the lock no goroutine gets the read lock. *)
Lemma closing_bars a tid p r e r' :
  ~ no_closer (rc_threads r) -> act a r = Some (e, r') -> rc_threads r' !! tid = Some p -> holds_rlock p = true ->
  exists q, rc_threads r !! tid = Some q /\ holds_rlock q = true.
Proof.
  intros Hc Ha Hp Hh. destruct (decide (owner a = Some tid)) as [Ho|Ho].
  2: { exists p. by rewrite <- (undisturbed _ _ _ _ _ Ho Ha). }
  destruct a as [j ev|j|j|j|j|j|j|j| |ok|]; simpl in Ho; try done; injection Ho as ->; simpl in Ha;
    repeat case_match; try done; simplify_eq/=; rewrite ?lookup_insert_eq, ?lookup_delete_eq in Hp; simplify_eq/=;
    eauto.
Qed.

Lemma is_closer tid r : rc_threads r !! tid = Some AtLock -> ~ no_closer (rc_threads r).
Proof. intros Ht Hn. by specialize (Hn _ _ Ht). Qed.

(** What the writer has left to do: an [Insert] under way, two turns for each
    event of the queue, and its exit. *)
Definition writer_left (r : recorder) : nat :=
  if rc_exited r then 0 else 2 * length (rc_in r) + length (option_list (rc_hand r)) + 1.

Lemma closed_body tid ev r : rc_closed r = true -> record_body tid ev r = (Late ev, set_threads (delete tid (rc_threads r)) r).
Proof. intros Hc. unfold record_body. by rewrite Hc. Qed.

Lemma closed_step a r e r' :
  rec_inv r -> rc_closed r = true -> act a r = Some (e, r') ->
  rc_closed r' = true /\ accepted [e] = [] /\
  writer_left r = (if writer_turn a then 1 else 0) + writer_left r'.
Proof.
  intros Hi Hc. unfold writer_left. destruct a as [j ev|j|j|j|j|j|j|j| |ok|]; simpl.
  - destruct (rc_threads r !! j); [done|]. case_decide; rewrite ?closed_body by done; by intros [= <- <-].
  - destruct (rc_threads r !! j) as [[]|]; try done. case_decide; [|done].
    rewrite closed_body by done. by intros [= <- <-].
  - destruct (rc_threads r !! j) as [[]|] eqn:Ht; try done.
    pose proof (reader_closed _ _ _ Hi Ht eq_refl). congruence.
  - destruct (rc_threads r !! j) as [[]|] eqn:Ht; try done.
    pose proof (reader_closed _ _ _ Hi Ht eq_refl). congruence.
  - destruct (rc_threads r !! j) as [[]|] eqn:Ht; try done.
    pose proof (reader_closed _ _ _ Hi Ht eq_refl). congruence.
  - destruct (rc_threads r !! j); [done|]. by intros [= <- <-].
  - destruct (rc_threads r !! j) as [[]|]; try done. case_decide; [|done]. rewrite Hc. by intros [= <- <-].
  - destruct (rc_threads r !! j) as [[]|]; try done. destruct (rc_exited r) eqn:Ee; [|done].
    intros [= <- <-]. simpl. by rewrite Ee.
  - destruct (rc_hand r) eqn:Eh; [done|]. destruct (rc_in r) as [|ev q] eqn:Eq; [done|].
    destruct (rc_exited r) eqn:Ee; [done|]. intros [= <- <-]. simpl. rewrite Ee. split; [done|]. split; [done|]. lia.
  - destruct (rc_hand r) as [ev|] eqn:Eh; [|done]. intros [= <- <-]. split; [done|].
    split; [by destruct ok|]. simpl. destruct (rc_exited r) eqn:Ee; [|lia].
    destruct (ri_exited _ Hi Ee) as (_ & _ & ?). congruence.
  - rewrite Hc. destruct (_ && _ && _ && _) eqn:E; [|done]. intros [= <- <-].
    rewrite !andb_true_iff, !negb_true_iff, bool_decide_eq_true in E. destruct E as [[[_ Eq] Eh] Ee].
    destruct (rc_hand r) eqn:Ehd; [done|]. simpl. by rewrite Ee, Eq.
Qed.

Lemma closed_run l r es r' :
  rec_inv r -> rc_closed r = true -> run l r = Some (es, r') ->
  rc_closed r' = true /\ accepted es = [] /\ writer_left r = writer_turns l + writer_left r'.
Proof.
  revert r es. induction l as [|a l IH]; intros r es Hi Hc; cbn [run]; [by intros [= <- <-]|].
  destruct (act a r) as [[e r1]|] eqn:Ea; [|done]. cbn [mbind option_bind].
  destruct (run l r1) as [[es1 r2]|] eqn:Er; [|done]. intros [= <- <-].
  destruct (closed_step _ _ _ _ Hi Hc Ea) as (Hc1 & Ha & Hw).
  destruct (IH _ _ (so_inv _ _ _ (act_ok _ _ _ _ Hi Ea)) Hc1 Er) as (Hc2 & Ha2 & Hw2).
  destruct (effects_cons e es1) as (_ & -> & _). rewrite Ha, Ha2. split; [done|]. split; [done|].
  unfold writer_turns in *. simpl. rewrite Hw, Hw2. destruct (writer_turn a); simpl; lia.
Qed.

(** The writer is blocked by nothing but the store. *)
Lemma writer_enabled r :
  rc_closed r = true -> rc_exited r = false ->
  match rc_hand r, rc_in r with
  | Some _, _ => forall ok, is_Some (act (DoInsert ok) r)
  | None, [] => is_Some (act DoExit r)
  | None, _ => is_Some (act DoReceive r)
  end.
Proof.
  intros Hc Hx. destruct (rc_hand r) eqn:Eh; [intros ok; simpl; rewrite Eh; by eexists|].
  destruct (rc_in r) eqn:Eq; simpl; rewrite ?Eh, ?Eq, ?Hx, ?Hc; [|by eexists].
  rewrite bool_decide_eq_true_2 by done. by eexists.
Qed.

(** ** Properties *)

(** C37. The recorder loses nothing it accepted and counts what it refused.
    However proxies, writer and shutdown interleave, what the writer has handed
    to the store followed by what still waits in the channel is exactly the
    accepted events, sanitised, in the order they were accepted; every event
    handed over but the last has had its answer; the channel never exceeds its
    capacity; once closed, the drop counter is the number of refused events
    (modulo 2^64) and the writer can always drain to its exit; and when it has
    exited every accepted event has been handed to the store and answered. *)
Theorem recorder_loses_nothing (bufferSize every : Z) (o : SanitizeOptions) (l : list action)
    (es : list effect) (r : recorder)
    (Hrun : run l (NewAsyncRecorder bufferSize every o) = Some (es, r)) :
  let clean := map (fun ev => Sanitize ev o) in
  written es ++ clean (rc_in r) = clean (accepted es) /\
  answered es ++ option_list (rc_hand r) = written es /\
  length (rc_in r) <= rc_cap r /\
  (rc_closed r = true ->
     u64 (rc_dropped r) = u64 (Z.of_nat (length (refused es))) /\
     (rc_exited r = false ->
        exists es' r', run (drain r) r = Some (es', r') /\ rc_exited r' = true)) /\
  (rc_exited r = true -> written es = clean (accepted es) /\ answered es = written es).
Proof.
  destruct (run_ok _ _ _ _ (NewAsyncRecorder_inv bufferSize every o) Hrun) as (Hi & _ & Hq & Hh & Hc).
  simpl in Hq, Hh. split; [done|]. split; [done|]. split; [apply Hi|]. split.
  - intros Ec. split; [|by apply drain_exits].
    assert (uncounted (rc_threads r) = 0) as Hu.
    { unfold uncounted. apply map_size_empty_iff, map_empty. intros tid. apply map_lookup_filter_None. right.
      intros p Hp. pose proof (ri_closed _ Hi Ec _ _ Hp). by destruct p. }
    rewrite Hu in Hc. simpl in Hc. by rewrite Z.add_0_r in Hc.
  - intros Ex. destruct (ri_exited _ Hi Ex) as (_ & Ein & Eh). rewrite Ein in Hq. rewrite Eh in Hh.
    by rewrite app_nil_r in Hq, Hh.
Qed.

Definition tiny_event (id : string) : Event :=
  mkEvent id 0 "" "GET" "/" [mkKV "Cookie" "s"] "" "api" "" [] [] "permit" "" [] 200 [] "" 0 "" false.

Definition no_options : SanitizeOptions := mkSanitizeOptions 0 ∅ [].

Definition demo_actions : list action :=
  [DoRecord 0 (tiny_event "a"); DoRecord 1 (tiny_event "b"); DoReceive; DoAdd 1; DoInsert false;
   DoRecord 0 (tiny_event "c"); DoLock 3; DoRecord 2 (tiny_event "d"); DoLoad 1; DoClose 3; DoRLock 2;
   DoReceive; DoInsert true; DoExit; DoReturn 3].

Definition demo_result : option (list effect * recorder) := run demo_actions (NewAsyncRecorder 1 0 no_options).

Lemma recorder_loses_nothing_witness :
  exists es r, demo_result = Some (es, r) /\ map ev_ID (written es) = ["a"; "c"] /\
    written es = map (fun ev => Sanitize ev no_options) (accepted es) /\ rc_threads r = ∅.
Proof.
  destruct demo_result as [[es r]|] eqn:E.
  - exists es, r. split; [reflexivity|].
    pose proof (recorder_loses_nothing 1 0 no_options demo_actions es r E) as (_ & _ & _ & _ & H).
    vm_compute in E. injection E as <- <-. split; [reflexivity|]. split; [|reflexivity]. apply H. reflexivity.
  - vm_compute in E. discriminate E.
Defined.

(** C38. Nothing in the recorder waits for long, unless it is for the store.  At
    any reachable state a goroutine that has the read lock can take its next
    step and is at most three of its own steps from giving it back; no step of
    one goroutine moves another; a [Close] that asks for the lock lets no new
    reader in, and gets it when the last one has left; a [Record] that came
    while one asked goes on when none asks any more.  Once closed, no event is
    accepted, and the writer exits at exactly its turn number twice the queue
    length, plus one for an [Insert] under way, plus one, however the steps of
    others fall in between; it is blocked only while an [Insert] has not
    returned, whose error or success does not matter.  When it has exited every
    accepted event was handed to the store, every [Insert] has returned, and the
    [Close] that waits returns.  An event whose [Insert] failed is logged and
    gone; an [Insert] that never returns keeps the writer and [Close]. *)
Theorem recorder_shuts_down (bufferSize every : Z) (o : SanitizeOptions) (l : list action)
    (es : list effect) (r : recorder)
    (Hrun : run l (NewAsyncRecorder bufferSize every o) = Some (es, r)) :
  (forall tid p, rc_threads r !! tid = Some p -> holds_rlock p = true ->
     exists e r', act (next_step tid p) r = Some (e, r') /\
       steps_left (rc_threads r' !! tid) < steps_left (Some p) <= 3) /\
  (forall tid a e r', owner a <> Some tid -> act a r = Some (e, r') -> rc_threads r' !! tid = rc_threads r !! tid) /\
  (forall tid, rc_threads r !! tid = Some AtLock ->
     (forall a e r' j p, act a r = Some (e, r') -> rc_threads r' !! j = Some p -> holds_rlock p = true ->
        exists q, rc_threads r !! j = Some q /\ holds_rlock q = true) /\
     (no_reader (rc_threads r) -> exists r', act (DoClose tid) r = Some (NoEffect, r') /\ rc_closed r' = true)) /\
  (forall tid ev, rc_threads r !! tid = Some (AtRLock ev) -> no_closer (rc_threads r) ->
     is_Some (act (DoRLock tid) r)) /\
  (rc_closed r = true -> rc_exited r = false -> forall l' es' r', run l' r = Some (es', r') ->
     accepted es' = [] /\
     (rc_exited r' = true <->
        writer_turns l' = 2 * length (rc_in r) + length (option_list (rc_hand r)) + 1) /\
     (rc_exited r' = false ->
        match rc_hand r', rc_in r' with
        | Some _, _ => forall ok, is_Some (act (DoInsert ok) r')
        | None, [] => is_Some (act DoExit r')
        | None, _ => is_Some (act DoReceive r')
        end) /\
     (rc_exited r' = true ->
        written (es ++ es') = map (fun ev => Sanitize ev o) (accepted es) /\
        answered (es ++ es') = written (es ++ es') /\
        forall tid, rc_threads r' !! tid = Some AtExitCh -> is_Some (act (DoReturn tid) r'))).
Proof.
  destruct (run_ok _ _ _ _ (NewAsyncRecorder_inv bufferSize every o) Hrun) as (Hi & Ho & Hq & Hh & _).
  split; [|split; [|split; [|split]]].
  - intros tid p Ht Hp. destruct (drop_advances _ _ _ Ht Hp) as (e & r' & Ha & Hlt). exists e, r'.
    split; [done|]. split; [done|]. destruct p; simpl; lia.
  - intros tid a e r'. apply undisturbed.
  - intros tid Ht. split.
    + intros a e r' j p. apply closing_bars. by eapply is_closer.
    + intros Hn. simpl. rewrite Ht, decide_True by done. destruct (rc_closed r) eqn:Ec; by eexists.
  - intros tid ev Ht Hn. simpl. rewrite Ht, decide_True by done. by eexists.
  - intros Hc Hx l' es' r' Hrun'. destruct (closed_run _ _ _ _ Hi Hc Hrun') as (Hc' & Ha & Hw).
    destruct (run_ok _ _ _ _ Hi Hrun') as (Hi' & _ & Hq' & Hh' & _). unfold writer_left in Hw. rewrite Hx in Hw.
    split; [done|]. split; [|split; [by apply writer_enabled|]].
    + destruct (rc_exited r'); split; [|done| |]; intros; lia || done.
    + intros Hx'. destruct (ri_exited _ Hi' Hx') as (_ & Ein & Ehd). rewrite Ein, Ha, !app_nil_r in Hq'.
      rewrite Ehd, app_nil_r in Hh'. simpl in Hq', Ho, Hh. unfold written, answered in *. split; [|split].
      * by rewrite omap_app, Hq', Ho.
      * by rewrite !omap_app, Hh', app_assoc, Hh.
      * intros tid Ht. simpl. rewrite Ht, Hx'. by eexists.
Qed.

Lemma recorder_shuts_down_witness :
  let r := NewAsyncRecorder 1 0 no_options in
  exists es r1 es' r2,
    run [DoRecord 0 (tiny_event "a"); DoLock 5; DoClose 5] r = Some (es, r1) /\
    run [DoRecord 1 (tiny_event "b"); DoReceive; DoLock 6; DoInsert false; DoClose 6; DoExit] r1 = Some (es', r2) /\
    rc_exited r2 = true /\ map ev_ID (written (es ++ es')) = ["a"] /\ is_Some (act (DoReturn 5) r2).
Proof.
  cbn zeta.
  destruct (run [DoRecord 0 (tiny_event "a"); DoLock 5; DoClose 5] (NewAsyncRecorder 1 0 no_options)) as [[es r1]|] eqn:E1;
    [|vm_compute in E1; discriminate E1].
  destruct (run [DoRecord 1 (tiny_event "b"); DoReceive; DoLock 6; DoInsert false; DoClose 6; DoExit] r1)
    as [[es' r2]|] eqn:E2.
  - destruct (recorder_shuts_down _ _ _ _ _ _ E1) as (_ & _ & _ & _ & H).
    assert (rc_closed r1 = true /\ rc_exited r1 = false /\ length (rc_in r1) = 1 /\ rc_hand r1 = None /\
      map ev_ID (map (fun ev => Sanitize ev no_options) (accepted es)) = ["a"])
      as (Hc & Hx & Hl & Hhd & Ha) by (vm_compute in E1; injection E1 as <- <-; repeat split).
    destruct (H Hc Hx _ _ _ E2) as (_ & Hiff & _ & Hw). rewrite Hl, Hhd in Hiff.
    assert (rc_exited r2 = true) as Hx2 by (apply Hiff; reflexivity).
    destruct (Hw Hx2) as (Hwr & _ & Hret).
    exists es, r1, es', r2. split; [reflexivity|]. split; [exact E2|]. split; [exact Hx2|]. split.
    + rewrite Hwr. exact Ha.
    + apply Hret. vm_compute in E1. injection E1 as <- <-. vm_compute in E2. injection E2 as <- <-. reflexivity.
  - vm_compute in E1. injection E1 as <- <-. vm_compute in E2. discriminate E2.
Defined.

(** *** The throttled log *)

(** [onDrop] when nothing interleaves with it: the log line, if any. *)
Definition onDrop (r : recorder) : option Z * recorder :=
  let total := u64 (rc_dropped r + 1) in
  if bool_decide (u64 (total - rc_loggedDrops r) < rc_dropLogEvery r)%Z
  then (None, set_counts total (rc_loggedDrops r) r)
  else (Some total, set_counts total total r).

Lemma onDrop_run tid r :
  rc_threads r !! tid = Some AtAdd ->
  exists l es, run l r = Some (es, set_threads (delete tid (rc_threads r)) (onDrop r).2) /\
    logged es = option_list (onDrop r).1.
Proof.
  intros Ht. unfold onDrop. case_bool_decide as Hlt.
  - exists [DoAdd tid; DoLoad tid], [NoEffect; NoEffect]. split; [|done].
    cbn -[u64]. rewrite Ht. cbn -[u64]. rewrite lookup_insert_eq, bool_decide_eq_true_2 by done.
    cbn -[u64]. by rewrite delete_insert_eq.
  - exists [DoAdd tid; DoLoad tid; DoCAS tid],
      [NoEffect; NoEffect; Logged (u64 (rc_dropped r + 1))]. split; [|done].
    cbn -[u64]. rewrite Ht. cbn -[u64]. rewrite lookup_insert_eq, bool_decide_eq_false_2 by done.
    cbn -[u64]. rewrite lookup_insert_eq, bool_decide_eq_true_2 by done. cbn -[u64].
    by rewrite !delete_insert_eq.
Qed.

Fixpoint drops (n : nat) (r : recorder) : list Z * recorder :=
  match n with
  | 0 => ([], r)
  | S n =>
      let '(ls, r) := drops n r in
      let '(line, r) := onDrop r in (ls ++ option_list line, r)
  end.

Lemma drops_spec every o b n :
  (0 < every)%Z -> (Z.of_nat n < 2 ^ 64)%Z ->
  let '(ls, r) := drops n (NewAsyncRecorder b every o) in
  rc_dropped r = Z.of_nat n /\ rc_dropLogEvery r = every /\
  rc_loggedDrops r = (every * (Z.of_nat n / every))%Z /\
  ls = map (fun k => every * Z.of_nat k)%Z (seq 1 (Z.to_nat (Z.of_nat n / every))).
Proof.
  intros He Hn. induction n as [|n IH].
  { simpl. rewrite bool_decide_eq_false_2 by lia. rewrite Z.div_0_l, Z.mul_0_r by lia. done. }
  cbn [drops]. destruct (drops n _) as [ls r]. specialize (IH ltac:(lia)) as (Hd & Hev & Hl & Hls).
  unfold onDrop. rewrite Hd, Hev, Hl.
  replace (u64 (Z.of_nat n + 1)) with (Z.of_nat (S n)) by (unfold u64; rewrite Z.mod_small; lia).
  pose proof (Z.div_mod (Z.of_nat n) every ltac:(lia)) as Hdm.
  pose proof (Z.mod_pos_bound (Z.of_nat n) every He) as Hmb.
  replace (u64 (Z.of_nat (S n) - every * (Z.of_nat n / every))) with (Z.of_nat n mod every + 1)%Z
    by (replace (Z.of_nat (S n) - every * (Z.of_nat n / every))%Z with (Z.of_nat n mod every + 1)%Z by lia;
        unfold u64; rewrite (Z.mod_small _ (2 ^ 64)); [done|];
        pose proof (Z.mod_le (Z.of_nat n) every ltac:(lia) He); lia).
  case_bool_decide as Hlt.
  - replace (Z.of_nat (S n) / every)%Z with (Z.of_nat n / every)%Z.
    + simpl. by rewrite app_nil_r.
    + apply (Z.div_unique_pos _ _ _ (Z.of_nat n mod every + 1)); lia.
  - replace (Z.of_nat (S n) / every)%Z with (Z.of_nat n / every + 1)%Z.
    + cbn [rc_dropped set_counts rc_dropLogEvery rc_loggedDrops option_list].
      split; [done|]. split; [done|]. split; [nia|].
      pose proof (Z.div_pos (Z.of_nat n) every ltac:(lia) He).
      rewrite Z2Nat.inj_add, seq_app, map_app, Hls by lia. simpl. do 2 f_equal. nia.
    + apply (Z.div_unique_pos _ _ _ 0); nia.
Qed.

(** The drop log is throttled.  As long as drops do not overlap, the
    recorder logs exactly at the multiples of its cadence, each once. *)
Theorem drop_log_cadence (bufferSize every : Z) (o : SanitizeOptions) (n : nat)
    (Hevery : (0 < every)%Z) (Hn : (Z.of_nat n < 2 ^ 64)%Z) :
  (drops n (NewAsyncRecorder bufferSize every o)).1 =
    map (fun k => every * Z.of_nat k)%Z (seq 1 (Z.to_nat (Z.of_nat n / every))).
Proof.
  pose proof (drops_spec every o bufferSize n Hevery Hn) as H.
  destruct (drops n _) as [ls r]. apply H.
Qed.

Lemma drop_log_cadence_witness : (drops 7 (NewAsyncRecorder 1 3 no_options)).1 = [3; 6]%Z.
Proof. rewrite (drop_log_cadence 1 3 no_options 7); [reflexivity|lia|lia]. Defined.

(** Two drops whose steps interleave each write a log line, and the marker moves
    back: with a cadence of two, totals 3, 2 and 4 are all logged. *)
Example drop_log_repeats :
  let full := DoRecord 0 (tiny_event "x") in
  let r := NewAsyncRecorder 1 2 no_options in
  option_map (fun er => logged er.1)
    (run [full;
          DoRecord 1 (tiny_event "a"); DoAdd 1; DoLoad 1;
          DoRecord 1 (tiny_event "b"); DoAdd 1;
          DoRecord 2 (tiny_event "c"); DoAdd 2; DoLoad 2; DoCAS 2;
          DoLoad 1; DoCAS 1;
          DoRecord 1 (tiny_event "d"); DoAdd 1; DoLoad 1; DoCAS 1] r)
  = Some [3; 2; 4]%Z.
Proof. vm_compute. reflexivity. Qed.
