(* ===== verification/Z85.v ===== *)
(** * Z85 framing: [internal/auth/z85/z85.go]

    Bytes are integers in [0, 256); the codec works on 32-bit words, four bytes
    to five digits, behind a one-byte pad count.  The theorems: decoding an
    encoding gives the data back, whatever its length; and decoding never
    slices out of range. *)

From S2P Require Import Prelude GoStd.

Definition u32 (n : Z) : Z := (n mod 2 ^ 32)%Z.

Definition alphabet : string :=
  "0123456789abcdefghijklmnopqrstuvwxyzABCDEFGHIJKLMNOPQRSTUVWXYZ.-:+=^!/*?&<>()[]{}@%$#".

Fixpoint ascii_list (s : string) : list ascii :=
  match s with EmptyString => [] | String a s => a :: ascii_list s end.

(** [alphabet[n]]; the index is a remainder by 85, so it is in range. *)
Definition digit (n : Z) : ascii := nth (Z.to_nat n) (ascii_list alphabet) "000"%char.

(** The table [init] fills. *)
Definition decoder : ascii -> Z :=
  fold_left (fun d '(i, c) => fun a => if decide (a = c) then Z.of_nat i else d a)
    (indexed (ascii_list alphabet)) (fun _ => 255%Z).

Definition word (b0 b1 b2 b3 : Z) : Z :=
  Z.lor (Z.lor (Z.lor (u32 (Z.shiftl b0 24)) (u32 (Z.shiftl b1 16))) (u32 (Z.shiftl b2 8))) b3.

(** The digits from the last to the first. *)
Definition word_digits (v : Z) : string :=
  let c4 := digit (v mod 85)%Z in let v := (v / 85)%Z in
  let c3 := digit (v mod 85)%Z in let v := (v / 85)%Z in
  let c2 := digit (v mod 85)%Z in let v := (v / 85)%Z in
  let c1 := digit (v mod 85)%Z in let v := (v / 85)%Z in
  let c0 := digit (v mod 85)%Z in
  String c0 (String c1 (String c2 (String c3 (String c4 "")))).

Fixpoint encode_words (buf : list Z) : string :=
  match buf with
  | b0 :: b1 :: b2 :: b3 :: buf => word_digits (word b0 b1 b2 b3) +:+ encode_words buf
  | _ => ""
  end.

Definition pad_count (n : Z) : Z := ((4 - (n + 1) mod 4) mod 4)%Z.

Definition Encode (data : list Z) : string :=
  let pad := pad_count (Z.of_nat (length data)) in
  encode_words (pad :: data ++ repeat 0%Z (Z.to_nat pad)).

Definition byte_of (n : Z) : Z := Z.land n 255.

Definition word_bytes (v : Z) : list Z :=
  [byte_of (Z.shiftr v 24); byte_of (Z.shiftr v 16); byte_of (Z.shiftr v 8); byte_of v].

(** One group of five digits, from the accumulator [v]. *)
Fixpoint decode_group (cs : list ascii) (v : Z) : result Z :=
  match cs with
  | [] => Ok v
  | c :: cs =>
      let d := decoder c in
      if decide (d = 255%Z) then Err (EMsg "z85: invalid character")
      else decode_group cs (u32 (u32 (v * 85)%Z + d)%Z)
  end.

Fixpoint decode_words (s : string) : result (list Z) :=
  match s with
  | String c0 (String c1 (String c2 (String c3 (String c4 s)))) =>
      v ← decode_group [c0; c1; c2; c3; c4] 0;
      raw ← decode_words s;
      Ok (word_bytes v ++ raw)
  | _ => Ok []
  end.

(** [raw[1 : len(raw)-pad]]; [None] is the panic of an out-of-range slice. *)
Definition slice {A} (l : list A) (i j : Z) : option (list A) :=
  if bool_decide (0 <= i <= j)%Z && bool_decide (j <= Z.of_nat (length l))%Z
  then Some (take (Z.to_nat (j - i)) (drop (Z.to_nat i) l)) else None.

Definition Decode (s : string) : option (result (list Z)) :=
  if decide (s = "") then Some (Err (EMsg "z85: empty input"))
  else if negb (bool_decide (Z.of_nat (String.length s) mod 5 = 0)%Z)
  then Some (Err (EMsg "z85: input length not a multiple of 5"))
  else
    match decode_words s with
    | Err e => Some (Err e)
    | Ok raw =>
        match raw with
        | [] => None
        | pad :: _ =>
            if bool_decide (3 < pad)%Z then Some (Err (EMsg "z85: invalid pad count"))
            else Ok <$> slice raw 1 (Z.of_nat (length raw) - pad)
        end
    end.

(** ** Lemmas *)

Definition is_byte (b : Z) : Prop := (0 <= b < 256)%Z.

Lemma decoder_digit n : (0 <= n < 85)%Z -> decoder (digit n) = n.
Proof.
  intros Hn. assert (forallb (fun k => bool_decide (decoder (digit (Z.of_nat k)) = Z.of_nat k)) (seq 0 85) = true)
    as Hall by (vm_compute; reflexivity).
  rewrite forallb_forall in Hall. specialize (Hall (Z.to_nat n)).
  rewrite Z2Nat.id in Hall by lia. apply (bool_decide_eq_true_1 (decoder (digit n) = n)), Hall, in_seq. lia.
Qed.

Lemma decode_group_digits ds v :
  Forall (fun d => 0 <= d < 85)%Z ds -> (0 <= v)%Z ->
  (forall k, k <= length ds -> (foldl (fun v d => v * 85 + d) v (take k ds) < 2 ^ 32)%Z) ->
  decode_group (map digit ds) v = Ok (foldl (fun v d => v * 85 + d)%Z v ds).
Proof.
  revert v. induction ds as [|d ds IH]; intros v Hd Hv Hk; [done|].
  apply Forall_cons in Hd as [Hd Hds]. simpl. rewrite decoder_digit by done.
  rewrite decide_False by lia. pose proof (Hk 1 ltac:(simpl; lia)) as H1. simpl in H1.
  unfold u32. rewrite (Z.mod_small (v * 85)), Z.mod_small by lia. apply IH; [done|lia|].
  intros k Hle. apply (Hk (S k)). simpl. lia.
Qed.

Lemma word_digits_decode v s :
  (0 <= v < 2 ^ 32)%Z -> decode_words (word_digits v +:+ s) = (raw ← decode_words s; Ok (word_bytes v ++ raw)).
Proof.
  intros Hv. unfold word_digits. autorewrite with go_rw. cbn [decode_words].
  set (v1 := (v / 85)%Z). set (v2 := (v1 / 85)%Z). set (v3 := (v2 / 85)%Z). set (v4 := (v3 / 85)%Z).
  assert (v = 85 * v1 + v mod 85 /\ 0 <= v mod 85 < 85)%Z as [E0 ?]
    by (split; [apply Z.div_mod|apply Z.mod_pos_bound]; lia).
  assert (v1 = 85 * v2 + v1 mod 85 /\ 0 <= v1 mod 85 < 85)%Z as [E1 ?]
    by (split; [apply Z.div_mod|apply Z.mod_pos_bound]; lia).
  assert (v2 = 85 * v3 + v2 mod 85 /\ 0 <= v2 mod 85 < 85)%Z as [E2 ?]
    by (split; [apply Z.div_mod|apply Z.mod_pos_bound]; lia).
  assert (v3 = 85 * v4 + v3 mod 85 /\ 0 <= v3 mod 85 < 85)%Z as [E3 ?]
    by (split; [apply Z.div_mod|apply Z.mod_pos_bound]; lia).
  clearbody v1 v2 v3 v4.
  assert (0 <= v4 < 85)%Z as H4 by lia. rewrite (Z.mod_small v4) by lia.
  pose proof (decode_group_digits [v4; v3 mod 85; v2 mod 85; v1 mod 85; v mod 85]%Z 0) as Hg.
  cbn [map] in Hg. rewrite Hg.
  - cbn [foldl]. replace _ with v at 1 by lia. reflexivity.
  - repeat constructor; lia.
  - done.
  - intros k Hk. destruct k as [|[|[|[|[|[|]]]]]]; cbn [take foldl]; simpl in Hk; lia.
Qed.

Lemma lor_low x b n : (0 <= n)%Z -> (0 <= b < 2 ^ n)%Z -> Z.lor (x * 2 ^ n) b = (x * 2 ^ n + b)%Z.
Proof.
  intros Hn Hb. assert (Z.land (x * 2 ^ n) b = 0%Z) as Hl.
  { destruct (decide (b = 0)%Z) as [->|]; [by rewrite Z.land_0_r|]. apply Z.bits_inj'. intros i Hi. rewrite Z.land_spec, Z.bits_0.
    destruct (decide (i < n)%Z) as [Hlt|Hge].
    - by rewrite Z.mul_pow2_bits_low by lia.
    - rewrite (Z.bits_above_log2 b i), andb_false_r; [done|lia|].
      apply Z.log2_lt_pow2; [lia|]. apply Z.lt_le_trans with (2 ^ n)%Z; [lia|].
      apply Z.pow_le_mono_r; lia. }
  rewrite Z.add_nocarry_lxor by done. by rewrite Z.lxor_lor.
Qed.

Lemma word_sum b0 b1 b2 b3 :
  is_byte b0 -> is_byte b1 -> is_byte b2 -> is_byte b3 ->
  word b0 b1 b2 b3 = (b0 * 2 ^ 24 + b1 * 2 ^ 16 + b2 * 2 ^ 8 + b3)%Z.
Proof.
  unfold is_byte. intros H0 H1 H2 H3. unfold word, u32. rewrite !Z.shiftl_mul_pow2 by lia.
  rewrite !Z.mod_small by lia.
  rewrite (lor_low b0 (b1 * 2 ^ 16) 24) by lia.
  replace (b0 * 2 ^ 24 + b1 * 2 ^ 16)%Z with ((b0 * 2 ^ 8 + b1) * 2 ^ 16)%Z by lia.
  rewrite (lor_low _ (b2 * 2 ^ 8) 16) by lia.
  replace ((b0 * 2 ^ 8 + b1) * 2 ^ 16 + b2 * 2 ^ 8)%Z with ((b0 * 2 ^ 16 + b1 * 2 ^ 8 + b2) * 2 ^ 8)%Z by lia.
  rewrite (lor_low _ b3 8) by lia. lia.
Qed.

Lemma byte_of_mod n : byte_of n = (n mod 256)%Z.
Proof. unfold byte_of. change 255%Z with (Z.ones 8). by rewrite Z.land_ones. Qed.

Lemma byte_at q b r m :
  (0 < m)%Z -> (0 <= r < m)%Z -> is_byte b -> ((((q * 256 + b) * m + r) / m) mod 256 = b)%Z.
Proof.
  intros Hm Hr Hb. unfold is_byte in Hb.
  replace (((q * 256 + b) * m + r) / m)%Z with (q * 256 + b)%Z
    by (apply (Z.div_unique_pos _ _ _ r); lia).
  symmetry. apply (Z.mod_unique_pos _ _ q); lia.
Qed.

Lemma word_bytes_word b0 b1 b2 b3 :
  is_byte b0 -> is_byte b1 -> is_byte b2 -> is_byte b3 ->
  word_bytes (word b0 b1 b2 b3) = [b0; b1; b2; b3].
Proof.
  intros H0 H1 H2 H3. rewrite word_sum by done. unfold word_bytes.
  rewrite !byte_of_mod, !Z.shiftr_div_pow2 by lia.
  unfold is_byte in *. f_equal; [|f_equal; [|f_equal; [|f_equal]]].
  - rewrite <- (byte_at 0 b0 (b1 * 2 ^ 16 + b2 * 2 ^ 8 + b3) (2 ^ 24)) at 2 by (unfold is_byte; lia).
    do 2 f_equal. lia.
  - rewrite <- (byte_at b0 b1 (b2 * 2 ^ 8 + b3) (2 ^ 16)) at 2 by (unfold is_byte; lia).
    do 2 f_equal. lia.
  - rewrite <- (byte_at (b0 * 2 ^ 8 + b1) b2 b3 (2 ^ 8)) at 2 by (unfold is_byte; lia).
    do 2 f_equal. lia.
  - rewrite <- (byte_at (b0 * 2 ^ 16 + b1 * 2 ^ 8 + b2) b3 0 1) at 2 by (unfold is_byte; lia).
    rewrite Z.div_1_r. f_equal. lia.
Qed.

Lemma word_range b0 b1 b2 b3 :
  is_byte b0 -> is_byte b1 -> is_byte b2 -> is_byte b3 -> (0 <= word b0 b1 b2 b3 < 2 ^ 32)%Z.
Proof. intros. rewrite word_sum by done. unfold is_byte in *. lia. Qed.

Lemma decode_encode_words k buf :
  length buf = 4 * k -> Forall is_byte buf -> decode_words (encode_words buf) = Ok buf.
Proof.
  revert buf. induction k as [|k IH]; intros buf Hl Hb.
  { by destruct buf; [|simpl in Hl; lia]. }
  destruct buf as [|b0 [|b1 [|b2 [|b3 buf]]]]; simpl in Hl; try lia.
  repeat (apply Forall_cons in Hb as [? Hb]). cbn [encode_words].
  rewrite word_digits_decode by (by apply word_range). rewrite IH by (done || lia).
  cbn [mbind result_bind]. by rewrite word_bytes_word.
Qed.

Lemma length_encode_words k buf :
  length buf = 4 * k -> String.length (encode_words buf) = 5 * k.
Proof.
  revert buf. induction k as [|k IH]; intros buf Hl.
  { by destruct buf; [|simpl in Hl; lia]. }
  destruct buf as [|b0 [|b1 [|b2 [|b3 buf]]]]; simpl in Hl; try lia. cbn [encode_words].
  unfold word_digits. autorewrite with go_rw. cbn [String.length]. rewrite IH by lia. lia.
Qed.

Lemma pad_count_spec n :
  (0 <= n)%Z -> (0 <= pad_count n <= 3)%Z /\ ((1 + n + pad_count n) mod 4 = 0)%Z.
Proof.
  intros Hn. unfold pad_count. pose proof (Z.mod_pos_bound (n + 1) 4 ltac:(lia)) as Hm.
  pose proof (Z.mod_pos_bound (4 - (n + 1) mod 4) 4 ltac:(lia)). split; [lia|].
  rewrite Zplus_mod_idemp_r. replace (1 + n + (4 - (n + 1) mod 4))%Z with (4 + ((n + 1) - (n + 1) mod 4))%Z by lia.
  rewrite <- Zplus_mod_idemp_r, Zminus_mod_idemp_r, Z.sub_diag. done.
Qed.

(** Decoding yields four bytes per group, so the final slice is in range. *)
Lemma decode_words_shape s raw :
  decode_words s = Ok raw -> Forall is_byte raw /\ length raw = 4 * (String.length s / 5).
Proof.
  remember (String.length s) as n eqn:En. revert s raw En.
  induction n as [n IH] using lt_wf_ind. intros s raw ->.
  destruct s as [|c0 [|c1 [|c2 [|c3 [|c4 s]]]]]; cbn [decode_words]; try (by intros [= <-]; split).
  destruct (decode_group _ _) as [v|]; [|done]. cbn [mbind result_bind].
  destruct (decode_words s) as [rest|] eqn:Er; [|done]. intros [= <-].
  destruct (IH (String.length s) ltac:(simpl; lia) s rest eq_refl Er) as [Hb Hl].
  split.
  - rewrite !byte_of_mod. repeat (constructor; [unfold is_byte; apply Z.mod_pos_bound; lia|]). done.
  - cbn [String.length length]. rewrite Hl.
    replace (S (S (S (S (S (String.length s)))))) with (1 * 5 + String.length s) by lia.
    rewrite Nat.div_add_l by done. lia.
Qed.

Lemma decode_encode_data (data : list Z) :
  Forall is_byte data ->
  Decode (Encode data) = Some (Ok data) /\ String.length (Encode data) mod 5 = 0.
Proof.
  intros Hdata.
  unfold Encode. set (n := Z.of_nat (length data)).
  destruct (pad_count_spec n ltac:(lia)) as [Hp Hm]. set (pad := pad_count n) in *.
  set (buf := pad :: data ++ repeat 0%Z (Z.to_nat pad)).
  assert (exists k, length buf = 4 * k) as [k Hk].
  { exists (Z.to_nat ((1 + n + pad) / 4)). unfold buf. simpl. rewrite length_app, repeat_length.
    pose proof (Z.div_mod (1 + n + pad) 4 ltac:(lia)). lia. }
  assert (Forall is_byte buf) as Hb.
  { constructor; [unfold is_byte; lia|]. apply Forall_app. split; [done|].
    apply Forall_forall. intros x Hx%list_elem_of_In%repeat_spec. subst. unfold is_byte. lia. }
  pose proof (length_encode_words k buf Hk) as Hl. pose proof (decode_encode_words k buf Hk Hb) as Hd.
  split; [|rewrite Hl, Nat.mul_comm; apply Nat.Div0.mod_mul].
  unfold Decode. rewrite decide_False.
  2: { intros E. rewrite E in Hl. unfold buf in Hk. simpl in Hl, Hk. lia. }
  rewrite Hl, Nat2Z.inj_mul, Z.mul_comm, Z.mod_mul by done. cbn [negb bool_decide]. simpl negb.
  rewrite Hd. unfold buf at 1. rewrite bool_decide_eq_false_2 by lia.
  unfold slice. assert (Z.of_nat (length buf) = 1 + n + pad)%Z as Elen.
  { unfold buf. simpl. rewrite length_app, repeat_length. lia. }
  rewrite !bool_decide_eq_true_2 by lia. cbn [andb fmap option_fmap option_map].
  rewrite Elen. replace (Z.to_nat (1 + n + pad - pad - 1)) with (length data) by lia.
  unfold buf. change (Z.to_nat 1) with 1. cbn [drop]. by rewrite drop_0, take_app_length.
Qed.

(** ** Properties *)

(** Encoding round-trips.  Whatever the data and its length, its encoding
    is a string of the Z85 length that decodes to exactly the data. *)
Theorem z85_roundtrip (data : list Z) (Hdata : Forall is_byte data) :
  Decode (Encode data) = Some (Ok data) /\ String.length (Encode data) mod 5 = 0.
Proof. by apply decode_encode_data. Qed.

Lemma z85_roundtrip_witness : Decode (Encode [104; 105; 255; 0; 7]%Z) = Some (Ok [104; 105; 255; 0; 7]%Z).
Proof. apply z85_roundtrip. repeat constructor; unfold is_byte; lia. Defined.

(** Decoding never panics.  On any input at all [Decode] returns a value or
    an error; the slice that drops the padding is always in range. *)
Theorem z85_decode_total (s : string) : exists r, Decode s = Some r.
Proof.
  unfold Decode. case_decide as Hs; [by eexists|]. case_bool_decide as Hm; simpl; [|by eexists].
  destruct (decode_words s) as [raw|e] eqn:Ed; [|by eexists].
  destruct (decode_words_shape _ _ Ed) as [Hb Hl].
  assert (4 <= length raw) as Hge.
  { rewrite Hl. assert (1 <= String.length s / 5); [|lia].
    apply Nat.div_le_lower_bound; [lia|]. destruct (String.length s) as [|n] eqn:En.
    - by destruct s.
    - apply Z.mod_divide in Hm as [q Hq]; lia. }
  destruct raw as [|pad raw]; [simpl in Hge; lia|]. case_bool_decide as Hp; [by eexists|].
  apply Forall_cons in Hb as [Hpad _]. unfold is_byte in Hpad. unfold slice.
  rewrite !bool_decide_eq_true_2 by lia. by eexists.
Qed.

(** The empty string is an error, not an empty payload. *)
Example decode_empty : Decode "" = Some (Err (EMsg "z85: empty input")).
Proof. reflexivity. Qed.
