(* ===== verification/Ids.v ===== *)
(** * Time-prefixed identifiers: internal/id/id.go, and the constructors of
    internal/control/traffic/id.go and internal/control/proposals/id.go

    Six big-endian bytes of milliseconds and ten random bytes, in hexadecimal
    behind a prefix.  Bytes are integers in [0, 256); the random bytes are an
    argument.  The theorem: identifiers sort by the millisecond they were made
    in, until the 48 bits run out, and determine it. *)

From S2P Require Import Prelude GoStd Traffic TrafficStore Z85.

(** [byte(ms >> shift)] on a uint64 *)
Definition byte_at (ms shift : Z) : Z := Z.land (Z.shiftr ms shift) 255.

Definition time_bytes (ms : Z) : list Z :=
  let ms := (ms mod 2 ^ 64)%Z in
  [byte_at ms 40; byte_at ms 32; byte_at ms 24; byte_at ms 16; byte_at ms 8; byte_at ms 0].

Definition hex_lower (n : Z) : ascii :=
  ascii_of_N (Z.to_N (if bool_decide (n < 10)%Z then 48 + n else 87 + n)).

(** [hex.EncodeToString] *)
Fixpoint hex_encode (l : list Z) : string :=
  match l with
  | [] => EmptyString
  | b :: l => String (hex_lower (b / 16)) (String (hex_lower (b mod 16)) (hex_encode l))
  end.

Definition TimeBytes : nat := 16.

(** [rand] are the bytes read from crypto/rand. *)
Definition NewTimePrefixed (t : Z) (prefix : string) (rand : list Z) : string :=
  prefix +:+ hex_encode (time_bytes (unix_milli t) ++ rand).

(** ** In text and in a database: [MarshalText], [UnmarshalText], [Value], [Scan] *)

Definition IsZero (id : string) : bool := bool_decide (id = "").

Definition MarshalText (id : string) : result string := Ok id.

(** The identifier before is overwritten. *)
Definition UnmarshalText (text : string) (before : string) : result unit * string := (Ok tt, text).

(** What a driver hands over ([any]). *)
Inductive driver_value : Type :=
  | DString (s : string)
  | DBytes (b : string)
  | DNull
  | DOther (type_name : string).

Definition id_Value (id : string) : result driver_value := Ok (DString id).

Definition Scan (src : driver_value) (before : string) : result unit * string :=
  match src with
  | DString s | DBytes s => (Ok tt, s)
  | DNull => (Ok tt, "")
  | DOther _ => (Err (EMsg "id: cannot scan"), before)
  end.

(** An identifier survives a row and a JSON string; NULL is the zero one. *)
Lemma id_stored id before :
  (forall v, id_Value id = Ok v -> Scan v before = (Ok tt, id)) /\
  (forall b, MarshalText id = Ok b -> UnmarshalText b before = (Ok tt, id)) /\
  IsZero (Scan DNull before).2 = true.
Proof. split; [by intros v [= <-]|]. split; [by intros b [= <-]|done]. Qed.

Definition newIDAt (t : Z) (rand : list Z) : string := NewTimePrefixed t "" rand.

Definition proposalIDPrefix : string := "prop_".
Definition NewProposalID (now : Z) (rand : list Z) : string := NewTimePrefixed now proposalIDPrefix rand.

(** ** Digits *)

(** [k] big-endian bytes of a number. *)
Fixpoint big_endian (k : nat) (n : Z) : list Z :=
  match k with
  | 0 => []
  | S k => ((n / 256 ^ Z.of_nat k) mod 256)%Z :: big_endian k n
  end.

Lemma byte_at_div ms shift : (0 <= shift)%Z -> byte_at ms shift = ((ms / 2 ^ shift) mod 256)%Z.
Proof.
  intros Hs. unfold byte_at. rewrite Z.shiftr_div_pow2 by done.
  change 255%Z with (Z.ones 8). by rewrite Z.land_ones.
Qed.

Lemma time_bytes_spec ms : (0 <= ms < 2 ^ 48)%Z -> time_bytes ms = big_endian 6 ms.
Proof.
  intros Hms. unfold time_bytes. rewrite Z.mod_small by lia. rewrite !byte_at_div by done. reflexivity.
Qed.

(** ** Order *)

Lemma str_lt_head c d a b : (N_of_ascii c < N_of_ascii d)%N -> str_lt (String c a) (String d b).
Proof.
  intros Hlt. split; [|intros [= E _]; rewrite E in Hlt; lia].
  unfold String.le, String.leb. simpl. unfold Ascii.compare. by rewrite (proj2 (N.compare_lt_iff _ _) Hlt).
Qed.

Lemma str_lt_tail c a b : str_lt a b -> str_lt (String c a) (String c b).
Proof.
  intros [Hle Hne]. split; [|congruence]. revert Hle. unfold String.le, String.leb. simpl.
  unfold Ascii.compare. by rewrite N.compare_refl.
Qed.

Lemma str_lt_app p a b : str_lt a b -> str_lt (p +:+ a) (p +:+ b).
Proof. intros Hab. induction p as [|c p IH]; [done|]. by apply str_lt_tail. Qed.

Lemma hex_lower_lt a b : (0 <= a < b)%Z -> (b < 16)%Z -> (N_of_ascii (hex_lower a) < N_of_ascii (hex_lower b))%N.
Proof.
  intros Ha Hb. unfold hex_lower.
  repeat case_bool_decide; rewrite !N_ascii_embedding by lia; lia.
Qed.

Lemma hex_encode_head a b l l' :
  is_byte a -> is_byte b -> (a < b)%Z -> str_lt (hex_encode (a :: l)) (hex_encode (b :: l')).
Proof.
  unfold is_byte. intros Ha Hb Hab. cbn [hex_encode].
  pose proof (Z.div_mod a 16). pose proof (Z.div_mod b 16).
  pose proof (Z.mod_pos_bound a 16). pose proof (Z.mod_pos_bound b 16).
  destruct (decide (a / 16 = b / 16)%Z) as [E|Hne].
  - rewrite E. apply str_lt_tail, str_lt_head, hex_lower_lt; lia.
  - apply str_lt_head, hex_lower_lt; lia.
Qed.

Lemma hex_encode_tail b l l' : str_lt (hex_encode l) (hex_encode l') -> str_lt (hex_encode (b :: l)) (hex_encode (b :: l')).
Proof. intros Hl. by do 2 apply str_lt_tail. Qed.

Lemma big_endian_lt k m n l l' :
  (m mod 256 ^ Z.of_nat k < n mod 256 ^ Z.of_nat k)%Z ->
  str_lt (hex_encode (big_endian k m ++ l)) (hex_encode (big_endian k n ++ l')).
Proof.
  induction k as [|k IH].
  { change (256 ^ Z.of_nat 0)%Z with 1%Z. rewrite !Z.mod_1_r. lia. }
  assert (0 < 256 ^ Z.of_nat k)%Z as Hpos by (apply Z.pow_pos_nonneg; lia).
  rewrite Nat2Z.inj_succ, Z.pow_succ_r, Z.mul_comm by lia. rewrite !Z.rem_mul_r by lia. intros Hlt.
  cbn [big_endian app].
  pose proof (Z.mod_pos_bound (m / 256 ^ Z.of_nat k) 256) as Hm.
  pose proof (Z.mod_pos_bound (n / 256 ^ Z.of_nat k) 256) as Hn.
  pose proof (Z.mod_pos_bound m (256 ^ Z.of_nat k)). pose proof (Z.mod_pos_bound n (256 ^ Z.of_nat k)).
  destruct (Z.lt_trichotomy ((m / 256 ^ Z.of_nat k) mod 256) ((n / 256 ^ Z.of_nat k) mod 256)) as [Hc|[E|Hc]].
  - apply hex_encode_head; unfold is_byte; lia.
  - rewrite E in *. apply hex_encode_tail, IH. lia.
  - nia.
Qed.

Lemma hex_lower_inj a b : (0 <= a < 16)%Z -> (0 <= b < 16)%Z -> hex_lower a = hex_lower b -> a = b.
Proof.
  intros Ha Hb E. destruct (Z.lt_trichotomy a b) as [Hl|[|Hl]]; [|done|].
  - pose proof (hex_lower_lt a b ltac:(lia) ltac:(lia)) as Hh. rewrite E in Hh. lia.
  - pose proof (hex_lower_lt b a ltac:(lia) ltac:(lia)) as Hh. rewrite E in Hh. lia.
Qed.

Lemma hex_encode_inj l l' : Forall is_byte l -> Forall is_byte l' -> hex_encode l = hex_encode l' -> l = l'.
Proof.
  intros Hl. revert l'. induction Hl as [|b l Hb _ IH]; intros l' Hl'; destruct Hl' as [|b' l' Hb' Hl']; try done.
  cbn [hex_encode]. intros [= E1 E2 E3]. unfold is_byte in *.
  pose proof (Z.mod_pos_bound b 16). pose proof (Z.mod_pos_bound b' 16).
  pose proof (Z.div_mod b 16). pose proof (Z.div_mod b' 16).
  apply hex_lower_inj in E1, E2; [|lia..]. f_equal; [lia|]. by apply IH.
Qed.

Lemma length_hex_encode l : String.length (hex_encode l) = 2 * length l.
Proof. induction l as [|b l IH]; cbn [hex_encode String.length length]; lia. Qed.

(** Identifiers made in different milliseconds sort the way they were made,
    whatever the random bytes, for the instants whose milliseconds fit in 48
    bits (1970 to year 10889); two identifiers are equal only when both their
    millisecond and their random bytes are, and all are as long as the prefix
    and 32 digits. *)
Theorem identifiers_sort_by_time (prefix : string) (t t' : Z) (rand rand' : list Z)
    (Ht : (0 <= unix_milli t < 2 ^ 48)%Z) (Ht' : (0 <= unix_milli t' < 2 ^ 48)%Z)
    (Hr : length rand = TimeBytes - 6) (Hr' : length rand' = TimeBytes - 6)
    (Hb : Forall is_byte rand) (Hb' : Forall is_byte rand') :
  let id := NewTimePrefixed t prefix rand in
  let id' := NewTimePrefixed t' prefix rand' in
  ((unix_milli t < unix_milli t')%Z -> str_lt id id') /\
  (id = id' <-> unix_milli t = unix_milli t' /\ rand = rand') /\
  String.length id = String.length prefix + 2 * TimeBytes.
Proof.
  assert (forall m n l l', (0 <= m < 2 ^ 48)%Z -> (0 <= n < 2 ^ 48)%Z -> (m < n)%Z ->
    str_lt (prefix +:+ hex_encode (time_bytes m ++ l)) (prefix +:+ hex_encode (time_bytes n ++ l'))) as Hlt.
  { intros m n l l' Hm Hn Hmn. apply str_lt_app. rewrite !time_bytes_spec by done. apply big_endian_lt.
    change (256 ^ Z.of_nat 6)%Z with (2 ^ 48)%Z. by rewrite !Z.mod_small. }
  cbn zeta. unfold NewTimePrefixed. split; [|split].
  - intros Hmn. by apply Hlt.
  - split; [|intros [-> ->]; done]. intros E.
    destruct (Z.lt_trichotomy (unix_milli t) (unix_milli t')) as [Hl|[Em|Hl]].
    + apply (Hlt _ _ rand rand') in Hl; [|done..]. rewrite E in Hl. by apply str_lt_irrefl in Hl.
    + split; [done|]. rewrite Em in E. apply string_app_inj_l in E. cbn [time_bytes app hex_encode] in E.
      repeat (injection E as E). by apply hex_encode_inj.
    + apply (Hlt _ _ rand' rand) in Hl; [|done..]. rewrite E in Hl. by apply str_lt_irrefl in Hl.
  - rewrite length_sapp, length_hex_encode, length_app, Hr. unfold TimeBytes. simpl. lia.
Qed.

Lemma identifiers_sort_by_time_witness :
  NewProposalID 1700000000123456789 (repeat 255%Z 10) = "prop_018bcfe5687bffffffffffffffffffff" /\
  str_lt (NewProposalID 1700000000123456789 (repeat 255%Z 10)) (NewProposalID 1700000000124000000 (repeat 0%Z 10)).
Proof.
  split; [vm_compute; reflexivity|].
  destruct (identifiers_sort_by_time proposalIDPrefix 1700000000123456789 1700000000124000000
    (repeat 255%Z 10) (repeat 0%Z 10)) as [H _].
  - vm_compute. split; congruence.
  - vm_compute. split; congruence.
  - reflexivity.
  - reflexivity.
  - repeat constructor; vm_compute; congruence.
  - repeat constructor; vm_compute; congruence.
  - apply H. vm_compute. reflexivity.
Defined.

(** Past 48 bits the time wraps. *)
Example identifiers_wrap : newIDAt (2 ^ 48 * 1000000) (repeat 7%Z 10) = newIDAt 0 (repeat 7%Z 10).
Proof. vm_compute. reflexivity. Qed.
