(* ===== verification/Auth.v ===== *)
(** * The two-token scheme: [internal/auth] auth.go, caller.go

    Access and refresh JWTs share a signing key and use distinct encryption
    keys, all derived from one secret.  The primitives (HKDF,
    ChaCha20-Poly1305, Ed25519 and the JWT library) and JSON are the class
    [Crypto]; their documented behaviour is [CryptoLaws], in the idealised form
    where a ciphertext opens under its own key only.  Instants and durations
    are nanoseconds.  The theorems: an issued token verifies exactly in its
    validity window and gives back what was put in; neither kind of token is
    ever accepted as the other. *)

From S2P Require Import Prelude GoStd Z85.

Definition second : Z := 1000000000.

Record Header := mkHeader { h_Name : string; h_Value : string }.

Record AccessCreds := mkAccessCreds { ac_AccessToken : string; ac_Headers : list Header }.

Record RefreshCreds := mkRefreshCreds {
  rf_RefreshToken : string;
  rf_TokenURL : string;
  rf_Headers : list Header
}.

(** [jwtClaims]; a date is whole seconds, [None] is an absent claim. *)
Record jwtClaims := mkClaims {
  c_Issuer : string;
  c_Audience : list string;
  c_Subject : string;
  c_ExpiresAt : option Z;
  c_NotBefore : option Z;
  c_IssuedAt : option Z;
  c_Typ : string;
  c_Enc : string;
  c_Admin : bool
}.

(** [jwt.NewNumericDate]: truncated to the second. *)
Definition NumericDate (t : Z) : Z := t / second * second.

Record AccessToken := mkAccessToken { at_Subject : string; at_Creds : AccessCreds; at_Admin : bool }.

Record RefreshToken := mkRefreshToken {
  rt_Subject : string;
  rt_Creds : RefreshCreds;
  rt_Admin : bool;
  rt_ExpiresAt : option Z
}.

Definition jwtIssuer : string := "bouncer".
Definition jwtAudience : string := "bouncer".
Definition jwtLeeway : Z := 30 * second.
Definition AccessLeeway : Z := jwtLeeway.
Definition typAccess : string := "access".
Definition typRefresh : string := "refresh".

(** encoding/json on one type of payload. *)
Class JSON (T : Type) := {
  marshal : T -> string;
  unmarshal : string -> option T
}.

Class Crypto := {
  hkdf : string -> string -> string;
  ed_public : string -> string;
  aead_seal : string -> string -> string -> string;
  aead_open : string -> string -> string -> option string;
  jwt_sign : string -> jwtClaims -> string;
  (** [ParseWithClaims] with the options of [verifyAndDecrypt]: whether [exp]
      is required, the verifying key, the current time, the token *)
  jwt_parse : bool -> string -> Z -> string -> result jwtClaims;
  (** [ParseUnverified] *)
  jwt_unverified : string -> option jwtClaims;
  json_access :: JSON AccessCreds;
  json_refresh :: JSON RefreshCreds
}.

(** The claims check golang-jwt documents for those options. *)
Definition claims_valid (expRequired : bool) (now : Z) (c : jwtClaims) : bool :=
  bool_decide (c_Issuer c = jwtIssuer) && bool_decide (jwtAudience ∈ c_Audience c) &&
  match c_ExpiresAt c with
  | Some e => bool_decide (now < e + jwtLeeway)%Z
  | None => negb expRequired
  end &&
  match c_NotBefore c with Some n => bool_decide (n - jwtLeeway <= now)%Z | None => true end.

(** encoding/json replaces what is not UTF-8, so only strings that are come back. *)
Definition headers_utf8 (hs : list Header) : bool :=
  forallb (fun h => valid_utf8 (h_Name h) && valid_utf8 (h_Value h)) hs.

Definition access_utf8 (c : AccessCreds) : bool := valid_utf8 (ac_AccessToken c) && headers_utf8 (ac_Headers c).

Definition refresh_utf8 (c : RefreshCreds) : bool :=
  valid_utf8 (rf_RefreshToken c) && valid_utf8 (rf_TokenURL c) && headers_utf8 (rf_Headers c).

Definition claims_utf8 (c : jwtClaims) : bool :=
  valid_utf8 (c_Issuer c) && forallb valid_utf8 (c_Audience c) && valid_utf8 (c_Subject c) &&
  valid_utf8 (c_Typ c) && valid_utf8 (c_Enc c).

Class CryptoLaws `{Crypto} := {
  open_seal k n p : aead_open k n (aead_seal k n p) = Some p;
  open_other k k' n n' p : k <> k' -> aead_open k' n' (aead_seal k n p) = None;
  parse_sign req sk now c : claims_utf8 c = true ->
    match jwt_parse req (ed_public sk) now (jwt_sign sk c) with
    | Ok c' => claims_valid req now c = true /\ c' = c
    | Err _ => claims_valid req now c = false
    end;
  unverified_sign sk c : claims_utf8 c = true -> jwt_unverified (jwt_sign sk c) = Some c;
  access_roundtrip (c : AccessCreds) : access_utf8 c = true -> unmarshal (marshal c) = Some c;
  refresh_roundtrip (c : RefreshCreds) : refresh_utf8 c = true -> unmarshal (marshal c) = Some c
}.

Definition nonce_size : nat := 12.

(** A byte string and its bytes. *)
Definition bytes (s : string) : list Z := map (fun a => Z.of_N (N_of_ascii a)) (ascii_list s).

Fixpoint string_of_bytes (l : list Z) : string :=
  match l with [] => "" | b :: l => String (ascii_of_N (Z.to_N b)) (string_of_bytes l) end.

Section auth.
Context `{Crypto}.

Record ServerKeys := mkServerKeys {
sk_Signing : string;
sk_Verifying : string;
sk_EncryptAccess : string;
sk_EncryptRefresh : string
}.

Definition FromSecret (secret : string) : ServerKeys :=
mkServerKeys (hkdf secret "sign") (ed_public (hkdf secret "sign")) (hkdf secret "encrypt/access")
(hkdf secret "encrypt/refresh").

(** The nonce is read from the system's random source. *)
Definition encryptCreds `{JSON T} (key nonce : string) (creds : T) : string :=
nonce +:+ aead_seal key nonce (marshal creds).

Definition decryptCreds `{JSON T} (key blob : string) : result T :=
if bool_decide (String.length blob < nonce_size) then Err (EMsg "ciphertext too short")
else
let nonce := String.substring 0 nonce_size blob in
let ct := String.substring nonce_size (String.length blob - nonce_size) blob in
match aead_open key nonce ct with
| None => Err (EMsg "aead decrypt")
| Some pt => match unmarshal pt with Some c => Ok c | None => Err (EMsg "unmarshal creds") end
end.

Definition signEncrypted `{JSON T} (keys : ServerKeys) (subject typ encKey nonce : string)
(creds : T) (ttl : option Z) (admin : bool) (now : Z) : string :=
jwt_sign (sk_Signing keys)
(mkClaims jwtIssuer [jwtAudience] subject ((fun d => NumericDate (now + d)) <$> ttl)
   (Some (NumericDate now)) (Some (NumericDate now)) typ
   (Encode (bytes (encryptCreds encKey nonce creds))) admin).

Definition IssueAccessToken (keys : ServerKeys) (subject : string) (creds : AccessCreds) (ttl : Z)
(admin : bool) (nonce : string) (now : Z) : string :=
signEncrypted keys subject typAccess (sk_EncryptAccess keys) nonce creds (Some ttl) admin now.

Definition IssueRefreshToken (keys : ServerKeys) (subject : string) (creds : RefreshCreds) (ttl : Z)
(admin : bool) (nonce : string) (now : Z) : string :=
signEncrypted keys subject typRefresh (sk_EncryptRefresh keys) nonce creds
(if bool_decide (0 < ttl)%Z then Some ttl else None) admin now.

Definition verifyAndDecrypt `{JSON T} (keys : ServerKeys) (token wantTyp encKey : string)
(expirationRequired : bool) (now : Z) : result (string * bool * T) :=
c ← jwt_parse expirationRequired (sk_Verifying keys) now token;
fail_if negb (bool_decide (c_Typ c = wantTyp)) with EMsg "typ" ;;
fail_if bool_decide (c_Enc c = "") with EMsg "missing enc claim" ;;
match Decode (c_Enc c) with
| Some (Ok encBytes) =>
  creds ← decryptCreds encKey (string_of_bytes encBytes); Ok (c_Subject c, c_Admin c, creds)
| _ => Err (EMsg "decode enc")
end.

Definition VerifyAccessToken (keys : ServerKeys) (token : string) (now : Z) : result AccessToken :=
'(subject, admin, creds) ← verifyAndDecrypt keys token typAccess (sk_EncryptAccess keys) true now;
Ok (mkAccessToken subject creds admin).

Definition tokenExpiry (token : string) : option Z :=
match jwt_unverified token with Some c => c_ExpiresAt c | None => None end.

Definition VerifyRefreshToken (keys : ServerKeys) (token : string) (now : Z) : result RefreshToken :=
'(subject, admin, creds) ← verifyAndDecrypt keys token typRefresh (sk_EncryptRefresh keys) false now;
fail_if bool_decide (rf_TokenURL creds = "") with EMsg "missing token_url in refresh blob" ;;
Ok (mkRefreshToken subject creds admin (tokenExpiry token)).
End auth.

(** ** Roles: [caller.go] *)

Inductive Role : Type := RoleAnonymous | RoleUser | RoleAdmin.

#[export] Instance Role_eq_dec : EqDecision Role.
Proof. solve_decision. Defined.

Record Caller := mkCaller { cl_Subject : string; cl_Role : Role }.

Definition IsAdmin (c : Caller) : bool := bool_decide (cl_Role c = RoleAdmin).
Definition IsAuthenticated (c : Caller) : bool := negb (bool_decide (cl_Role c = RoleAnonymous)).
Definition CallerFromContext (ctx : option Caller) : Caller := default (mkCaller "" RoleAnonymous) ctx.

(** ** Lemmas *)

Lemma substring_prefix a b : String.substring 0 (String.length a) (a +:+ b) = a.
Proof. induction a as [|c a IH]; [by destruct b|]. autorewrite with go_rw. simpl. by rewrite IH. Qed.

Lemma substring_all b : String.substring 0 (String.length b) b = b.
Proof. induction b as [|c b IH]; [done|]. simpl. by rewrite IH. Qed.

Lemma substring_suffix a b :
  String.substring (String.length a) (String.length (a +:+ b) - String.length a) (a +:+ b) = b.
Proof.
  induction a as [|c a IH]; simpl.
  - autorewrite with go_rw. rewrite Nat.sub_0_r. apply substring_all.
  - autorewrite with go_rw. simpl. exact IH.
Qed.

Lemma bytes_are_bytes s : Forall is_byte (bytes s).
Proof.
  unfold bytes. apply Forall_forall. intros x (a & -> & _)%list_elem_of_fmap. unfold is_byte.
  pose proof (N_ascii_bounded a). lia.
Qed.

Lemma string_of_bytes_of s : string_of_bytes (bytes s) = s.
Proof.
  unfold bytes. induction s as [|a s IH]; [done|]. simpl. rewrite N2Z.id, ascii_N_embedding.
  f_equal. exact IH.
Qed.

(** The [enc] claim is never empty and decodes to the blob. *)
Lemma z85_decode_bytes s :
  Encode (bytes s) <> "" /\ Decode (Encode (bytes s)) = Some (Ok (bytes s)).
Proof.
  destruct (decode_encode_data (bytes s) (bytes_are_bytes s)) as [Hd _]. split; [|done].
  intros E. rewrite E in Hd. discriminate.
Qed.

(** The [enc] claim is ASCII. *)
Lemma digit_ascii n : byte_in 0 127 (digit n) = true.
Proof.
  unfold digit. assert (forall k, byte_in 0 127 (nth k (ascii_list alphabet) "000"%char) = true) as Hd; [|done].
  intros k. destruct (nth_in_or_default k (ascii_list alphabet) "000"%char) as [Hin| ->]; [|done].
  assert (forallb (byte_in 0 127) (ascii_list alphabet) = true) as Ha by (vm_compute; reflexivity).
  rewrite forallb_forall in Ha. by apply Ha.
Qed.

Lemma encode_words_utf8 buf : valid_utf8 (encode_words buf) = true.
Proof.
  assert (forall k l, length l <= k -> valid_utf8 (encode_words l) = true) as H; [|by apply (H (length buf))].
  induction k as [|k IH]; intros [|b0 [|b1 [|b2 [|b3 l]]]] Hl; try done; simpl in Hl; [lia|].
  cbn [encode_words]. unfold word_digits. autorewrite with go_rw.
  rewrite !valid_utf8_ascii by apply digit_ascii. apply IH. lia.
Qed.

Lemma issued_claims_utf8 subject exp nbf iat typ data admin :
  valid_utf8 subject = true -> valid_utf8 typ = true ->
  claims_utf8 (mkClaims jwtIssuer [jwtAudience] subject exp nbf iat typ (Encode data) admin) = true.
Proof.
  intros Hs Ht. unfold claims_utf8. cbn [c_Issuer c_Audience c_Subject c_Typ c_Enc].
  unfold Encode. by rewrite Hs, Ht, encode_words_utf8.
Qed.

Section facts.
Context `{CryptoLaws}.

(** The blob of one key, opened under that key and under another. *)
Lemma decrypt_encrypt `{JSON T} key nonce (creds : T) :
String.length nonce = nonce_size -> unmarshal (marshal creds) = Some creds ->
decryptCreds key (encryptCreds key nonce creds) = Ok creds.
Proof.
intros Hn Hj. unfold decryptCreds, encryptCreds. rewrite bool_decide_eq_false_2
by (rewrite length_sapp; lia). rewrite <- Hn, substring_prefix, substring_suffix, open_seal.
by rewrite Hj.
Qed.

Lemma decrypt_other `{J : JSON T} `{J' : JSON U} key key' nonce (creds : T) :
String.length nonce = nonce_size -> key <> key' ->
exists e, @decryptCreds _ U J' key' (@encryptCreds _ T J key nonce creds) = Err e.
Proof.
intros Hn Hk. unfold decryptCreds, encryptCreds. rewrite bool_decide_eq_false_2
by (rewrite length_sapp; lia). rewrite <- Hn, substring_prefix, substring_suffix.
rewrite (open_other key key') by done. by eexists.
Qed.

Lemma FromSecret_verifying secret : sk_Verifying (FromSecret secret) = ed_public (sk_Signing (FromSecret secret)).
Proof. done. Qed.

(** What verification makes of a token this package signed. *)
Lemma verify_signed `{J : JSON T} secret subject typ wantTyp encKey nonce (creds : T) ttl admin t0 req t :
let keys := FromSecret secret in
String.length nonce = nonce_size -> valid_utf8 subject = true -> valid_utf8 typ = true ->
unmarshal (marshal creds) = Some creds ->
verifyAndDecrypt keys (signEncrypted keys subject typ encKey nonce creds ttl admin t0) wantTyp encKey req t =
(if claims_valid req t
  (mkClaims jwtIssuer [jwtAudience] subject ((fun d => NumericDate (t0 + d)) <$> ttl)
    (Some (NumericDate t0)) (Some (NumericDate t0)) typ
    (Encode (bytes (encryptCreds encKey nonce creds))) admin)
then if decide (typ = wantTyp) then Ok (subject, admin, creds) else Err (EMsg "typ")
else match jwt_parse req (ed_public (sk_Signing keys)) t
      (signEncrypted keys subject typ encKey nonce creds ttl admin t0) with
    | Err e => Err e | Ok _ => Err (EMsg "typ") end).
Proof.
cbn zeta. intros Hn Hsub Htyp Hj. unfold verifyAndDecrypt, signEncrypted. rewrite FromSecret_verifying.
match goal with |- context [jwt_sign ?s ?c] =>
pose proof (parse_sign req s t c (issued_claims_utf8 _ _ _ _ _ _ _ Hsub Htyp)) as Hp; destruct (jwt_parse _ _ _ (jwt_sign s c)) as [c'|e] end.
- destruct Hp as [-> ->]. cbn [mbind result_bind c_Typ c_Enc c_Subject c_Admin].
case_decide as Et; [|by rewrite bool_decide_eq_false_2].
rewrite bool_decide_eq_true_2 by done. simpl.
destruct (z85_decode_bytes (encryptCreds encKey nonce creds)) as [Hne Hd].
rewrite bool_decide_eq_false_2 by done. rewrite Hd, string_of_bytes_of.
by rewrite decrypt_encrypt.
- by rewrite Hp.
Qed.

Lemma claims_valid_window req t subject exp nbf typ enc admin :
claims_valid req t (mkClaims jwtIssuer [jwtAudience] subject exp (Some nbf) (Some nbf) typ enc admin) = true <->
(nbf - jwtLeeway <= t)%Z /\ match exp with Some e => (t < e + jwtLeeway)%Z | None => req = false end.
Proof.
unfold claims_valid. cbn [c_Issuer c_Audience c_ExpiresAt c_NotBefore].
rewrite (bool_decide_eq_true_2 (jwtIssuer = jwtIssuer)), (bool_decide_eq_true_2 (_ ∈ _)) by (done || left).
rewrite !andb_true_iff, !bool_decide_eq_true. destruct exp.
- rewrite bool_decide_eq_true. tauto.
- rewrite negb_true_iff. tauto.
Qed.

(** Whatever the type claim says, a payload sealed under one key does not open
under another. *)
Lemma verify_wrong_key `{J : JSON T} `{J' : JSON U} secret subject typ wantTyp k k' nonce (creds : T) ttl admin t0 req t :
let keys := FromSecret secret in
String.length nonce = nonce_size -> valid_utf8 subject = true -> valid_utf8 typ = true -> k <> k' ->
exists e, @verifyAndDecrypt _ U J' keys (@signEncrypted _ T J keys subject typ k nonce creds ttl admin t0)
          wantTyp k' req t = Err e.
Proof.
cbn zeta. intros Hn Hsub Htyp Hk. unfold verifyAndDecrypt, signEncrypted. rewrite FromSecret_verifying.
match goal with |- context [jwt_sign ?s ?c] =>
pose proof (parse_sign req s t c (issued_claims_utf8 _ _ _ _ _ _ _ Hsub Htyp)) as Hp; destruct (jwt_parse _ _ _ (jwt_sign s c)) as [c'|e] end;
[|by eexists].
destruct Hp as [_ ->]. cbn [mbind result_bind c_Typ c_Enc c_Subject c_Admin].
destruct (negb _); [by eexists|].
destruct (z85_decode_bytes (encryptCreds k nonce creds)) as [Hne Hd].
rewrite bool_decide_eq_false_2 by done. rewrite Hd, string_of_bytes_of.
destruct (decrypt_other (J' := J') k k' nonce creds Hn Hk) as [e He]. rewrite He. by eexists.
Qed.
End facts.

Lemma verify_issued_access `{CryptoLaws} (secret subject nonce : string) (creds : AccessCreds)
    (ttl t0 t : Z) (admin : bool) (tok : AccessToken)
    (Hnonce : String.length nonce = nonce_size) (Hsub : valid_utf8 subject = true)
    (Hcreds : access_utf8 creds = true) :
  let keys := FromSecret secret in
  VerifyAccessToken keys (IssueAccessToken keys subject creds ttl admin nonce t0) t = Ok tok <->
  tok = mkAccessToken subject creds admin /\
  (NumericDate t0 - jwtLeeway <= t < NumericDate (t0 + ttl) + jwtLeeway)%Z.
Proof.
  cbn zeta. unfold VerifyAccessToken, IssueAccessToken.
  change (sk_EncryptAccess _) with (hkdf secret "encrypt/access").
  rewrite verify_signed by (done || by apply access_roundtrip). cbn [fmap option_fmap option_map].
  match goal with |- context [claims_valid true t ?c] =>
    pose proof (claims_valid_window true t subject (Some (NumericDate (t0 + ttl))) (NumericDate t0)
      typAccess (c_Enc c) admin) as Hw; cbn [c_Enc] in Hw; destruct (claims_valid true t c) end.
  - cbn [decide]. rewrite decide_True by done. cbn [mbind result_bind].
    split; [intros [= <-]; split; [done|]; tauto|by intros [-> _]].
  - split.
    + destruct (jwt_parse _ _ _ _); by intros [=].
    + intros [_ Hr]. destruct Hw as [_ Hw]. discriminate Hw. tauto.
Qed.

Lemma verify_issued_refresh `{CryptoLaws} (secret subject nonce : string) (creds : RefreshCreds)
    (ttl t0 t : Z) (admin : bool) (tok : RefreshToken)
    (Hnonce : String.length nonce = nonce_size) (Hsub : valid_utf8 subject = true)
    (Hcreds : refresh_utf8 creds = true) :
  let keys := FromSecret secret in
  let exp := if bool_decide (0 < ttl)%Z then Some (NumericDate (t0 + ttl)) else None in
  VerifyRefreshToken keys (IssueRefreshToken keys subject creds ttl admin nonce t0) t = Ok tok <->
  tok = mkRefreshToken subject creds admin exp /\ rf_TokenURL creds <> "" /\
  (NumericDate t0 - jwtLeeway <= t)%Z /\
  match exp with Some e => (t < e + jwtLeeway)%Z | None => True end.
Proof.
  cbn zeta. unfold VerifyRefreshToken, IssueRefreshToken.
  change (sk_EncryptRefresh _) with (hkdf secret "encrypt/refresh").
  rewrite verify_signed by (done || by apply refresh_roundtrip).
  assert ((fun d => NumericDate (t0 + d)%Z) <$> (if bool_decide (0 < ttl)%Z then Some ttl else None) =
    if bool_decide (0 < ttl)%Z then Some (NumericDate (t0 + ttl)) else None) as He by (by case_bool_decide).
  rewrite He. unfold tokenExpiry, signEncrypted. rewrite unverified_sign by (by apply issued_claims_utf8). cbn [c_ExpiresAt]. rewrite He.
  set (exp := if bool_decide _ then _ else _).
  match goal with |- context [claims_valid false t ?c] =>
    pose proof (claims_valid_window false t subject exp (NumericDate t0) typRefresh (c_Enc c) admin) as Hw;
    cbn [c_Enc] in Hw; destruct (claims_valid false t c) end.
  - rewrite decide_True by done. cbn [mbind result_bind]. destruct Hw as [Hw _].
    destruct (Hw eq_refl) as [H1 H2]. destruct (bool_decide (rf_TokenURL creds = "")) eqn:Hu; bool_simp; simpl.
    + split; [by intros [=]|]. by intros (_ & Hn & _).
    + split; [intros [= <-]; split; [done|]; split; [done|]; split; [done|]; by destruct exp|].
      by intros [-> _].
  - split.
    + destruct (jwt_parse _ _ _ _); by intros [=].
    + intros (_ & _ & H1 & H2). destruct Hw as [_ Hw]. discriminate Hw. split; [done|]. by destruct exp.
Qed.

(** ** Properties *)

(** An access token is good for exactly its window and for what was put in
    it.  Issued at [t0] with lifetime [ttl], it verifies at [t] if and only if
    [t] lies between its issue second and its expiry second, each widened by
    the leeway; and what comes back is the issued subject, credentials and
    admin flag. *)
Theorem access_token_window `{CryptoLaws} (secret subject nonce : string) (creds : AccessCreds)
    (ttl t0 t : Z) (admin : bool) (tok : AccessToken)
    (Hnonce : String.length nonce = nonce_size) (Hsub : valid_utf8 subject = true)
    (Hcreds : access_utf8 creds = true) :
  let keys := FromSecret secret in
  VerifyAccessToken keys (IssueAccessToken keys subject creds ttl admin nonce t0) t = Ok tok <->
  tok = mkAccessToken subject creds admin /\
  (NumericDate t0 - jwtLeeway <= t < NumericDate (t0 + ttl) + jwtLeeway)%Z.
Proof. exact (verify_issued_access secret subject nonce creds ttl t0 t admin tok Hnonce Hsub Hcreds). Qed.

(** A refresh token verifies from its issue second on, forever when issued
    without a lifetime and until its expiry second otherwise (leeway
    included); it gives back what was put in, and the expiry the rotation
    logic caps lifetimes with. *)
Theorem refresh_token_window `{CryptoLaws} (secret subject nonce : string) (creds : RefreshCreds)
    (ttl t0 t : Z) (admin : bool) (tok : RefreshToken)
    (Hnonce : String.length nonce = nonce_size) (Hsub : valid_utf8 subject = true)
    (Hcreds : refresh_utf8 creds = true) :
  let keys := FromSecret secret in
  let exp := if bool_decide (0 < ttl)%Z then Some (NumericDate (t0 + ttl)) else None in
  VerifyRefreshToken keys (IssueRefreshToken keys subject creds ttl admin nonce t0) t = Ok tok <->
  tok = mkRefreshToken subject creds admin exp /\ rf_TokenURL creds <> "" /\
  (NumericDate t0 - jwtLeeway <= t)%Z /\
  match exp with Some e => (t < e + jwtLeeway)%Z | None => True end.
Proof. exact (verify_issued_refresh secret subject nonce creds ttl t0 t admin tok Hnonce Hsub Hcreds). Qed.

(** The two kinds of token never stand in for each other.  A refresh token
    is never accepted as an access token nor the reverse; and even a signature
    over the other type claim does not help, because the payload was sealed
    under the other key. *)
Theorem token_kinds_disjoint `{CryptoLaws} (secret subject nonce typ : string) (ac : AccessCreds)
    (rc : RefreshCreds) (ttl : option Z) (admin : bool) (t0 t : Z)
    (Hnonce : String.length nonce = nonce_size) (Hsub : valid_utf8 subject = true) (Htyp : valid_utf8 typ = true)
    (Hkeys : hkdf secret "encrypt/access" <> hkdf secret "encrypt/refresh") :
  let keys := FromSecret secret in
  (exists e, VerifyAccessToken keys
     (signEncrypted keys subject typ (sk_EncryptRefresh keys) nonce rc ttl admin t0) t = Err e) /\
  (exists e, VerifyRefreshToken keys
     (signEncrypted keys subject typ (sk_EncryptAccess keys) nonce ac ttl admin t0) t = Err e).
Proof.
  cbn zeta. unfold VerifyAccessToken, VerifyRefreshToken. split.
  - destruct (verify_wrong_key (J' := json_access) secret subject typ typAccess
      (hkdf secret "encrypt/refresh") (hkdf secret "encrypt/access") nonce rc ttl admin t0 true t Hnonce Hsub Htyp
      (not_eq_sym Hkeys)) as [e He]. exists e.
    change (sk_EncryptAccess (FromSecret secret)) with (hkdf secret "encrypt/access").
    change (sk_EncryptRefresh (FromSecret secret)) with (hkdf secret "encrypt/refresh"). by rewrite He.
  - destruct (verify_wrong_key (J' := json_refresh) secret subject typ typRefresh
      (hkdf secret "encrypt/access") (hkdf secret "encrypt/refresh") nonce ac ttl admin t0 false t Hnonce Hsub Htyp
      Hkeys) as [e He]. exists e.
    change (sk_EncryptAccess (FromSecret secret)) with (hkdf secret "encrypt/access").
    change (sk_EncryptRefresh (FromSecret secret)) with (hkdf secret "encrypt/refresh"). by rewrite He.
Qed.

(** ** A symbolic instance

    Terms written out as strings: a signature is the pair of key and claims, a
    ciphertext the triple of key, nonce and plaintext. *)

Class Wire (A : Type) := {
  put : A -> string -> string;
  get : string -> option (A * string);
  get_put a k : get (put a k) = Some (a, k)
}.

Fixpoint put_string (s k : string) : string :=
  match s with EmptyString => String "0" k | String c s => String "1" (String c (put_string s k)) end.

Fixpoint get_string (s : string) : option (string * string) :=
  match s with
  | String "0" k => Some ("", k)
  | String "1" (String c s) => '(x, k) ← get_string s; Some (String c x, k)
  | _ => None
  end.

Lemma get_put_string s k : get_string (put_string s k) = Some (s, k).
Proof. induction s as [|c s IH]; simpl; [done|]. by rewrite IH. Qed.

#[export] Instance wire_string : Wire string := {|
  put := put_string; get := get_string; get_put := get_put_string
|}.

#[export] Instance wire_bool : Wire bool.
Proof.
  refine {| put b k := String (if b : bool then "1" else "0")%char k;
            get s := match s with String c k => Some (bool_decide (c = "1"%char), k) | _ => None end |}.
  by intros [].
Defined.

#[export] Instance wire_prod `{Wire A} `{Wire B} : Wire (A * B).
Proof.
  refine {| put p k := put p.1 (put p.2 k);
            get s := '(a, s) ← get s; '(b, s) ← get s; Some ((a, b), s) |}.
  intros [a b] k. rewrite get_put. simpl. by rewrite get_put.
Defined.

#[export] Instance wire_option `{Wire A} : Wire (option A).
Proof.
  refine {| put o k := match o with Some a => String "1" (put a k) | None => String "0" k end;
            get s := match s with
                     | String "1" s => '(a, k) ← get s; Some (Some a, k)
                     | String _ k => Some (None, k)
                     | EmptyString => None
                     end |}.
  intros [a|] k; [|done]. simpl. by rewrite get_put.
Defined.

Fixpoint put_list `{Wire A} (l : list A) (k : string) : string :=
  match l with [] => String "0" k | a :: l => String "1" (put a (put_list l k)) end.

Fixpoint get_list `{Wire A} (fuel : nat) (s : string) : option (list A * string) :=
  match fuel, s with
  | S n, String "1" s => '(a, s) ← get s; '(l, s) ← get_list n s; Some (a :: l, s)
  | _, String _ k => Some ([], k)
  | _, EmptyString => None
  end.

(** The length comes first. *)
#[export] Instance wire_nat : Wire nat.
Proof.
  refine {| put n k := put_string (Nat.iter n (String "1") "") k;
            get s := '(x, k) ← get_string s; Some (String.length x, k) |}.
  intros n k. rewrite get_put_string. simpl. do 2 f_equal.
  induction n as [|n IH]; simpl; [done|]. by rewrite IH.
Defined.

#[export] Instance wire_list `{Wire A} : Wire (list A).
Proof.
  refine {| put l k := put (length l) (put_list l k); get s := '(n, s) ← get s; get_list n s |}.
  intros l k. rewrite get_put. cbn [mbind option_bind]. induction l as [|a l IH]; [done|].
  cbn [length put_list get_list]. rewrite get_put. simpl. by rewrite IH.
Defined.

#[export] Instance wire_Z : Wire Z.
Proof.
  refine {| put n k := put_string (bits (encode n)) k;
            get s := '(x, k) ← get_string s; n ← decode (unbits x); Some (n, k) |}.
  intros n k. rewrite get_put_string. cbn [mbind option_bind]. by rewrite unbits_bits, decode_encode.
Defined.

Definition write `{Wire A} (x : A) : string := put x "".
Definition read `{Wire A} (s : string) : option A := fst <$> get s.

Lemma read_write `{Wire A} (x : A) : read (write x) = Some x.
Proof. unfold read, write. by rewrite get_put. Qed.

#[local] Arguments read : simpl never.
#[local] Arguments write : simpl never.

Definition of_header (h : Header) : string * string := (h_Name h, h_Value h).
Definition of_access (c : AccessCreds) := (ac_AccessToken c, map of_header (ac_Headers c)).
Definition of_refresh (c : RefreshCreds) :=
  (rf_RefreshToken c, rf_TokenURL c, map of_header (rf_Headers c)).
Notation wire_claims :=
  (string * list string * string * (option Z * option Z * option Z) * string * string * bool)%type.

Definition of_claims (c : jwtClaims) : wire_claims :=
  (c_Issuer c, c_Audience c, c_Subject c, (c_ExpiresAt c, c_NotBefore c, c_IssuedAt c), c_Typ c, c_Enc c, c_Admin c).

Definition to_header (x : string * string) : Header := mkHeader x.1 x.2.
Definition to_access (x : string * list (string * string)) : AccessCreds :=
  mkAccessCreds x.1 (map to_header x.2).
Definition to_refresh (x : string * string * list (string * string)) : RefreshCreds :=
  mkRefreshCreds x.1.1 x.1.2 (map to_header x.2).
Definition to_claims (x : wire_claims) : jwtClaims :=
  match x with (i, a, s, (e, n, t), ty, en, ad) => mkClaims i a s e n t ty en ad end.

Lemma to_of_header l : map to_header (map of_header l) = l.
Proof. rewrite map_map. erewrite map_ext; [apply map_id|]. by intros []. Qed.

#[export] Instance symbolic_crypto : Crypto := {|
  hkdf secret info := secret +:+ info;
  ed_public seed := seed;
  aead_seal k n p := write (k, n, p);
  aead_open k n c :=
    '(k', n', p) ← (read c : option (string * string * string)); if decide (k = k') then if decide (n = n') then Some p else None else None;
  jwt_sign sk c := write (sk, of_claims c);
  jwt_parse req vk now tok :=
    match (read tok : option (string * wire_claims)) with
    | Some (sk, x) =>
        if decide (vk = sk) then
          if claims_valid req now (to_claims x) then Ok (to_claims x) else Err (EMsg "claims")
        else Err (EMsg "signature")
    | None => Err (EMsg "malformed")
    end;
  jwt_unverified tok := x ← (read tok : option (string * wire_claims)); Some (to_claims x.2);
  json_access := {| marshal c := write (of_access c); unmarshal s := to_access <$> read s |};
  json_refresh := {| marshal c := write (of_refresh c); unmarshal s := to_refresh <$> read s |}
|}.

Lemma to_of_claims c : to_claims (of_claims c) = c.
Proof. by destruct c. Qed.

#[local] Arguments to_claims : simpl never.
#[local] Arguments of_claims : simpl never.

#[export] Instance symbolic_laws : CryptoLaws.
Proof.
  split; simpl.
  - intros k n p. rewrite read_write. simpl. by rewrite !decide_True.
  - intros k k' n n' p Hk. rewrite read_write. simpl. by rewrite decide_False.
  - intros req sk now c _. rewrite read_write, decide_True, to_of_claims by done.
    by destruct (claims_valid req now c) eqn:E.
  - intros sk c _. rewrite read_write. simpl. by rewrite to_of_claims.
  - intros [a l] _. rewrite read_write. simpl. unfold to_access, of_access. simpl.
    by rewrite to_of_header.
  - intros [a u l] _. rewrite read_write. simpl. unfold to_refresh, of_refresh. simpl.
    by rewrite to_of_header.
Qed.

Definition demo_creds : AccessCreds := mkAccessCreds "ya29" [mkHeader "Cookie" "d=1"].
Definition demo_refresh : RefreshCreds := mkRefreshCreds "1//r" "https://idp/token" [].
Definition demo_nonce : string := "0123456789ab".

Lemma access_token_window_witness :
  let keys := FromSecret "s" in
  VerifyAccessToken keys (IssueAccessToken keys "ann" demo_creds (60 * second) true demo_nonce (100 * second))
    (150 * second) = Ok (mkAccessToken "ann" demo_creds true).
Proof.
  apply (access_token_window "s" "ann" demo_nonce demo_creds (60 * second) (100 * second) (150 * second) true).
  - reflexivity.
  - reflexivity.
  - reflexivity.
  - split; [reflexivity|]. vm_compute. split; [discriminate|reflexivity].
Defined.

Lemma refresh_token_window_witness :
  let keys := FromSecret "s" in
  VerifyRefreshToken keys (IssueRefreshToken keys "ann" demo_refresh 0 false demo_nonce (100 * second))
    (1000000 * second) = Ok (mkRefreshToken "ann" demo_refresh false None).
Proof.
  apply (refresh_token_window "s" "ann" demo_nonce demo_refresh 0 (100 * second) (1000000 * second) false).
  - reflexivity.
  - reflexivity.
  - reflexivity.
  - split; [reflexivity|]. split; [discriminate|]. split; [vm_compute; discriminate|exact I].
Defined.

Lemma token_kinds_disjoint_witness :
  exists e, VerifyAccessToken (FromSecret "s")
    (signEncrypted (FromSecret "s") "ann" "access" (sk_EncryptRefresh (FromSecret "s")) demo_nonce
       demo_refresh None true 0) 0 = Err e.
Proof.
  apply (token_kinds_disjoint "s" "ann" demo_nonce "access" demo_creds demo_refresh None true 0 0).
  - reflexivity.
  - reflexivity.
  - reflexivity.
  - discriminate.
Defined.
