(* ===== verification/OAuth.v ===== *)
(** * Token issue and refresh: [internal/control/tokens/tokens.go],
    [internal/server/oauth/oauth.go]

    Issuing tokens from a spec, and POST /token: a refresh JWT is exchanged
    upstream for an access token, answered with a fresh access JWT and, when
    the upstream rotated, a fresh refresh JWT.  [url.Parse] and the upstream
    endpoint are the classes [URLParser] and [TokenEndpoint]; every clock
    reading the code makes is an argument of its own, and durations are 64-bit.
    The theorems: nothing goes upstream for a token that does not verify or
    points at a forbidden URL, an access JWT dies before the upstream token in
    it, and rotation never extends a refresh token's life. *)

From S2P Require Import Prelude GoStd Z85 Auth.

(** ** Issuing *)

Record Spec := mkSpec {
  sp_Subject : string;
  sp_AccessToken : string;
  sp_Headers : list Header;
  sp_TTLSeconds : Z;
  sp_Admin : bool
}.

Record RefreshSpec := mkRefreshSpec {
  rs_Subject : string;
  rs_RefreshToken : string;
  rs_TokenURL : string;
  rs_Headers : list Header;
  rs_TTLSeconds : Z;
  rs_Admin : bool
}.

Definition bad_header (h : Header) : bool := bool_decide (h_Name h = "") || bool_decide (h_Value h = "").

Definition Spec_Validate (s : Spec) : result unit :=
  fail_if bool_decide (sp_Subject s = "") with EMsg "subject required" ;;
  fail_if existsb bad_header (sp_Headers s) with EMsg "headers: name and value are required" ;;
  fail_if bool_decide (sp_TTLSeconds s <= 0)%Z with EMsg "ttl_seconds must be positive" ;;
  Ok tt.

Definition RefreshSpec_Validate (s : RefreshSpec) : result unit :=
  fail_if bool_decide (rs_Subject s = "") with EMsg "subject required" ;;
  fail_if bool_decide (rs_RefreshToken s = "") with EMsg "refresh_token required" ;;
  fail_if bool_decide (rs_TokenURL s = "") with EMsg "token_url required" ;;
  fail_if existsb bad_header (rs_Headers s) with EMsg "headers: name and value are required" ;;
  fail_if bool_decide (rs_TTLSeconds s < 0)%Z with EMsg "ttl_seconds must be non-negative" ;;
  Ok tt.

Record Issued := mkIssued { is_Token : string; is_ExpiresAt : option Z }.

Definition ErrInvalidSpec : goerr := ESentinel "tokens.ErrInvalidSpec".

(** [time.Duration(n) * time.Second] *)
Definition duration_seconds (n : Z) : Z := i64 (n * second).

Section issue.
Context `{Crypto}.

(** [now] is read here, [now'] inside the signing. *)
Definition Issue (keys : ServerKeys) (s : Spec) (nonce : string) (now now' : Z) : result Issued :=
match Spec_Validate s with
| Err _ => Err (EWrap "spec" ErrInvalidSpec)
| Ok _ =>
  let ttl := duration_seconds (sp_TTLSeconds s) in
  let tok := IssueAccessToken keys (sp_Subject s) (mkAccessCreds (sp_AccessToken s) (sp_Headers s))
               ttl (sp_Admin s) nonce now' in
  Ok (mkIssued tok (Some (now + ttl)%Z))
end.

Definition IssueRefresh (keys : ServerKeys) (s : RefreshSpec) (nonce : string) (now now' : Z)
: result Issued :=
match RefreshSpec_Validate s with
| Err _ => Err (EWrap "spec" ErrInvalidSpec)
| Ok _ =>
  let ttl := duration_seconds (rs_TTLSeconds s) in
  let tok := IssueRefreshToken keys (rs_Subject s)
               (mkRefreshCreds (rs_RefreshToken s) (rs_TokenURL s) (rs_Headers s))
               ttl (rs_Admin s) nonce now' in
  Ok (mkIssued tok (if bool_decide (0 < ttl)%Z then Some (now + ttl)%Z else None))
end.
End issue.

(** ** POST /token *)

(** The parts of a parsed URL the check reads; [u_Loopback] is
    [net.ParseIP(host).IsLoopback()]. *)
Record URL := mkURL { u_Scheme : string; u_Host : string; u_Hostname : string; u_Loopback : bool }.

Class URLParser := url_parse : string -> option URL.

Record upstreamTokens := mkUpstream { up_AccessToken : string; up_RefreshToken : string; up_ExpiresIn : Z }.

(** What the upstream call gives: a request net/http refuses to build, no answer,
    a body that fails to arrive, one that is too large, or a status and the
    decoded body if it is JSON. *)
Inductive endpoint_result : Type :=
  | NotBuilt
  | Unreachable
  | ReadFailed
  | TooLarge
  | Answered (status : Z) (body : option upstreamTokens).

(** The POST to a URL with a form. *)
Class TokenEndpoint := token_post : string -> list (string * string) -> endpoint_result.

Record token_request := mkTokenRequest {
  tr_Method : string;
  tr_FormOK : bool;
  tr_GrantType : string;
  tr_RefreshToken : string;
  tr_ClientID : string;
  tr_ClientSecret : string
}.

Record response := mkResponseBody {
  rp_AccessToken : string;
  rp_TokenType : string;
  rp_ExpiresIn : Z;
  rp_RefreshToken : string
}.

(** The readings of the clock, in the order they are made, and the two nonces. *)
Record Clock := mkClock {
  ck_verify : Z;
  ck_check : Z;
  ck_access : Z;
  ck_rotate : Z;
  ck_refresh : Z;
  ck_nonce1 : string;
  ck_nonce2 : string
}.

(** [time.Time.Sub] saturates. *)
Definition time_sub (a b : Z) : Z := Z.max (- 2 ^ 63) (Z.min (2 ^ 63 - 1) (a - b)).

Definition rotatedRefreshTTL (originalExp : option Z) (configuredTTL now : Z) : Z * bool :=
  match originalExp with
  | None => (configuredTTL, true)
  | Some e =>
      let remaining := time_sub e now in
      if bool_decide (remaining <= 0)%Z then (0%Z, false)
      else if bool_decide (configuredTTL = 0)%Z || bool_decide (remaining < configuredTTL)%Z
      then (remaining, true) else (configuredTTL, true)
  end.

Section oauth.
Context `{Crypto} `{URLParser} `{TokenEndpoint}.

Record Handler := mkHandler { hd_keys : ServerKeys; hd_refreshTTL : Z }.

Definition validateTokenURL (raw : string) : result unit :=
match url_parse raw with
| None => Err (EMsg "token_url parse")
| Some u =>
  fail_if bool_decide (u_Host u = "") with EMsg "token_url has no host" ;;
  if decide (u_Scheme u = "https") then Ok tt
  else if decide (u_Scheme u = "http") then
    if decide (u_Hostname u = "localhost") then Ok tt
    else if u_Loopback u then Ok tt else Err (EMsg "token_url http allowed only to loopback")
  else Err (EMsg "token_url scheme not allowed")
end.

Definition refresh_form (creds : RefreshCreds) (clientID clientSecret : string) : list (string * string) :=
[("grant_type", "refresh_token"); ("refresh_token", rf_RefreshToken creds)] ++
(if decide (clientID = "") then [] else [("client_id", clientID)]) ++
(if decide (clientSecret = "") then [] else [("client_secret", clientSecret)]).

(** The calls made upstream, and what came of them. *)
Definition exchange (creds : RefreshCreds) (clientID clientSecret : string)
: list (string * list (string * string)) * result upstreamTokens :=
match validateTokenURL (rf_TokenURL creds) with
| Err _ => ([], Err (EOAuth 400 "invalid_grant" "refresh token rejected"))
| Ok _ =>
  let form := refresh_form creds clientID clientSecret in
  (match token_post (rf_TokenURL creds) form with
   | NotBuilt => []
   | _ => [(rf_TokenURL creds, form)]
   end,
   match token_post (rf_TokenURL creds) form with
   | NotBuilt => Err (EOAuth 500 "server_error" "could not build upstream request")
   | Unreachable => Err (EOAuth 503 "temporarily_unavailable" "upstream unreachable")
   | ReadFailed => Err (EOAuth 503 "temporarily_unavailable" "could not read upstream response")
   | TooLarge => Err (EOAuth 503 "temporarily_unavailable" "upstream response too large")
   | Answered status body =>
       if bool_decide (500 <= status)%Z
       then Err (EOAuth 503 "temporarily_unavailable" "upstream service error")
       else if bool_decide (400 <= status)%Z
       then Err (EOAuth 400 "invalid_grant" "upstream rejected refresh")
       else
         match body with
         | None => Err (EOAuth 502 "server_error" "could not parse upstream response")
         | Some u =>
             if decide (up_AccessToken u = "")
             then Err (EOAuth 502 "server_error" "upstream returned no access_token")
             else Ok u
         end
   end)
end.

Definition issueResponse (h : Handler) (rt : RefreshToken) (u : upstreamTokens) (ck : Clock)
: result response :=
let accessTTL := duration_seconds (up_ExpiresIn u) in
fail_if bool_decide (accessTTL <= AccessLeeway)%Z
with EOAuth 503 "temporarily_unavailable" "upstream access TTL too short to issue a safe access token" ;;
let accessTTL := (accessTTL - AccessLeeway)%Z in
let accessJWT := IssueAccessToken (hd_keys h) (rt_Subject rt)
(mkAccessCreds (up_AccessToken u) (rf_Headers (rt_Creds rt))) accessTTL (rt_Admin rt)
(ck_nonce1 ck) (ck_access ck) in
let resp := mkResponseBody accessJWT "Bearer" (accessTTL / second) "" in
if negb (bool_decide (up_RefreshToken u = "")) &&
 negb (bool_decide (up_RefreshToken u = rf_RefreshToken (rt_Creds rt))) then
let '(ttl, ok) := rotatedRefreshTTL (rt_ExpiresAt rt) (hd_refreshTTL h) (ck_rotate ck) in
if ok then
  Ok (mkResponseBody accessJWT "Bearer" (accessTTL / second)
    (IssueRefreshToken (hd_keys h) (rt_Subject rt)
      (mkRefreshCreds (up_RefreshToken u) (rf_TokenURL (rt_Creds rt)) (rf_Headers (rt_Creds rt)))
      ttl (rt_Admin rt) (ck_nonce2 ck) (ck_refresh ck)))
else Ok resp
else Ok resp.

(** [!exp.IsZero() && !exp.After(now)] *)
Definition exhausted (exp : option Z) (now : Z) : bool :=
match exp with Some e => bool_decide (e <= now)%Z | None => false end.

Definition ServeHTTP (h : Handler) (r : token_request) (ck : Clock)
: list (string * list (string * string)) * result response :=
if negb (bool_decide (tr_Method r = "POST")) then ([], Err (EOAuth 405 "invalid_request" "POST required"))
else if negb (tr_FormOK r) then ([], Err (EOAuth 400 "invalid_request" "could not parse form"))
else if negb (bool_decide (tr_GrantType r = "refresh_token"))
then ([], Err (EOAuth 400 "unsupported_grant_type" "only refresh_token"))
else if decide (tr_RefreshToken r = "")
then ([], Err (EOAuth 400 "invalid_request" "refresh_token required"))
else
match VerifyRefreshToken (hd_keys h) (tr_RefreshToken r) (ck_verify ck) with
| Err _ => ([], Err (EOAuth 400 "invalid_grant" "refresh token rejected"))
| Ok rt =>
    if exhausted (rt_ExpiresAt rt) (ck_check ck)
    then ([], Err (EOAuth 400 "invalid_grant" "refresh token expired"))
    else
      let '(calls, up) := exchange (rt_Creds rt) (tr_ClientID r) (tr_ClientSecret r) in
      match up with
      | Err e => (calls, Err e)
      | Ok u => (calls, issueResponse h rt u ck)
      end
end.
End oauth.

(** ** Lemmas *)

Lemma rotatedRefreshTTL_spec exp conf now ttl :
  rotatedRefreshTTL exp conf now = (ttl, true) ->
  match exp with
  | None => ttl = conf
  | Some e => (0 < e - now)%Z /\ (ttl <= e - now)%Z /\ (0 <= conf -> 0 < ttl)%Z
  end.
Proof.
  unfold rotatedRefreshTTL. destruct exp as [e|]; [|by intros [= ->]].
  unfold time_sub. case_bool_decide as Hr; [done|].
  destruct (_ || _) eqn:Eb; intros [= <-]; [lia|].
  apply orb_false_iff in Eb as [H1 H2]. apply bool_decide_eq_false in H1, H2. lia.
Qed.

Lemma NumericDate_le t : (NumericDate t <= t < NumericDate t + second)%Z.
Proof. unfold NumericDate, second. pose proof (Z.div_mod t 1000000000 ltac:(lia)).
  pose proof (Z.mod_pos_bound t 1000000000 ltac:(lia)). lia. Qed.

Lemma NumericDate_floor t e :
  (e mod second = 0)%Z -> (t < e + second)%Z -> (NumericDate t <= e)%Z.
Proof.
  unfold NumericDate, second. intros He Ht. pose proof (Z.div_mod e 1000000000 ltac:(lia)) as Hd.
  rewrite He in Hd. assert (t / 1000000000 <= e / 1000000000)%Z; [|lia].
  apply Z.lt_succ_r, Z.div_lt_upper_bound; lia.
Qed.

Section facts.
Context `{Crypto} `{URLParser} `{TokenEndpoint}.

(** The steps a successful answer went through. *)
Lemma ServeHTTP_ok h r ck calls resp :
ServeHTTP h r ck = (calls, Ok resp) ->
exists rt u, VerifyRefreshToken (hd_keys h) (tr_RefreshToken r) (ck_verify ck) = Ok rt /\
(forall e, rt_ExpiresAt rt = Some e -> (ck_check ck < e)%Z) /\
exchange (rt_Creds rt) (tr_ClientID r) (tr_ClientSecret r) = (calls, Ok u) /\
issueResponse h rt u ck = Ok resp.
Proof.
unfold ServeHTTP. destruct (negb _); [done|]. destruct (negb _); [done|]. destruct (negb _); [done|].
destruct (decide _); [done|]. destruct (VerifyRefreshToken _ _ _) as [rt|]; [|done].
destruct (exhausted _ _) eqn:Ex; [done|].
destruct (exchange _ _ _) as [cs up] eqn:Eu. destruct up as [u|]; [|done]. intros [= <- Hi].
exists rt, u. split; [done|]. split; [|by rewrite Hi]. intros e He. unfold exhausted in Ex. rewrite He in Ex.
apply bool_decide_eq_false in Ex. lia.
Qed.

Lemma exchange_ok creds cid sec calls u :
exchange creds cid sec = (calls, Ok u) ->
validateTokenURL (rf_TokenURL creds) = Ok tt /\
calls = [(rf_TokenURL creds, refresh_form creds cid sec)] /\
exists st, token_post (rf_TokenURL creds) (refresh_form creds cid sec) = Answered st (Some u) /\ (st < 400)%Z.
Proof.
unfold exchange. destruct (validateTokenURL _) as [[]|]; [|done].
destruct (token_post _ _) as [| | | |st body]; try done.
case_bool_decide; [done|]. case_bool_decide; [done|]. destruct body as [u'|]; [|done].
destruct (decide _); [done|]. intros [= <- <-]. split; [done|]. split; [done|]. exists st. split; [done|lia].
Qed.

(** The five error codes the package answers with. *)
Definition oauth_error (e : goerr) : Prop := exists st code d, e = EOAuth st code d /\
code ∈ ["invalid_request"; "unsupported_grant_type"; "invalid_grant"; "temporarily_unavailable"; "server_error"].

Lemma oauth_error_intro {A} st code d (e : goerr) :
code ∈ ["invalid_request"; "unsupported_grant_type"; "invalid_grant"; "temporarily_unavailable"; "server_error"] ->
@Err A (EOAuth st code d) = Err e -> oauth_error e.
Proof. intros Hc [= <-]. by eexists _, _, _. Qed.

Lemma exchange_spec creds cid sec calls up :
exchange creds cid sec = (calls, up) ->
(calls <> [] -> validateTokenURL (rf_TokenURL creds) = Ok tt /\
 calls = [(rf_TokenURL creds, refresh_form creds cid sec)]) /\
forall e, up = Err e -> oauth_error e.
Proof.
unfold exchange. destruct (validateTokenURL _) as [[]|].
2: { intros [= <- <-]. split; [done|]. intros e0. apply oauth_error_intro. set_solver. }
intros [= <- <-]. split; [intros Hn; split; [done|]; by destruct (token_post _ _)|]. intros e.
destruct (token_post _ _) as [| | | |st body]; try (apply oauth_error_intro; set_solver).
repeat case_bool_decide; try (apply oauth_error_intro; set_solver).
destruct body; [destruct (decide _); [|done]|]; apply oauth_error_intro; set_solver.
Qed.

(** What the check of the URL lets through. *)
Lemma validateTokenURL_ok raw :
validateTokenURL raw = Ok tt <->
exists u, url_parse raw = Some u /\ u_Host u <> "" /\
(u_Scheme u = "https" \/ u_Scheme u = "http" /\ (u_Hostname u = "localhost" \/ u_Loopback u = true)).
Proof.
unfold validateTokenURL. destruct (url_parse raw) as [u|]; [|naive_solver].
case_bool_decide; [naive_solver|]. simpl.
destruct (decide (u_Scheme u = "https")); [naive_solver|].
destruct (decide (u_Scheme u = "http")); [|naive_solver].
destruct (decide (u_Hostname u = "localhost")); [naive_solver|].
destruct (u_Loopback u) eqn:E; naive_solver congruence.
Qed.

Lemma issueResponse_err h rt u ck e : issueResponse h rt u ck = Err e -> oauth_error e.
Proof.
unfold issueResponse. case_bool_decide; [apply oauth_error_intro; set_solver|]. destruct (_ && _); [|done].
by destruct (rotatedRefreshTTL _ _ _) as [ttl []].
Qed.

Lemma issueResponse_access h rt u ck resp :
issueResponse h rt u ck = Ok resp ->
(AccessLeeway < duration_seconds (up_ExpiresIn u))%Z /\
rp_AccessToken resp = IssueAccessToken (hd_keys h) (rt_Subject rt)
(mkAccessCreds (up_AccessToken u) (rf_Headers (rt_Creds rt)))
(duration_seconds (up_ExpiresIn u) - AccessLeeway) (rt_Admin rt) (ck_nonce1 ck) (ck_access ck) /\
(rp_RefreshToken resp = "" \/
exists ttl, rotatedRefreshTTL (rt_ExpiresAt rt) (hd_refreshTTL h) (ck_rotate ck) = (ttl, true) /\
 rp_RefreshToken resp = IssueRefreshToken (hd_keys h) (rt_Subject rt)
   (mkRefreshCreds (up_RefreshToken u) (rf_TokenURL (rt_Creds rt)) (rf_Headers (rt_Creds rt)))
   ttl (rt_Admin rt) (ck_nonce2 ck) (ck_refresh ck)).
Proof.
unfold issueResponse. case_bool_decide; [done|]. intros Hr. split; [lia|]. revert Hr.
destruct (_ && _); [|intros [= <-]; split; [done|by left]].
destruct (rotatedRefreshTTL _ _ _) as [ttl []]; intros [= <-]; (split; [done|]); [|by left].
right. by exists ttl.
Qed.
End facts.

(** ** Properties *)

(** C39. The refresh endpoint talks to nobody it should not.  A request goes
    upstream only for a POST bearing a refresh token that verifies, has not
    reached its expiry and names a URL with a host that is https, or http to
    [localhost] or a loopback address; then there is one call, to that URL, with
    the token and the client's credentials and nothing else of the inbound form.
    Every failure is one of the five codes listed; the package comment speaks of
    the four codes of RFC 6749 section 5.2, of which [temporarily_unavailable]
    and [server_error] are none. *)
Theorem oauth_gate `{Crypto} `{URLParser} `{TokenEndpoint} (h : Handler) (r : token_request) (ck : Clock) :
  let '(calls, res) := ServeHTTP h r ck in
  (calls <> [] -> tr_Method r = "POST" /\ tr_GrantType r = "refresh_token" /\
     exists rt, VerifyRefreshToken (hd_keys h) (tr_RefreshToken r) (ck_verify ck) = Ok rt /\
       (forall e, rt_ExpiresAt rt = Some e -> (ck_check ck < e)%Z) /\
       (exists u, url_parse (rf_TokenURL (rt_Creds rt)) = Some u /\ u_Host u <> "" /\
          (u_Scheme u = "https" \/
           u_Scheme u = "http" /\ (u_Hostname u = "localhost" \/ u_Loopback u = true))) /\
       calls = [(rf_TokenURL (rt_Creds rt), refresh_form (rt_Creds rt) (tr_ClientID r) (tr_ClientSecret r))]) /\
  (forall e, res = Err e -> exists st code d, e = EOAuth st code d /\
     code ∈ ["invalid_request"; "unsupported_grant_type"; "invalid_grant";
             "temporarily_unavailable"; "server_error"]).
Proof.
  unfold ServeHTTP.
  destruct (negb _) eqn:E1; [split; [done|intros e0; apply oauth_error_intro; set_solver]|].
  destruct (negb (tr_FormOK r)); [split; [done|intros e0; apply oauth_error_intro; set_solver]|].
  destruct (negb (bool_decide (tr_GrantType r = _))) eqn:E3;
    [split; [done|intros e0; apply oauth_error_intro; set_solver]|].
  destruct (decide _); [split; [done|intros e0; apply oauth_error_intro; set_solver]|].
  destruct (VerifyRefreshToken _ _ _) as [rt|] eqn:Ev;
    [|split; [done|intros e0; apply oauth_error_intro; set_solver]].
  destruct (exhausted _ _) eqn:Ex; [split; [done|intros e0; apply oauth_error_intro; set_solver]|].
  apply negb_false_iff in E1, E3. apply bool_decide_eq_true in E1, E3.
  destruct (exchange _ _ _) as [calls up] eqn:Eu. destruct (exchange_spec _ _ _ _ _ Eu) as [Hc He].
  assert (calls <> [] -> tr_Method r = "POST" /\ tr_GrantType r = "refresh_token" /\
     exists rt', Ok rt = Ok rt' /\ (forall e, rt_ExpiresAt rt' = Some e -> (ck_check ck < e)%Z) /\
       (exists u, url_parse (rf_TokenURL (rt_Creds rt')) = Some u /\ u_Host u <> "" /\
          (u_Scheme u = "https" \/
           u_Scheme u = "http" /\ (u_Hostname u = "localhost" \/ u_Loopback u = true))) /\
       calls = [(rf_TokenURL (rt_Creds rt'), refresh_form (rt_Creds rt') (tr_ClientID r) (tr_ClientSecret r))])
    as Hcalls.
  { intros Hne. destruct (Hc Hne) as [Hu%validateTokenURL_ok Hcalls].
    split; [done|]. split; [done|]. exists rt. split; [done|]. split; [|done]. intros e Hexp. unfold exhausted in Ex. rewrite Hexp in Ex.
    apply bool_decide_eq_false in Ex. lia. }
  destruct up as [u|e]; (split; [done|]); [intros e0; apply issueResponse_err|].
  intros e' [= <-]. by apply He.
Qed.

(** An access JWT dies before the upstream token inside it.  The access
    token in a successful answer carries the upstream token just obtained,
    under the refresh token's subject and admin flag; and it stops verifying
    before the lifetime the upstream announced has passed since it was issued,
    the verifier's leeway included. *)
Theorem oauth_access_dies_first `{CryptoLaws} `{URLParser} `{TokenEndpoint} (secret : string)
    (ttl : Z) (r : token_request) (ck : Clock) (calls : list (string * list (string * string)))
    (resp : response) (t : Z) (tok : AccessToken)
    (Hnonce : String.length (ck_nonce1 ck) = nonce_size)
    (Hutf8 : forall rt st u, VerifyRefreshToken (FromSecret secret) (tr_RefreshToken r) (ck_verify ck) = Ok rt ->
       token_post (rf_TokenURL (rt_Creds rt)) (refresh_form (rt_Creds rt) (tr_ClientID r) (tr_ClientSecret r))
         = Answered st (Some u) ->
       valid_utf8 (rt_Subject rt) = true /\ valid_utf8 (up_AccessToken u) = true /\
       headers_utf8 (rf_Headers (rt_Creds rt)) = true)
    (Hok : ServeHTTP (mkHandler (FromSecret secret) ttl) r ck = (calls, Ok resp))
    (Hverify : VerifyAccessToken (FromSecret secret) (rp_AccessToken resp) t = Ok tok) :
  exists rt u st, VerifyRefreshToken (FromSecret secret) (tr_RefreshToken r) (ck_verify ck) = Ok rt /\
    token_post (rf_TokenURL (rt_Creds rt)) (refresh_form (rt_Creds rt) (tr_ClientID r) (tr_ClientSecret r))
      = Answered st (Some u) /\
    tok = mkAccessToken (rt_Subject rt) (mkAccessCreds (up_AccessToken u) (rf_Headers (rt_Creds rt))) (rt_Admin rt) /\
    (0 <= up_ExpiresIn u -> t < ck_access ck + up_ExpiresIn u * second)%Z.
Proof.
  destruct (ServeHTTP_ok _ _ _ _ _ Hok) as (rt & u & Hv & _ & Hex & Hi).
  destruct (exchange_ok _ _ _ _ _ Hex) as (_ & _ & st & Hpost & _).
  destruct (issueResponse_access _ _ _ _ _ Hi) as (Hlee & Htok & _). cbn [hd_keys] in *.
  destruct (Hutf8 _ _ _ Hv Hpost) as (Hus & Hua & Huh).
  rewrite Htok in Hverify. apply (verify_issued_access secret) in Hverify as [-> Hwin];
    [|done|done|unfold access_utf8; cbn [ac_AccessToken ac_Headers]; by rewrite Hua, Huh].
  exists rt, u, st. split; [done|]. split; [done|]. split; [done|]. intros Hpos.
  pose proof (NumericDate_le (ck_access ck + (duration_seconds (up_ExpiresIn u) - AccessLeeway))) as Hn.
  assert (duration_seconds (up_ExpiresIn u) <= up_ExpiresIn u * second)%Z as Hd
    by (apply i64_le; unfold second; lia).
  unfold AccessLeeway in *. lia.
Qed.

(** Rotation never extends a refresh token's life.  When the presented
    refresh token had an expiry, a rotated one expires no later, keeps its
    subject and admin flag, so no chain of rotations outlives the first token;
    provided the two clock readings of the rotation are less than a second
    apart. *)
Theorem oauth_rotation_never_extends `{CryptoLaws} `{URLParser} `{TokenEndpoint} (secret : string)
    (ttl : Z) (r : token_request) (ck : Clock) (calls : list (string * list (string * string)))
    (resp : response) (rt rt' : RefreshToken) (e t : Z)
    (Hnonce : String.length (ck_nonce2 ck) = nonce_size)
    (Hutf8 : forall st u, token_post (rf_TokenURL (rt_Creds rt))
         (refresh_form (rt_Creds rt) (tr_ClientID r) (tr_ClientSecret r)) = Answered st (Some u) ->
       valid_utf8 (rt_Subject rt) = true /\ valid_utf8 (up_RefreshToken u) = true /\
       valid_utf8 (rf_TokenURL (rt_Creds rt)) = true /\ headers_utf8 (rf_Headers (rt_Creds rt)) = true)
    (Hok : ServeHTTP (mkHandler (FromSecret secret) ttl) r ck = (calls, Ok resp))
    (Hold : VerifyRefreshToken (FromSecret secret) (tr_RefreshToken r) (ck_verify ck) = Ok rt)
    (Hexp : rt_ExpiresAt rt = Some e) (Hsecond : (e mod second = 0)%Z) (Httl : (0 <= ttl)%Z)
    (Hclock : (ck_rotate ck <= ck_refresh ck < ck_rotate ck + second)%Z)
    (Hnew : rp_RefreshToken resp <> "")
    (Hverify : VerifyRefreshToken (FromSecret secret) (rp_RefreshToken resp) t = Ok rt') :
  exists e', rt_ExpiresAt rt' = Some e' /\ (e' <= e)%Z /\
    rt_Subject rt' = rt_Subject rt /\ rt_Admin rt' = rt_Admin rt.
Proof.
  destruct (ServeHTTP_ok _ _ _ _ _ Hok) as (rt0 & u & Hv & _ & Hex & Hi). cbn [hd_keys] in *.
  assert (rt0 = rt) as -> by congruence.
  destruct (exchange_ok _ _ _ _ _ Hex) as (_ & _ & st & Hpost & _).
  destruct (Hutf8 _ _ Hpost) as (Hus & Hur & Huu & Huh).
  destruct (issueResponse_access _ _ _ _ _ Hi) as (_ & _ & [|(d & Hrot & Htok)]); [done|].
  cbn [hd_keys hd_refreshTTL] in *. apply rotatedRefreshTTL_spec in Hrot. rewrite Hexp in Hrot.
  destruct Hrot as (_ & Hle & Hpos). rewrite Htok in Hverify.
  apply (verify_issued_refresh secret) in Hverify as [-> _];
    [|done|done|unfold refresh_utf8; cbn [rf_RefreshToken rf_TokenURL rf_Headers]; by rewrite Hur, Huu, Huh].
  cbn [rt_ExpiresAt rt_Subject rt_Admin]. rewrite bool_decide_eq_true_2 by auto.
  eexists. split; [done|]. split; [|done]. apply NumericDate_floor; [done|]. lia.
Qed.

(** A refresh spec is issued as asked.  [IssueRefresh] accepts exactly the
    specs that name a subject, a token, a URL and well-formed headers with a
    non-negative lifetime; the token then carries the lifetime asked for, none
    when zero, as long as it fits a [time.Duration]. *)
Theorem issue_refresh_lifetime `{CryptoLaws} (secret nonce : string) (s : RefreshSpec) (now now' : Z)
    (Hnonce : String.length nonce = nonce_size) (Hsub : valid_utf8 (rs_Subject s) = true)
    (Hutf8 : refresh_utf8 (mkRefreshCreds (rs_RefreshToken s) (rs_TokenURL s) (rs_Headers s)) = true)
    (Hfits : (rs_TTLSeconds s * second < 2 ^ 63)%Z) :
  match IssueRefresh (FromSecret secret) s nonce now now' with
  | Err e => errors_is e "tokens.ErrInvalidSpec" = true /\
      (rs_Subject s = "" \/ rs_RefreshToken s = "" \/ rs_TokenURL s = "" \/
       (exists h, h ∈ rs_Headers s /\ (h_Name h = "" \/ h_Value h = "")) \/ (rs_TTLSeconds s < 0)%Z)
  | Ok r =>
      let lifetime base := if bool_decide (rs_TTLSeconds s = 0)%Z then None
                           else Some (base + rs_TTLSeconds s * second)%Z in
      is_ExpiresAt r = lifetime now /\
      forall t rt, VerifyRefreshToken (FromSecret secret) (is_Token r) t = Ok rt ->
        rt_ExpiresAt rt = NumericDate <$> lifetime now' /\ rt_Subject rt = rs_Subject s /\
        rf_RefreshToken (rt_Creds rt) = rs_RefreshToken s /\ rt_Admin rt = rs_Admin s
  end.
Proof.
  unfold IssueRefresh, RefreshSpec_Validate.
  destruct (bool_decide (rs_Subject s = "")) eqn:E1; [bool_simp; split; [done|tauto]|].
  destruct (bool_decide (rs_RefreshToken s = "")) eqn:E2; [bool_simp; split; [done|tauto]|].
  destruct (bool_decide (rs_TokenURL s = "")) eqn:E3; [bool_simp; split; [done|tauto]|].
  destruct (existsb bad_header (rs_Headers s)) eqn:E4.
  { split; [done|]. do 3 right. left. apply existsb_exists in E4 as (h & Hh & Hb).
    exists h. split; [by apply list_elem_of_In|]. unfold bad_header in Hb. apply orb_true_iff in Hb.
    by rewrite !bool_decide_eq_true in Hb. }
  destruct (bool_decide (rs_TTLSeconds s < 0)%Z) eqn:E5; [bool_simp; split; [done|tauto]|].
  apply bool_decide_eq_false in E5. unfold duration_seconds. unfold second in Hfits.
  rewrite i64_small by (unfold second; lia). cbn [is_ExpiresAt is_Token].
  destruct (decide (rs_TTLSeconds s = 0)%Z) as [Ez|Ez].
  - rewrite Ez. rewrite (bool_decide_eq_true_2 (0 = 0)%Z) by done. cbn. split; [done|]. intros t rt Hv.
    apply (verify_issued_refresh secret) in Hv as [-> _]; done.
  - rewrite (bool_decide_eq_false_2 (rs_TTLSeconds s = 0)%Z) by done.
    rewrite bool_decide_eq_true_2 by (unfold second; lia). split; [done|]. intros t rt Hv.
    apply (verify_issued_refresh secret) in Hv as [-> _]; [|done..]. cbn [rt_ExpiresAt].
    rewrite bool_decide_eq_true_2 by (unfold second; lia). done.
Qed.

(** A lifetime of 293 years does not fit: the token is issued without any. *)
Example overflowing_lifetime :
  let s := mkRefreshSpec "ann" "1//r" "https://idp/token" [] 9300000000 false in
  match IssueRefresh (FromSecret "s") s demo_nonce 0 0 with
  | Ok r => is_ExpiresAt r = None
  | Err _ => False
  end.
Proof. vm_compute. reflexivity. Qed.

(** *** A concrete exchange *)

Definition demo_parser : URLParser := fun raw =>
  if decide (raw = "https://idp/token") then Some (mkURL "https" "idp" "idp" false) else None.

Definition demo_endpoint : TokenEndpoint := fun _ _ => Answered 200 (Some (mkUpstream "ya29" "1//s" 60)).

Definition demo_refresh_jwt : string :=
  IssueRefreshToken (FromSecret "s") "ann" demo_refresh (3600 * second) true demo_nonce 0.

Definition demo_request : token_request :=
  mkTokenRequest "POST" true "refresh_token" demo_refresh_jwt "id" "".

Definition demo_clock : Clock :=
  mkClock second second (2 * second) (2 * second) (2 * second) demo_nonce demo_nonce.

Definition demo_answer : list (string * list (string * string)) * result response :=
  @ServeHTTP _ demo_parser demo_endpoint (mkHandler (FromSecret "s") 0) demo_request demo_clock.

Definition demo_response : response :=
  match demo_answer.2 with Ok r => r | Err _ => mkResponseBody "" "" 0 "" end.

Lemma demo_answer_ok : demo_answer = (demo_answer.1, Ok demo_response).
Proof. vm_compute. reflexivity. Qed.

Lemma demo_presented :
  VerifyRefreshToken (FromSecret "s") demo_refresh_jwt second
  = Ok (mkRefreshToken "ann" demo_refresh true (Some (3600 * second)%Z)).
Proof. vm_compute. reflexivity. Qed.

Lemma oauth_access_dies_first_witness :
  exists tok, VerifyAccessToken (FromSecret "s") (rp_AccessToken demo_response) (40 * second) = Ok tok /\
    ac_AccessToken (at_Creds tok) = "ya29" /\ at_Admin tok = true.
Proof.
  assert (forall rt st u, VerifyRefreshToken (FromSecret "s") demo_refresh_jwt second = Ok rt ->
    demo_endpoint (rf_TokenURL (rt_Creds rt)) (refresh_form (rt_Creds rt) "id" "") = Answered st (Some u) ->
    valid_utf8 (rt_Subject rt) = true /\ valid_utf8 (up_AccessToken u) = true /\
    headers_utf8 (rf_Headers (rt_Creds rt)) = true) as demo_utf8.
  { intros rt st u Hv Hp. rewrite demo_presented in Hv. injection Hv as <-. injection Hp as <- <-.
    split; [reflexivity|]. split; reflexivity. }
  destruct (VerifyAccessToken (FromSecret "s") (rp_AccessToken demo_response) (40 * second)) as [tok|e] eqn:E.
  - exists tok. split; [reflexivity|].
    destruct (@oauth_access_dies_first _ _ demo_parser demo_endpoint "s" 0 demo_request demo_clock
      demo_answer.1 demo_response (40 * second) tok ltac:(reflexivity)
      demo_utf8 demo_answer_ok E) as (rt & u & st & H1 & H2 & -> & _).
    injection H2 as <- <-. split; [reflexivity|]. vm_compute in H1. injection H1 as <-. reflexivity.
  - exfalso. vm_compute in E. discriminate E.
Defined.

Lemma oauth_rotation_never_extends_witness :
  exists rt' e', VerifyRefreshToken (FromSecret "s") (rp_RefreshToken demo_response) (40 * second) = Ok rt' /\
    rt_ExpiresAt rt' = Some e' /\ (e' <= 3600 * second)%Z.
Proof.
  destruct (VerifyRefreshToken (FromSecret "s") (rp_RefreshToken demo_response) (40 * second)) as [rt'|e] eqn:E.
  - destruct (VerifyRefreshToken (FromSecret "s") demo_refresh_jwt second) as [rt|x] eqn:Eo;
      [|exfalso; vm_compute in Eo; discriminate Eo].
    assert (rt = mkRefreshToken "ann" demo_refresh true (Some (3600 * second)%Z)) as Ert
      by (rewrite demo_presented in Eo; congruence).
    assert (forall st u, demo_endpoint (rf_TokenURL (rt_Creds rt)) (refresh_form (rt_Creds rt) "id" "") = Answered st (Some u) ->
      valid_utf8 (rt_Subject rt) = true /\ valid_utf8 (up_RefreshToken u) = true /\
      valid_utf8 (rf_TokenURL (rt_Creds rt)) = true /\ headers_utf8 (rf_Headers (rt_Creds rt)) = true) as demo_utf8.
    { rewrite Ert. intros st u Hp. injection Hp as <- <-. repeat split; reflexivity. }
    destruct (@oauth_rotation_never_extends _ _ demo_parser demo_endpoint "s" 0 demo_request demo_clock
      demo_answer.1 demo_response rt rt' (3600 * second) (40 * second) ltac:(reflexivity)
      demo_utf8 demo_answer_ok Eo) as (e' & H1 & H2 & _).
    + vm_compute in Eo. injection Eo as <-. reflexivity.
    + reflexivity.
    + lia.
    + vm_compute. split; [discriminate|reflexivity].
    + vm_compute. discriminate.
    + exact E.
    + exists rt', e'. split; [reflexivity|]. split; [exact H1|exact H2].
  - exfalso. vm_compute in E. discriminate E.
Defined.

Lemma issue_refresh_lifetime_witness :
  let s := mkRefreshSpec "ann" "1//r" "https://idp/token" [] 3600 true in
  exists r, IssueRefresh (FromSecret "s") s demo_nonce 0 0 = Ok r /\ is_ExpiresAt r = Some (3600 * second)%Z.
Proof.
  cbn zeta. pose proof (issue_refresh_lifetime "s" demo_nonce (mkRefreshSpec "ann" "1//r" "https://idp/token" [] 3600 true)
    0 0 ltac:(reflexivity) ltac:(reflexivity) ltac:(reflexivity) ltac:(vm_compute; reflexivity)) as H.
  destruct (IssueRefresh _ _ _ _ _) as [r|e].
  - exists r. split; [reflexivity|]. cbn zeta in H. destruct H as [H _]. exact H.
  - exfalso. destruct H as [_ [H|[H|[H|[(h & H & _)|H]]]]]; try discriminate H.
    by apply not_elem_of_nil in H.
Defined.
