(* ===== verification/Url.v ===== *)
(** * net/url and net/http pieces the proxy relies on

    Percent-encoding as [net/url] does it for paths and query values, the path
    a [url.URL] is emitted with, and [http.Header] as a map from canonical
    names to value lists. *)

From S2P Require Import Prelude GoStd.

(** ** Character classes *)

Definition in_range (lo hi : N) (a : ascii) : bool := (lo <=? byte_val a)%N && (byte_val a <=? hi)%N.
Definition is_alnum (a : ascii) : bool := in_range 48 57 a || in_range 65 90 a || in_range 97 122 a.
Definition one_of (s : string) (a : ascii) : bool := has_byte a s.

(** [shouldEscape] in the modes [encodePath] and [encodeQueryComponent]. *)
Definition should_escape_path (a : ascii) : bool :=
  negb (is_alnum a || one_of "-_.~$&+,/:;=@" a).
Definition should_escape_query (a : ascii) : bool := negb (is_alnum a || one_of "-_.~" a).

(** [validEncoded(s, encodePath)]: a byte that is neither allowed raw nor [%]
    makes the string unusable as it is. *)
Definition valid_path_byte (a : ascii) : bool :=
  one_of "!$&'()*+,;=:@[]%" a || negb (should_escape_path a).

Fixpoint all_bytes (p : ascii -> bool) (s : string) : bool :=
  match s with EmptyString => true | String a s => p a && all_bytes p s end.

Definition valid_encoded_path (s : string) : bool := all_bytes valid_path_byte s.

Definition hex_digit (n : N) : ascii :=
  if (n <? 10)%N then ascii_of_N (48 + n) else ascii_of_N (55 + n).

Definition percent_byte (a : ascii) (k : string) : string :=
  String "%" (String (hex_digit (byte_val a / 16)) (String (hex_digit (byte_val a mod 16)) k)).

Fixpoint escape_path (s : string) : string :=
  match s with
  | EmptyString => ""
  | String a s => if should_escape_path a then percent_byte a (escape_path s) else String a (escape_path s)
  end.

(** [url.QueryEscape] *)
Fixpoint query_escape (s : string) : string :=
  match s with
  | EmptyString => ""
  | String a s =>
      if decide (a = " "%char) then String "+" (query_escape s)
      else if should_escape_query a then percent_byte a (query_escape s) else String a (query_escape s)
  end.

(** ** [url.URL] *)

Record URL := mkURL {
  url_Scheme : string;
  url_Host : string;
  url_Path : string;
  url_RawPath : string;
  url_RawQuery : string;
  url_Fragment : string
}.

(** [URL.EscapedPath], which [URL.String] emits. *)
Definition EscapedPath (u : URL) : string :=
  if negb (bool_decide (url_RawPath u = "")) && valid_encoded_path (url_RawPath u) &&
     bool_decide (path_unescape (url_RawPath u) = Ok (url_Path u))
  then url_RawPath u
  else if decide (url_Path u = "*") then "*" else escape_path (url_Path u).

(** ** [http.Header] *)

Notation header := (gmap string (list string)).

(** The bytes of an HTTP token. *)
Definition token_byte (a : ascii) : bool := is_alnum a || one_of "!#$%&'*+-.^_`|~" a.

Fixpoint canon_from (up : bool) (s : string) : string :=
  match s with
  | EmptyString => ""
  | String a s =>
      String (if up then upper_byte a else lower_byte a) (canon_from (bool_decide (a = "-"%char)) s)
  end.

(** [textproto.CanonicalMIMEHeaderKey] *)
Definition canonical (name : string) : string :=
  if all_bytes token_byte name then canon_from true name else name.

Definition header_Set (name value : string) (h : header) : header := <[canonical name := [value]]> h.

Definition header_Add (name value : string) (h : header) : header :=
  <[canonical name := default [] (h !! canonical name) ++ [value]]> h.

Definition header_Values (name : string) (h : header) : list string := default [] (h !! canonical name).

(** [Header.Get]: the first value. *)
Definition header_Get (name : string) (h : header) : string :=
  match header_Values name h with v :: _ => v | [] => "" end.

(** [unicode.IsSpace], by the bytes of the encoding. *)
Definition bytes_of (l : list nat) : string := fold_right (fun n s => String (ascii_of_nat n) s) "" l.

Definition is_space (a : ascii) : bool := one_of (bytes_of [9; 10; 11; 12; 13; 32]) a.

Definition is_space2 (a b : ascii) : bool := one_of (bytes_of [194]) a && one_of (bytes_of [133; 160]) b.

Definition is_space3 (a b c : ascii) : bool :=
  if one_of (bytes_of [225]) a then one_of (bytes_of [154]) b && one_of (bytes_of [128]) c
  else if one_of (bytes_of [227]) a then one_of (bytes_of [128]) b && one_of (bytes_of [128]) c
  else one_of (bytes_of [226]) a &&
    (one_of (bytes_of [128]) b && (in_range 128 138 c || one_of (bytes_of [168; 169; 175]) c) ||
     one_of (bytes_of [129]) b && one_of (bytes_of [159]) c).

(** Drops the characters at the front that are spaces. *)
Fixpoint trim_front (two : ascii -> ascii -> bool) (three : ascii -> ascii -> ascii -> bool) (s : string) : string :=
  match s with
  | String a r =>
      if is_space a then trim_front two three r
      else
        match r with
        | String b r' =>
            if two a b then trim_front two three r'
            else
              match r' with
              | String c r'' => if three a b c then trim_front two three r'' else s
              | EmptyString => s
              end
        | EmptyString => s
        end
  | EmptyString => s
  end.

(** [strings.TrimSpace] *)
Definition trim_left (s : string) : string := trim_front is_space2 is_space3 s.
Definition trim_right (s : string) : string :=
  string_rev (trim_front (fun b a => is_space2 a b) (fun c b a => is_space3 a b c) (string_rev s)).
Definition trim_space (s : string) : string := trim_right (trim_left s).

(** [strings.IndexByte] with the two slices around the byte. *)
Fixpoint cut_byte (c : ascii) (s : string) : option (string * string) :=
  match s with
  | EmptyString => None
  | String a s' =>
      if decide (a = c) then Some ("", s')
      else '(x, y) ← cut_byte c s'; Some (String a x, y)
  end.

(** ** Lemmas *)

Lemma all_bytes_app p s1 s2 : all_bytes p (s1 +:+ s2) = all_bytes p s1 && all_bytes p s2.
Proof.
  induction s1 as [|a s1 IH]; [done|]. rewrite string_app_cons. simpl. by rewrite IH, andb_assoc.
Qed.

Lemma all_bytes_impl (p q : ascii -> bool) s :
  (forall a, p a = true -> q a = true) -> all_bytes p s = true -> all_bytes q s = true.
Proof. intros Hpq. induction s as [|a s IH]; [done|]. simpl. rewrite !andb_true_iff. naive_solver. Qed.

Lemma all_bytes_free p c s : p c = false -> all_bytes p s = true -> has_byte c s = false.
Proof.
  intros Hc. induction s as [|a s IH]; [done|]. simpl. rewrite andb_true_iff, orb_false_iff.
  intros [Ha Hs]. split; [|auto]. apply bool_decide_eq_false. by intros ->; rewrite Ha in Hc.
Qed.

(** A boolean fact about every byte is a check of 256 cases. *)
Definition every_byte (p : ascii -> bool) : bool :=
  forallb (fun n => p (ascii_of_nat n)) (seq 0 256).

Lemma every_byte_spec p a : every_byte p = true -> p a = true.
Proof.
  unfold every_byte. rewrite forallb_forall. intros Hp. rewrite <- (ascii_nat_embedding a). apply Hp.
  apply in_seq. pose proof (nat_ascii_bounded a). lia.
Qed.

Lemma escape_path_valid s : valid_encoded_path (escape_path s) = true.
Proof.
  unfold valid_encoded_path. induction s as [|a s IH]; [done|]. cbn [escape_path].
  destruct (should_escape_path a) eqn:Ea; cbn [percent_byte all_bytes]; rewrite IH.
  - assert (valid_path_byte (hex_digit (byte_val a / 16)) &&
      valid_path_byte (hex_digit (byte_val a mod 16)) = true) as Hh.
    { apply (every_byte_spec (fun a => valid_path_byte (hex_digit (byte_val a / 16)) &&
        valid_path_byte (hex_digit (byte_val a mod 16)))). vm_compute. reflexivity. }
    apply andb_true_iff in Hh as [H1 H2]. rewrite H1, H2. done.
  - unfold valid_path_byte. by rewrite Ea, orb_true_r.
Qed.

(** The path a URL is emitted with never holds a raw query or fragment mark,
    nor white space. *)
Lemma EscapedPath_valid u : valid_encoded_path (EscapedPath u) = true.
Proof.
  unfold EscapedPath. destruct (_ && _ && _) eqn:E; [by rewrite !andb_true_iff in E; destruct E as [[]]|].
  clear E. destruct (decide _); [reflexivity|]. apply escape_path_valid.
Qed.

Lemma path_unescape_app x y r :
  path_unescape x = Ok r -> path_unescape (x +:+ y) = (fun s => r +:+ s) <$> path_unescape y.
Proof.
  remember (String.length x) as n eqn:En. revert x r En.
  induction n as [n IH] using lt_wf_ind. intros x r ->. destruct x as [|a x].
  { intros [= <-]. rewrite string_app_nil_l. by destruct (path_unescape y). }
  rewrite string_app_cons. destruct (decide (a = percent)) as [->|Ha].
  - destruct x as [|h [|l x]]; [done..|]. rewrite !string_app_cons. cbn [path_unescape].
    rewrite !decide_True by done. destruct (unhex h) as [vh|]; [|done]. destruct (unhex l) as [vl|]; [|done].
    destruct (path_unescape x) as [r'|] eqn:Ex; [|done]. intros [= <-].
    rewrite (IH (String.length x) ltac:(simpl; lia) x r' eq_refl Ex).
    by destruct (path_unescape y).
  - rewrite !path_unescape_cons by done. destruct (path_unescape x) as [r'|] eqn:Ex; [|done]. intros [= <-].
    rewrite (IH (String.length x) ltac:(simpl; lia) x r' eq_refl Ex). by destruct (path_unescape y).
Qed.

(** A URL with this escaped path is emitted as it is. *)
Lemma EscapedPath_raw u :
  url_RawPath u <> "" -> valid_encoded_path (url_RawPath u) = true ->
  path_unescape (url_RawPath u) = Ok (url_Path u) -> EscapedPath u = url_RawPath u.
Proof.
  intros Hne Hv Hu. unfold EscapedPath. by rewrite bool_decide_eq_false_2, Hv, bool_decide_eq_true_2.
Qed.
