(* ===== verification/ApiClient.v ===== *)
(** * The upstream client: [internal/apiclient/http.go]

    [JoinPath], which both meta side calls and the forward path use, the
    dropping of JSON nulls, form bodies, and [HTTPAPI.Call].  encoding/json,
    protojson, [strconv.FormatFloat] and the HTTP client are the classes
    [Codec] and [HTTPClient].  The theorem: the path the upstream receives
    splits into the base path's segments followed by exactly the segments the
    policy was evaluated on. *)

From S2P Require Import Prelude GoStd Models PathTemplate Url.

(** ** [JoinPath] *)

Definition has_any (cs s : string) : bool := negb (all_bytes (fun a => negb (has_byte a cs)) s).

Definition whitespace : string := String " " (String "009" (String "013" (String "010" ""))).

(** The part before a byte, and the part after. *)
Definition before (c : ascii) (s : string) : string :=
  match cut_byte c s with Some (x, _) => x | None => s end.
Definition after (c : ascii) (s : string) : string :=
  match cut_byte c s with Some (_, y) => y | None => "" end.

Definition JoinPath (base : URL) (requestPath : string) : result URL :=
  fail_if has_prefix "//" requestPath with EMsg "path: protocol-relative reference not allowed" ;;
  fail_if str_contains "://" (before "?" requestPath) with EMsg "path: scheme not allowed in path" ;;
  fail_if has_any whitespace requestPath with EMsg "path: whitespace not allowed" ;;
  let rel := trim_prefix "/" requestPath in
  let pathTail := before "#" rel in
  let fragTail := after "#" rel in
  let queryTail := after "?" pathTail in
  let pathTail := before "?" pathTail in
  let rawBase := if has_suffix "/" (url_Path base) then url_Path base else url_Path base +:+ "/" in
  let rawJoined := rawBase +:+ pathTail in
  decoded ← wrap_err "path: invalid percent-escape" (path_unescape rawJoined);
  Ok (mkURL (url_Scheme base) (url_Host base) decoded rawJoined queryTail fragTail).

(** ** JSON values *)

(** What [json.Unmarshal] gives into an [any]; an object has distinct keys. *)
Inductive json : Type :=
  | JNull
  | JBool (b : bool)
  | JNumber (bits : Z)
  | JString (s : string)
  | JArray (l : list json)
  | JObject (fields : list (string * json)).

Definition is_null (v : json) : bool := match v with JNull => true | _ => false end.

Fixpoint DropJSONNulls (v : json) : json :=
  match v with
  | JObject fs =>
      JObject ((fix go fs :=
        match fs with
        | [] => []
        | (k, x) :: fs => if is_null x then go fs else (k, DropJSONNulls x) :: go fs
        end) fs)
  | JArray l => JArray (map DropJSONNulls l)
  | _ => v
  end.

(** [structpb.structpb_NewValue] on such values: a string must be valid UTF-8. *)
Fixpoint structpb_NewValue (v : json) : result pbvalue :=
  match v with
  | JNull => Ok PNull
  | JBool b => Ok (PBool b)
  | JNumber n => Ok (PNumber n)
  | JString s => fail_if negb (valid_utf8 s) with EMsg "invalid UTF-8 in string" ;; Ok (PString s)
  | JArray l =>
      PList <$> (fix go l :=
        match l with [] => Ok [] | x :: l => y ← structpb_NewValue x; k ← go l; Ok (y :: k) end) l
  | JObject fs =>
      PStruct <$> (fix go fs :=
        match fs with
        | [] => Ok []
        | (k, x) :: fs =>
            fail_if negb (valid_utf8 k) with EMsg "invalid UTF-8 in string" ;;
            (y ← structpb_NewValue x; l ← go fs; Ok ((k, y) :: l))
        end) fs
  end.

(** ** Calls *)

Class Codec := {
  json_decode : string -> option json;
  protojson : pbvalue -> result string;
  format_float : Z -> string
}.

Record http_request := mkHttpRequest {
  hq_Method : string;
  hq_URL : URL;
  hq_Header : header;
  hq_Body : option string
}.

Record http_response := mkHttpResponse {
  hs_StatusCode : Z;
  hs_Header : header;
  (** the first [n] bytes of the body, or the failure to read it *)
  hs_Body : Z -> result string
}.

Class HTTPClient := {
  (** [http.NewRequestWithContext] on a method and a target *)
  new_request : string -> URL -> result unit;
  do_request : http_request -> result http_response
}.

Record HTTPAPI := mkHTTPAPI {
  ha_BaseURL : URL;
  ha_AccessToken : string;
  ha_ExtraHeaders : list (string * string)
}.

Definition maxResponseBodyBytes : Z := 10 * 2 ^ 20.

Definition truncateLimit : nat := 512.
Definition ellipsis : string := String "226" (String "128" (String "166" "")).

Definition truncateBody (body : string) : string :=
  if bool_decide (String.length body <= truncateLimit) then body
  else String.substring 0 truncateLimit body +:+ ellipsis.

Section calls.
Context `{Codec} `{HTTPClient}.

Definition formFieldValue (v : pbvalue) : result string :=
match v with
| PString s => Ok s
| PNumber n => Ok (format_float n)
| PBool b => Ok (if b then "true" else "false")
| PNull => Ok ""
| PStruct _ | PList _ => protojson v
end.

Definition lookup_field (k : string) (fs : list (string * pbvalue)) : option pbvalue :=
snd <$> List.find (fun kv => bool_decide (kv.1 = k)) fs.

(** Keys sorted, each rendered; [Values.Encode] writes them in that order. *)
Fixpoint form_pairs (keys : list string) (fs : list (string * pbvalue)) : result (list string) :=
match keys with
| [] => Ok []
| k :: keys =>
  match lookup_field k fs with
  | None => form_pairs keys fs
  | Some v =>
      s ← wrap_err "field" (formFieldValue v);
      rest ← form_pairs keys fs;
      Ok ((query_escape k +:+ "=" +:+ query_escape s) :: rest)
  end
end.

Definition encodeForm (v : pbvalue) : result string :=
match v with
| PStruct fs => join "&" <$> form_pairs (sort_strings (map fst fs)) fs
| _ => Err (EMsg "form body must be an object")
end.

Definition encodeBody (v : pbvalue) (contentType : string) : result string :=
if decide (contentType = "application/x-www-form-urlencoded") then encodeForm v else protojson v.

Definition call_headers (a : HTTPAPI) (contentType : string) (has_body : bool) : header :=
let h := ∅ in
let h := if decide (ha_AccessToken a = "") then h
       else header_Set "Authorization" ("Bearer " +:+ ha_AccessToken a) h in
let h := header_Set "Accept" "application/json" h in
let h := if has_body then header_Set "Content-Type" contentType h else h in
fold_left (fun h nv => header_Set nv.1 nv.2 h) (ha_ExtraHeaders a) h.

Definition request_body (req : MetaRequest) (contentType : string) : result (option string) :=
match mr_Body req with
| None => Ok None
| Some v => Some <$> wrap_err "marshal body" (encodeBody v contentType)
end.

Definition target_string (u : URL) : string :=
url_Host u +:+ EscapedPath u +:+ (if decide (url_RawQuery u = "") then "" else "?" +:+ url_RawQuery u).

Definition decode_response (target : URL) (resp : http_response) : result Response :=
raw ← wrap_err "read body" (hs_Body resp (maxResponseBodyBytes + 1)%Z);
fail_if bool_decide (maxResponseBodyBytes < Z.of_nat (String.length raw))%Z with EMsg "upstream body exceeded the limit" ;;
if bool_decide (hs_StatusCode resp < 200)%Z || bool_decide (300 <= hs_StatusCode resp)%Z
then Err (EUpstream (hs_StatusCode resp) (target_string target) (truncateBody raw))
else if decide (raw = "") then Ok (mkResponse None)
else
match json_decode raw with
| None => Err (EWrap "decode body" (EMsg "invalid JSON"))
| Some v => pv ← wrap_err "body to value" (structpb_NewValue (DropJSONNulls v)); Ok (mkResponse (Some pv))
end.

Definition Call (a : HTTPAPI) (req : MetaRequest) : result Response :=
target ← JoinPath (ha_BaseURL a) (mr_Path req);
let contentType := if decide (mr_ContentType req = "") then "application/json" else mr_ContentType req in
body ← request_body req contentType;
_ ← wrap_err "build request" (new_request (mr_Method req) target);
resp ← wrap_err "http call"
(do_request (mkHttpRequest (mr_Method req) target (call_headers a contentType (is_some_b body)) body));
decode_response target resp.
End calls.

(** ** The joined path *)

Lemma cut_byte_free c s : has_byte c s = false -> cut_byte c s = None.
Proof.
  induction s as [|a s IH]; [done|]. simpl. intros [Ha Hs]%orb_false_iff.
  apply bool_decide_eq_false in Ha. rewrite decide_False by done. by rewrite IH.
Qed.

Lemma before_free c s : has_byte c s = false -> before c s = s.
Proof. intros Hc. unfold before. by rewrite cut_byte_free. Qed.
Lemma after_free c s : has_byte c s = false -> after c s = "".
Proof. intros Hc. unfold after. by rewrite cut_byte_free. Qed.

Lemma valid_free c s :
  valid_path_byte c = false -> valid_encoded_path s = true -> has_byte c s = false.
Proof. apply all_bytes_free. Qed.

Lemma valid_no_whitespace s : valid_encoded_path s = true -> has_any whitespace s = false.
Proof.
  intros Hv. unfold has_any. apply negb_false_iff. revert Hv. apply all_bytes_impl. intros a Ha.
  assert (implb (valid_path_byte a) (negb (has_byte a whitespace)) = true) as Hi
    by (apply (every_byte_spec (fun a => implb (valid_path_byte a) (negb (has_byte a whitespace))));
        vm_compute; reflexivity).
  by rewrite Ha in Hi.
Qed.

Lemma trim_prefix_valid s : valid_encoded_path s = true -> valid_encoded_path (trim_prefix "/" s) = true.
Proof.
  unfold trim_prefix. destruct (cut_prefix "/" s) as [r|] eqn:E; [|done]. apply cut_prefix_Some in E as ->.
  unfold valid_encoded_path. rewrite all_bytes_app, andb_true_iff. by intros [_ H].
Qed.

(** Unescaping a whole path, when each of its segments unescapes. *)
Lemma unescape_segments s segs :
  mapM unescape_segment (split_byte slash s) = Ok segs -> exists r, path_unescape s = Ok r.
Proof.
  intros Hl. apply mapM_ok in Hl. rewrite <- (join_split slash s). revert Hl.
  generalize (split_byte slash s). intros l Hl.
  induction Hl as [|x x' l segs Hx Hl IH]; [by exists ""|].
  apply wrap_err_ok in Hx. destruct l as [|y l]; [by exists x'|]. rewrite join_cons by done.
  destruct IH as [r Hr].
  rewrite (path_unescape_app x _ x' Hx), string_app_cons, string_app_nil_l, path_unescape_cons, Hr by done.
  by eexists.
Qed.

(** The segments a base path contributes: the path without its final slash. *)
Definition base_segments (p : string) : list string :=
  let p := trim_suffix "/" p in if decide (p = "") then [] else split_byte slash (trim_prefix "/" p).

(** The base path with its final slash. *)
Definition slashed (p : string) : string := if has_suffix "/" p then p else p +:+ "/".

Lemma slashed_trim p : slashed p = trim_suffix "/" p +:+ "/".
Proof.
  unfold slashed, trim_suffix. destruct (has_suffix "/" p) eqn:E.
  - apply has_suffix_spec in E as [r ->]. rewrite (proj2 (cut_suffix_Some "/" _ r)); done.
  - destruct (cut_suffix "/" p) as [r|] eqn:Ec; [|done]. apply cut_suffix_Some in Ec as ->.
    rewrite (proj2 (has_suffix_spec "/" _)) in E; [done|by eexists].
Qed.

Lemma split_byte_concat c x s : split_byte c (x +:+ String c s) = split_byte c x ++ split_byte c s.
Proof.
  induction x as [|a x IH]; autorewrite with go_rw; cbn [split_byte]; [by rewrite decide_True|].
  rewrite IH. case_decide; [done|]. pose proof (split_byte_nonempty c x). by destruct (split_byte c x).
Qed.

Lemma SplitPath_slashed p tail :
  tail <> "" -> SplitPath (slashed p +:+ tail) = base_segments p ++ split_byte slash tail.
Proof.
  intros Ht. rewrite slashed_trim. unfold base_segments. generalize (trim_suffix "/" p). intros q.
  destruct (decide (q = "")) as [->|Hq].
  { autorewrite with go_rw. unfold SplitPath, trim_prefix. simpl. by rewrite decide_False. }
  rewrite string_app_assoc, string_app_cons, string_app_nil_l.
  assert (trim_prefix "/" (q +:+ String slash tail) = trim_prefix "/" q +:+ String slash tail) as Htrim.
  { destruct q as [|a q]; [done|]. rewrite string_app_cons. unfold trim_prefix. cbn [cut_prefix].
    destruct (decide _); reflexivity. }
  unfold SplitPath. change (String "/" tail) with (String slash tail). rewrite Htrim, split_byte_concat.
  rewrite decide_False; [done|]. by destruct (trim_prefix "/" q).
Qed.

(** A base path that [url.URL.String] emits as it stands: only bytes a path may
    hold, no escapes. *)
Definition plain_path (p : string) : bool := valid_encoded_path p && negb (has_byte percent p).

Lemma plain_slashed p :
  plain_path p = true -> valid_encoded_path (slashed p) = true /\ path_unescape (slashed p) = Ok (slashed p).
Proof.
  unfold plain_path, slashed, valid_encoded_path. rewrite andb_true_iff, negb_true_iff. intros [Hv Hp].
  destruct (has_suffix "/" p); [split; [done|by apply path_unescape_plain]|].
  split; [by rewrite all_bytes_app, Hv|]. apply path_unescape_plain. by rewrite has_byte_app, Hp.
Qed.

Lemma base_segments_plain p :
  plain_path p = true -> mapM unescape_segment (base_segments p) = Ok (base_segments p).
Proof.
  unfold plain_path. rewrite andb_true_iff, negb_true_iff. intros [_ Hp].
  assert (has_byte percent (trim_prefix "/" (trim_suffix "/" p)) = false) as Ht.
  { assert (has_byte percent (trim_suffix "/" p) = false) as Hs.
    { unfold trim_suffix. destruct (cut_suffix "/" p) as [r|] eqn:E; [|done].
      apply cut_suffix_Some in E as ->. rewrite has_byte_app in Hp. simpl. apply orb_false_iff in Hp. tauto. }
    unfold trim_prefix. destruct (cut_prefix _ _) as [r|] eqn:E; [|done].
    apply cut_prefix_Some in E. rewrite E, has_byte_app in Hs. simpl. apply orb_false_iff in Hs. tauto. }
  unfold base_segments. destruct (decide _); [done|]. apply mapM_ok.
  revert Ht. generalize (trim_prefix "/" (trim_suffix "/" p)). intros q Ht.
  rewrite <- (join_split slash q) in Ht. revert Ht. generalize (split_byte slash q).
  intros l. induction l as [|x l IH]; [by constructor|]. intros Ht.
  assert (has_byte percent x = false /\ has_byte percent (join "/" l) = false) as [Hx Hl].
  { destruct l as [|y l]; [done|]. rewrite join_cons, !has_byte_app in Ht by done.
    by rewrite !orb_false_iff in Ht; destruct Ht as (? & ? & ?). }
  constructor; [|by apply IH]. unfold unescape_segment. by rewrite path_unescape_plain.
Qed.

(** What [JoinPath] does with a path a URL is emitted with. *)
Lemma JoinPath_escaped base e :
  valid_encoded_path e = true ->
  JoinPath base e =
  (fail_if has_prefix "//" e with EMsg "path: protocol-relative reference not allowed" ;;
   fail_if str_contains "://" e with EMsg "path: scheme not allowed in path" ;;
   decoded ← wrap_err "path: invalid percent-escape"
     (path_unescape (slashed (url_Path base) +:+ trim_prefix "/" e));
   Ok (mkURL (url_Scheme base) (url_Host base) decoded (slashed (url_Path base) +:+ trim_prefix "/" e) "" "")).
Proof.
  intros Hv. pose proof (trim_prefix_valid e Hv) as Ht. unfold JoinPath.
  assert (has_byte "?" e = false /\ has_byte "?" (trim_prefix "/" e) = false /\
    has_byte "#" (trim_prefix "/" e) = false) as (Hq & Hqt & Hh)
    by (split; [|split]; apply valid_free; done || (vm_compute; reflexivity)).
  rewrite valid_no_whitespace by done.
  rewrite (before_free "?" e), (before_free "#"), (after_free "#"), (before_free "?"), (after_free "?") by done.
  reflexivity.
Qed.

(** Whatever the base and the path, scheme and host are the base's. *)
Lemma JoinPath_joined base r u :
  JoinPath base (EscapedPath r) = Ok u ->
  url_Scheme u = url_Scheme base /\ url_Host u = url_Host base /\
  path_unescape (slashed (url_Path base) +:+ trim_prefix "/" (EscapedPath r)) = Ok (url_Path u).
Proof.
  rewrite JoinPath_escaped by apply EscapedPath_valid. rewrite !fail_if_ok. intros (_ & _ & Hu).
  apply bind_ok in Hu as (d & Hd%wrap_err_ok & [= <-]). done.
Qed.

Lemma JoinPath_agrees (base r : URL) (segs : list string)
    (Hbase : plain_path (url_Path base) = true)
    (Hsegs : SplitEscapedPath (EscapedPath r) = Ok segs) :
  if has_prefix "//" (EscapedPath r) || str_contains "://" (EscapedPath r)
  then exists e, JoinPath base (EscapedPath r) = Err e
  else exists u, JoinPath base (EscapedPath r) = Ok u /\
    url_Host u = url_Host base /\ url_RawQuery u = "" /\ url_Fragment u = "" /\
    EscapedPath u = slashed (url_Path base) +:+ trim_prefix "/" (EscapedPath r) /\
    (segs <> [] -> SplitEscapedPath (EscapedPath u) = Ok (base_segments (url_Path base) ++ segs)).
Proof.
  pose proof (EscapedPath_valid r) as Hv. revert Hsegs Hv. generalize (EscapedPath r). intros e Hsegs Hv.
  rewrite JoinPath_escaped by done. destruct (has_prefix "//" e); [by eexists|].
  destruct (str_contains "://" e); [by eexists|]. cbn [orb].
  destruct (plain_slashed _ Hbase) as [Hbv Hbu]. pose proof (trim_prefix_valid e Hv) as Htv.
  set (B := slashed (url_Path base)) in *. unfold SplitEscapedPath, SplitPath in Hsegs.
  assert (exists d, path_unescape (trim_prefix "/" e) = Ok d) as [d Hd].
  { destruct (decide (trim_prefix "/" e = "")) as [->|Hne]; [by eexists|]. by apply (unescape_segments _ segs). }
  assert (path_unescape (B +:+ trim_prefix "/" e) = Ok (B +:+ d)) as Hu
    by (rewrite (path_unescape_app B _ B Hbu), Hd; reflexivity).
  rewrite Hu. cbn [wrap_err mbind result_bind]. eexists. split; [reflexivity|]. cbn [url_Host url_RawQuery url_Fragment].
  split; [done|]. split; [done|]. split; [done|].
  assert (B <> "") as HB by (unfold B; rewrite slashed_trim; by destruct (trim_suffix "/" (url_Path base))).
  rewrite EscapedPath_raw; cbn [url_RawPath url_Path]; [|by destruct B| |done].
  2: { unfold valid_encoded_path. rewrite all_bytes_app. by apply andb_true_iff. }
  split; [done|]. intros Hne. unfold SplitEscapedPath.
  destruct (decide (trim_prefix "/" e = "")) as [_|Ht]; [by destruct segs|].
  unfold B. rewrite SplitPath_slashed by done. apply mapM_ok. apply mapM_ok in Hsegs.
  apply Forall2_app; [|done]. by apply mapM_ok, base_segments_plain.
Qed.

(** The upstream serves the resource the policy saw.  Take any request URL
    and a base URL whose path needs no escaping.  Unless the join refuses it
    for looking like a reference to another host, the path the proxy emits is
    the base path followed by the client's path byte for byte; and it splits
    into the base's segments followed by exactly the segments that routing and
    the policies were given. *)
Theorem upstream_path_agrees (base r : URL) (segs : list string)
    (Hbase : plain_path (url_Path base) = true)
    (Hsegs : SplitEscapedPath (EscapedPath r) = Ok segs) :
  if has_prefix "//" (EscapedPath r) || str_contains "://" (EscapedPath r)
  then exists e, JoinPath base (EscapedPath r) = Err e
  else exists u, JoinPath base (EscapedPath r) = Ok u /\
    url_Host u = url_Host base /\ url_RawQuery u = "" /\ url_Fragment u = "" /\
    EscapedPath u = slashed (url_Path base) +:+ trim_prefix "/" (EscapedPath r) /\
    (segs <> [] -> SplitEscapedPath (EscapedPath u) = Ok (base_segments (url_Path base) ++ segs)).
Proof. exact (JoinPath_agrees base r segs Hbase Hsegs). Qed.

Definition drive : URL := mkURL "https" "www.googleapis.com" "/drive/v3" "" "" "".

Lemma upstream_path_agrees_witness :
  exists u, JoinPath drive "/files/a%2Fb" = Ok u /\ EscapedPath u = "/drive/v3/files/a%2Fb" /\
    SplitEscapedPath (EscapedPath u) = Ok ["drive"; "v3"; "files"; "a/b"].
Proof.
  destruct (upstream_path_agrees drive (mkURL "" "" "/files/a/b" "/files/a%2Fb" "" "") ["files"; "a/b"]
    eq_refl eq_refl) as (u & H1 & _ & _ & _ & H2 & H3).
  exists u. split; [exact H1|]. split; [exact H2|]. apply H3. discriminate.
Defined.

(** With a base path that does need escaping the bytes do not pass through: the
    joined raw path is not one [EscapedPath] accepts, the decoded path is
    escaped afresh, and the client's encoded slash becomes a separator. *)
Definition spaced : URL := mkURL "https" "api.example.com" "/my api" "/my%20api" "" "".

Example spaced_base_loses_escapes :
  SplitEscapedPath "/files/a%2Fb" = Ok ["files"; "a/b"] /\
  EscapedPath <$> JoinPath spaced "/files/a%2Fb" = Ok "/my%20api/files/a/b".
Proof. split; reflexivity. Qed.
