(* ===== verification/Query.v ===== *)
(** * Query strings: net/url's [Values], and the redaction of credentials
    ([redactQuery] of internal/server/middleware.go, [sanitizeURL] of
    internal/server/recorder.go)

    [url.Values] is a map from keys to the list of their values.  [ParseQuery]
    keeps what it can of a malformed string and reports the first error;
    [URL.Query] drops that error.  The theorem: after redaction no value of a
    credential parameter is left to be read out of the recorded URL. *)

From S2P Require Import Prelude GoStd Models Url ApiClient.

Notation values := (gmap string (list string)).

(** ** [url.QueryUnescape] *)

Fixpoint query_unescape (s : string) : result string :=
  match s with
  | EmptyString => Ok ""
  | String a s' =>
      if decide (a = percent) then
        match s' with
        | String h (String l s'') =>
            match unhex h, unhex l with
            | Some vh, Some vl => String (ascii_of_N (vh * 16 + vl)) <$> query_unescape s''
            | _, _ => Err escape_error
            end
        | _ => Err escape_error
        end
      else String (if decide (a = "+"%char) then " "%char else a) <$> query_unescape s'
  end.

(** ** [url.ParseQuery] *)

Definition values_add (k v : string) (m : values) : values :=
  <[k := default [] (m !! k) ++ [v]]> m.

(** One [&]-separated piece: [None] when it is skipped, and the error noted. *)
Definition parse_pair (piece : string) : result (option (string * string)) :=
  fail_if has_byte ";" piece with EMsg "invalid semicolon separator in query" ;;
  if decide (piece = "") then Ok None
  else
    let '(k, v) := match cut_byte "=" piece with Some (k, v) => (k, v) | None => (piece, "") end in
    k ← query_unescape k; v ← query_unescape v; Ok (Some (k, v)).

Definition parse_piece (piece : string) (acc : values * option goerr) : values * option goerr :=
  let '(m, err) := acc in
  match parse_pair piece with
  | Ok (Some (k, v)) => (values_add k v m, err)
  | Ok None => (m, err)
  | Err e => (m, match err with Some e0 => Some e0 | None => Some e end)
  end.

Definition parse_pieces (ps : list string) (acc : values * option goerr) : values * option goerr :=
  fold_left (fun acc p => parse_piece p acc) ps acc.

Definition ParseQuery_lenient (q : string) : values * option goerr :=
  if decide (q = "") then (∅, None) else parse_pieces (split_byte "&" q) (∅, None).

(** [url.ParseQuery], and [URL.Query], which drops the error. *)
Definition ParseQuery (q : string) : result values :=
  match ParseQuery_lenient q with (m, None) => Ok m | (_, Some e) => Err e end.

Definition URL_Query (u : URL) : values := (ParseQuery_lenient (url_RawQuery u)).1.

(** ** [Values.Encode] *)

Definition sorted_values (m : values) : list string := sort_strings (map_to_list m).*1.

Definition encode_pair (k v : string) : string := query_escape k +:+ "=" +:+ query_escape v.

Definition encode_pairs (m : values) : list string :=
  flat_map (fun k => map (encode_pair k) (default [] (m !! k))) (sorted_values m).

Definition Encode_values (m : values) : string := join "&" (encode_pairs m).

(** ** [redactQuery], [sanitizeURL] *)

Definition sensitiveQueryParams : list string :=
  ["code"; "access_token"; "refresh_token"; "id_token"; "token"; "api_key"; "key"; "client_secret";
   "password"; "secret"; "assertion"].

Definition sensitive_key (k : string) : bool := bool_decide (to_lower k ∈ sensitiveQueryParams).

Definition redact_value (v : string) : string := if decide (v = "") then "" else "<redacted>".

Definition redact_key (k : string) (vs : list string) : list string :=
  if sensitive_key k then map redact_value vs else vs.

Definition dirty_key (k : string) (vs : list string) : bool :=
  sensitive_key k && existsb (fun v => negb (bool_decide (v = ""))) vs.

Definition redactQuery (raw : string) : string :=
  if decide (raw = "") then ""
  else
    match ParseQuery raw with
    | Err _ => "<unparseable>"
    | Ok m =>
        if existsb (fun kv => dirty_key kv.1 kv.2) (map_to_list m)
        then Encode_values (map_imap (fun k vs => Some (redact_key k vs)) m)
        else raw
    end.

(** [URL.RequestURI] of a request's URL. *)
Definition RequestURI (u : URL) : string :=
  let p := EscapedPath u in
  (if decide (p = "") then "/" else p) +:+
  (if decide (url_RawQuery u = "") then "" else "?" +:+ url_RawQuery u).

(** A control byte, which [url.ParseRequestURI] refuses. *)
Definition control_byte (a : ascii) : bool := (byte_val a <? 32)%N || (byte_val a =? 127)%N.

(** [url.ParseRequestURI] on an origin-form target. *)
Definition ParseRequestURI (raw : string) : option URL :=
  if negb (has_prefix "/" raw) || negb (all_bytes (fun a => negb (control_byte a)) raw) then None
  else
    let '(p, q) := match cut_byte "?" raw with Some (p, q) => (p, q) | None => (raw, "") end in
    match path_unescape p with
    | Err _ => None
    | Ok path => Some (mkURL "" "" path (if decide (escape_path path = p) then "" else p) q "")
    end.

Definition sanitizeURL (raw : string) : string :=
  match ParseRequestURI raw with
  | None => raw
  | Some u =>
      if decide (url_RawQuery u = "") then raw
      else RequestURI (mkURL (url_Scheme u) (url_Host u) (url_Path u) (url_RawPath u)
             (redactQuery (url_RawQuery u)) (url_Fragment u))
  end.

(** ** Escaping round-trips *)

Definition escape_byte (a : ascii) : string :=
  if decide (a = " "%char) then "+"
  else if should_escape_query a then percent_byte a "" else String a "".

Lemma query_escape_cons a s : query_escape (String a s) = escape_byte a +:+ query_escape s.
Proof.
  cbn [query_escape]. unfold escape_byte. destruct (decide (a = " "%char)); [done|].
  by destruct (should_escape_query a).
Qed.

(** An escaped byte unescapes, and is made of none of the separators. *)
Lemma escape_byte_unescape a s :
  query_unescape (escape_byte a +:+ s) = String a <$> query_unescape s.
Proof.
  unfold escape_byte. destruct (decide (a = " "%char)) as [->|Hs]; [done|].
  destruct (should_escape_query a) eqn:Ea.
  - unfold percent_byte. autorewrite with go_rw. cbn [query_unescape]. rewrite decide_True by done.
    assert (match unhex (hex_digit (byte_val a / 16)), unhex (hex_digit (byte_val a mod 16)) with
      | Some vh, Some vl => Ascii.eqb (ascii_of_N (vh * 16 + vl)) a | _, _ => false end = true) as Hh.
    { apply (every_byte_spec (fun a => match unhex (hex_digit (byte_val a / 16)),
        unhex (hex_digit (byte_val a mod 16)) with
        | Some vh, Some vl => Ascii.eqb (ascii_of_N (vh * 16 + vl)) a | _, _ => false end)).
      vm_compute. reflexivity. }
    destruct (unhex (hex_digit (byte_val a / 16))); [|done].
    destruct (unhex (hex_digit (byte_val a mod 16))); [|done]. apply Ascii.eqb_eq in Hh. by rewrite Hh.
  - autorewrite with go_rw. cbn [query_unescape].
    rewrite !decide_False; [done| |]; intros ->; discriminate Ea.
Qed.

Lemma query_unescape_escape s : query_unescape (query_escape s) = Ok s.
Proof.
  induction s as [|a s IH]; [done|]. by rewrite query_escape_cons, escape_byte_unescape, IH.
Qed.

(** The bytes of an escaped string. *)
Definition escaped_byte (a : ascii) : bool :=
  bool_decide (a = "+"%char) || bool_decide (a = percent) || negb (should_escape_query a).

Lemma query_escape_bytes s : all_bytes escaped_byte (query_escape s) = true.
Proof.
  induction s as [|a s IH]; [done|]. rewrite query_escape_cons, all_bytes_app, IH, andb_true_r.
  apply (every_byte_spec (fun a => all_bytes escaped_byte (escape_byte a))). vm_compute. reflexivity.
Qed.

Lemma query_escape_free c s : escaped_byte c = false -> has_byte c (query_escape s) = false.
Proof. intros Hc. apply (all_bytes_free escaped_byte); [done|apply query_escape_bytes]. Qed.

Lemma cut_byte_app c x s : has_byte c x = false -> cut_byte c (x +:+ String c s) = Some (x, s).
Proof.
  induction x as [|a x IH]; intros Hx; autorewrite with go_rw; cbn [cut_byte]; [by rewrite decide_True|].
  cbn [has_byte] in Hx. apply orb_false_iff in Hx as [Ha Hx]. apply bool_decide_eq_false in Ha.
  by rewrite decide_False, IH.
Qed.

Lemma encode_pair_free c k v :
  escaped_byte c = false -> c <> "="%char -> has_byte c (encode_pair k v) = false.
Proof.
  intros Hc Hne. unfold encode_pair. rewrite !has_byte_app, !query_escape_free by done. simpl.
  by rewrite bool_decide_eq_false_2.
Qed.

Lemma parse_encode_pair k v : parse_pair (encode_pair k v) = Ok (Some (k, v)).
Proof.
  unfold parse_pair. rewrite encode_pair_free by (done || (vm_compute; reflexivity)).
  rewrite decide_False by (unfold encode_pair; by destruct (query_escape k)).
  unfold encode_pair. rewrite string_app_cons, string_app_nil_l, cut_byte_app
    by (apply query_escape_free; vm_compute; reflexivity).
  by rewrite !query_unescape_escape.
Qed.

(** ** Encoding round-trips *)

Lemma parse_encoded_pairs l m err :
  parse_pieces (map (fun kv => encode_pair kv.1 kv.2) l) (m, err) =
  (fold_left (fun m kv => values_add kv.1 kv.2 m) l m, err).
Proof.
  revert m. induction l as [|[k v] l IH]; intros m; [done|]. unfold parse_pieces in *. cbn [map fold_left].
  unfold parse_piece at 2. rewrite parse_encode_pair. apply IH.
Qed.

Definition pairs_of (m : values) (ks : list string) : list (string * string) :=
  flat_map (fun k => map (pair k) (default [] (m !! k))) ks.

Lemma encode_pairs_of m : encode_pairs m = map (fun kv => encode_pair kv.1 kv.2) (pairs_of m (sorted_values m)).
Proof.
  unfold encode_pairs, pairs_of. generalize (sorted_values m). intros ks.
  induction ks as [|k ks IH]; [done|]. cbn [flat_map]. rewrite map_app, IH. f_equal. by rewrite map_map.
Qed.

Lemma values_add_all k vs (m : values) :
  vs <> [] ->
  fold_left (fun m kv => values_add kv.1 kv.2 m) (map (pair k) vs) m = <[k := default [] (m !! k) ++ vs]> m.
Proof.
  revert m. induction vs as [|v vs IH]; intros m Hne; [done|]. cbn [map fold_left]. unfold values_add at 2.
  destruct vs as [|v' vs]; [done|]. rewrite IH by done. rewrite lookup_insert_eq, insert_insert_eq. simpl.
  by rewrite <- (assoc_L (++)).
Qed.

Lemma fold_pairs_of (m : values) ks (acc : values) :
  NoDup ks -> (forall k, k ∈ ks -> acc !! k = None /\ exists vs, m !! k = Some vs /\ vs <> []) ->
  forall k, fold_left (fun m kv => values_add kv.1 kv.2 m) (pairs_of m ks) acc !! k =
    if decide (k ∈ ks) then m !! k else acc !! k.
Proof.
  intros Hnd. revert acc. induction Hnd as [|k0 ks Hk0 Hnd IH]; intros acc Hin k.
  { by rewrite decide_False by apply not_elem_of_nil. }
  destruct (Hin k0 ltac:(left)) as [Hacc (vs & Hm & Hvs)]. unfold pairs_of in *. cbn [flat_map].
  rewrite fold_left_app, Hm. cbn [default]. simpl default. rewrite values_add_all, Hacc by done. simpl.
  rewrite IH.
  - destruct (decide (k = k0)) as [->|Hne].
    + rewrite decide_False by done. rewrite decide_True by left. by rewrite lookup_insert_eq.
    + rewrite lookup_insert_ne by done. apply decide_ext. rewrite elem_of_cons. naive_solver.
  - intros k' Hk'. rewrite lookup_insert_ne by (by intros ->). apply Hin. by right.
Qed.

Lemma sorted_values_spec (m : values) : NoDup (sorted_values m) /\ forall k, k ∈ sorted_values m <-> is_Some (m !! k).
Proof.
  unfold sorted_values, sort_strings. split.
  - rewrite string_sort_perm. apply NoDup_fst_map_to_list.
  - intros k. rewrite string_sort_perm, list_elem_of_fmap. split.
    + intros ([k' vs] & -> & Hk%elem_of_map_to_list). by exists vs.
    + intros [vs Hk]. exists (k, vs). split; [done|]. by apply elem_of_map_to_list.
Qed.

(** A map with a key gives a string to split. *)
Lemma encode_split m :
  encode_pairs m <> [] -> split_byte "&" (Encode_values m) = encode_pairs m.
Proof.
  intros Hne. unfold Encode_values. apply split_join; [done|]. rewrite encode_pairs_of.
  apply Forall_forall. intros x (kv & -> & _)%list_elem_of_fmap. apply encode_pair_free; [|done].
  vm_compute. reflexivity.
Qed.

Lemma parse_encode (m : values) :
  (forall k, m !! k <> Some []) -> ParseQuery_lenient (Encode_values m) = (m, None).
Proof.
  intros Hm. destruct (sorted_values_spec m) as [Hnd Hin]. unfold ParseQuery_lenient.
  assert (fold_left (fun m kv => values_add kv.1 kv.2 m) (pairs_of m (sorted_values m)) ∅ = m) as Hf.
  { apply map_eq. intros k. rewrite fold_pairs_of; [|done|].
    - case_decide as Hk; [done|]. rewrite lookup_empty. destruct (m !! k) eqn:E; [|done].
      destruct Hk. apply Hin. by eexists.
    - intros k' Hk'. split; [apply lookup_empty|]. apply Hin in Hk' as [vs Hvs]. exists vs. split; [done|].
      intros ->. by apply (Hm k'). }
  destruct (decide (encode_pairs m = [])) as [He|He].
  { unfold Encode_values. rewrite He. simpl. rewrite encode_pairs_of in He. apply map_eq_nil in He.
    rewrite He in Hf. by rewrite <- Hf. }
  rewrite decide_False.
  - rewrite encode_split by done. by rewrite encode_pairs_of, parse_encoded_pairs, Hf.
  - unfold Encode_values. rewrite encode_pairs_of in *. destruct (map _ _) as [|x l] eqn:E; [done|].
    intros [Hx|Hx]%join_eq_nil_inv; [done| |done]. simplify_eq.
    destruct (pairs_of m (sorted_values m)) as [|[k v] [|? ?]]; simplify_eq/=. unfold encode_pair in *.
    by destruct (query_escape k).
Qed.

(** ** Redaction *)

Lemma parse_pieces_nonempty ps (m : values) err :
  (forall k, m !! k <> Some []) -> forall k, (parse_pieces ps (m, err)).1 !! k <> Some [].
Proof.
  revert m err. induction ps as [|p ps IH]; intros m err Hm k; [apply Hm|]. cbn [parse_pieces fold_left].
  unfold parse_piece at 2. destruct (parse_pair p) as [[[k' v]|]|e]; apply IH; try done.
  intros k0. unfold values_add. destruct (decide (k0 = k')) as [->|Hne].
  - rewrite lookup_insert_eq. intros [= Hl]. by destruct (default [] (m !! k')).
  - rewrite lookup_insert_ne by done. apply Hm.
Qed.

Lemma ParseQuery_nonempty q (m : values) : ParseQuery q = Ok m -> forall k, m !! k <> Some [].
Proof.
  unfold ParseQuery, ParseQuery_lenient. intros Hq k. destruct (decide (q = "")).
  { injection Hq as <-. by rewrite lookup_empty. }
  pose proof (parse_pieces_nonempty (split_byte "&" q) ∅ None (fun k => ltac:(by rewrite lookup_empty)) k) as Hp.
  destruct (parse_pieces _ _) as [m' [e|]]; [done|]. by injection Hq as <-.
Qed.

(** What can be read out of a query string under a key. *)
Definition read_query (q k : string) : list string := default [] ((ParseQuery_lenient q).1 !! k).

Lemma redactQuery_read q k :
  (sensitive_key k = true -> forall v, v ∈ read_query (redactQuery q) k -> v = "" \/ v = "<redacted>") /\
  (sensitive_key k = false -> is_ok (ParseQuery q) = true -> read_query (redactQuery q) k = read_query q k).
Proof.
  unfold redactQuery. destruct (decide (q = "")) as [->|Hq].
  { split; [|done]. intros _ v. unfold read_query, ParseQuery_lenient. simpl. rewrite lookup_empty. simpl.
    by intros ?%not_elem_of_nil. }
  destruct (ParseQuery q) as [m|e] eqn:Ep.
  2: { split; [|done]. intros Hk v. assert (read_query "<unparseable>" k = [] \/ k = "<unparseable>") as [->| ->].
    { unfold read_query. change (ParseQuery_lenient _) with ({["<unparseable>" := [""]]} : values, @None goerr).
      destruct (decide (k = "<unparseable>")); [by right|left]. simpl. by rewrite lookup_singleton_ne. }
    - by intros ?%not_elem_of_nil.
    - discriminate Hk. }
  assert (ParseQuery_lenient q = (m, None)) as El
    by (unfold ParseQuery in Ep; destruct (ParseQuery_lenient q) as [m' [e|]]; congruence).
  destruct (existsb _ _) eqn:Ed.
  - set (m' := map_imap _ m). assert (forall k, m' !! k = redact_key k <$> m !! k) as Hm'.
    { intros k'. unfold m'. rewrite map_lookup_imap. by destruct (m !! k'). }
    assert (ParseQuery_lenient (Encode_values m') = (m', None)) as Er.
    { apply parse_encode. intros k'. rewrite Hm'. destruct (m !! k') as [vs|] eqn:Ek; [|done].
      intros [= Hn]. apply (ParseQuery_nonempty q m Ep k'). rewrite Ek. f_equal.
      unfold redact_key in Hn. destruct (sensitive_key k'); [by destruct vs|done]. }
    unfold read_query. rewrite Er, El. simpl. rewrite Hm'. unfold redact_key.
    destruct (m !! k) as [vs|]; simpl; [|split; [intros _ v ?%not_elem_of_nil; done|done]].
    split; intros ->; [|done]. intros v (x & -> & _)%list_elem_of_fmap. unfold redact_value.
    case_decide; auto.
  - split; [|done]. intros Hk v. unfold read_query. rewrite El. simpl. intros Hv. left.
    destruct (m !! k) as [vs|] eqn:Ek; [|by apply not_elem_of_nil in Hv]. simpl in Hv.
    destruct (decide (v = "")) as [|Hne]; [done|].
    assert (existsb (fun kv => dirty_key kv.1 kv.2) (map_to_list m) = true) as Ht; [|congruence].
    apply existsb_exists. exists (k, vs). split; [by apply list_elem_of_In, elem_of_map_to_list|].
    unfold dirty_key. simpl. rewrite Hk. apply existsb_exists. exists v.
    split; [by apply list_elem_of_In|]. by rewrite bool_decide_eq_false_2.
Qed.

(** ** The recorded URL *)

Lemma escape_path_unescape s : path_unescape (escape_path s) = Ok s.
Proof.
  induction s as [|a s IH]; [done|]. cbn [escape_path]. destruct (should_escape_path a) eqn:Ea.
  - unfold percent_byte. cbn [path_unescape]. rewrite decide_True by done.
    assert (match unhex (hex_digit (byte_val a / 16)), unhex (hex_digit (byte_val a mod 16)) with
      | Some vh, Some vl => Ascii.eqb (ascii_of_N (vh * 16 + vl)) a | _, _ => false end = true) as Hh.
    { apply (every_byte_spec (fun a => match unhex (hex_digit (byte_val a / 16)),
        unhex (hex_digit (byte_val a mod 16)) with
        | Some vh, Some vl => Ascii.eqb (ascii_of_N (vh * 16 + vl)) a | _, _ => false end)).
      vm_compute. reflexivity. }
    destruct (unhex (hex_digit (byte_val a / 16))); [|done].
    destruct (unhex (hex_digit (byte_val a mod 16))); [|done]. apply Ascii.eqb_eq in Hh. by rewrite Hh, IH.
  - rewrite path_unescape_cons; [by rewrite IH|]. intros ->. discriminate Ea.
Qed.

Lemma EscapedPath_unescape u : url_Path u <> "*" -> path_unescape (EscapedPath u) = Ok (url_Path u).
Proof.
  intros Hs. unfold EscapedPath. destruct (_ && _ && _) eqn:E.
  - rewrite andb_true_iff, bool_decide_eq_true in E. by destruct E.
  - rewrite decide_False by done. apply escape_path_unescape.
Qed.

Lemma path_unescape_slash s r : path_unescape (String slash s) = Ok r -> exists r', r = String slash r'.
Proof.
  rewrite path_unescape_cons by done. destruct (path_unescape s); [|done]. intros [= <-]. by eexists.
Qed.

(** The escaped path of a URL the server parsed starts with a slash. *)
Lemma EscapedPath_slash u p :
  url_Path u = String slash p -> url_RawPath u = "" \/ (exists r, url_RawPath u = String slash r) ->
  exists e, EscapedPath u = String slash e.
Proof.
  intros Hp Hr. unfold EscapedPath. destruct (_ && _ && _) eqn:E.
  - destruct Hr as [Hr|[r Hr]]; rewrite Hr in *; [done|by eexists].
  - rewrite decide_False by (by rewrite Hp). rewrite Hp. cbn [escape_path]. by eexists.
Qed.

Lemma cut_byte_Some c s x y : cut_byte c s = Some (x, y) -> s = x +:+ String c y.
Proof.
  revert x. induction s as [|a s IH]; intros x; cbn [cut_byte]; [done|].
  destruct (decide (a = c)) as [->|]; [by intros [= <- <-]|].
  destruct (cut_byte c s) as [[x' y']|]; [|done]. intros [= <- <-]. rewrite string_app_cons.
  f_equal. by apply IH.
Qed.

Lemma ParseRequestURI_inv raw u :
  ParseRequestURI raw = Some u ->
  (exists p, url_Path u = String slash p) /\
  (url_RawPath u = "" \/ exists r, url_RawPath u = String slash r) /\
  all_bytes (fun a => negb (control_byte a)) (url_RawQuery u) = true.
Proof.
  unfold ParseRequestURI. destruct (has_prefix "/" raw) eqn:Hs; [|done]. cbn [negb orb].
  destruct (all_bytes _ raw) eqn:Hc; [|done]. cbn [negb]. apply has_prefix_spec in Hs as [t Ht].
  rewrite string_app_cons, string_app_nil_l in Ht.
  assert (exists p q, match cut_byte "?" raw with Some (p, q) => (p, q) | None => (raw, "") end = (String slash p, q) /\
    all_bytes (fun a => negb (control_byte a)) q = true) as (p & q & -> & Hq).
  { destruct (cut_byte "?" raw) as [[x y]|] eqn:Ecut; [|by exists t, ""; rewrite Ht].
    apply cut_byte_Some in Ecut. rewrite Ecut in Hc. rewrite all_bytes_app in Hc. apply andb_true_iff in Hc as [_ Hc].
    cbn [all_bytes] in Hc. apply andb_true_iff in Hc as [_ Hc]. rewrite Ecut in Ht.
    destruct x as [|a x]; [done|]. rewrite string_app_cons in Ht. injection Ht as -> _. by exists x, y. }
  destruct (path_unescape (String slash p)) as [path|] eqn:Eu; [|done]. intros [= <-]. simpl.
  destruct (path_unescape_slash _ _ Eu) as [r' ->]. split; [by eexists|]. split; [|done].
  destruct (decide _); [by left|]. right. by eexists.
Qed.

Lemma RequestURI_query w :
  before "?" (RequestURI w) = (if decide (EscapedPath w = "") then "/" else EscapedPath w) /\
  after "?" (RequestURI w) = url_RawQuery w.
Proof.
  unfold RequestURI, before, after.
  set (p := if decide (EscapedPath w = "") then "/" else EscapedPath w).
  assert (has_byte "?" p = false) as Hp.
  { unfold p. destruct (decide _); [done|]. apply valid_free; [vm_compute; reflexivity|apply EscapedPath_valid]. }
  destruct (decide (url_RawQuery w = "")) as [->|Hq].
  - rewrite string_app_nil_r, cut_byte_free by done. done.
  - rewrite string_app_cons, string_app_nil_l, cut_byte_app by done. done.
Qed.

(** Writing a parsed request URL out and parsing it again. *)
Lemma reparse raw u :
  ParseRequestURI raw = Some u ->
  exists u', ParseRequestURI (RequestURI u) = Some u' /\ EscapedPath u' = EscapedPath u /\
    url_RawQuery u' = url_RawQuery u /\ exists e, EscapedPath u = String slash e.
Proof.
  intros Hp. destruct (ParseRequestURI_inv _ _ Hp) as ([p Hpath] & Hraw & Hq).
  destruct (EscapedPath_slash u p Hpath Hraw) as [e He]. pose proof (EscapedPath_valid u) as Hv.
  assert (path_unescape (EscapedPath u) = Ok (url_Path u)) as Hu
    by (apply EscapedPath_unescape; by rewrite Hpath).
  assert (has_byte "?" (EscapedPath u) = false) as Hqm by (apply valid_free; [vm_compute; reflexivity|done]).
  unfold ParseRequestURI, RequestURI. rewrite decide_False by (by rewrite He).
  assert (has_prefix "/" (EscapedPath u +:+ (if decide (url_RawQuery u = "") then "" else "?" +:+ url_RawQuery u))
    = true) as -> by (rewrite He, string_app_cons; done).
  rewrite all_bytes_app. assert (all_bytes (fun a => negb (control_byte a)) (EscapedPath u) = true) as ->.
  { revert Hv. apply all_bytes_impl. intros a Ha.
    assert (implb (valid_path_byte a) (negb (control_byte a)) = true) as Hi
      by (apply (every_byte_spec (fun a => implb (valid_path_byte a) (negb (control_byte a)))); vm_compute; reflexivity).
    by rewrite Ha in Hi. }
  assert (all_bytes (fun a => negb (control_byte a))
    (if decide (url_RawQuery u = "") then "" else "?" +:+ url_RawQuery u) = true) as ->.
  { destruct (decide _); [done|]. rewrite all_bytes_app, Hq. reflexivity. }
  cbn [negb orb andb].
  set (w := mkURL "" "" (url_Path u) (if decide (escape_path (url_Path u) = EscapedPath u) then "" else EscapedPath u)
    (url_RawQuery u) "").
  exists w. split; [|split; [|split; [done|by exists e]]].
  - destruct (decide (url_RawQuery u = "")) as [Hz|Hz].
    + rewrite string_app_nil_r, cut_byte_free, Hu by done. unfold w. by rewrite Hz.
    + rewrite string_app_cons, string_app_nil_l, cut_byte_app, Hu by done. done.
  - unfold w. destruct (decide (escape_path (url_Path u) = EscapedPath u)) as [Hs|Hs].
    + unfold EscapedPath at 1. cbn [url_RawPath url_Path]. rewrite bool_decide_eq_true_2 by done. cbn [negb andb].
      by rewrite decide_False by (by rewrite Hpath).
    + rewrite EscapedPath_raw; [done| |done|done]. cbn [url_RawPath]. by rewrite He.
Qed.

(** No credential is left in the URL of a traffic event.  For any request
    target the server parsed, the recorded URL has the same path; whatever is
    read out of its query under a credential parameter (in any case) is empty
    or the redaction mark; and when the query is well-formed every other
    parameter reads as it did. *)
Theorem recorded_url_redacted (target : string) (u : URL) (k : string)
    (Hparse : ParseRequestURI target = Some u) :
  let recorded := sanitizeURL (RequestURI u) in
  before "?" recorded = EscapedPath u /\
  (sensitive_key k = true ->
     forall v, v ∈ read_query (after "?" recorded) k -> v = "" \/ v = "<redacted>") /\
  (sensitive_key k = false -> is_ok (ParseQuery (url_RawQuery u)) = true ->
     read_query (after "?" recorded) k = read_query (url_RawQuery u) k).
Proof.
  cbn zeta. destruct (reparse _ _ Hparse) as (u' & Hu' & Hp & Hq & e & He). unfold sanitizeURL. rewrite Hu'.
  pose proof (redactQuery_read (url_RawQuery u) k) as [Hs Hn].
  destruct (decide (url_RawQuery u' = "")) as [Hz|Hz].
  - destruct (RequestURI_query u) as [Hb Ha]. rewrite Hb, Ha, decide_False by (by rewrite He).
    rewrite Hq in Hz. rewrite Hz in *. split; [done|]. split; [|done]. by intros Hk v Hv; apply Hs.
  - set (w := mkURL _ _ _ _ _ _). destruct (RequestURI_query w) as [Hb Ha].
    assert (EscapedPath w = EscapedPath u) as Hw by (rewrite <- Hp; done).
    rewrite Hb, Ha, Hw, decide_False by (by rewrite He). unfold w. cbn [url_RawQuery]. rewrite Hq. done.
Qed.

Lemma recorded_url_redacted_witness :
  let recorded := sanitizeURL (RequestURI (mkURL "" "" "/x" "" "q=a+b&Token=s3cret" "")) in
  read_query (after "?" recorded) "q" = ["a b"] /\ read_query (after "?" recorded) "Token" = ["<redacted>"].
Proof.
  assert (ParseRequestURI "/x?q=a+b&Token=s3cret" = Some (mkURL "" "" "/x" "" "q=a+b&Token=s3cret" "")) as Hp
    by reflexivity.
  cbn zeta. split; [|vm_compute; reflexivity].
  destruct (recorded_url_redacted _ _ "q" Hp) as (_ & _ & Hq). rewrite Hq; reflexivity.
Defined.
