(* ===== verification/PolicyRequest.v ===== *)
(** * The request policies are evaluated on: buildPolicyRequest and the body
    parsers of internal/server/proxy.go

    [mime.ParseMediaType], the multipart reader and encoding/json are the
    class [BodyCodec].  A Go map built from a parsed form is the association
    list of its entries in key order. *)

From S2P Require Import Prelude GoStd Models PathTemplate Url ApiClient Query.

(** A part of a multipart body, read to its end: the [Content-Disposition]
    name and file name, the [Content-Type] header and the bytes or the error. *)
Record part := mkPart {
  part_FormName : string;
  part_FileName : string;
  part_ContentType : string;
  part_Body : result string
}.

Class BodyCodec := {
  (** media type and parameters; what is returned beside an error is used *)
  parse_media_type : string -> string * gmap string string;
  (** the parts of a body under a boundary, up to the end or an error *)
  multipart_parts : string -> string -> list part * option goerr;
  body_json : string -> option json;
  (** the double of a byte count *)
  float_of_count : nat -> Z
}.

(** One value stands alone, several make a list. *)
Definition one_or_list (vs : list json) : json :=
  match vs with [v] => v | _ => JArray vs end.

(** The object of a map from names to their values. *)
Definition object_of (m : gmap string (list json)) : json :=
  JObject (omap (fun k => vs ← m !! k; Some (k, one_or_list vs)) (sort_strings (map_to_list m).*1)).

Section body.
Context `{BodyCodec}.

Definition parseJSONBody (body : string) : result (option pbvalue) :=
match body_json body with
| None => Err (EMsg "invalid JSON")
| Some v => Some <$> wrap_err "body to value" (structpb_NewValue (DropJSONNulls v))
end.

Definition parseFormBody (body : string) : result (option pbvalue) :=
m ← wrap_err "invalid form body" (ParseQuery body);
Some <$> wrap_err "body to value" (structpb_NewValue (object_of (map JString <$> m))).

(** The value a part contributes. *)
Definition part_entry (p : part) : result json :=
if decide (part_FileName p = "") then JString <$> wrap_err "multipart text part" (part_Body p)
else
bytes ← wrap_err "multipart file part" (part_Body p);
Ok (JObject [
  ("filename", JString (part_FileName p));
  ("content_type", JString (if decide (part_ContentType p = "") then "application/octet-stream"
                            else part_ContentType p));
  ("size", JNumber (float_of_count (String.length bytes)))]).

Fixpoint collect_parts (ps : list part) (m : gmap string (list json)) : result (gmap string (list json)) :=
match ps with
| [] => Ok m
| p :: ps =>
  e ← part_entry p;
  if decide (part_FormName p = "") then collect_parts ps m
  else collect_parts ps (<[part_FormName p := default [] (m !! part_FormName p) ++ [e]]> m)
end.

Definition parseMultipartBody (body boundary : string) : result (option pbvalue) :=
fail_if bool_decide (boundary = "") with EMsg "multipart body: missing boundary parameter" ;;
(let '(ps, err) := multipart_parts body boundary in
m ← collect_parts ps ∅;
match err with
| Some e => Err (EWrap "multipart body" e)
| None => Some <$> wrap_err "body to value" (structpb_NewValue (object_of m))
end).

Definition parseRequestBody (contentType body : string) : result (option pbvalue) :=
if decide (body = "") then Ok None
else
let '(mediaType, params) := parse_media_type contentType in
if decide (mediaType = "application/x-www-form-urlencoded") then parseFormBody body
else if decide (mediaType = "multipart/form-data")
then parseMultipartBody body (default "" (params !! "boundary"))
else parseJSONBody body.

(** The pairs of the query, keys in order. *)
Definition query_pairs (m : values) : list KeyValue :=
flat_map (fun k => map (mkKeyValue k) (default [] (m !! k))) (sorted_values m).

Definition buildPolicyRequest (method : string) (u : URL) (h : header) (pathSegs : list string)
(body : string) : result Request :=
pbBody ← parseRequestBody (header_Get "Content-Type" h) body;
Ok (mkRequest (to_upper method) (JoinSegments pathSegs) pathSegs (query_pairs (URL_Query u)) pbBody).
End body.
