(* ===== verification/RecorderHook.v ===== *)
(** * What a request leaves in the traffic log: internal/server/recorder.go and
    MarshalJSON of internal/runtime/messages/value_json.go

    The per-request capture state, fed by the observers with the events of an
    evaluation, and the [traffic.Event] it commits.  Text rendering (encoding/
    json, protojson, [error.Error], cel-go's conversion of scalars) is the
    class [Render].  The theorems: the event of a request names every upstream
    call and every condition of its evaluation, in order, and holds none of
    the request's credentials. *)

From S2P Require Import Prelude GoStd Models Messages Evaluator Traffic Url ApiClient Query.

Class Render := {
  marshal_json : json -> option string;
  marshal_pb : pbvalue -> option string;
  error_text : goerr -> string;
  (** [ConvertToNative], or the text of what it cannot convert *)
  native : cval -> json;
  (** [mapperKeyToString] *)
  mapperKeyToString : cval -> string
}.

(** ** [value_json.go] *)

(** Assignment to a Go map kept as an association list. *)
Definition set_key {A} (k : string) (v : A) (l : list (string * A)) : list (string * A) :=
  List.filter (fun kv => negb (bool_decide (kv.1 = k))) l ++ [(k, v)].

Section json.
Context `{Render}.
Variable heap : list (Value completer).

(** [None] is a nesting deeper than the fuel. *)
Fixpoint refValToJSON (fuel : nat) (v : cval) : option json :=
match fuel with
| 0 => None
| S fuel =>
  match v with
  | VNull => Some JNull
  | VPtr l =>
      val ← heap !! l;
      inputs ← mapM (fun kv => j ← refValToJSON fuel kv.2; Some (kv.1, j)) (map_to_list (v_inputs val));
      outputs ← mapM (fun kv => j ← refValToJSON fuel kv.2; Some (kv.1, j)) (map_to_list (v_outputs val));
      Some (JObject ([("type", JString (mt_FullName (v_typ val))); ("inputs", JObject inputs)] ++
        (if IsFullView val && bool_decide (0 < length outputs) then [("outputs", JObject outputs)] else [])))
  | VList l => JArray <$> mapM (refValToJSON fuel) l
  | VMap kvs =>
      js ← mapM (fun kv => j ← refValToJSON fuel kv.2; Some (mapperKeyToString kv.1, j)) kvs;
      Some (JObject (fold_left (fun l kj => set_key kj.1 kj.2 l) js []))
  | _ => Some (native v)
  end
end.

(** [encodeBinds]: a bind that does not marshal is dropped. *)
Fixpoint encodeBinds (fuel : nat) (binds : list (string * nat)) : outcome (list ResolvedBind) :=
match binds with
| [] => ODone []
| (name, l) :: binds =>
  match refValToJSON fuel (VPtr l) with
  | None => OFuel
  | Some j =>
      obind (encodeBinds fuel binds) (fun rest =>
        ODone (match marshal_json j with Some raw => mkResolvedBind name raw :: rest | None => rest end))
  end
end.
End json.

(** ** The hook *)

Record recorderHook := mkHook {
  hk_id : string;
  hk_started : Z;
  hk_method : string;
  hk_url : string;
  hk_headers : list KV;
  hk_subject : string;
  hk_api : string;
  hk_decision : string;
  hk_action : string;
  hk_policy : string;
  hk_binds : list (string * nat);
  hk_fetches : list MetaFetch;
  hk_policyEvals : list PolicyEvaluation;
  hk_forwarded : option Z;
  hk_errMsg : string
}.

Definition isSensitiveHeader (name : string) : bool :=
  bool_decide (to_lower name ∈ ["authorization"; "cookie"; "set-cookie"; "proxy-authorization"]).

(** The order of the captured headers: by folded name, then by value. *)
Definition kv_le (a b : KV) : Prop :=
  if decide (to_lower (kv_Key a) = to_lower (kv_Key b)) then String.le (kv_Value a) (kv_Value b)
  else String.le (to_lower (kv_Key a)) (to_lower (kv_Key b)).

#[export] Instance kv_le_dec : RelDecision kv_le.
Proof. intros a b. unfold kv_le. destruct (decide _); apply _. Defined.

Definition cloneRequestHeaders (h : header) : list KV :=
  merge_sort kv_le (flat_map (fun kvs => if isSensitiveHeader kvs.1 then [] else map (mkKV kvs.1) kvs.2)
    (map_to_list h)).

Definition getRequestAPI (path : string) : string :=
  if has_prefix "/_admin" path then "admin" else if has_prefix "/_api/mcp" path then "mcp" else "".

Definition newRecorderHook (id : string) (started : Z) (method : string) (u : URL) (h : header) : recorderHook :=
  mkHook id started method (sanitizeURL (RequestURI u)) (cloneRequestHeaders h) "" (getRequestAPI (url_Path u))
    DecisionError "" "" [] [] [] None "".

Section hook.
Context `{CelEngine} `{Upstream} `{Render}.

Definition marshalStructpb (v : option pbvalue) : string :=
match v with None => "" | Some v => default "" (marshal_pb v) end.

(** [latency] in milliseconds. *)
Definition onFetch (meta api : string) (mr : MetaRequest) (resp : result (option Response)) (latency : Z)
: MetaFetch :=
mkMetaFetch meta api (mr_Method mr) (mr_Path mr) (marshalStructpb (mr_Body mr))
(match resp with Ok _ => 200 | Err e => default 0 (errors_as_upstream e) end)%Z
(match resp with Ok r => marshalStructpb (r ≫= resp_Body) | Err _ => "" end)
latency
(match resp with Ok _ => "" | Err e => error_text e end).

Definition onConditionEval (action policy : string) (res : PolicyResult) (fired : result bool) : PolicyEvaluation :=
mkPolicyEvaluation policy action res (match fired with Ok b => b | Err _ => false end)
(match fired with Ok _ => "" | Err e => error_text e end).

(** One event of the evaluation reaches its observer. *)
Definition observe (ev : event) (latency : Z) (h : recorderHook) : recorderHook :=
match ev with
| EvResolve _ => h
| EvCall _ m api mr resp =>
  mkHook (hk_id h) (hk_started h) (hk_method h) (hk_url h) (hk_headers h) (hk_subject h) (hk_api h)
    (hk_decision h) (hk_action h) (hk_policy h) (hk_binds h)
    (hk_fetches h ++ [onFetch m api mr resp latency]) (hk_policyEvals h) (hk_forwarded h) (hk_errMsg h)
| EvCond a p res fired =>
  mkHook (hk_id h) (hk_started h) (hk_method h) (hk_url h) (hk_headers h) (hk_subject h) (hk_api h)
    (hk_decision h) (hk_action h) (hk_policy h) (hk_binds h) (hk_fetches h)
    (hk_policyEvals h ++ [onConditionEval a p res fired]) (hk_forwarded h) (hk_errMsg h)
| EvFiring a p binds =>
  mkHook (hk_id h) (hk_started h) (hk_method h) (hk_url h) (hk_headers h) (hk_subject h) (hk_api h)
    (hk_decision h) a p binds (hk_fetches h) (hk_policyEvals h) (hk_forwarded h) (hk_errMsg h)
end.

(** The latency of the [n]th event. *)
Fixpoint observe_all (latency : nat -> Z) (tr : list event) (h : recorderHook) : recorderHook :=
match tr with
| [] => h
| ev :: tr => observe_all (fun n => latency (S n)) tr (observe ev (latency 0) h)
end.

Definition hook_subject (s : string) (h : recorderHook) : recorderHook :=
mkHook (hk_id h) (hk_started h) (hk_method h) (hk_url h) (hk_headers h) s (hk_api h) (hk_decision h)
(hk_action h) (hk_policy h) (hk_binds h) (hk_fetches h) (hk_policyEvals h) (hk_forwarded h) (hk_errMsg h).

Definition hook_err (e : string) (h : recorderHook) : recorderHook :=
mkHook (hk_id h) (hk_started h) (hk_method h) (hk_url h) (hk_headers h) (hk_subject h) (hk_api h) (hk_decision h)
(hk_action h) (hk_policy h) (hk_binds h) (hk_fetches h) (hk_policyEvals h) (hk_forwarded h) e.

Definition hook_decision (api decision : string) (h : recorderHook) : recorderHook :=
mkHook (hk_id h) (hk_started h) (hk_method h) (hk_url h) (hk_headers h) (hk_subject h) api decision
(hk_action h) (hk_policy h) (hk_binds h) (hk_fetches h) (hk_policyEvals h) (hk_forwarded h) (hk_errMsg h).

Definition hook_forwarded (status : Z) (h : recorderHook) : recorderHook :=
mkHook (hk_id h) (hk_started h) (hk_method h) (hk_url h) (hk_headers h) (hk_subject h) (hk_api h) (hk_decision h)
(hk_action h) (hk_policy h) (hk_binds h) (hk_fetches h) (hk_policyEvals h) (Some status) (hk_errMsg h).

(** The event handed to the recorder, if any; [heap] is the evaluation's. *)
Definition commit (fuel : nat) (heap : list (Value completer)) (now : Z) (h : recorderHook)
: outcome (option Event) :=
if decide (hk_decision h = DecisionNoMatch) then ODone None
else
obind (encodeBinds heap fuel (hk_binds h)) (fun binds =>
  ODone (Some (mkEvent (hk_id h) (hk_started h) (hk_subject h) (hk_method h) (hk_url h) (hk_headers h) ""
    (if decide (hk_api h = "") then "unknown" else hk_api h) (hk_action h) binds (hk_fetches h)
    (hk_decision h) (hk_policy h) (hk_policyEvals h) (default 0%Z (hk_forwarded h)) [] ""
    ((now - hk_started h) / 1000000)%Z (hk_errMsg h) false))).
End hook.

(** ** What the hook gathers *)

Section hook_facts.
Context `{Render}.

(** The fetches and conditions of a trace, in order. *)
Fixpoint trace_fetches (latency : nat -> Z) (tr : list event) : list MetaFetch :=
match tr with
| [] => []
| EvCall _ m api mr resp :: tr =>
  onFetch m api mr resp (latency 0) :: trace_fetches (fun n => latency (S n)) tr
| _ :: tr => trace_fetches (fun n => latency (S n)) tr
end.

Fixpoint trace_conds (tr : list event) : list PolicyEvaluation :=
match tr with
| [] => []
| EvCond a p res fired :: tr => onConditionEval a p res fired :: trace_conds tr
| _ :: tr => trace_conds tr
end.

(** The (action, policy) pair of the last firing. *)
Fixpoint trace_firing (tr : list event) (acc : string * string) : string * string :=
match tr with
| [] => acc
| EvFiring a p _ :: tr => trace_firing tr (a, p)
| _ :: tr => trace_firing tr acc
end.

(** The fields the observers leave alone. *)
Definition static (h : recorderHook) :=
(hk_id h, hk_started h, hk_method h, hk_url h, hk_headers h, hk_subject h, hk_api h, hk_decision h,
hk_forwarded h, hk_errMsg h).

Lemma observe_all_spec latency tr h :
let h' := observe_all latency tr h in
static h' = static h /\ hk_fetches h' = hk_fetches h ++ trace_fetches latency tr /\
hk_policyEvals h' = hk_policyEvals h ++ trace_conds tr /\
(hk_action h', hk_policy h') = trace_firing tr (hk_action h, hk_policy h).
Proof.
cbn zeta. revert latency h. induction tr as [|ev tr IH]; intros latency h.
{ simpl. rewrite !app_nil_r. done. }
cbn [observe_all]. destruct (IH (fun n => latency (S n)) (observe ev (latency 0) h)) as (-> & -> & -> & ->).
destruct ev; simpl; rewrite <- ?(assoc_L (++)); done.
Qed.
End hook_facts.

Lemma cloneRequestHeaders_spec (h : header) k v :
  mkKV k v ∈ cloneRequestHeaders h <->
  isSensitiveHeader k = false /\ exists vs, h !! k = Some vs /\ v ∈ vs.
Proof.
  unfold cloneRequestHeaders. rewrite merge_sort_Permutation. rewrite list_elem_of_In, in_flat_map. split.
  - intros ([k' vs] & Hin & Hv). apply list_elem_of_In, elem_of_map_to_list in Hin. simpl in Hv.
    destruct (isSensitiveHeader k') eqn:E; [done|]. apply in_map_iff in Hv as (v' & [= <- <-] & Hv).
    split; [done|]. exists vs. split; [done|]. by apply list_elem_of_In.
  - intros (Hs & vs & Hk & Hv). exists (k, vs). split; [by apply list_elem_of_In, elem_of_map_to_list|].
    simpl. rewrite Hs. apply in_map, list_elem_of_In, Hv.
Qed.
