(* ===== verification/Proxy.v ===== *)
(** * The data plane: [handle] of internal/server/proxy.go and the upstream
    factory of internal/server/load.go

    One inbound request from its first byte to the reply: split the path,
    route, authenticate, read the body, build the policy request, evaluate,
    and forward on a permit.  The upstream of an evaluation is [apiclient]
    over an HTTP client that may answer by what came before; the forward
    client, the clocks and the identifier are arguments.  The theorems: what
    is forwarded was permitted, and is the request the policies saw; the
    headers that reach the upstream; what the traffic log is told. *)

From S2P Require Import Prelude GoStd Models PathTemplate Routes Messages Compiled Evaluator PolicyStore ApiRuntime Runtime Auth Traffic Url ApiClient Query PolicyRequest RecorderHook.

(** ** The two ends *)

(** An inbound request; the body is the bytes that arrive and, when they stop
    before its end, why. *)
Record http_in := mkIn {
  in_Method : string;
  in_URL : URL;
  in_Header : header;
  in_Body : string * option goerr
}.

Record forward_response := mkForwardResponse {
  fr_StatusCode : Z;
  fr_Header : header;
  (** the bytes relayed, and what cut the copy short *)
  fr_Body : string * option goerr
}.

Class ForwardClient := do_forward : http_request -> result forward_response.

(** [url.Parse] on a base URL that was accepted at compile time. *)
Class BaseURL := parsed_base : string -> URL.

Inductive reply : Type :=
  | RPlain (status : Z) (msg : string)
  | RDenial (wire semantic : Z) (www_authenticate : bool) (message api : string) (actions : list string)
  | RUpstream (status : Z) (h : header) (body : string).

(** The readings of the clock, the event's identifier and the latencies. *)
Record moment := mkMoment {
  mo_id : string;
  mo_started : Z;
  mo_verify : Z;
  mo_eval : Z;
  mo_latency : nat -> Z
}.

Record served := mkServed {
  ex_reply : reply;
  ex_hook : recorderHook;
  ex_forwarded : option http_request;
  ex_heap : list (Value completer)
}.

Definition MaxRequestBodyBytes : Z := 2 ^ 20.

(** [io.ReadAll] of a [MaxBytesReader]; [None] is [MaxBytesError]. *)
Definition read_body (b : string * option goerr) : option (result string) :=
  if bool_decide (MaxRequestBodyBytes < Z.of_nat (String.length b.1))%Z then None
  else Some (match b.2 with Some e => Err e | None => Ok b.1 end).

(** ** Pure helpers *)

Definition classifyEvalError (e : goerr) : Z * string :=
  match errors_as_upstream e with
  | None => (403, "policy evaluation error")
  | Some st =>
      if decide (st = 401)%Z then (401, "upstream credentials invalid")
      else if decide (st = 403)%Z then (403, "upstream forbade the meta request")
      else if decide (st = 404)%Z then (404, "upstream object not found")
      else (502, "upstream meta request failed")
  end%Z.

Definition decisionLabel (apiName : string) (d : PolicyResult) : string :=
  if decide (apiName = "") then DecisionNoMatch
  else if decide (d = Permit) then DecisionPermit else DecisionDeny.

Definition buildPrincipal (subject : string) (anonymous : bool) : Principal :=
  if anonymous then mkPrincipal "" "anonymous" [] else mkPrincipal subject "agent" [].

Definition applyCredentials (creds : AccessCreds) (h : header) : header :=
  fold_left (fun h x => header_Set (h_Name x) (h_Value x) h) (ac_Headers creds)
    (if decide (ac_AccessToken creds = "") then h
     else header_Set "Authorization" ("Bearer " +:+ ac_AccessToken creds) h).

Definition connectionNamedHeaders (h : header) : list string :=
  flat_map (fun v => List.filter (fun n => negb (bool_decide (n = "")))
    (map (fun n => canonical (trim_space n)) (split_byte "," v))) (header_Values "Connection" h).

Definition shouldStripForwarded (name : string) : bool :=
  bool_decide (to_lower name ∈
    ["host"; "authorization"; "content-length"; "connection"; "keep-alive"; "cookie"; "set-cookie";
     "proxy-authenticate"; "proxy-authorization"; "te"; "trailer"; "transfer-encoding"; "upgrade";
     "forwarded"; "x-forwarded-for"; "x-forwarded-host"; "x-forwarded-proto"; "x-real-ip"]).

(** The loop over a header map that copies what is not hop-by-hop. *)
Definition copy_headers (h out : header) : header :=
  let hop := connectionNamedHeaders h in
  fold_left (fun out nvs =>
    if shouldStripForwarded nvs.1 || bool_decide (nvs.1 ∈ hop) then out
    else fold_left (fun out v => header_Add nvs.1 v out) nvs.2 out) (map_to_list h) out.

(** [url.Parse] of [URL.String], as [http.NewRequestWithContext] does: whatever
    follows a [#], the query's included, is a fragment and stays behind. *)
Definition parse_target (u : URL) : result URL :=
  frag ← path_unescape (after "#" (url_RawQuery u));
  Ok (mkURL (url_Scheme u) (url_Host u) (url_Path u) (url_RawPath u) (before "#" (url_RawQuery u)) frag).

Definition with_query (q : string) (u : URL) : URL :=
  mkURL (url_Scheme u) (url_Host u) (url_Path u) (url_RawPath u) q (url_Fragment u).

Section proxy.
Context `{CelEngine} `{Crypto} `{BodyCodec} `{Render} `{Codec} `{ForwardClient} `{BaseURL}.

(** The client of the meta side calls; its answers may depend on the past. *)
Variable client : list event -> HTTPClient.

Record Server := mkServer { sv_runtime : Runtime; sv_keys : ServerKeys }.

(** The factory [Load] builds, and [apiclient.New]. *)
Definition api_factory (rt : Runtime) (creds : AccessCreds) : Upstream := {|
api_handle := HTTPAPI;
resolve _ name :=
match Runtime_API rt name with
| None => Err (EMsg "api is not registered")
| Some a => Ok (mkHTTPAPI (parsed_base (ar_baseURL a)) (ac_AccessToken creds)
                  (map (fun x => (h_Name x, h_Value x)) (ac_Headers creds)))
end;
Evaluator.Call tr api mr := Some <$> @ApiClient.Call _ (client tr) api mr
|}.

Definition deniedStatusFor (rt : Runtime) (apiName : string) (defaultStatus : Z) : Z :=
if decide (apiName = "") then defaultStatus
else
match Runtime_API rt apiName with
| None => defaultStatus
| Some a => if decide (ar_accessDeniedStatus a = 0%Z) then defaultStatus else ar_accessDeniedStatus a
end.

Definition authOptionalFor (rt : Runtime) (apiName : string) : bool :=
match Runtime_API rt apiName with None => false | Some a => ar_authOptional a end.

Definition authenticate (keys : ServerKeys) (h : header) (now : Z) : result AccessToken :=
match cut_prefix "Bearer " (header_Get "Authorization" h) with
| None => Err (EMsg "missing bearer")
| Some rest =>
  tok ← VerifyAccessToken keys rest now;
  fail_if bool_decide (ac_AccessToken (at_Creds tok) = "") && bool_decide (ac_Headers (at_Creds tok) = [])
    with EMsg "token carries no upstream credential" ;;
  Ok tok
end.

(** [None] is the anonymous caller. *)
Definition authenticateOrAnonymous (s : Server) (h : header) (matchedAPI : string) (now : Z)
: result (option AccessToken) :=
if decide (header_Get "Authorization" h = "") then
if negb (bool_decide (matchedAPI = "")) && authOptionalFor (sv_runtime s) matchedAPI then Ok None
else Err (EMsg "missing bearer")
else Some <$> authenticate (sv_keys s) h now.

Definition upstreamFor (rt : Runtime) (apiName : string) : result URL :=
match Runtime_API rt apiName with
| None => Err (EMsg "api is not registered")
| Some a => Ok (parsed_base (ar_baseURL a))
end.

(** The outbound request [forward] builds. *)
Definition forward_request (r : http_in) (body : string) (creds : AccessCreds) (base : URL)
: result http_request :=
target ← JoinPath base (EscapedPath (in_URL r));
target ← parse_target (with_query (url_RawQuery (in_URL r)) target);
_ ← new_request (HTTPClient := client []) (in_Method r) target;
Ok (mkHttpRequest (in_Method r) target
    (applyCredentials creds (copy_headers (in_Header r) ∅)) (Some body)).

(** The request sent, if one was built, and the reply or the failure to get
one. *)
Definition forward (r : http_in) (body : string) (creds : AccessCreds) (base : URL) (hook : recorderHook)
: option http_request * (result reply * recorderHook) :=
match forward_request r body creds base with
| Err e => (None, (Err e, hook))
| Ok q =>
  (Some q,
   match do_forward q with
   | Err e => (Err e, hook)
   | Ok resp =>
       let hook := hook_forwarded (fr_StatusCode resp) hook in
       let hook := match (fr_Body resp).2 with
                   | Some e => hook_err ("response stream truncated: " +:+ error_text e) hook
                   | None => hook
                   end in
       (Ok (RUpstream (fr_StatusCode resp) (copy_headers (fr_Header resp) ∅) (fr_Body resp).1), hook)
   end)
end.

Definition handleEvalError (rt : Runtime) (apiName : string) (e : goerr) : reply :=
let '(semantic, msg) := classifyEvalError e in
RDenial (deniedStatusFor rt apiName semantic) semantic false msg apiName [].

(** What follows a verdict without an error. *)
Definition decide_reply (s : Server) (fuel : nat) (r : http_in) (body : string) (creds : AccessCreds)
(req : Request) (apiName : string) (d : PolicyResult) (heap : list (Value completer))
(hook : recorderHook) : outcome served :=
let rt := sv_runtime s in
let hook := hook_decision apiName (decisionLabel apiName d) hook in
if decide (apiName = "") then ODone (mkServed (RDenial 404 404 false "no registered API claims this path" "" []) hook None heap)
else if decide (d <> Permit) then
obind (@Runtime_MatchedActions _ (api_factory rt creds) rt fuel req) (fun '(_, ms) =>
  ODone (mkServed
    (RDenial (deniedStatusFor rt apiName 403) 403 false "a policy denied this request" apiName
       (match ms with Ok l => l | Err _ => [] end)) hook None heap))
else
match upstreamFor rt apiName with
| Err e => ODone (mkServed (RPlain 500 "server error") (hook_err (error_text e) hook) None heap)
| Ok base =>
    let '(sent, (res, hook)) := forward r body creds base hook in
    ODone match res with
          | Ok rep => mkServed rep hook sent heap
          | Err e => mkServed (RPlain 502 "bad gateway") (hook_err (error_text e) hook) sent heap
          end
end.

Definition creds_of (tok : option AccessToken) : AccessCreds :=
match tok with Some t => at_Creds t | None => mkAccessCreds "" [] end.
Definition subject_of (tok : option AccessToken) : string :=
match tok with Some t => at_Subject t | None => "" end.

Definition principal_of (tok : option AccessToken) : Principal :=
buildPrincipal (subject_of tok) (negb (is_some_b tok)).

Definition evaluate_and_reply (s : Server) (fuel : nat) (m : moment) (r : http_in) (body : string)
(tok : option AccessToken) (req : Request) (hook : recorderHook) : outcome served :=
let rt := sv_runtime s in
obind (@Evaluate _ (api_factory rt (creds_of tok)) rt fuel req (Some (principal_of tok)) (mo_eval m))
(fun '(apiName, (d, err), st) =>
  let hook := observe_all (mo_latency m) (x_trace st.2) hook in
  match err with
  | Some e => ODone (mkServed (handleEvalError rt apiName e) (hook_err (error_text e) hook) None st.1)
  | None => decide_reply s fuel r body (creds_of tok) req apiName d st.1 hook
  end).

Definition handle (s : Server) (fuel : nat) (m : moment) (r : http_in) : outcome served :=
let u := in_URL r in
let hook := newRecorderHook (mo_id m) (mo_started m) (in_Method r) u (in_Header r) in
match SplitEscapedPath (EscapedPath u) with
| Err e => ODone (mkServed (RPlain 400 "bad request") (hook_err (error_text e) hook) None [])
| Ok pathSegs =>
  let matchedAPI := APIForSegments (sv_runtime s) pathSegs in
  match authenticateOrAnonymous s (in_Header r) matchedAPI (mo_verify m) with
  | Err _ =>
      let wire := deniedStatusFor (sv_runtime s) matchedAPI 401 in
      ODone (mkServed
        (RDenial wire 401 (bool_decide (wire = 401%Z)) "missing or invalid Authorization header" "" [])
        (hook_err "unauthorized" hook) None [])
  | Ok tok =>
      let hook := hook_subject (subject_of tok) hook in
      match read_body (in_Body r) with
      | None => ODone (mkServed (RPlain 413 "request body too large")
                  (hook_err "request body too large" hook) None [])
      | Some (Err e) => ODone (mkServed (RPlain 500 "read body") (hook_err (error_text e) hook) None [])
      | Some (Ok body) =>
          match buildPolicyRequest (in_Method r) u (in_Header r) pathSegs body with
          | Err e => ODone (mkServed (RPlain 400 "bad request") (hook_err (error_text e) hook) None [])
          | Ok req => evaluate_and_reply s fuel m r body tok req hook
          end
      end
  end
end.

(** The deferred commit: what the recorder, when there is one, is handed. *)
Definition recorded (fuel : nat) (now : Z) (ex : served) : outcome (option Event) :=
commit fuel (ex_heap ex) now (ex_hook ex).
End proxy.

(** ** What is forwarded *)

Section facts.
Context `{CelEngine} `{Crypto} `{BodyCodec} `{Render} `{Codec} `{ForwardClient} `{BaseURL}.
Variable client : list event -> HTTPClient.

Lemma Evaluate_route `{Upstream} rt fuel req pr now name d (s' : st) :
Evaluate rt fuel req (Some pr) now = ODone (name, d, s') ->
name = routeRequest (r_routes rt) req /\
(name <> "" -> exists a, Runtime_API rt name = Some a).
Proof.
unfold Evaluate. cbn zeta. destruct (decide _) as [E|E]; [intros [= <- _ _]; by rewrite E|].
unfold Runtime_API. destruct (r_apis rt !! routeRequest (r_routes rt) req) as [a|] eqn:Ea; [|done].
destruct (AR_Evaluate _ _ _ _ _ _) as [[d' s'']| |]; [|done..]. intros [= <- <- <-].
split; [done|]. intros _. by exists a.
Qed.

Lemma buildPolicyRequest_segments method u h segs body req :
buildPolicyRequest method u h segs body = Ok req ->
req_PathSegments req = segs /\ req_Path req = JoinSegments segs /\ req_Method req = to_upper method.
Proof.
unfold buildPolicyRequest. rewrite bind_ok. by intros (b & _ & [= <-]).
Qed.

Lemma read_body_ok b body : read_body b = Some (Ok body) -> b = (body, None) /\ (Z.of_nat (String.length body) <= MaxRequestBodyBytes)%Z.
Proof.
unfold read_body. destruct b as [x [e|]]; case_bool_decide; try done. intros [= <-]. simpl in *.
split; [done|lia].
Qed.

(** How the caller was let in. *)
Definition admitted (s : Server) (r : http_in) (now : Z) (apiName : string) (tok : option AccessToken) : Prop :=
match tok with
| Some t => exists jwt, header_Get "Authorization" (in_Header r) = "Bearer " +:+ jwt /\
  VerifyAccessToken (sv_keys s) jwt now = Ok t /\
  (ac_AccessToken (at_Creds t) <> "" \/ ac_Headers (at_Creds t) <> [])
| None => header_Get "Authorization" (in_Header r) = "" /\ apiName <> "" /\
  authOptionalFor (sv_runtime s) apiName = true
end.

Lemma authenticate_admitted s r now apiName tok :
authenticateOrAnonymous s (in_Header r) apiName now = Ok tok -> admitted s r now apiName tok.
Proof.
unfold authenticateOrAnonymous. case_decide as He.
- destruct (_ && _) eqn:E; [|done]. intros [= <-]. apply andb_true_iff in E as [E1 E2].
apply negb_true_iff, bool_decide_eq_false in E1. done.
- unfold authenticate. destruct (cut_prefix _ _) as [jwt|] eqn:Ec; [|done]. apply cut_prefix_Some in Ec.
destruct (VerifyAccessToken _ _ _) as [t|] eqn:Ev; [|done]. cbn [mbind result_bind].
destruct (bool_decide _ && _) eqn:E; [done|]. intros [= <-]. exists jwt. split; [done|]. split; [done|].
apply andb_false_iff in E. rewrite !bool_decide_eq_false in E. tauto.
Qed.

(** The request [forward] builds, field by field. *)
Lemma forward_request_spec r body creds base q segs :
forward_request client r body creds base = Ok q ->
SplitEscapedPath (EscapedPath (in_URL r)) = Ok segs ->
hq_Method q = in_Method r /\ hq_Body q = Some body /\
hq_Header q = applyCredentials creds (copy_headers (in_Header r) ∅) /\
url_RawQuery (hq_URL q) = before "#" (url_RawQuery (in_URL r)) /\
url_Scheme (hq_URL q) = url_Scheme base /\ url_Host (hq_URL q) = url_Host base /\
path_unescape (slashed (url_Path base) +:+ trim_prefix "/" (EscapedPath (in_URL r))) = Ok (url_Path (hq_URL q)) /\
(plain_path (url_Path base) = true ->
 EscapedPath (hq_URL q) = slashed (url_Path base) +:+ trim_prefix "/" (EscapedPath (in_URL r)) /\
 (segs <> [] -> SplitEscapedPath (EscapedPath (hq_URL q)) = Ok (base_segments (url_Path base) ++ segs))).
Proof.
unfold forward_request. rewrite bind_ok. intros (t & Ht & Hq) Hs. revert Hq. rewrite bind_ok.
intros (w & Hw & Hq). revert Hq. rewrite bind_ok. intros (_ & _ & [= <-]).
unfold parse_target in Hw. apply bind_ok in Hw as (f & _ & [= <-]). cbn [hq_Method hq_Body hq_Header hq_URL with_query
url_RawQuery url_Host url_Scheme url_Path]. destruct (JoinPath_joined _ _ _ Ht) as (J1 & J2 & J3).
repeat (split; [done|]). intros Hp. pose proof (JoinPath_agrees base (in_URL r) segs Hp Hs) as Hj.
destruct (_ || _); [by destruct Hj as [e Hj]; rewrite Hj in Ht|].
destruct Hj as (u & Hu & Hh & _ & _ & He & Hsplit). rewrite Hu in Ht. injection Ht as <-.
by split.
Qed.

(** The statuses an answer of the proxy's own may carry. *)
Definition refusal (s : Server) (rep : reply) : Prop :=
match rep with
| RUpstream _ _ _ => False
| RPlain st _ => st ∈ [400; 413; 500; 502]%Z
| RDenial wire sem _ _ _ _ => sem ∈ [401; 403; 404; 502]%Z /\
  (wire = sem \/ exists name a, Runtime_API (sv_runtime s) name = Some a /\
     wire = ar_accessDeniedStatus a /\ wire <> 0%Z)
end.

Lemma deniedStatusFor_spec rt name st :
deniedStatusFor rt name st = st \/
exists n a, Runtime_API rt n = Some a /\ deniedStatusFor rt name st = ar_accessDeniedStatus a /\
deniedStatusFor rt name st <> 0%Z.
Proof.
unfold deniedStatusFor. case_decide; [by left|]. destruct (Runtime_API rt name) as [a|] eqn:E; [|by left].
case_decide; [by left|]. right. by exists name, a.
Qed.

Lemma classify_status e : (classifyEvalError e).1 ∈ [401; 403; 404; 502]%Z.
Proof.
unfold classifyEvalError. destruct (errors_as_upstream e); [|set_solver].
repeat case_decide; simpl; set_solver.
Qed.
End facts.

Section gate.
Context `{CelEngine} `{Crypto} `{BodyCodec} `{Render} `{Codec} `{ForwardClient} `{BaseURL}.
Variable client : list event -> HTTPClient.
Variables (s : Server) (fuel : nat) (m : moment) (r : http_in).

Notation rt := (sv_runtime s).
Notation evaluated creds req p := (@Evaluate _ (api_factory client rt creds) rt fuel req (Some p) (mo_eval m)).

Definition relayed (q : http_request) (rep : reply) : Prop :=
match do_forward q with
| Ok resp => rep = RUpstream (fr_StatusCode resp) (copy_headers (fr_Header resp) ∅) (fr_Body resp).1
| Err _ => rep = RPlain 502 "bad gateway"
end.

Lemma decide_reply_spec body creds req apiName d heap hook ex :
decide_reply client s fuel r body creds req apiName d heap hook = ODone ex ->
match ex_forwarded ex with
| Some q => apiName <> "" /\ d = Permit /\ relayed q (ex_reply ex) /\
  exists a, Runtime_API rt apiName = Some a /\
    forward_request client r body creds (parsed_base (ar_baseURL a)) = Ok q
| None => refusal s (ex_reply ex)
end.
Proof.
unfold decide_reply. cbn zeta. case_decide as Hn; [intros [= <-]; simpl; split; [set_solver|by left]|].
case_decide as Hd.
{ destruct (Runtime_MatchedActions _ _ _) as [[n ms]| |]; [|done..]. intros [= <-]. simpl.
split; [set_solver|apply deniedStatusFor_spec]. }
destruct (upstreamFor rt apiName) as [base|e] eqn:Eu; [|intros [= <-]; simpl; set_solver].
unfold upstreamFor in Eu. destruct (Runtime_API rt apiName) as [a|] eqn:Ea; [|done]. injection Eu as <-.
unfold forward. destruct (forward_request _ _ _ _ _) as [q|e] eqn:Eq; [|intros [= <-]; simpl; set_solver].
destruct (do_forward q) as [resp|e] eqn:Ed; intros [= <-]; simpl; unfold relayed; rewrite Ed;
(split; [done|]; split; [by destruct (decide (d = Permit))|]; split; [done|]; by exists a).
Qed.

Lemma handle_spec ex :
handle client s fuel m r = ODone ex ->
match ex_forwarded ex with
| None => refusal s (ex_reply ex)
| Some q => exists segs tok body req a st,
  let apiName := APIForSegments rt segs in
  SplitEscapedPath (EscapedPath (in_URL r)) = Ok segs /\ apiName <> "" /\
  Runtime_API rt apiName = Some a /\ admitted s r (mo_verify m) apiName tok /\
  in_Body r = (body, None) /\ (Z.of_nat (String.length body) <= MaxRequestBodyBytes)%Z /\
  buildPolicyRequest (in_Method r) (in_URL r) (in_Header r) segs body = Ok req /\
  evaluated (creds_of tok) req (principal_of tok) = ODone (apiName, (Permit, None), st) /\
  forward_request client r body (creds_of tok) (parsed_base (ar_baseURL a)) = Ok q /\
  relayed q (ex_reply ex)
end.
Proof.
unfold handle. cbn zeta. destruct (SplitEscapedPath _) as [segs|e] eqn:Es; [|intros [= <-]; simpl; set_solver].
destruct (authenticateOrAnonymous _ _ _ _) as [tok|e] eqn:Ea.
2: { intros [= <-]. simpl. split; [set_solver|apply deniedStatusFor_spec]. }
apply authenticate_admitted in Ea.
destruct (read_body (in_Body r)) as [[body|e]|] eqn:Eb; [|intros [= <-]; simpl; set_solver..].
apply read_body_ok in Eb as [Eb Hlen].
destruct (buildPolicyRequest _ _ _ _ _) as [req|e] eqn:Er; [|intros [= <-]; simpl; set_solver].
unfold evaluate_and_reply. cbn zeta.
destruct (evaluated (creds_of tok) req (principal_of tok)) as [[[name [d err]] st]| |] eqn:Ev; [|done..].
cbn [obind]. destruct err as [e|].
{ intros [= <-]. simpl. unfold handleEvalError. pose proof (classify_status e) as Hc.
destruct (classifyEvalError e) as [sem msg]. simpl. split; [done|apply deniedStatusFor_spec]. }
intros Hd. apply decide_reply_spec in Hd. destruct (ex_forwarded ex) as [q|]; [|done].
destruct Hd as (Hn & -> & Hrel & a & Ha & Hq).
destruct (Evaluate_route _ _ _ _ _ _ _ _ Ev) as [Hname _].
destruct (buildPolicyRequest_segments _ _ _ _ _ _ Er) as (Hsegs & _ & _).
assert (name = APIForSegments rt segs) as -> by (rewrite Hname; unfold APIForSegments, routeRequest; by rewrite Hsegs).
by exists segs, tok, body, req, a, st.
Qed.
End gate.

(** C2. Nothing reaches an upstream that its policies did not permit.  Whatever
    the proxy answers, at most one request is forwarded, and only when the
    caller presented a token that verifies and carries a credential, or came
    without one to an API that allows it; when the path's segments route to
    that API; and when evaluating exactly the request built from those
    segments, the query and the whole body ended in Permit without an error.
    The forwarded request is the client's method, body and query, the latter up
    to a [#], on that API's scheme and host, with the caller's own credentials;
    its decoded path is the base's path followed by the client's, and where the
    base's path needs no escaping it is that byte for byte, and the segments the
    upstream sees below its base are the ones the policies saw.
    In every other case the answer is one of the proxy's own refusals, with
    its natural status or the one the API's operator chose for denials. *)
Theorem proxy_forwards_only_permitted `{CelEngine} `{Crypto} `{BodyCodec} `{Render} `{Codec} `{ForwardClient} `{BaseURL}
    (client : list event -> HTTPClient) (s : Server) (fuel : nat) (m : moment) (r : http_in) (ex : served)
    (Hhandle : handle client s fuel m r = ODone ex) :
  match ex_forwarded ex with
  | None => refusal s (ex_reply ex)
  | Some q => exists segs tok body req a st,
      let rt := sv_runtime s in
      let apiName := APIForSegments rt segs in
      let base := parsed_base (ar_baseURL a) in
      SplitEscapedPath (EscapedPath (in_URL r)) = Ok segs /\ apiName <> "" /\
      Runtime_API rt apiName = Some a /\ admitted s r (mo_verify m) apiName tok /\
      in_Body r = (body, None) /\
      buildPolicyRequest (in_Method r) (in_URL r) (in_Header r) segs body = Ok req /\
      @Evaluate _ (api_factory client rt (creds_of tok)) rt fuel req (Some (principal_of tok)) (mo_eval m)
        = ODone (apiName, (Permit, None), st) /\
      hq_Method q = in_Method r /\ hq_Body q = Some body /\
      hq_Header q = applyCredentials (creds_of tok) (copy_headers (in_Header r) ∅) /\
      url_RawQuery (hq_URL q) = before "#" (url_RawQuery (in_URL r)) /\
      url_Scheme (hq_URL q) = url_Scheme base /\ url_Host (hq_URL q) = url_Host base /\
      path_unescape (slashed (url_Path base) +:+ trim_prefix "/" (EscapedPath (in_URL r))) = Ok (url_Path (hq_URL q)) /\
      (plain_path (url_Path base) = true ->
         EscapedPath (hq_URL q) = slashed (url_Path base) +:+ trim_prefix "/" (EscapedPath (in_URL r)) /\
         (segs <> [] ->
          SplitEscapedPath (EscapedPath (hq_URL q)) = Ok (base_segments (url_Path base) ++ segs))) /\
      relayed q (ex_reply ex)
  end.
Proof.
  apply handle_spec in Hhandle. destruct (ex_forwarded ex) as [q|]; [|done].
  destruct Hhandle as (segs & tok & body & req & a & st & Hs & Hn & Ha & Hadm & Hb & _ & Hr & He & Hq & Hrel).
  destruct (forward_request_spec _ _ _ _ _ _ _ Hq Hs) as (F1 & F2 & F3 & F4 & F5 & F6 & F7 & F8).
  exists segs, tok, body, req, a, st. cbn zeta. by repeat (split; [done|]).
Qed.

(** ** A concrete run *)

#[export] Instance demo_body : BodyCodec := {|
  parse_media_type _ := ("", ∅);
  multipart_parts _ _ := ([], None);
  body_json s := Some (JString s);
  float_of_count _ := 0%Z
|}.

#[export] Instance demo_render : Render := {|
  marshal_json _ := Some "{}";
  marshal_pb _ := Some "null";
  error_text e := match e with EUpstream _ url body => url +:+ ": " +:+ body | _ => "error" end;
  native _ := JNull;
  mapperKeyToString _ := ""
|}.

#[export] Instance demo_codec : Codec := {|
  json_decode s := Some (JString s);
  protojson _ := Ok "null";
  format_float _ := "0"
|}.

(** The upstream answers a meta call with the path it was asked for, and a
    forwarded request with the bytes it was sent. *)
Definition demo_client : HTTPClient := {|
  new_request _ _ := Ok tt;
  do_request q := Ok (mkHttpResponse 200 ∅ (fun _ => Ok (EscapedPath (hq_URL q))))
|}.

#[export] Instance demo_forward : ForwardClient := fun q =>
  Ok (mkForwardResponse 200 {[ "Content-Type" := ["text/plain"]; "Set-Cookie" := ["a=b"] ]}
        (default "" (hq_Body q), None)).

#[export] Instance demo_base : BaseURL := fun _ => mkURL "https" "docs.example.com" "/v1" "" "" "".

Definition demo_api : APIRuntime :=
  mkAPIRuntime "docs" "https://docs.example.com/v1" 0 false demo_reg demo_metas [demo_action]
    (mkStore [demo_policy "no-secrets" Deny "secret"] [demo_policy "readers" Permit "/v1/d/7"]).

Definition demo_rt : Runtime :=
  mkRuntime demo_reg {[ "docs" := demo_api ]} ∅ demo_metas [mkRoute ["d"] "docs" "/d"].

Definition demo_server : Server := mkServer demo_rt (FromSecret "s").

Definition demo_jwt : string :=
  IssueAccessToken (FromSecret "s") "ann" demo_creds (60 * second) false demo_nonce (100 * second).

Definition demo_moment : moment := mkMoment "id" 0 (110 * second) 0 (fun _ => 1%Z).

Definition demo_in (path : string) : http_in :=
  mkIn "GET" (mkURL "" "" path "" "a=1" "") 
    {[ "Authorization" := ["Bearer " +:+ demo_jwt]; "Accept" := ["*/*"] ]} ("", None).

Definition demo_handle : outcome served :=
  @handle demo_cel symbolic_crypto _ _ _ _ _ (fun _ => demo_client) demo_server 1 demo_moment (demo_in "/d/7").

Definition demo_served : served :=
  match demo_handle with
  | ODone ex => ex
  | _ => mkServed (RPlain 0 "") (newRecorderHook "" 0 "" (mkURL "" "" "" "" "" "") ∅) None []
  end.

Lemma proxy_forwards_only_permitted_witness :
  exists q, ex_forwarded demo_served = Some q /\
    url_RawQuery (hq_URL q) = "a=1" /\ ex_reply demo_served = RUpstream 200 {[ "Content-Type" := ["text/plain"] ]} "".
Proof.
  assert (demo_handle = ODone demo_served) as Hh by (vm_compute; reflexivity).
  unfold demo_handle in Hh.
  pose proof (@proxy_forwards_only_permitted demo_cel symbolic_crypto _ _ _ _ _ (fun _ => demo_client)
    demo_server 1 demo_moment (demo_in "/d/7") demo_served Hh) as Hp.
  destruct (ex_forwarded demo_served) as [q|] eqn:Eq.
  - exists q. destruct Hp as (segs & tok & body & req & a & st & _ & _ & _ & _ & Hb & _ & _ & _ & Hbody & _ & Hq & _ & _ & _ & _ & Hrel).
    split; [reflexivity|]. split; [exact Hq|]. injection Hb as <-. unfold relayed, do_forward, demo_forward in Hrel.
    rewrite Hbody in Hrel. rewrite Hrel. vm_compute. reflexivity.
  - vm_compute in Eq. discriminate Eq.
Defined.

(** What follows a [#] in the query is evaluated but never sent: a parameter a
    policy insists on can be shown to the policy alone. *)
Example fragment_hides_query :
  let u := mkURL "" "" "/d/7" "" "id=7#&dryRun=true" "" in
  query_pairs (URL_Query u) = [mkKeyValue "dryRun" "true"; mkKeyValue "id" "7#"] /\
  url_RawQuery <$> parse_target (with_query (url_RawQuery u) u) = Ok "id=7".
Proof. split; vm_compute; reflexivity. Qed.

(** A piece of the query that net/url will not parse is forwarded and not
    evaluated. *)
Example malformed_pair_not_evaluated :
  let u := mkURL "" "" "/d/7" "" "id=7&admin=true;x=%zz" "" in
  query_pairs (URL_Query u) = [mkKeyValue "id" "7"] /\
  url_RawQuery <$> parse_target (with_query (url_RawQuery u) u) = Ok "id=7&admin=true;x=%zz".
Proof. split; vm_compute; reflexivity. Qed.

(** Only three of the [X-Forwarded-] family are stripped. *)
Example x_forwarded_port_passes : shouldStripForwarded "X-Forwarded-Port" = false.
Proof. reflexivity. Qed.

(** ** The headers that are forwarded *)

Lemma fold_add k vs (out : header) :
  canonical k = k -> vs <> [] ->
  fold_left (fun out v => header_Add k v out) vs out = <[k := default [] (out !! k) ++ vs]> out.
Proof.
  intros Hk. revert out. induction vs as [|v vs IH]; intros out Hne; [done|]. cbn [fold_left].
  unfold header_Add at 2. rewrite Hk. destruct vs as [|v' vs]; [done|].
  rewrite IH, lookup_insert_eq, insert_insert_eq by done. simpl. by rewrite <- (assoc_L (++)).
Qed.

(** The copying loop, over any list of distinct canonical names. *)
Lemma copy_loop (hop : list string) (l : list (string * list string)) (out : header) n :
  NoDup l.*1 -> (forall k vs, (k, vs) ∈ l -> canonical k = k /\ vs <> [] /\ out !! k = None) ->
  fold_left (fun out nvs =>
    if shouldStripForwarded nvs.1 || bool_decide (nvs.1 ∈ hop) then out
    else fold_left (fun out v => header_Add nvs.1 v out) nvs.2 out) l out !! n =
  if shouldStripForwarded n || bool_decide (n ∈ hop) then out !! n
  else match (list_to_map l : header) !! n with Some vs => Some vs | None => out !! n end.
Proof.
  revert out. induction l as [|[k vs] l IH]; intros out Hnd Hl.
  { simpl. rewrite lookup_empty. by destruct (_ || _). }
  apply NoDup_cons in Hnd as [Hk Hnd]. destruct (Hl k vs ltac:(left)) as (Hc & Hne & Hout).
  cbn [fold_left list_to_map foldr fst snd]. simpl list_to_map.
  destruct (shouldStripForwarded k || bool_decide (k ∈ hop)) eqn:Ek.
  - rewrite IH; [|done|intros k' vs' Hin; apply (Hl k' vs'); by right].
    destruct (decide (n = k)) as [->|Hn]; [by rewrite Ek|]. by rewrite lookup_insert_ne.
  - rewrite fold_add, Hout by done. simpl. rewrite IH; [|done|].
    + destruct (decide (n = k)) as [->|Hn].
      * rewrite Ek, !lookup_insert_eq. assert ((list_to_map l : header) !! k = None) as ->; [|done].
        by apply not_elem_of_list_to_map_1.
      * by rewrite !lookup_insert_ne.
    + intros k' vs' Hin. destruct (Hl k' vs' ltac:(by right)) as (? & ? & ?). split; [done|]. split; [done|].
      rewrite lookup_insert_ne; [done|]. intros ->. apply Hk. by apply (list_elem_of_fmap_2 fst l (k', vs')).
Qed.

(** The header of canonical names net/http's server builds. *)
Definition wf_header (h : header) : Prop := forall k vs, h !! k = Some vs -> canonical k = k /\ vs <> [].

Lemma copy_headers_lookup h n :
  wf_header h ->
  copy_headers h ∅ !! n =
    if shouldStripForwarded n || bool_decide (n ∈ connectionNamedHeaders h) then None else h !! n.
Proof.
  intros Hwf. unfold copy_headers. cbn zeta. rewrite copy_loop.
  - rewrite lookup_empty, list_to_map_to_list. destruct (_ || _); [done|]. by destruct (h !! n).
  - apply NoDup_fst_map_to_list.
  - intros k vs Hin%elem_of_map_to_list. destruct (Hwf _ _ Hin). split; [done|]. split; [done|apply lookup_empty].
Qed.

(** The value the credentials set for a name: the last one wins. *)
Definition cred_value (n : string) (creds : AccessCreds) : option string :=
  last (omap (fun x => if decide (canonical (h_Name x) = n) then Some (h_Value x) else None) (ac_Headers creds)).

Lemma apply_headers_lookup (l : list Header) (h : header) n :
  fold_left (fun h x => header_Set (h_Name x) (h_Value x) h) l h !! n =
  match last (omap (fun x => if decide (canonical (h_Name x) = n) then Some (h_Value x) else None) l) with
  | Some v => Some [v]
  | None => h !! n
  end.
Proof.
  revert h. induction l as [|x l IH]; intros h; [done|]. cbn [fold_left]. rewrite IH. simpl.
  destruct (decide (canonical (h_Name x) = n)) as [<-|Hn].
  - rewrite last_cons. destruct (last _); [done|]. unfold header_Set. by rewrite lookup_insert_eq.
  - destruct (last _); [done|]. unfold header_Set. by rewrite lookup_insert_ne.
Qed.

(** C19. The headers an upstream gets are decided name by name.  A name the
    credentials set carries the last value they give it, and nothing of the
    client's; [Authorization] carries the upstream bearer, if any; a
    hop-by-hop name, one the client's [Connection] header lists, a cookie, the
    client's own authorization and the listed forwarding headers are gone; and
    every other header is the client's, all its values in order. *)
Theorem forwarded_headers_exact (creds : AccessCreds) (h : header) (n : string) (Hwf : wf_header h) :
  applyCredentials creds (copy_headers h ∅) !! n =
  match cred_value n creds with
  | Some v => Some [v]
  | None =>
      if bool_decide (n = "Authorization") && negb (bool_decide (ac_AccessToken creds = ""))
      then Some ["Bearer " +:+ ac_AccessToken creds]
      else if shouldStripForwarded n || bool_decide (n ∈ connectionNamedHeaders h) then None
      else h !! n
  end.
Proof.
  unfold applyCredentials, cred_value. rewrite apply_headers_lookup. destruct (last _); [done|].
  destruct (decide (ac_AccessToken creds = "")) as [Ht|Ht].
  - rewrite (bool_decide_eq_true_2 _ Ht), andb_false_r. by apply copy_headers_lookup.
  - rewrite (bool_decide_eq_false_2 _ Ht), andb_true_r. unfold header_Set.
    change (canonical "Authorization") with "Authorization".
    case_bool_decide as Hn; [subst; by rewrite lookup_insert_eq|].
    rewrite lookup_insert_ne by done. by apply copy_headers_lookup.
Qed.

Lemma forwarded_headers_exact_witness :
  applyCredentials (mkAccessCreds "ya29" [mkHeader "x-api-key" "k"])
    (copy_headers (<["Cookie" := ["a=b"]]> {[ "X-Api-Key" := ["client"] ]}) ∅) !! "X-Api-Key" = Some ["k"].
Proof.
  apply (forwarded_headers_exact (mkAccessCreds "ya29" [mkHeader "x-api-key" "k"])
    (<["Cookie" := ["a=b"]]> {[ "X-Api-Key" := ["client"] ]}) "X-Api-Key").
  intros k vs [[<- <-]|[_ [<- <-]%lookup_singleton_Some]]%lookup_insert_Some; split; done || reflexivity.
Defined.

(** ** What the traffic log is told *)

Section event.
Context `{CelEngine} `{Crypto} `{BodyCodec} `{Render} `{Codec} `{ForwardClient} `{BaseURL}.
Variable client : list event -> HTTPClient.

(** The label of an evaluation's outcome. *)
Definition outcome_label (name : string) (d : PolicyResult) (err : option goerr) : string :=
match err with Some _ => DecisionError | None => decisionLabel name d end.

Lemma outcome_label_no_match name d err :
outcome_label name d err = DecisionNoMatch <-> name = "" /\ err = None.
Proof.
unfold outcome_label, decisionLabel. destruct err; [split; [done|by intros []]|].
destruct (decide (name = "")); [by split|]. destruct (decide (d = Permit)); split; done || by intros [].
Qed.

(** The fields [decide_reply] leaves alone, and the two it sets. *)
Lemma decide_reply_hook s fuel r body creds req name d hp h ex :
decide_reply client s fuel r body creds req name d hp h = ODone ex ->
hk_api (ex_hook ex) = name /\ hk_decision (ex_hook ex) = decisionLabel name d /\ ex_heap ex = hp /\
(hk_subject (ex_hook ex), hk_url (ex_hook ex), hk_headers (ex_hook ex), hk_fetches (ex_hook ex),
hk_policyEvals (ex_hook ex), hk_action (ex_hook ex), hk_policy (ex_hook ex)) =
(hk_subject h, hk_url h, hk_headers h, hk_fetches h, hk_policyEvals h, hk_action h, hk_policy h) /\
match ex_reply ex with
| RUpstream st _ _ => hk_forwarded (ex_hook ex) = Some st
| _ => hk_forwarded (ex_hook ex) = hk_forwarded h
end.
Proof.
unfold decide_reply. cbn zeta. case_decide; [by intros [= <-]|]. case_decide.
{ destruct (Runtime_MatchedActions _ _ _) as [[n ms]| |]; [|done..]. by intros [= <-]. }
destruct (upstreamFor _ name) as [base|e]; [|by intros [= <-]].
unfold forward. destruct (forward_request _ _ _ _ _) as [q|e]; [|by intros [= <-]].
destruct (do_forward q) as [resp|e]; intros [= <-]; [|done]. by destruct (fr_Body resp).2.
Qed.
End event.

(** Where the event of a request is filed that was given no API. *)
Definition unattributed (u : URL) : string :=
  if decide (getRequestAPI (url_Path u) = "") then "unknown" else getRequestAPI (url_Path u).

(** C20. The traffic event tells what happened.  When a request reaches its
    evaluation, an event is recorded unless no API claimed the path; it names
    the caller and the API of a verdict (after a failed evaluation, whose API is
    known, too, it names only what the path gives away), carries the verdict (or that there was none),
    every side call and every condition in the order they were made, the
    policy that fired last, the upstream's status when something was relayed,
    the redacted URL, and exactly those headers that carry no credential. *)
Theorem recorded_event_faithful `{CelEngine} `{Crypto} `{BodyCodec} `{Render} `{Codec} `{ForwardClient} `{BaseURL}
    (client : list event -> HTTPClient) (s : Server) (fuel fuel' : nat) (m : moment) (r : http_in)
    (segs : list string) (tok : option AccessToken) (body : string) (req : Request) (name : string)
    (d : PolicyResult) (err : option goerr) (st : @st (api_factory client (sv_runtime s) (creds_of tok)))
    (ex : served) (now : Z) (evo : option Event)
    (Hsegs : SplitEscapedPath (EscapedPath (in_URL r)) = Ok segs)
    (Hauth : authenticateOrAnonymous s (in_Header r) (APIForSegments (sv_runtime s) segs) (mo_verify m) = Ok tok)
    (Hbody : read_body (in_Body r) = Some (Ok body))
    (Hreq : buildPolicyRequest (in_Method r) (in_URL r) (in_Header r) segs body = Ok req)
    (Heval : @Evaluate _ (api_factory client (sv_runtime s) (creds_of tok)) (sv_runtime s) fuel req
               (Some (principal_of tok)) (mo_eval m) = ODone (name, (d, err), st))
    (Hhandle : handle client s fuel m r = ODone ex)
    (Hrec : recorded fuel' now ex = ODone evo) :
  match evo with
  | None => name = "" /\ err = None
  | Some ev =>
      ~ (name = "" /\ err = None) /\ ev_Decision ev = outcome_label name d err /\
      ev_Subject ev = subject_of tok /\
      ev_API ev = match err with None => name | Some _ => unattributed (in_URL r) end /\
      ev_MetaFetches ev = trace_fetches (mo_latency m) (x_trace st.2) /\
      ev_PolicyEvaluations ev = trace_conds (x_trace st.2) /\
      (ev_Action ev, ev_Policy ev) = trace_firing (x_trace st.2) ("", "") /\
      ev_UpstreamStatus ev = (match ex_reply ex with RUpstream code _ _ => code | _ => 0%Z end) /\
      ev_URL ev = sanitizeURL (RequestURI (in_URL r)) /\
      forall k v, mkKV k v ∈ ev_RequestHeaders ev <->
        isSensitiveHeader k = false /\ exists vs, in_Header r !! k = Some vs /\ v ∈ vs
  end.
Proof.
  revert Hhandle. unfold handle. cbn zeta. rewrite Hsegs, Hauth, Hbody, Hreq. unfold evaluate_and_reply. cbn zeta.
  rewrite Heval. cbn [obind]. set (h0 := hook_subject _ _). set (h := observe_all _ _ h0).
  destruct (observe_all_spec (mo_latency m) (x_trace st.2) h0) as (Hst & Hf & Hc & Hfire). fold h in Hst, Hf, Hc, Hfire.
  injection Hst as Hid Hsta Hmeth Hurl Hhdr Hsub Hapi Hdec Hfwd Herr. cbn in Hf, Hc.
  intros Hhandle.
  assert (hk_decision (ex_hook ex) = outcome_label name d err /\ hk_api (ex_hook ex) = match err with None => name | Some _ => getRequestAPI (url_Path (in_URL r)) end /\
    (hk_subject (ex_hook ex), hk_url (ex_hook ex), hk_headers (ex_hook ex), hk_fetches (ex_hook ex),
     hk_policyEvals (ex_hook ex), hk_action (ex_hook ex), hk_policy (ex_hook ex)) =
    (hk_subject h, hk_url h, hk_headers h, hk_fetches h, hk_policyEvals h, hk_action h, hk_policy h) /\
    match ex_reply ex with
    | RUpstream st _ _ => hk_forwarded (ex_hook ex) = Some st
    | _ => hk_forwarded (ex_hook ex) = hk_forwarded h
    end) as (Hd & Ha & Heq & Hup).
  { destruct err as [e|].
    - injection Hhandle as <-. unfold handleEvalError. destruct (classifyEvalError e). simpl.
      split; [by rewrite Hdec|]. split; [by rewrite Hapi|done].
    - destruct (decide_reply_hook _ _ _ _ _ _ _ _ _ _ _ _ Hhandle) as (-> & -> & _ & -> & Hu). done. }
  injection Heq as E1 E2 E3 E4 E5 E6 E7. rewrite Hfwd in Hup. simpl in Hup.
  unfold recorded, commit in Hrec. rewrite Hd in Hrec.
  pose proof (outcome_label_no_match name d err) as Hnm.
  destruct (decide (outcome_label name d err = DecisionNoMatch)) as [Hl|Hl].
  { injection Hrec as <-. by apply Hnm. }
  destruct (encodeBinds _ _ _) as [binds| |]; [|done..]. injection Hrec as <-. cbn.
  rewrite Hnm in Hl. split; [done|]. split; [done|]. split; [by rewrite E1, Hsub|].
  split. { rewrite Ha. destruct err as [e|]; [done|]. rewrite decide_False; [done|]. intros Hn. by apply Hl. }
  split; [by rewrite E4, Hf|]. split; [by rewrite E5, Hc|].
  split; [by rewrite E6, E7, Hfire|]. split; [by destruct (ex_reply ex); rewrite Hup|].
  split; [by rewrite E2, Hurl|]. intros k v. rewrite E3, Hhdr. apply cloneRequestHeaders_spec.
Qed.

(** A failing evaluation hides which API it was about: its event is filed under
    "unknown", out of reach of the per-API redaction. *)
Example failed_evaluation_api :
  @commit demo_render 1 [] 0 (hook_err "boom" (newRecorderHook "id" 0 "GET" (mkURL "" "" "/d/7" "" "" "") ∅))
  = ODone (Some (mkEvent "id" 0 "" "GET" "/d/7" [] "" "unknown" "" [] [] "error" "" [] 0 [] "" 0 "boom" false)).
Proof. vm_compute. reflexivity. Qed.

Definition demo_tok : AccessToken := mkAccessToken "ann" demo_creds false.
Definition demo_policy_req : Request := mkRequest "GET" "/d/7" ["d"; "7"] [mkKeyValue "a" "1"] None.

Definition demo_evaluated :=
  @Evaluate demo_cel (api_factory (fun _ => demo_client) demo_rt (creds_of (Some demo_tok))) demo_rt 1
    demo_policy_req (Some (principal_of (Some demo_tok))) 0.

(** The two halves of a finished run. *)
Definition verdict_of {A B} (o : outcome (A * B)) : option A :=
  match o with ODone (a, _) => Some a | _ => None end.
Definition state_of {A B} (b : B) (o : outcome (A * B)) : B :=
  match o with ODone (_, s) => s | _ => b end.

Lemma run_split {A B} (o : outcome (A * B)) (a : A) (b : B) :
  verdict_of o = Some a -> o = ODone (a, state_of b o).
Proof. destruct o as [[a' b']| |]; simpl; [by intros [= ->]|done..]. Qed.

Definition demo_state : @st (api_factory (fun _ => demo_client) demo_rt (creds_of (Some demo_tok))) :=
  state_of ([], mkX [] ∅) demo_evaluated.

Definition demo_recorded : outcome (option Event) := @recorded demo_render 3 7 demo_served.

Definition demo_event : option Event := match demo_recorded with ODone e => e | _ => None end.

Lemma recorded_event_faithful_witness :
  exists ev, demo_event = Some ev /\ ev_Decision ev = "permit" /\ ev_Subject ev = "ann" /\
    ev_MetaFetches ev = trace_fetches (fun _ => 1%Z) (x_trace demo_state.2).
Proof.
  pose proof (run_split demo_evaluated ("docs", (Permit, None)) ([], mkX [] ∅) ltac:(vm_compute; reflexivity)) as He.
  assert (demo_handle = ODone demo_served) as Hh by (vm_compute; reflexivity).
  assert (demo_recorded = ODone demo_event) as Hr by (vm_compute; reflexivity).
  assert (authenticateOrAnonymous demo_server (in_Header (demo_in "/d/7")) "docs" (110 * second) = Ok (Some demo_tok))
    as Ha by (vm_compute; reflexivity).
  fold demo_state in He. unfold demo_evaluated in He. unfold demo_handle in Hh. unfold demo_recorded in Hr.
  pose proof (@recorded_event_faithful demo_cel symbolic_crypto _ _ _ _ _ (fun _ => demo_client)
    demo_server 1 3 demo_moment (demo_in "/d/7") ["d"; "7"] (Some demo_tok) "" demo_policy_req "docs" Permit None
    demo_state demo_served 7 demo_event eq_refl Ha eq_refl eq_refl He Hh Hr) as Hp.
  destruct demo_event as [ev|].
  - exists ev. split; [reflexivity|]. destruct Hp as (_ & Hd & Hs & _ & Hf & _).
    split; [exact Hd|]. split; [exact Hs|exact Hf].
  - destruct Hp as [Hn _]. discriminate Hn.
Defined.
