(* ===== verification/AdminGate.v ===== *)
(** * The door of the control plane: internal/server/admin auth.go,
    internal_policy.go, login.go and the middleware order of
    internal/server/server.go

    A caller is whoever a verified token says, from the [Authorization] header
    or else the session cookie.  Requests for the control plane are put to an
    internal runtime before any handler sees them.  The internal runtime is
    the [Runtime] of this development, compiled from the embedded API and
    policy set; bcrypt is the class [Bcrypt].  The theorems: what passes the
    door and as whom, and what a login is worth. *)

From S2P Require Import Prelude GoStd Models PathTemplate Routes Messages Compiled Evaluator PolicyStore ApiRuntime Runtime Auth Url ApiClient Query.

Class Bcrypt := CompareHashAndPassword : string -> string -> bool.

(** ** Cookies, as net/http reads them *)

Definition cookie_byte (a : ascii) : bool :=
  in_range 32 126 a && negb (one_of (String "034" (String ";" (String "\" ""))) a).

(** [parseCookieValue] with quotes allowed. *)
Definition parse_cookie_value (raw : string) : option string :=
  let quote := String "034" "" in
  let v := match cut_prefix quote raw with
           | Some r => match cut_suffix quote r with Some v => v | None => raw end
           | None => raw
           end in
  if all_bytes cookie_byte v then Some v else None.

(** [textproto.TrimString] *)
Definition trim_string (s : string) : string :=
  let fix front (s : string) : string :=
    match s with
    | String a s' => if one_of (bytes_of [9; 10; 13; 32]) a then front s' else s
    | EmptyString => ""
    end in
  string_rev (front (string_rev (front s))).

(** The value of the named cookie in one piece of a [Cookie] line. *)
Definition cookie_piece (name piece : string) : option string :=
  let piece := trim_string piece in
  let '(n, v) := match cut_byte "=" piece with Some (n, v) => (n, v) | None => (piece, "") end in
  if decide (piece = "") then None
  else if negb (bool_decide (trim_string n = name)) then None else parse_cookie_value v.

(** [Request.Cookie]: the first that parses. *)
Definition request_cookie (name : string) (h : header) : option string :=
  head (omap (cookie_piece name) (flat_map (fun line => split_byte ";" (trim_string line)) (header_Values "Cookie" h))).

(** ** Who is calling *)

Definition AdminCookieName : string := "bouncer_admin".

Definition bearerOrCookie (h : header) : string :=
  let a := header_Get "Authorization" h in
  if negb (bool_decide (a = "")) then
    match cut_prefix "Bearer " a with Some rest => trim_space rest | None => "" end
  else default "" (request_cookie AdminCookieName h).

Definition roleFor (admin : bool) : Role := if admin then RoleAdmin else RoleUser.

Section gate.
Context `{CelEngine} `{Crypto} `{Bcrypt}.

(** The caller put into the request's context; [keys] may be nil. *)
Definition AuthMiddleware (keys : option ServerKeys) (h : header) (now : Z) : Caller :=
let anonymous := mkCaller "" RoleAnonymous in
match keys with
| None => anonymous
| Some keys =>
    let jwt := bearerOrCookie h in
    if decide (jwt = "") then anonymous
    else
      match VerifyAccessToken keys jwt now with
      | Ok tok => mkCaller (at_Subject tok) (roleFor (at_Admin tok))
      | Err _ => anonymous
      end
end.

Definition principalFor (c : Caller) : Principal :=
match cl_Role c with
| RoleAdmin => mkPrincipal (cl_Subject c) "admin" ["admin"; "user"]
| RoleUser => mkPrincipal (cl_Subject c) "user" ["user"]
| RoleAnonymous => mkPrincipal "" "anonymous" []
end.

Definition hasSegmentedPrefix (path prefix : string) : bool :=
bool_decide (path = prefix) || has_prefix (prefix +:+ "/") path.

Definition isInternalPath (path : string) : bool :=
if hasSegmentedPrefix path "/_admin/static" then false
else hasSegmentedPrefix path "/_admin" || hasSegmentedPrefix path "/_api" || hasSegmentedPrefix path "/install".

Definition isUIPath (path : string) : bool := hasSegmentedPrefix path "/_admin".

(** [nopResolver] *)
Definition nop_upstream : Upstream := {|
api_handle := Empty_set;
resolve _ _ := Err (EMsg "internal runtime: no physical API");
Evaluator.Call _ h _ := match h with end
|}.

Inductive gate : Type :=
| GateNext
| GateDenial (status : Z)
| GateRedirect (dest : string).

Definition LoginUIPath : string := "/_admin/login".

Definition redirectToLogin (u : URL) : gate :=
let nextRaw := url_Path u +:+ (if decide (url_RawQuery u = "") then "" else "?" +:+ url_RawQuery u) in
GateRedirect (LoginUIPath +:+ "?next=" +:+ query_escape nextRaw).

Definition writeInternalDenial (u : URL) (c : Caller) : gate :=
if negb (IsAuthenticated c) then if isUIPath (url_Path u) then redirectToLogin u else GateDenial 401
else GateDenial 403.

Definition internal_request (method : string) (u : URL) : Request :=
mkRequest (to_upper method) (url_Path u) (SplitPath (url_Path u)) [] None.

Definition internal_Evaluate (rt : Runtime) (fuel : nat) (method : string) (u : URL) (c : Caller) (now : Z) :=
@Evaluate _ nop_upstream rt fuel (internal_request method u) (Some (principalFor c)) now.

Definition InternalPolicyMiddleware (rt : Runtime) (fuel : nat) (method : string) (u : URL) (c : Caller) (now : Z)
  : outcome gate :=
if negb (isInternalPath (url_Path u)) then ODone GateNext
else
  obind (internal_Evaluate rt fuel method u c now) (fun '(apiName, (d, err), _) =>
    ODone match err with
          | Some _ => GateDenial 500
          | None => if bool_decide (apiName = "") || negb (bool_decide (d = Permit))
                    then writeInternalDenial u c else GateNext
          end).

(** The middleware of [Router] before a handler: the caller it sees and
  whether it is reached. *)
Definition control_plane (keys : option ServerKeys) (internalRuntime : option Runtime) (fuel : nat)
  (method : string) (u : URL) (h : header) (verify now : Z) : Caller * outcome gate :=
let c := AuthMiddleware keys h verify in
(c, match internalRuntime with
    | None => ODone GateNext
    | Some rt => InternalPolicyMiddleware rt fuel method u c now
    end).

(** ** Logging in *)

Definition AdminLoginSubject : string := "admin".
Definition loginTTL : Z := 12 * 3600 * second.

Record cookie := mkCookie {
ck_Value : string;
ck_Expires : Z;
ck_MaxAge : Z;
ck_Secure : bool
}.

(** Name, [HttpOnly], [SameSite=Strict] and the path are constant. *)
Definition setAdminCookie (tls : bool) (h : header) (value : string) (expires maxAge : Z) : cookie :=
mkCookie value expires maxAge
  (tls || bool_decide (to_lower (header_Get "X-Forwarded-Proto" h) = "https")).

Definition verifyPassword (hash password : string) : bool :=
if decide (password = "") then false else CompareHashAndPassword hash password.

(** A decoded JSON body: too large, malformed, or the value. *)
Inductive body (A : Type) : Type := BodyTooLarge | BodyInvalid | BodyOk (a : A).

Inductive login_reply : Type :=
| LoginError (status : Z)
| LoginOk (token : string) (expires_at : Z) (c : cookie).

(** [now] is read by the signing, [now'] after it. *)
Definition loginHandler (keys : ServerKeys) (passwordHash : string) (tls : bool) (h : header)
  (b : body string) (nonce : string) (now now' : Z) : login_reply :=
if decide (passwordHash = "") then LoginError 503
else
  match b with
  | BodyTooLarge _ => LoginError 413
  | BodyInvalid _ => LoginError 400
  | BodyOk _ password =>
      if negb (verifyPassword passwordHash password) then LoginError 401
      else
        let tok := IssueAccessToken keys AdminLoginSubject (mkAccessCreds "x" []) loginTTL true nonce now in
        LoginOk tok (now' + loginTTL) (setAdminCookie tls h tok (now' + loginTTL) 0)
  end.

Definition logoutHandler (tls : bool) (h : header) : cookie := setAdminCookie tls h "" 0 (-1).
End gate.
Arguments BodyTooLarge {A}.
Arguments BodyInvalid {A}.
Arguments BodyOk {A} a.

(** ** Properties *)

Lemma AuthMiddleware_verified `{Crypto} keys h now :
  IsAuthenticated (AuthMiddleware keys h now) = true ->
  exists k jwt tok, keys = Some k /\ jwt = bearerOrCookie h /\ VerifyAccessToken k jwt now = Ok tok /\
    AuthMiddleware keys h now = mkCaller (at_Subject tok) (roleFor (at_Admin tok)).
Proof.
  unfold AuthMiddleware. destruct keys as [k|]; [|done]. cbn zeta. case_decide; [done|].
  destruct (VerifyAccessToken k (bearerOrCookie h) now) as [tok|] eqn:E; [|done]. intros _.
  by exists k, (bearerOrCookie h), tok.
Qed.

Lemma bearerOrCookie_source h :
  bearerOrCookie h <> "" ->
  (exists rest, header_Get "Authorization" h = "Bearer " +:+ rest /\ bearerOrCookie h = trim_space rest) \/
  (header_Get "Authorization" h = "" /\ request_cookie AdminCookieName h = Some (bearerOrCookie h)).
Proof.
  unfold bearerOrCookie. cbn zeta. case_bool_decide as Ha; cbn [negb].
  - destruct (request_cookie _ _) as [v|]; [by right|done].
  - destruct (cut_prefix _ _) as [rest|] eqn:E; [|done]. apply cut_prefix_Some in E. left. by exists rest.
Qed.

(** C15. Nobody passes the door of the control plane unasked.  When the internal
    runtime is mounted, a request for a control-plane path reaches its handler
    exactly when that runtime permits the caller's principal for it; the admin
    scope is carried only by a caller whose token, presented as a bearer or,
    without any [Authorization] header, as the session cookie, verifies and
    says admin.  A refusal sends an anonymous caller of a page to the login
    with the way back, and answers 401, 403, or 500 otherwise; and a request
    outside the control plane is not touched. *)
Theorem control_plane_gate `{CelEngine} `{Crypto} (keys : option ServerKeys) (rt : Runtime) (fuel : nat)
    (method : string) (u : URL) (h : header) (verify now : Z) (c : Caller) (g : gate)
    (Hrun : control_plane keys (Some rt) fuel method u h verify now = (c, ODone g)) :
  (IsAuthenticated c = true -> exists k tok,
     keys = Some k /\ VerifyAccessToken k (bearerOrCookie h) verify = Ok tok /\
     cl_Subject c = at_Subject tok /\ (IsAdmin c = true <-> at_Admin tok = true)) /\
  ("admin" ∈ prin_Scopes (principalFor c) <-> IsAdmin c = true) /\
  (isInternalPath (url_Path u) = false -> g = GateNext) /\
  (isInternalPath (url_Path u) = true -> exists name d err st,
     internal_Evaluate rt fuel method u c now = ODone (name, (d, err), st) /\
     (g = GateNext <-> name <> "" /\ d = Permit /\ err = None) /\
     (g <> GateNext -> g = match err with
        | Some _ => GateDenial 500
        | None => if IsAuthenticated c then GateDenial 403
                  else if isUIPath (url_Path u) then redirectToLogin u else GateDenial 401
        end)).
Proof.
  unfold control_plane in Hrun. injection Hrun as Hc Hg. split; [|split; [|split]].
  - intros Ha. rewrite <- Hc in Ha |- *. apply AuthMiddleware_verified in Ha as (k & jwt & tok & -> & -> & Hv & ->).
    exists k, tok. split; [done|]. split; [done|]. split; [done|]. unfold IsAdmin. simpl.
    by destruct (at_Admin tok).
  - unfold principalFor, IsAdmin. destruct (cl_Role c); simpl; split; intros; try done; try set_solver.
  - unfold InternalPolicyMiddleware in Hg. intros Hp. rewrite Hp in Hg. by injection Hg.
  - unfold InternalPolicyMiddleware in Hg. intros Hp. rewrite Hp, Hc in Hg. cbn [negb] in Hg.
    destruct (internal_Evaluate _ _ _ _ _ _) as [[[name [d err]] st]| |]; [|done..]. injection Hg as <-.
    exists name, d, err, st. split; [done|]. destruct err as [e|]; [split; [split; [done|by intros (_ & _ & ?)]|done]|].
    unfold writeInternalDenial, redirectToLogin.
    destruct (decide (name = "")) as [->|Hn]; [|destruct (decide (d = Permit)) as [->|Hd]].
    + rewrite bool_decide_eq_true_2 by done. cbn [orb]. destruct (IsAuthenticated c), (isUIPath (url_Path u));
        simpl; (split; [split; [done|by intros []]|done]).
    + rewrite bool_decide_eq_false_2, bool_decide_eq_true_2 by done. cbn [orb negb]. done.
    + rewrite !bool_decide_eq_false_2 by done. cbn [orb negb].
      destruct (IsAuthenticated c), (isUIPath (url_Path u)); simpl;
        (split; [split; [done|by intros (_ & ? & _)]|done]).
Qed.

(** ** A small internal runtime: one admin-only route *)

Definition admin_only (act : activation) : result cval :=
  match act !! "principal" with
  | Some (VPrincipal p) => Ok (VBool (bool_decide ("admin" ∈ prin_Scopes p)))
  | _ => Err (EMsg "no principal")
  end.

Definition demo_internal : Runtime :=
  mkRuntime ∅
    {[ "bouncer-internal" := mkAPIRuntime "bouncer-internal" "" 0 false ∅ ∅
         [mkCAction "traffic_list" (Some (mkTemplate "GET" [mkSeg "_api" ""; mkSeg "traffic" ""])) None []]
         (mkStore [] [mkCPolicy "bouncer-internal" "admin-only" Permit admin_only (fun _ => Ok (VBool true))
            (mkProgram (policyEnv "bouncer-internal" ∅) true (fun _ => PRet (Ok (VBool true))))
            (mkPolicy "bouncer-internal" "admin-only" "" "" "" "true" Permit)]) ]}
    ∅ ∅ [mkRoute ["_api"] "bouncer-internal" "/_api"].

Definition demo_session (admin : bool) : header :=
  {[ "Cookie" := ["theme=dark; bouncer_admin=" +:+
       IssueAccessToken (FromSecret "s") "ann" demo_creds (60 * second) admin demo_nonce (100 * second)] ]}.

Definition demo_gate (admin : bool) : Caller * outcome gate :=
  @control_plane demo_cel symbolic_crypto (Some (FromSecret "s")) (Some demo_internal) 1 "GET"
    (mkURL "" "" "/_api/traffic" "" "" "") (demo_session admin) (110 * second) 0.

Example demo_gate_admin : demo_gate true = (mkCaller "ann" RoleAdmin, ODone GateNext).
Proof. vm_compute. reflexivity. Qed.

Example demo_gate_user : demo_gate false = (mkCaller "ann" RoleUser, ODone (GateDenial 403)).
Proof. vm_compute. reflexivity. Qed.

Lemma control_plane_gate_witness :
  demo_gate true = (mkCaller "ann" RoleAdmin, ODone GateNext) /\
  exists name d err st,
    @internal_Evaluate demo_cel demo_internal 1 "GET" (mkURL "" "" "/_api/traffic" "" "" "")
      (mkCaller "ann" RoleAdmin) 0 = ODone (name, (d, err), st) /\ d = Permit.
Proof.
  split; [vm_compute; reflexivity|].
  assert (demo_gate true = (mkCaller "ann" RoleAdmin, ODone GateNext)) as Hr by (vm_compute; reflexivity).
  unfold demo_gate in Hr.
  destruct (@control_plane_gate demo_cel symbolic_crypto _ _ _ _ _ _ _ _ _ _ Hr) as (_ & _ & _ & H).
  destruct (H eq_refl) as (name & d & err & st & He & Hiff & _). exists name, d, err, st. split; [exact He|].
  destruct (proj1 Hiff eq_refl) as (_ & Hd & _). exact Hd.
Defined.

(** ** Sessions *)

(** A login is worth an admin session of twelve hours and nothing else.
    A token is handed out only for the configured password; with it in the
    session cookie and no [Authorization] header the middleware sees the admin
    caller from the second of issue to twelve hours later, the leeway
    included, and an anonymous one outside.  Whatever else happens the answer
    is 503 without a configured password, 413 or 400 for a bad body, and 401. *)
Theorem login_session `{CelEngine} `{CryptoLaws} `{Bcrypt} (secret hash nonce : string) (tls : bool) (h h' : header)
    (b : body string) (now now' t : Z)
    (Hnonce : String.length nonce = nonce_size) :
  match loginHandler (FromSecret secret) hash tls h b nonce now now' with
  | LoginError st =>
      (st = 503%Z <-> hash = "") /\ (st ∈ [503; 413; 400; 401])%Z /\
      (forall p, b = BodyOk p -> hash <> "" -> st = 401%Z /\ verifyPassword hash p = false)
  | LoginOk token expires c =>
      (exists p, b = BodyOk p /\ p <> "" /\ CompareHashAndPassword hash p = true) /\
      ck_Value c = token /\ (tls = true -> ck_Secure c = true) /\
      (token <> "" -> header_Get "Authorization" h' = "" -> request_cookie AdminCookieName h' = Some token ->
       let inside := (NumericDate now - jwtLeeway <= t < NumericDate (now + loginTTL) + jwtLeeway)%Z in
       (inside -> AuthMiddleware (Some (FromSecret secret)) h' t = mkCaller AdminLoginSubject RoleAdmin) /\
       (~ inside -> AuthMiddleware (Some (FromSecret secret)) h' t = mkCaller "" RoleAnonymous))
  end.
Proof.
  unfold loginHandler. case_decide as Hh; [split; [done|]; split; [set_solver|done]|].
  destruct b as [| |p]; [split; [done|]; split; [set_solver|done]..|].
  destruct (verifyPassword hash p) eqn:Ev; cbn [negb].
  2: { split; [done|]. split; [set_solver|]. by intros p' [= <-]. }
  unfold verifyPassword in Ev. destruct (decide (p = "")) as [|Hp]; [done|].
  split; [by exists p|]. split; [done|]. split; [by intros ->|]. intros Ht Ha Hc. cbn zeta.
  unfold AuthMiddleware, bearerOrCookie. rewrite Ha, Hc. cbn [negb bool_decide]. simpl (default _ _).
  rewrite bool_decide_eq_true_2 by done. cbn [negb]. rewrite decide_False by done.
  set (tok := IssueAccessToken _ _ _ _ _ _ _) in *.
  pose proof (verify_issued_access secret AdminLoginSubject nonce (mkAccessCreds "x" []) loginTTL now t true) as Hv.
  cbn zeta in Hv. fold tok in Hv.
  split.
  - intros Hin. rewrite (proj2 (Hv (mkAccessToken AdminLoginSubject (mkAccessCreds "x" []) true) Hnonce eq_refl eq_refl)
      (conj eq_refl Hin)). done.
  - intros Hout. specialize (fun x => Hv x Hnonce eq_refl eq_refl).
    destruct (VerifyAccessToken _ _ _) as [x|]; [|done]. by destruct (proj1 (Hv x) eq_refl) as [_ E].
Qed.

Definition demo_bcrypt : Bcrypt := fun hash p => bool_decide (hash = "h:" +:+ p).

Lemma login_session_witness :
  let tok := IssueAccessToken (FromSecret "s") "admin" (mkAccessCreds "x" []) loginTTL true demo_nonce (100 * second) in
  @AuthMiddleware symbolic_crypto (Some (FromSecret "s")) {[ "Cookie" := ["bouncer_admin=" +:+ tok] ]} (200 * second)
    = mkCaller "admin" RoleAdmin.
Proof.
  cbn zeta. set (h' := {[ "Cookie" := _ ]} : header).
  pose proof (@login_session demo_cel symbolic_crypto symbolic_laws demo_bcrypt "s" "h:pw" demo_nonce false ∅ h'
    (BodyOk "pw") (100 * second) (100 * second) (200 * second) eq_refl) as Hl.
  destruct Hl as (_ & _ & _ & H). apply H.
  - vm_compute. discriminate.
  - reflexivity.
  - vm_compute. reflexivity.
  - split; vm_compute; [discriminate|reflexivity].
Defined.
