(* ===== verification/AdminApi.v ===== *)
(** * The control-plane handlers: internal/server/admin response.go,
    policies.go, proposals.go and the MCP tools of internal/server/admin/mcp
    policies_tools.go, traffic_tools.go

    Handlers decode, call a service, and turn errors into statuses.  A body is
    already decoded (too large, malformed, or the value); the caller is the one
    [AdminGate] put into the context.  JSON-RPC framing is left out.  The
    theorem: a caller who is not an admin sees and touches only their own
    proposals. *)

From S2P Require Import Prelude GoStd Models Interfaces PathTemplate Routes Messages Compiled Evaluator EvaluatorFacts PolicyStore ApiRuntime Runtime Stores PolicyService Proposals Traffic Auth Url AdminGate.

(** ** Errors to statuses *)

Definition errBodyTooLarge : goerr := ESentinel "errBodyTooLarge".
Definition decodeError : goerr := ESentinel "decodeError".

(** [decodeJSONBody] *)
Definition decodeJSONBody {A} (b : body A) : result A :=
  match b with
  | BodyTooLarge => Err errBodyTooLarge
  | BodyInvalid => Err decodeError
  | BodyOk a => Ok a
  end.

(** [writeMappedError]: the first row of the table that matches. *)
Fixpoint mapped_status (e : goerr) (table : list (string * Z)) : Z :=
  match table with
  | [] => 500
  | (sentinel, st) :: table => if errors_is e sentinel then st else mapped_status e table
  end%Z.

Definition writeMappedError (e : goerr) (table : list (string * Z)) : Z :=
  if errors_is e "errBodyTooLarge" then 413%Z
  else if errors_is e "decodeError" then 400%Z else mapped_status e table.

Definition writePolicyError (e : goerr) : Z :=
  writeMappedError e [("ErrInvalid", 400); ("ErrAPIPath", 400); ("ErrConflict", 409); ("ErrNotFound", 404);
    ("ErrReadOnly", 403)]%Z.

Definition writeProposalError (e : goerr) : Z :=
  writeMappedError e [("proposals.ErrInvalid", 400); ("ErrInvalid", 400); ("ErrAPIPath", 400);
    ("proposals.ErrNotFound", 404); ("proposals.ErrBadTransition", 409); ("proposals.ErrPolicyConflict", 409);
    ("ErrReadOnly", 403)]%Z.

Inductive payload : Type :=
  | NoPayload
  | PolicyBody (p : Policy)
  | PoliciesBody (l : list Policy)
  | CapabilitiesBody (writeable : bool)
  | DryRunBody (ok : bool)
  | ImportBody (r : ImportResult)
  | ProposalBody (p : Proposal)
  | ProposalsBody (l : list Proposal).

Record answer := mkAnswer { an_Status : Z; an_Body : payload }.

Definition fail (st : Z) : answer := mkAnswer st NoPayload.

Record approveBody := mkApproveBody { ab_By : string; ab_Overwrite : bool }.
Record rejectBody := mkRejectBody { rb_By : string; rb_Reason : string }.

(** The repeated [api] filter. *)
Definition filter_apis (filters : list string) (l : list Policy) : list Policy :=
  if bool_decide (filters = []) then l
  else List.filter (fun p => bool_decide (pol_API p ∈ filters)) l.

Section handlers.
Context `{PolicyRuntime R} `{Store St}.
Notation PService := (PService R St).

Definition on_policies (v : Service R St) (s : PService) : PService := mkPService (pv_store s) v.

(** ** [policies.go] *)

Definition capabilitiesHandler (s : PService) : answer := mkAnswer 200 (CapabilitiesBody (Writeable (pv_policies s))).

Definition listPoliciesHandler (filters : list string) (s : PService) : answer :=
mkAnswer 200 (PoliciesBody (filter_apis filters (List_ (pv_policies s)))).

Definition getPolicyHandler (api name : string) (s : PService) : answer :=
match Get api name (pv_policies s) with
| Err e => fail (writePolicyError e)
| Ok p => mkAnswer 200 (PolicyBody p)
end.

Definition createPolicyHandler (b : body Policy) (s : PService) : answer * PService :=
match decodeJSONBody b with
| Err e => (fail (writePolicyError e), s)
| Ok p =>
    match Create p (pv_policies s) with
    | (Some e, v) => (fail (writePolicyError e), on_policies v s)
    | (None, v) => (mkAnswer 201 (PolicyBody p), on_policies v s)
    end
end.

Definition replacePolicyHandler (api name : string) (b : body Policy) (s : PService) : answer * PService :=
match decodeJSONBody b with
| Err e => (fail (writePolicyError e), s)
| Ok p =>
    match Replace api name p (pv_policies s) with
    | (Some e, v) => (fail (writePolicyError e), on_policies v s)
    | (None, v) => (mkAnswer 200 (PolicyBody p), on_policies v s)
    end
end.

Definition deletePolicyHandler (api name : string) (s : PService) : answer * PService :=
match Delete api name (pv_policies s) with
| (Some e, v) => (fail (writePolicyError e), on_policies v s)
| (None, v) => (mkAnswer 204 NoPayload, on_policies v s)
end.

Definition dryRunPolicyHandler (b : body Policy) (s : PService) : answer :=
match decodeJSONBody b with
| Err e => fail (writePolicyError e)
| Ok p => mkAnswer 200 (DryRunBody (is_ok (Validate p (pv_policies s))))
end.

(** Documents without API and name are skipped when decoding. *)
Definition decodePoliciesYAML (docs : list Policy) : list Policy :=
List.filter (fun p => negb (bool_decide (pol_API p = "") && bool_decide (pol_Name p = ""))) docs.

Definition importPoliciesHandler (b : body (list Policy)) (dryRun : bool) (s : PService) : answer * PService :=
match b with
| BodyTooLarge => (fail 413, s)
| BodyInvalid => (fail 400, s)
| BodyOk docs =>
    let parsed := decodePoliciesYAML docs in
    if decide (parsed = []) then (fail 400, s)
    else
      let '(res, e, v) := Import parsed dryRun (pv_policies s) in
      (match e with
       | Some e => if errors_is e "ErrInvalid" then mkAnswer 400 (ImportBody res) else fail (writePolicyError e)
       | None => mkAnswer 200 (ImportBody res)
       end, on_policies v s)
end.

(** ** [proposals.go] *)

Definition callerCanSeeProposal (c : Caller) (p : Proposal) : bool :=
if IsAdmin c then true else negb (bool_decide (cl_Subject c = "")) && bool_decide (p_Author p = cl_Subject c).

Definition filterProposalsBySubject (l : list Proposal) (subject : string) : list Proposal :=
if decide (subject = "") then [] else List.filter (fun p => bool_decide (p_Author p = subject)) l.

Definition listProposalsHandler (c : Caller) (o : Proposals.ListOpts) (s : PService) : answer * PService :=
match PList o s with
| (Err e, s) => (fail (writeProposalError e), s)
| (Ok l, s) => (mkAnswer 200 (ProposalsBody (if IsAdmin c then l else filterProposalsBySubject l (cl_Subject c))), s)
end.

Definition getProposalHandler (c : Caller) (id : string) (s : PService) : answer * PService :=
match PGet id s with
| (Err e, s) => (fail (writeProposalError e), s)
| (Ok p, s) =>
    if callerCanSeeProposal c p then (mkAnswer 200 (ProposalBody p), s)
    else (fail (writeProposalError PErrNotFound), s)
end.

Definition with_author (a : string) (i : CreateInput) : CreateInput :=
mkCreateInput (ci_Kind i) (ci_Policy i) (ci_Origin i) a (ci_Rationale i).

(** What ends the handlers that return a proposal. *)
Definition proposal_answer (st : Z) (r : result Proposal * PService) : answer * PService :=
match r with
| (Err e, s) => (fail (writeProposalError e), s)
| (Ok p, s) => (mkAnswer st (ProposalBody p), s)
end.

Definition createProposalHandler (c : Caller) (b : body CreateInput) (id : string) (now : Z) (s : PService)
  : answer * PService :=
match decodeJSONBody b with
| Err e => (fail (writeProposalError e), s)
| Ok i => proposal_answer 201 (PCreate (if IsAdmin c then i else with_author (cl_Subject c) i) id now s)
end.

Definition ensureCallerCanModify (c : Caller) (id : string) (s : PService) : option goerr * PService :=
if IsAdmin c then (None, s)
else
  match PGet id s with
  | (Err _, s) => (Some PErrNotFound, s)
  | (Ok cur, s) => (if callerCanSeeProposal c cur then None else Some PErrNotFound, s)
  end.

Definition updateProposalHandler (c : Caller) (id : string) (b : body UpdateInput) (now : Z) (s : PService)
  : answer * PService :=
match decodeJSONBody b with
| Err e => (fail (writeProposalError e), s)
| Ok i =>
    match ensureCallerCanModify c id s with
    | (Some e, s) => (fail (writeProposalError e), s)
    | (None, s) => proposal_answer 200 (PUpdate id i now s)
    end
end.

Definition deleteProposalHandler (c : Caller) (id : string) (s : PService) : answer * PService :=
match ensureCallerCanModify c id s with
| (Some e, s) => (fail (writeProposalError e), s)
| (None, s) =>
    match PDelete id s with
    | (Some e, s) => (fail (writeProposalError e), s)
    | (None, s) => (mkAnswer 204 NoPayload, s)
    end
end.

Definition approveProposalHandler (c : Caller) (id : string) (b : body approveBody) (now : Z) (s : PService)
  : answer * PService :=
match decodeJSONBody b with
| Err e => (fail (writeProposalError e), s)
| Ok a =>
    proposal_answer 200
      (PApprove id (if decide (ab_By a = "") then cl_Subject c else ab_By a) (ab_Overwrite a) now s)
end.

Definition rejectProposalHandler (c : Caller) (id : string) (b : body rejectBody) (now : Z) (s : PService)
  : answer * PService :=
match decodeJSONBody b with
| Err e => (fail (writeProposalError e), s)
| Ok a =>
    proposal_answer 200
      (PReject id (if decide (rb_By a = "") then cl_Subject c else rb_By a) (rb_Reason a) now s)
end.
End handlers.

(** ** The MCP tools over policies *)

Record proposePolicyResult := mkProposeResult {
  pp_OK : bool;
  pp_Applied : bool;
  pp_ProposalID : string
}.

Inductive tool_result : Type :=
  | ToolError (code : Z)
  | ToolPolicies (l : list Policy)
  | ToolPolicy (p : Policy)
  | ToolDryRun (ok : bool)
  | ToolPropose (r : proposePolicyResult).

Definition codeInvalidRequest : Z := -32600.
Definition codeMethodNotFound : Z := -32601.
Definition codeInvalidParams : Z := -32602.
Definition codeInternalError : Z := -32603.

Definition mapPolicyError (e : goerr) : Z :=
  if errors_is e "ErrNotFound" then codeInvalidParams
  else if errors_is e "ErrInvalid" || errors_is e "ErrAPIPath" then codeInvalidParams
  else if errors_is e "ErrConflict" then codeInvalidParams
  else if errors_is e "ErrReadOnly" then codeInvalidRequest else codeInternalError.

Section mcp.
Context `{PolicyRuntime R} `{Store St}.
Notation PService := (PService R St).

(** Whether the two services are wired, as [Deps] says. *)
Variables has_policies has_proposals : bool.

(** Arguments are [None] when they do not decode. *)
Definition runListPolicies (args : option string) (s : PService) : tool_result :=
if negb has_policies then ToolError codeMethodNotFound
else
  match args with
  | None => ToolError codeInvalidParams
  | Some api =>
      ToolPolicies (if decide (api = "") then List_ (pv_policies s)
                    else List.filter (fun p => bool_decide (pol_API p = api)) (List_ (pv_policies s)))
  end.

Definition runGetPolicy (args : option (string * string)) (s : PService) : tool_result :=
if negb has_policies then ToolError codeMethodNotFound
else
  match args with
  | None => ToolError codeInvalidParams
  | Some (api, name) =>
      if bool_decide (api = "") || bool_decide (name = "") then ToolError codeInvalidParams
      else match Get api name (pv_policies s) with
           | Err e => ToolError (mapPolicyError e)
           | Ok p => ToolPolicy p
           end
  end.

Definition runDryRunPolicy (args : option Policy) (s : PService) : tool_result :=
if negb has_policies then ToolError codeMethodNotFound
else
  match args with
  | None => ToolError codeInvalidParams
  | Some p => ToolDryRun (is_ok (Validate p (pv_policies s)))
  end.

Definition runProposePolicy (c : Caller) (args : option Policy) (id : string) (now : Z) (s : PService)
  : tool_result * PService :=
if negb has_policies then (ToolError codeMethodNotFound, s)
else
  match args with
  | None => (ToolError codeInvalidParams, s)
  | Some p =>
      match Validate p (pv_policies s) with
      | Err _ => (ToolPropose (mkProposeResult false false ""), s)
      | Ok _ =>
          if is_ok (Get (pol_API p) (pol_Name p) (pv_policies s))
          then (ToolPropose (mkProposeResult true false ""), s)
          else if negb (IsAdmin c) then
            if negb has_proposals then (ToolPropose (mkProposeResult true false ""), s)
            else
              match PCreate (mkCreateInput "" p (mkOrigin OriginAgent (cl_Subject c) "") (cl_Subject c) "")
                      id now s with
              | (Err _, s) => (ToolError codeInternalError, s)
              | (Ok prop, s) => (ToolPropose (mkProposeResult true false (p_ID prop)), s)
              end
          else
            match Create p (pv_policies s) with
            | (Some e, v) => (ToolError (mapPolicyError e), on_policies v s)
            | (None, v) => (ToolPropose (mkProposeResult true true ""), on_policies v s)
            end
      end
  end.
End mcp.

(** [redactedTrafficEvent]: what a caller who is not an admin is shown. *)
Record redactedEvent := mkRedactedEvent {
  re_ID : string; re_Timestamp : Z; re_Subject : string; re_Method : string; re_URL : string; re_API : string;
  re_Action : string; re_Decision : string; re_Policy : string; re_UpstreamStatus : Z; re_LatencyMS : Z;
  re_Error : string
}.

Definition redactedTrafficEvent (ev : Event) : redactedEvent :=
  mkRedactedEvent (ev_ID ev) (ev_Timestamp ev) (ev_Subject ev) (ev_Method ev) (ev_URL ev) (ev_API ev) (ev_Action ev)
    (ev_Decision ev) (ev_Policy ev) (ev_UpstreamStatus ev) (ev_LatencyMS ev) (ev_Error ev).

(** ** The requests of a caller on the proposals and the MCP tool *)

Inductive request : Type :=
  | RList (o : Proposals.ListOpts)
  | RGet (id : string)
  | RCreate (b : body CreateInput) (id : string) (now : Z)
  | RUpdate (id : string) (b : body UpdateInput) (now : Z)
  | RDelete (id : string)
  | RApprove (id : string) (b : body approveBody) (now : Z)
  | RReject (id : string) (b : body rejectBody) (now : Z)
  | RPropose (p : option Policy) (id : string) (now : Z).

Section serve.
Context `{PolicyRuntime R} `{Store St}.
Notation PService := (PService R St).
Implicit Types s : PService.

(** The proposals an answer shows. *)
Definition shown (a : answer) : list Proposal :=
match an_Body a with ProposalBody p => [p] | ProposalsBody l => l | _ => [] end.

Definition serve (c : Caller) (q : request) (s : PService) : list Proposal * Z * PService :=
let of_answer (r : answer * PService) := (shown r.1, an_Status r.1, r.2) in
match q with
| RList o => of_answer (listProposalsHandler c o s)
| RGet id => of_answer (getProposalHandler c id s)
| RCreate b id now => of_answer (createProposalHandler c b id now s)
| RUpdate id b now => of_answer (updateProposalHandler c id b now s)
| RDelete id => of_answer (deleteProposalHandler c id s)
| RApprove id b now => of_answer (approveProposalHandler c id b now s)
| RReject id b now => of_answer (rejectProposalHandler c id b now s)
| RPropose p id now => let '(_, s) := runProposePolicy true true c p id now s in ([], 200%Z, s)
end.

(** The two requests whose handlers ask nothing about the caller. *)
Definition reviews (q : request) : bool :=
match q with RApprove _ _ _ | RReject _ _ _ => true | _ => false end.

(** The identifier a new proposal would get is unused. *)
Definition fresh_request (q : request) (s : PService) : Prop :=
match q with
| RCreate _ id _ | RPropose _ id _ => row s id = None
| _ => True
end.

(** The same service without one row. *)
Definition forget (id : string) (s : PService) : PService :=
mkPService (mkDB (delete id (db_rows (pv_store s))) (db_faults (pv_store s))) (pv_policies s).

(** One request, seen row by row: what may change is the caller's own. *)
Definition confined (c : Caller) (s s' : PService) : Prop :=
pv_policies s' = pv_policies s /\
(forall id p, row s id = Some p -> p_Author p <> cl_Subject c -> row s' id = Some p) /\
(forall id p, row s' id = Some p -> row s id = Some p \/ p_Author p = cl_Subject c).

Lemma confined_same c s s' :
pv_policies s' = pv_policies s -> db_rows (pv_store s') = db_rows (pv_store s) -> confined c s s'.
Proof.
intros Hp Hr. split; [done|]. unfold row. rewrite Hr. split; [done|]. intros id p Hid. by left.
Qed.

Lemma confined_insert c s s' id p :
pv_policies s' = pv_policies s -> db_rows (pv_store s') = <[id := p]> (db_rows (pv_store s)) ->
p_Author p = cl_Subject c -> (forall q, row s id = Some q -> p_Author q = cl_Subject c) -> confined c s s'.
Proof.
intros Hp Hr Ha Hold. split; [done|]. unfold row in *. rewrite Hr. split.
- intros j q Hj Hq. destruct (decide (j = id)) as [->|Hne]; [by apply Hold in Hj|]. by rewrite lookup_insert_ne.
- intros j q [[<- <-]|[_ Hj]]%lookup_insert_Some; [by right|by left].
Qed.

Lemma PGet_inv id s r s' :
PGet id s = (r, s') ->
pv_policies s' = pv_policies s /\ db_rows (pv_store s') = db_rows (pv_store s) /\
forall p, r = Ok p -> row s id = Some p.
Proof.
unfold PGet, db_get, row. destruct (pop _) as [[] fs]; simpl; [by intros [= <- <-]|].
destruct (db_rows (pv_store s) !! id) as [p|] eqn:E; intros [= <- <-]; simpl; (split; [done|]; split; [done|]);
  [by intros q [= <-]|done].
Qed.

Lemma PCreate_inv i id now s r s' :
PCreate i id now s = (r, s') ->
pv_policies s' = pv_policies s /\
((exists e, r = Err e /\ db_rows (pv_store s') = db_rows (pv_store s)) \/
 exists p, r = Ok p /\ p_ID p = id /\ p_Author p = ci_Author i /\
   db_rows (pv_store s') = <[id := p]> (db_rows (pv_store s))).
Proof.
unfold PCreate. destruct (mbind _ _) as [u|e]; [|intros [= <- <-]; split; [done|left; by eexists]].
unfold store_proposal, db_put. destruct (pop _) as [[] fs]; intros [= <- <-]; simpl; (split; [done|]).
- left. by eexists.
- right. by eexists.
Qed.

Lemma PUpdate_inv id i now s r s' :
db_wf (pv_store s) -> PUpdate id i now s = (r, s') ->
pv_policies s' = pv_policies s /\
((exists e, r = Err e /\ db_rows (pv_store s') = db_rows (pv_store s)) \/
 exists cur p, r = Ok p /\ row s id = Some cur /\ p_Author p = p_Author cur /\
   db_rows (pv_store s') = <[id := p]> (db_rows (pv_store s))).
Proof.
intros Hwf. unfold PUpdate. destruct (get_proposed id s) as [g s1] eqn:Hg.
destruct (get_proposed_inv _ _ _ _ Hg) as (Es & Ep & Hc).
destruct g as [cur|e]; [|intros [= <- <-]; split; [done|left; by eexists]].
destruct (Hc _ eq_refl) as [Hrow _].
destruct (edit_ok i cur s1) as [u|e]; [|intros [= <- <-]; split; [done|left; by eexists]].
intros Hs. destruct (store_proposal_inv _ _ _ _ Hs) as [Hp Hr]. split; [congruence|]. rewrite Es in Hr.
unfold store_proposal in Hs. destruct (db_put _ _) as [[e|] d]; injection Hs as <- <-.
- left. by eexists.
- right. exists cur, (with_edit i now cur). split; [done|]. split; [done|]. split; [done|].
  rewrite Hr. simpl. by rewrite (Hwf _ _ Hrow).
Qed.

Lemma PDelete_inv id s e s' :
PDelete id s = (e, s') ->
pv_policies s' = pv_policies s /\
(db_rows (pv_store s') = db_rows (pv_store s) \/ db_rows (pv_store s') = delete id (db_rows (pv_store s))).
Proof.
unfold PDelete, db_delete. destruct (pop _) as [[] fs]; simpl; [intros [= <- <-]; split; [done|by left]|].
destruct (db_rows (pv_store s) !! id); intros [= <- <-]; (split; [done|]); [by right|by left].
Qed.

Lemma ensure_inv c id s e s' :
IsAdmin c = false -> ensureCallerCanModify c id s = (e, s') ->
pv_policies s' = pv_policies s /\ db_rows (pv_store s') = db_rows (pv_store s) /\
(e = None -> exists cur, row s id = Some cur /\ p_Author cur = cl_Subject c) /\
(e <> None -> e = Some PErrNotFound).
Proof.
intros Hc. unfold ensureCallerCanModify. rewrite Hc. destruct (PGet id s) as [r s1] eqn:Hg.
destruct (PGet_inv _ _ _ _ Hg) as (Hp & Hr & Hrow). destruct r as [cur|e0]; intros [= <- <-].
- split; [done|]. split; [done|]. unfold callerCanSeeProposal. rewrite Hc.
  destruct (_ && _) eqn:E; [|done]. split; [|done]. intros _. exists cur. split; [by apply Hrow|].
  apply andb_true_iff in E as [_ E]. by apply bool_decide_eq_true in E.
- split; [done|]. split; [done|]. split; [done|]. by intros _.
Qed.

Lemma confined_create c i id now s r s' :
row s id = None -> ci_Author i = cl_Subject c -> PCreate i id now s = (r, s') ->
confined c s s' /\ forall p, r = Ok p -> p_Author p = cl_Subject c.
Proof.
intros Hf Ha Hr. destruct (PCreate_inv _ _ _ _ _ _ Hr) as [Hp [(e & -> & Hrows)|(p & -> & _ & Hap & Hrows)]].
- split; [by apply confined_same|done].
- split; [|by intros q [= <-]; rewrite Hap].
  apply (confined_insert _ _ _ id p); [done|done|by rewrite Hap|]. intros q. by rewrite Hf.
Qed.

Lemma confined_update c id i now s s1 r s' :
db_wf (pv_store s) -> pv_policies s1 = pv_policies s -> db_rows (pv_store s1) = db_rows (pv_store s) ->
(exists cur, row s id = Some cur /\ p_Author cur = cl_Subject c) -> PUpdate id i now s1 = (r, s') ->
confined c s s' /\ forall p, r = Ok p -> p_Author p = cl_Subject c.
Proof.
intros Hwf Ep Er (cur & Hcur & Ha) Hr. assert (db_wf (pv_store s1)) as Hwf1 by (unfold db_wf; by rewrite Er).
destruct (PUpdate_inv _ _ _ _ _ _ Hwf1 Hr) as [Hp Hx]. rewrite Ep in Hp. rewrite Er in Hx.
destruct Hx as [(e & -> & Hrows)|(cur' & p & -> & Hrow & Hap & Hrows)]; [split; [by apply confined_same|done]|].
assert (cur' = cur) as -> by (unfold row in *; rewrite Er in Hrow; congruence).
split; [|by intros q [= <-]; rewrite Hap].
apply (confined_insert _ _ _ id p); [done|done|by rewrite Hap|]. rewrite Hcur. by intros q [= <-].
Qed.

Lemma confined_delete c id s s1 e s' :
pv_policies s1 = pv_policies s -> db_rows (pv_store s1) = db_rows (pv_store s) ->
(exists cur, row s id = Some cur /\ p_Author cur = cl_Subject c) -> PDelete id s1 = (e, s') -> confined c s s'.
Proof.
intros Ep Er (cur & Hcur & Ha) Hr. destruct (PDelete_inv _ _ _ _ Hr) as [Hp Hrows]. rewrite Ep in Hp.
rewrite Er in Hrows. destruct Hrows as [Hrows|Hrows]; [by apply confined_same|].
split; [done|]. unfold row in *. rewrite Hrows. split.
- intros j p Hj Hne. destruct (decide (j = id)) as [->|]; [congruence|]. by rewrite lookup_delete_ne.
- intros j p [_ Hj]%lookup_delete_Some. by left.
Qed.

Definition own (c : Caller) (l : list Proposal) : Prop := Forall (fun p => p_Author p = cl_Subject c) l.

Lemma filter_own c l : own c (filterProposalsBySubject l (cl_Subject c)).
Proof.
unfold filterProposalsBySubject, own. case_decide; [constructor|]. apply Forall_forall. intros p Hp.
apply list_elem_of_In, filter_In in Hp as [_ Hp]. by apply bool_decide_eq_true in Hp.
Qed.

(** The proposal a request names. *)
Definition target (q : request) : option string :=
match q with
| RGet id | RUpdate id _ _ | RDelete id | RApprove id _ _ | RReject id _ _ => Some id
| _ => None
end.

Lemma serve_scoped c q s l st s' :
IsAdmin c = false -> reviews q = false -> db_wf (pv_store s) -> fresh_request q s ->
serve c q s = (l, st, s') -> confined c s s' /\ own c l.
Proof.
intros Hc Hq Hwf Hf. unfold serve.
destruct q as [o|id|b id now|id b now|id|id b now|id b now|p id now]; simpl in Hf; try done.
- unfold listProposalsHandler, PList, db_list. rewrite Hc.
  destruct (pop _) as [[] fs]; simpl; intros [= <- <- <-]; (split; [by apply confined_same|]);
    [constructor|apply filter_own].
- unfold getProposalHandler. destruct (PGet id s) as [r s1] eqn:Hg. destruct (PGet_inv _ _ _ _ Hg) as (Hp & Hr & _).
  assert (confined c s s1) by by apply confined_same.
  destruct r as [p|e]; simpl; [|intros [= <- <- <-]; split; [done|constructor]]. unfold callerCanSeeProposal.
  rewrite Hc. destruct (negb _ && _) eqn:E; simpl; intros [= <- <- <-]; (split; [done|]); repeat constructor.
  apply andb_true_iff in E as [_ E]. by apply bool_decide_eq_true in E.
- unfold createProposalHandler. rewrite Hc.
  destruct (decodeJSONBody b) as [i|e]; [|intros [= <- <- <-]; split; [by apply confined_same|constructor]].
  destruct (PCreate _ _ _ s) as [r s1] eqn:Hr. apply (confined_create c) in Hr as [Hs Ho]; [|done..].
  destruct r; intros [= <- <- <-]; (split; [done|]); repeat constructor; by apply Ho.
- unfold updateProposalHandler.
  destruct (decodeJSONBody b) as [i|e]; [|intros [= <- <- <-]; split; [by apply confined_same|constructor]].
  destruct (ensureCallerCanModify c id s) as [e s1] eqn:He. destruct (ensure_inv _ _ _ _ _ Hc He) as (Hp & Hr & Hy & _).
  destruct e as [e|]; [intros [= <- <- <-]; split; [by apply confined_same|constructor]|].
  destruct (PUpdate id i now s1) as [r s2] eqn:Hu.
  apply (confined_update c id i now s s1) in Hu as [Hs Ho]; [|by eauto..].
  destruct r; intros [= <- <- <-]; (split; [done|]); repeat constructor; by apply Ho.
- unfold deleteProposalHandler. destruct (ensureCallerCanModify c id s) as [e s1] eqn:He.
  destruct (ensure_inv _ _ _ _ _ Hc He) as (Hp & Hr & Hy & _).
  destruct e as [e|]; [intros [= <- <- <-]; split; [by apply confined_same|constructor]|].
  destruct (PDelete id s1) as [e s2] eqn:Hd. apply (confined_delete c id s s1) in Hd; [|by eauto..].
  destruct e; intros [= <- <- <-]; (split; [done|constructor]).
- unfold runProposePolicy. simpl. rewrite Hc. simpl. assert (confined c s s) by by apply confined_same.
  destruct p as [p|]; [|intros [= <- <- <-]; split; [done|constructor]].
  destruct (Validate _ _); [|intros [= <- <- <-]; split; [done|constructor]].
  destruct (is_ok _); [intros [= <- <- <-]; split; [done|constructor]|].
  destruct (PCreate _ _ _ s) as [r s1] eqn:Hr. apply (confined_create c) in Hr as [Hs Ho]; [|done..].
  destruct r; intros [= <- <- <-]; (split; [done|constructor]).
Qed.

(** Looking up a row that is not the caller's, and looking up no row at all. *)
Lemma PGet_hidden c id s p :
row s id = Some p -> p_Author p <> cl_Subject c -> IsAdmin c = false ->
match (PGet id s).1, (PGet id (forget id s)).1 with
| Ok q, Err e => callerCanSeeProposal c q = false /\ writeProposalError e = writeProposalError PErrNotFound
| Err e, Err e' => e = e'
| _, Ok _ => False
end.
Proof.
unfold PGet, db_get, row, forget. intros Hrow Ha Hc. simpl. rewrite lookup_delete_eq, Hrow.
destruct (pop _) as [[] fs]; simpl; [done|]. split; [|done]. unfold callerCanSeeProposal. rewrite Hc.
apply andb_false_intro2. by apply bool_decide_eq_false_2.
Qed.

Lemma ensure_hidden c id s p :
row s id = Some p -> p_Author p <> cl_Subject c -> IsAdmin c = false ->
(ensureCallerCanModify c id s).1 = Some PErrNotFound /\
(ensureCallerCanModify c id (forget id s)).1 = Some PErrNotFound.
Proof.
intros Hrow Ha Hc. pose proof (PGet_hidden c id s p Hrow Ha Hc) as H1. unfold ensureCallerCanModify. rewrite Hc.
destruct (PGet id s) as [[q|e] s1], (PGet id (forget id s)) as [[q'|e'] s2]; simpl in *; try done.
by destruct H1 as [-> _].
Qed.

Lemma serve_hidden c q s id p :
row s id = Some p -> p_Author p <> cl_Subject c -> IsAdmin c = false -> reviews q = false -> target q = Some id ->
(serve c q s).1 = (serve c q (forget id s)).1.
Proof.
intros Hrow Ha Hc Hv Hq. destruct (ensure_hidden c id s p Hrow Ha Hc) as [He He'].
destruct q as [|id'| |id' b now|id'| | |]; try done; injection Hq as ->; unfold serve.
- pose proof (PGet_hidden c id s p Hrow Ha Hc) as Hg. unfold getProposalHandler.
  destruct (PGet id s) as [[q|e] s1], (PGet id (forget id s)) as [[q'|e'] s2]; simpl in *; try done.
  + destruct Hg as [-> Hg]. simpl. by rewrite Hg.
  + by rewrite Hg.
- unfold updateProposalHandler. destruct (decodeJSONBody b); [|done].
  destruct (ensureCallerCanModify c id s), (ensureCallerCanModify c id (forget id s)). simpl in *. by subst.
- unfold deleteProposalHandler.
  destruct (ensureCallerCanModify c id s), (ensureCallerCanModify c id (forget id s)). simpl in *. by subst.
Qed.
End serve.

(** ** The gate in front of them *)

Definition request_method (q : request) : string :=
  match q with
  | RList _ | RGet _ => "GET"
  | RUpdate _ _ _ => "PATCH"
  | RDelete _ => "DELETE"
  | RCreate _ _ _ | RApprove _ _ _ | RReject _ _ _ | RPropose _ _ _ => "POST"
  end.

Definition ProposalsPath : string := "/_api/proposals".
Definition MCPPath : string := "/_api/mcp".

Definition request_path (q : request) : string :=
  match q with
  | RList _ | RCreate _ _ _ => ProposalsPath
  | RGet id | RUpdate id _ _ | RDelete id => ProposalsPath +:+ "/" +:+ id
  | RApprove id _ _ => ProposalsPath +:+ "/" +:+ id +:+ "/approve"
  | RReject id _ _ => ProposalsPath +:+ "/" +:+ id +:+ "/reject"
  | RPropose _ _ _ => MCPPath
  end.

Definition request_url (q : request) : URL := mkURL "" "" (request_path q) "" "" "".

Section respond.
Context `{CelEngine} `{PolicyRuntime R} `{Store St}.
Notation PService := (PService R St).
Implicit Types s : PService.

(** [Router] on one of these requests: the internal policies, then the handler. *)
Definition respond (rt : Runtime) (fuel : nat) (c : Caller) (q : request) (t : Z) (s : PService)
  : outcome (gate * (list Proposal * Z * PService)) :=
obind (InternalPolicyMiddleware rt fuel (request_method q) (request_url q) c t) (fun g =>
  ODone (g, match g with
            | GateNext => serve c q s
            | GateDenial st => ([], st, s)
            | GateRedirect _ => ([], 303%Z, s)
            end)).

(** No permit policy of an internal API is for this caller and an action that
    matches the request: what the embedded sets say of [proposals_approve] and
    [proposals_reject] for a caller without the scope [admin]. *)
Definition refused (rt : Runtime) (c : Caller) (q : request) (t : Z) : Prop :=
let req := internal_request (request_method q) (request_url q) in
forall name a p act m, r_apis rt !! name = Some a -> p ∈ ps_all (ar_store a) -> cp_Result p = Permit ->
  act ∈ ar_actions a -> CAction_Match req act = Ok (Some m) ->
  AppliesToPrincipal req p (Some (principalFor c)) t <> Ok true \/
  AppliesTo req p (ca_Name act) m (Some (principalFor c)) t <> Ok true.
End respond.

Lemma match_actions_from `{CelEngine} `{Upstream} r req fuel acts s ms s1 m :
  match_actions r req fuel acts s = ODone (Ok ms, s1) -> m ∈ ms ->
  exists act, act ∈ acts /\ ca_Name act = ma_name m /\ CAction_Match req act = Ok (Some (ma_match m)).
Proof.
  revert s ms. induction acts as [|act acts IH]; intros s ms; simpl.
  { intros [= <- <-] Hm. by apply not_elem_of_nil in Hm. }
  destruct (CAction_Match req act) as [[mt|]|e] eqn:Hmt; [| |done].
  - destruct (EvalBinds _ _ _ _ _ _ _) as [[[binds|e] s2]| |]; simpl; [|done..].
    destruct (match_actions _ _ _ acts s2) as [[[rest|e] s3]| |] eqn:Hr; simpl; [|done..].
    intros [= <- <-] [->|Hm]%elem_of_cons.
    + exists act. split; [by left|done].
    + destruct (IH _ _ Hr Hm) as (act' & ? & ?). exists act'. split; [by right|done].
  - intros Hr Hm. destruct (IH _ _ Hr Hm) as (act' & ? & ?). exists act'. split; [by right|done].
Qed.

(** A request for the control plane no permit policy is for does not pass. *)
Lemma refused_closed `{CelEngine} rt fuel c q t :
  isInternalPath (request_path q) = true -> refused rt c q t ->
  InternalPolicyMiddleware rt fuel (request_method q) (request_url q) c t <> ODone GateNext.
Proof.
  intros Hp Hr. unfold InternalPolicyMiddleware. simpl. rewrite Hp. cbn [negb].
  unfold internal_Evaluate, Evaluate. set (req := internal_request _ _).
  set (name := routeRequest _ _). case_decide as Hn; [simpl; unfold writeInternalDenial; by repeat case_match|].
  destruct (r_apis rt !! name) as [a|] eqn:Ha; [|done].
  destruct (AR_Evaluate _ _ _ _ _ _) as [[[d err] s1]| |] eqn:He; simpl; [|done..].
  intros E. assert (err = None /\ d = Permit) as [-> ->].
  { destruct err; [done|]. case_bool_decide; [simplify_eq; done|].
    destruct (decide (d = Permit)) as [->|]; [done|]. rewrite bool_decide_eq_false_2 in E by done.
    unfold writeInternalDenial, redirectToLogin in E. simpl in E. by repeat case_match. }
  destruct (AR_Evaluate_inv _ _ _ _ _ _ _ _ init_good He) as (_ & _ & [?|Hf]); [done|].
  destruct Hf as (ms & s2 & l1 & p & l2 & Hm & _ & Hps & Hres & _ & Hpr & m & Hin & Happ & _).
  destruct (match_actions_from _ _ _ _ _ _ _ _ Hm Hin) as (act & Hact & En & Hmt).
  assert (p ∈ ps_all (ar_store a)) as Hpin by (rewrite Hps; set_solver).
  rewrite <- En in Happ. destruct (Hr name a p act (ma_match m) Ha Hpin (eq_sym Hres) Hact Hmt); done.
Qed.

Lemma review_internal q : reviews q = true -> isInternalPath (request_path q) = true.
Proof. by destruct q. Qed.

(** ** A proposal of ann, seen by bob *)

Definition bob : Caller := mkCaller "bob" RoleUser.

Definition demo_serve := @serve Runtime (@runtime_ops demo_cel) sqliteStore _.

Definition demo_sneaky : request :=
  RCreate (BodyOk (mkCreateInput "" (doc_policy "a" "v2" Permit) (mkOrigin OriginAgent "bot" "") "ann" "")) "p2" 20.

Example bob_asks_about_p1 :
  (demo_serve bob (RGet "p1") demo_created).1 = ([], 404%Z) /\
  (demo_serve bob (RDelete "p1") demo_created).1 = ([], 404%Z) /\
  (demo_serve (mkCaller "ann" RoleUser) (RDelete "p1") demo_created).1 = ([], 204%Z).
Proof. vm_compute. done. Qed.

(** ** Properties *)

(** C14. A caller who is not an admin is confined to their own proposals.  By
    the proposal endpoints behind the internal policies, approval and rejection
    included, and the MCP tool together, one request leaves the enforced
    policies and every proposal of another author as they were, adds or changes
    only proposals under the caller's subject, whatever author the body names,
    and shows only such proposals; a request that names another's proposal gets
    the answer it would get if that row did not exist, store faults included.
    The handlers of approval and rejection do not look at the caller: for these
    the internal API must have no permit policy for the caller and the action
    ([refused]), and then the request does not reach them. *)
Theorem proposals_scoped `{CelEngine} `{PolicyRuntime R} `{Store St} (rt : Runtime) (fuel : nat) (c : Caller)
    (q : request) (t : Z) (s s' : PService R St) (g : gate) (l : list Proposal) (st : Z)
    (Hc : IsAdmin c = false) (Hwf : db_wf (pv_store s)) (Hfresh : fresh_request q s)
    (Hgate : reviews q = true -> refused rt c q t)
    (Hrun : respond rt fuel c q t s = ODone (g, (l, st, s'))) :
  pv_policies s' = pv_policies s /\
  (forall id p, row s id = Some p -> p_Author p <> cl_Subject c -> row s' id = Some p) /\
  (forall id p, row s' id = Some p -> row s id = Some p \/ p_Author p = cl_Subject c) /\
  Forall (fun p => p_Author p = cl_Subject c) l /\
  (reviews q = true -> g <> GateNext /\ s' = s) /\
  (forall id p, target q = Some id -> row s id = Some p -> p_Author p <> cl_Subject c ->
     exists s1, respond rt fuel c q t (forget id s) = ODone (g, (l, st, s1))).
Proof.
  assert (reviews q = true -> g <> GateNext) as Hrev.
  { intros Hq ->. apply (refused_closed rt fuel c q t); [by apply review_internal|by apply Hgate|].
    unfold respond in Hrun. by destruct (InternalPolicyMiddleware _ _ _ _ _ _) as [[]| |]; simplify_eq/=. }
  unfold respond in *. destruct (InternalPolicyMiddleware _ _ _ _ _ _) as [g'| |]; simpl in *; [|done..].
  assert (g' = GateNext \/ g' <> GateNext) as [->|Hg] by (destruct g'; [by left|by right..]).
  - injection Hrun as <- Hrun. destruct (reviews q) eqn:Hq; [by destruct (Hrev eq_refl)|].
    destruct (serve_scoped _ _ _ _ _ _ Hc Hq Hwf Hfresh Hrun) as [(Hp & Hk & Hn) Ho].
    do 4 (split; [done|]). split; [done|]. intros id p Ht Hrow Ha.
    pose proof (serve_hidden c q s id p Hrow Ha Hc Hq Ht) as He. rewrite Hrun in He.
    destruct (serve c q (forget id s)) as [[l1 st1] s1]. simpl in He. exists s1. by simplify_eq.
  - assert (g = g' /\ l = [] /\ s' = s) as (Eg & El & Es).
    { destruct g'; [done|..]; injection Hrun as <- <- _ <-; done. }
    rewrite Eg, El, Es in *.
    split; [done|]. split; [done|]. split; [by left|]. split; [constructor|]. split; [done|].
    intros id p _ _ _. exists (forget id s). by destruct g'; simplify_eq.
Qed.

(** The proposals part of the embedded API with the tiers of [demo.yaml]. *)
Definition demo_review_api : Runtime :=
  let named (names : list string) (act : activation) : result cval :=
    match act !! "action" with
    | Some (VMap [(_, VString n)]) => Ok (VBool (bool_decide (n ∈ names)))
    | _ => Err (EMsg "no action")
    end in
  let policy name princ names := mkCPolicy "bouncer-internal" name Permit princ (named names)
    (mkProgram (policyEnv "bouncer-internal" ∅) true (fun _ => PRet (Ok (VBool true))))
    (mkPolicy "bouncer-internal" name "" "" "" "true" Permit) in
  let path := [mkSeg "_api" ""; mkSeg "proposals" ""] in
  mkRuntime ∅
    {[ "bouncer-internal" := mkAPIRuntime "bouncer-internal" "" 0 false ∅ ∅
         [mkCAction "proposals_create" (Some (mkTemplate "POST" path)) None [];
          mkCAction "proposals_get" (Some (mkTemplate "GET" (path ++ [mkSeg "" "id"]))) None [];
          mkCAction "proposals_approve"
            (Some (mkTemplate "POST" (path ++ [mkSeg "" "id"; mkSeg "approve" ""]))) None []]
         (mkStore [] [policy "open" (fun _ => Ok (VBool true)) ["proposals_create"; "proposals_get"];
                      policy "admin-only" admin_only ["proposals_approve"]]) ]}
    ∅ ∅ [mkRoute ["_api"] "bouncer-internal" "/_api"].

Definition demo_respond (c : Caller) (q : request) (s : PService Runtime sqliteStore) :=
  @respond demo_cel Runtime (@runtime_ops demo_cel) sqliteStore _ demo_review_api 1 c q 0 s.

Definition demo_approval : request := RApprove "p1" (BodyOk (mkApproveBody "ann" false)) 20.

(** The gate matters: the handler alone would have let bob enforce ann's policy. *)
Example bob_approves :
  (exists s', demo_respond bob demo_approval demo_created = ODone (GateDenial 403, ([], 403%Z, s'))) /\
  (demo_serve bob demo_approval demo_created).1.2 = 200%Z.
Proof. vm_compute. split; [by eexists|done]. Qed.

Lemma demo_refused : refused demo_review_api bob demo_approval 0.
Proof.
  intros name a p act m Ha Hp _ Hact Hm. unfold demo_review_api in Ha. simpl in Ha. apply lookup_singleton_Some in Ha as [_ <-]. simpl in Hp, Hact.
  apply elem_of_cons in Hp as [->|[->|Hp]%elem_of_cons]; [right|left|by apply not_elem_of_nil in Hp].
  - apply elem_of_cons in Hact as [->|[->|[->|Hact]%elem_of_cons]%elem_of_cons];
      [discriminate Hm..| |by apply not_elem_of_nil in Hact]. discriminate.
  - discriminate.
Qed.

Lemma proposals_scoped_witness :
  match demo_respond bob demo_sneaky demo_created with
  | ODone (_, (_, _, s')) => row s' "p1" = Some demo_proposal /\ p_Author <$> row s' "p2" = Some "bob"
  | _ => False
  end /\
  match demo_respond bob demo_approval demo_created with
  | ODone (g, (_, st, s')) => g <> GateNext /\ s' = demo_created /\ st = 403%Z
  | _ => False
  end.
Proof.
  pose proof (fun q => @proposals_scoped demo_cel Runtime (@runtime_ops demo_cel) sqliteStore _
    demo_review_api 1 bob q 0 demo_created) as Hall.
  assert (db_wf (pv_store demo_created)) as Hwf by (apply map_Forall_singleton; reflexivity).
  split.
  - destruct (demo_respond bob demo_sneaky demo_created) as [[g [[l st] s']]| |] eqn:Hr;
      [|vm_compute in Hr; discriminate Hr..].
    destruct (Hall demo_sneaky s' g l st eq_refl Hwf eq_refl ltac:(discriminate) Hr) as (_ & Hk & _).
    split; [apply (Hk "p1" demo_proposal); [vm_compute; reflexivity|vm_compute; discriminate]|].
    apply (f_equal (fun o => match o with ODone (_, (_, _, s)) => p_Author <$> row s "p2" | _ => None end)) in Hr.
    rewrite <- Hr. vm_compute. reflexivity.
  - destruct (demo_respond bob demo_approval demo_created) as [[g [[l st] s']]| |] eqn:Hr;
      [|vm_compute in Hr; discriminate Hr..].
    destruct (Hall demo_approval s' g l st eq_refl Hwf I (fun _ => demo_refused) Hr) as (_ & _ & _ & _ & Hv & _).
    destruct (Hv eq_refl) as [Hg Hs]. split; [exact Hg|]. split; [exact Hs|].
    apply (f_equal (fun o => match o with ODone (_, (_, st, _)) => st | _ => 0%Z end)) in Hr.
    rewrite <- Hr. vm_compute. reflexivity.
Defined.

(** ** What a redacted traffic event still says *)

(** The error text survives the redaction; [Proxy] records there the whole text
    of a failed evaluation, which the client never gets. *)
Example redacted_error_kept ev : re_Error (redactedTrafficEvent ev) = ev_Error ev.
Proof. done. Qed.
