(* ===== verification/TrafficApi.v ===== *)
(** * The traffic viewer: internal/server/admin traffic.go and the MCP tools of
    internal/server/admin/mcp traffic_tools.go

    Both read a traffic store through its interface, here the class
    [TrafficBackend], which the in-memory and the SQLite store implement.  What
    a caller who is not an admin may learn of a store is what the redacted view
    of its events says: the class [RedactedReads] states it of a store and both
    stores satisfy it. *)

From S2P Require Import Prelude GoStd GoTime Models Interfaces Traffic TrafficStore TrafficSql Url Query AdminGate AdminApi Auth.

(** ** A traffic store, as its readers see it *)

Class TrafficBackend (T : Type) := {
  tb_List : TrafficStore.ListOpts -> T -> result (list Summary * string) * T;
  tb_Get : string -> T -> result Event * T
}.

#[export] Instance memory_backend `{CursorCodec} : TrafficBackend memoryStore := {|
  tb_List o s := (TrafficStore.List_ o s, s);
  tb_Get id s := (TrafficStore.Get id s, s)
|}.

#[export] Instance sqlite_backend `{CursorCodec} `{SqlLike} : TrafficBackend trafficDB := {|
  tb_List := sqlite_List;
  tb_Get := sqlite_Get
|}.

(** Two stores that hold the same events but for what redaction hides answer a
    listing alike, and a lookup with events that redact alike. *)
Class RedactedReads (T : Type) `{TrafficBackend T} := {
  view_alike : T -> T -> Prop;
  alike_List o s t : view_alike s t -> (tb_List o s).1 = (tb_List o t).1 /\ view_alike (tb_List o s).2 (tb_List o t).2;
  alike_Get id s t : view_alike s t ->
    redactedTrafficEvent <$> (tb_Get id s).1 = redactedTrafficEvent <$> (tb_Get id t).1 /\
    view_alike (tb_Get id s).2 (tb_Get id t).2
}.

(** ** [traffic.go] *)

(** [PrincipalExtractor]: the subject a request may see, [None] for every row. *)
Definition PrincipalExtractor : Type := Caller -> option string.

Definition AnonymousPrincipal : PrincipalExtractor := fun _ => None.

Inductive traffic_answer : Type :=
  | TrafficError (status : Z) (shown : goerr)
  | TrafficPage (rows : list Summary) (next : string)
  | TrafficEvent (ev : Event).

(** [Values.Get] *)
Definition values_get (q : values) (k : string) : string :=
  match q !! k with Some (v :: _) => v | _ => "" end.

Definition optional_field {A} (q : values) (k : string) (unset : A) (parse : string -> option A) (msg : string) : result A :=
  let s := values_get q k in
  if decide (s = "") then Ok unset
  else match parse s with Some a => Ok a | None => Err (EMsg msg) end.

Definition parseListOpts (u : URL) : result TrafficStore.ListOpts :=
  let q := URL_Query u in
  let apis := default [] (q !! "api") in
  limit ← optional_field q "limit" 0%Z Atoi "limit: not an integer";
  since ← optional_field q "since" zero_time parse_RFC3339 "since: expected RFC3339 timestamp";
  until ← optional_field q "until" zero_time parse_RFC3339 "until: expected RFC3339 timestamp";
  Ok (TrafficStore.mkListOpts (match apis with [a] => a | _ => "" end)
        (match apis with _ :: _ :: _ => apis | _ => [] end)
        (values_get q "action") (values_get q "method") (values_get q "decision") (values_get q "path_prefix")
        since until None limit (values_get q "cursor")).

Definition with_subject (sub : option string) (o : TrafficStore.ListOpts) : TrafficStore.ListOpts :=
  TrafficStore.mkListOpts (lo_API o) (lo_APIs o) (lo_Action o) (lo_Method o) (lo_Decision o) (lo_PathPrefix o)
    (lo_Since o) (lo_Until o) sub (lo_Limit o) (lo_Cursor o).

(** [writeMappedError] with the two tables of this file. *)
Definition mapped_answer (e : goerr) (sentinel : string) (st : Z) (msg : string) : traffic_answer :=
  let code := writeMappedError e [(sentinel, st)] in
  TrafficError code (EMsg (if errors_is e sentinel then msg else "server error")).

Section handlers.
Context `{TrafficBackend T}.

Definition listHandler (principal : PrincipalExtractor) (c : Caller) (u : URL) (s : T) : traffic_answer * T :=
match parseListOpts u with
| Err e => (TrafficError 400 e, s)
| Ok opts =>
    match tb_List (with_subject (principal c) opts) s with
    | (Err e, s) => (mapped_answer e "traffic.ErrBadCursor" 400 "bad cursor", s)
    | (Ok (rows, next), s) => (TrafficPage rows next, s)
    end
end.

Definition getHandler (principal : PrincipalExtractor) (c : Caller) (id : string) (s : T) : traffic_answer * T :=
match tb_Get id s with
| (Err e, s) => (mapped_answer e "traffic.ErrNotFound" 404 "not found", s)
| (Ok ev, s) =>
    (match principal c with
     | Some sub => if decide (ev_Subject ev = sub) then TrafficEvent ev else TrafficError 404 (EMsg "not found")
     | None => TrafficEvent ev
     end, s)
end.

(** ** [traffic_tools.go]

    The result of a tool: an error of the JSON-RPC layer, of which the client
    is shown the message, or a value. *)

Inductive traffic_result : Type :=
  | TrafficFailed (code : Z) (shown : goerr)
  | TrafficRows (rows : list Summary)
  | TrafficFull (ev : Event)
  | TrafficRedacted (ev : redactedEvent).

Record listTrafficArgs := mkListTrafficArgs {
  lt_API : string; lt_Action : string; lt_Method : string; lt_Decision : string; lt_PathPrefix : string; lt_Limit : Z
}.

Definition tool_opts (a : listTrafficArgs) : TrafficStore.ListOpts :=
TrafficStore.mkListOpts (lt_API a) [] (lt_Action a) (lt_Method a) (lt_Decision a) (lt_PathPrefix a)
  zero_time zero_time None (lt_Limit a) "".

Definition no_store : traffic_result := TrafficFailed codeMethodNotFound (EMsg "this deployment has no traffic store configured").

(** The store is [None] when the deployment records no traffic; arguments are
    an error when they do not decode. *)
Definition runListTraffic (args : result listTrafficArgs) (s : option T) : traffic_result * option T :=
match s with
| None => (no_store, s)
| Some s =>
    match args with
    | Err e => (TrafficFailed codeInvalidParams (EWrap "decode" e), Some s)
    | Ok a =>
        match tb_List (tool_opts a) s with
        | (Err e, s) => (TrafficFailed codeInternalError (EWrap "list traffic" e), Some s)
        | (Ok (rows, _), s) => (TrafficRows rows, Some s)
        end
    end
end.

Definition mapTrafficError (e : goerr) : traffic_result :=
if errors_is e "traffic.ErrNotFound" then TrafficFailed codeInvalidParams (EMsg "traffic event not found")
else TrafficFailed codeInternalError e.

Definition runGetTrafficEvent (c : Caller) (args : result string) (s : option T) : traffic_result * option T :=
match s with
| None => (no_store, s)
| Some s =>
    match args with
    | Err e => (TrafficFailed codeInvalidParams (EWrap "decode" e), Some s)
    | Ok id =>
        if decide (id = "") then (TrafficFailed codeInvalidParams (EMsg "id is required"), Some s)
        else
          match tb_Get id s with
          | (Err e, s) => (mapTrafficError e, Some s)
          | (Ok ev, s) => (if IsAdmin c then TrafficFull ev else TrafficRedacted (redactedTrafficEvent ev), Some s)
          end
    end
end.
End handlers.

(** ** What redaction leaves *)

(** An event without what the redacted view hides. *)
Definition erase (ev : Event) : Event :=
  mkEvent (ev_ID ev) (ev_Timestamp ev) (ev_Subject ev) (ev_Method ev) (ev_URL ev) [] "" (ev_API ev) (ev_Action ev)
    [] [] (ev_Decision ev) (ev_Policy ev) [] (ev_UpstreamStatus ev) [] "" (ev_LatencyMS ev) (ev_Error ev) false.

Lemma redacted_erase a b : redactedTrafficEvent a = redactedTrafficEvent b <-> erase a = erase b.
Proof. unfold redactedTrafficEvent, erase. split; intros E; injection E; intros; by f_equal. Qed.

Lemma match_erase o ev : match_event o (erase ev) = match_event o ev.
Proof. done. Qed.

Lemma summary_erase ev : summary (erase ev) = summary ev.
Proof. done. Qed.

Lemma StronglySorted_map {A B} (f : A -> B) (R : A -> A -> Prop) (R' : B -> B -> Prop) l :
  (forall x y, R x y -> R' (f x) (f y)) -> StronglySorted R l -> StronglySorted R' (map f l).
Proof.
  intros Hf. induction 1 as [|x l _ IH Hx]; simpl; constructor; [done|]. apply Forall_map.
  eapply Forall_impl; [exact Hx|]. intros y. apply Hf.
Qed.

Lemma map_filter_erase {A B} (f : A -> B) (p : A -> bool) (p' : B -> bool) l :
  (forall x, p' (f x) = p x) -> map f (List.filter p l) = List.filter p' (map f l).
Proof. intros Hp. induction l as [|x l IH]; [done|]. simpl. rewrite Hp. destruct (p x); simpl; by rewrite IH. Qed.

(** Lists of keyed things that agree key by key after [f] are permutations of
    one another after [f]. *)
Lemma keyed_perm {A B K} (f : A -> B) (key : B -> K) (l l' : list A) :
  NoDup (map (key ∘ f) l) -> NoDup (map (key ∘ f) l') ->
  (forall b, b ∈ map f l <-> b ∈ map f l') -> map f l ≡ₚ map f l'.
Proof.
  intros Hl Hl' Hb. apply NoDup_Permutation; [..|done]; apply (NoDup_fmap_1 key).
  - change (NoDup (map key (map f l))). by rewrite map_map.
  - change (NoDup (map key (map f l'))). by rewrite map_map.
Qed.

(** *** The in-memory store *)

Definition alike_memory (s t : memoryStore) : Prop :=
  mem_inv s /\ mem_inv t /\ forall id, (erase ∘ el_ev) <$> ms_byID s !! id = (erase ∘ el_ev) <$> ms_byID t !! id.

Lemma alike_sym s t : alike_memory s t -> alike_memory t s.
Proof. intros (Hs & Ht & He). done. Qed.

Lemma alike_events_sub s t ev : alike_memory s t -> ev ∈ map erase (events s) -> ev ∈ map erase (events t).
Proof.
  intros (Hs & Ht & He) (e0 & -> & (e & -> & Hin)%list_elem_of_fmap)%list_elem_of_fmap.
  assert (ms_byID s !! el_id e = Some e) as E by by apply (mi_byID _ Hs).
  specialize (He (el_id e)). rewrite E in He. destruct (ms_byID t !! el_id e) as [e'|] eqn:E'; [|done].
  apply (inj Some) in He. unfold compose in He. rewrite He. apply (mi_byID _ Ht) in E' as [E' _].
  apply list_elem_of_fmap. exists (el_ev e'). split; [done|]. by apply list_elem_of_fmap_2.
Qed.

Lemma alike_events s t : alike_memory s t -> map erase (events s) ≡ₚ map erase (events t).
Proof.
  intros Ha. pose proof Ha as (Hs & Ht & _). unfold events. apply (keyed_perm _ ev_ID).
  - rewrite map_map. apply (mi_ids _ Hs).
  - rewrite map_map. apply (mi_ids _ Ht).
  - intros ev. split; apply alike_events_sub; [done|by apply alike_sym].
Qed.

Lemma alike_listing o s t : alike_memory s t -> map erase (listing o s) = map erase (listing o t).
Proof.
  intros Ha. pose proof Ha as (Hs & Ht & _).
  assert (forall s, mem_inv s -> strictly_newest_first (map erase (listing o s))) as Hso.
  { intros r Hr. eapply StronglySorted_map; [|apply listing_strict; unfold events; rewrite map_map; apply (mi_ids _ Hr)].
    done. }
  apply strictly_unique; [by apply Hso..|].
  rewrite !(Permutation_map erase (listing_perm _ _)), !(map_filter_erase erase _ (match_event o)) by apply match_erase.
  by rewrite (alike_events _ _ Ha).
Qed.

Lemma resume_map ts id l : map erase (resume ts id l) = resume ts id (map erase l).
Proof.
  induction l as [|x l IH]; [done|]. simpl. destruct (decide (older ts id x)) as [H|H].
  - by rewrite decide_True.
  - by rewrite decide_False.
Qed.

Lemma map_eq_length {A B} (f : A -> B) l l' : map f l = map f l' -> length l = length l'.
Proof. intros E. by rewrite <- (length_map f l), E, length_map. Qed.

Lemma List_alike `{CursorCodec} o s t : alike_memory s t -> TrafficStore.List_ o s = TrafficStore.List_ o t.
Proof.
  intros Ha. unfold TrafficStore.List_. destruct (DecodeCursor (lo_Cursor o)) as [[ts id]|e]; [|done]. simpl.
  fold (listing o s) (listing o t).
  set (M := if decide (id = "") then listing o s else _). set (N := if decide (id = "") then listing o t else _).
  assert (map erase M = map erase N) as E.
  { unfold M, N. destruct (decide (id = "")); [by apply alike_listing|]. rewrite !resume_map. by rewrite (alike_listing o s t). }
  pose proof (map_eq_length _ _ _ E) as El. rewrite El. set (n := Z.to_nat _). clearbody M N.
  assert (map erase (take n M) = map erase (take n N)) as Et by by rewrite <- !take_map, E.
  assert (forall l l', map erase l = map erase l' -> map summary l = map summary l') as Hs.
  { assert (forall l, map summary l = map summary (map erase l)) as Hm by (intros l; by rewrite map_map).
    intros l l' Hl. by rewrite (Hm l), (Hm l'), Hl. }
  case_bool_decide; [|by rewrite (Hs M N)]. rewrite (Hs _ _ Et).
  apply (f_equal last) in Et. rewrite !last_map in Et.
  destruct (last (take n M)) as [a|], (last (take n N)) as [b|]; try done.
  apply (inj Some) in Et. unfold erase in Et. by injection Et as -> ->.
Qed.

#[export, refine] Instance memory_redacted `{CursorCodec} : RedactedReads memoryStore := {| view_alike := alike_memory |}.
Proof.
  - intros o s t Ha. split; [by apply List_alike|done].
  - intros id s t Ha. split; [|done]. simpl. unfold TrafficStore.Get. destruct Ha as (_ & _ & He). specialize (He id).
    destruct (ms_byID s !! id), (ms_byID t !! id); try done. apply (inj Some) in He.
    simpl. f_equal. by apply redacted_erase.
Defined.

(** *** The database *)

Definition erase_row (r : event_row) : event_row := mkRow (r_ts r) 0 (erase (r_ev r)).

Definition erase_entry (x : row) : row := (x.1, erase_row x.2).

Definition alike_sql (d d' : trafficDB) : Prop :=
  td_faults d = td_faults d' /\ forall id, erase_row <$> td_rows d !! id = erase_row <$> td_rows d' !! id.

Lemma alike_rows_sub (m m' : event_table) x :
  (forall id, erase_row <$> m !! id = erase_row <$> m' !! id) ->
  x ∈ map erase_entry (map_to_list m) -> x ∈ map erase_entry (map_to_list m').
Proof.
  intros He ([id r] & -> & Hr%elem_of_map_to_list)%list_elem_of_fmap. specialize (He id). rewrite Hr in He.
  destruct (m' !! id) as [r'|] eqn:E'; [|done]. apply (inj Some) in He. unfold erase_entry. simpl. rewrite He.
  apply list_elem_of_fmap. exists (id, r'). split; [done|]. by apply elem_of_map_to_list.
Qed.

Lemma alike_rows (m m' : event_table) :
  (forall id, erase_row <$> m !! id = erase_row <$> m' !! id) ->
  map erase_entry (map_to_list m) ≡ₚ map erase_entry (map_to_list m').
Proof.
  intros He. apply (keyed_perm _ (fst : row -> string)); [apply NoDup_fst_map_to_list..|].
  intros x. by split; apply alike_rows_sub.
Qed.

(** Two sorted lists of rows with distinct identifiers are equal when they are
    permutations of one another. *)
Lemma row_ge_unique (l l' : list row) :
  NoDup (map fst l) -> StronglySorted row_ge l -> StronglySorted row_ge l' -> l ≡ₚ l' -> l = l'.
Proof.
  intros Hn Hl Hl' Hp. eapply StronglySorted_unique_strong; [|exact Hl|exact Hl'|exact Hp].
  intros x y Hx Hy Hxy Hyx. rewrite <- Hp in Hy.
  assert (x.1 = y.1) as E by (pose proof (anti_symm row_le _ _ Hxy Hyx) as E; by injection E).
  clear - Hn Hx Hy E. induction l as [|z l IH]; [by apply not_elem_of_nil in Hx|].
  simpl in Hn. apply NoDup_cons in Hn as [Hz Hn]. apply elem_of_cons in Hx as [->|Hx], Hy as [->|Hy]; [done|..|by apply IH].
  - destruct Hz. rewrite E. by apply list_elem_of_fmap_2.
  - destruct Hz. rewrite <- E. by apply list_elem_of_fmap_2.
Qed.

Section sqlite_alike.
Context `{CursorCodec} `{SqlLike}.

Lemma where_erase o ts id x : where_clause o ts id (erase_entry x) = where_clause o ts id x.
Proof. done. Qed.

Lemma select_alike o ts id n (m m' : event_table) :
(forall i, erase_row <$> m !! i = erase_row <$> m' !! i) ->
map erase_entry (select o ts id n m) = map erase_entry (select o ts id n m').
Proof.
intros He. unfold select. rewrite <- !take_map. f_equal.
assert (forall k : event_table, StronglySorted row_ge
  (map erase_entry (merge_sort row_ge (List.filter (where_clause o ts id) (map_to_list k))))) as Hs.
{ intros k. eapply StronglySorted_map; [|apply StronglySorted_merge_sort; apply _]. done. }
apply row_ge_unique; [|apply Hs..|].
- rewrite map_map. rewrite (Permutation_map (fun x : row => (erase_entry x).1) (merge_sort_Permutation row_ge _)).
  apply (NoDup_map_filter fst), NoDup_fst_map_to_list.
- rewrite !(Permutation_map erase_entry (merge_sort_Permutation row_ge _)).
  rewrite !(map_filter_erase erase_entry _ (where_clause o ts id)) by apply where_erase.
  by rewrite (alike_rows m m' He).
Qed.

Lemma sqlite_List_alike o d d' :
alike_sql d d' -> (sqlite_List o d).1 = (sqlite_List o d').1 /\ alike_sql (sqlite_List o d).2 (sqlite_List o d').2.
Proof.
intros [Hf He]. unfold sqlite_List. destruct (DecodeCursor (lo_Cursor o)) as [[ts id]|e]; [|done].
rewrite Hf. destruct (pop (td_faults d')) as [[] fs]; [done|]. destruct (pop fs) as [[] fs2]; [done|].
split; [|done]. cbn [td_rows fst].
assert (forall l, map scan_row l = map scan_row (map erase_entry l)) as Hm by (intros l; by rewrite map_map).
by rewrite (Hm (select _ _ _ _ (td_rows d))), (select_alike _ _ _ _ _ _ He), <- Hm.
Qed.

Lemma sqlite_Get_alike id d d' :
alike_sql d d' ->
redactedTrafficEvent <$> (sqlite_Get id d).1 = redactedTrafficEvent <$> (sqlite_Get id d').1 /\
alike_sql (sqlite_Get id d).2 (sqlite_Get id d').2.
Proof.
intros [Hf He]. unfold sqlite_Get. rewrite Hf. destruct (pop (td_faults d')) as [[] fs]; [done|].
split; [|done]. simpl. specialize (He id).
destruct (td_rows d !! id), (td_rows d' !! id); try done. apply (inj Some) in He. simpl. f_equal.
apply redacted_erase. by apply (f_equal r_ev) in He.
Qed.
End sqlite_alike.

#[export] Instance sqlite_redacted `{CursorCodec} `{SqlLike} : RedactedReads trafficDB := {|
  view_alike := alike_sql; alike_List := sqlite_List_alike; alike_Get := sqlite_Get_alike
|}.

(** ** What a listing shows *)

Lemma optional_field_inv {A} q k (unset : A) parse msg a :
  optional_field q k unset parse msg = Ok a ->
  (values_get q k = "" /\ a = unset) \/ (values_get q k <> "" /\ parse (values_get q k) = Some a).
Proof.
  unfold optional_field. case_decide; [intros [= <-]; by left|].
  destruct (parse _) eqn:E; [intros [= <-]; by right|done].
Qed.

Lemma parseListOpts_inv u o :
  parseListOpts u = Ok o ->
  let q := URL_Query u in
  optional_field q "limit" 0%Z Atoi "limit: not an integer" = Ok (lo_Limit o) /\
  optional_field q "since" zero_time parse_RFC3339 "since: expected RFC3339 timestamp" = Ok (lo_Since o) /\
  optional_field q "until" zero_time parse_RFC3339 "until: expected RFC3339 timestamp" = Ok (lo_Until o) /\
  lo_Action o = values_get q "action" /\ lo_Method o = values_get q "method" /\
  lo_Decision o = values_get q "decision" /\ lo_PathPrefix o = values_get q "path_prefix" /\
  (forall apis, q !! "api" = Some apis -> apis <> [""] ->
     forall api, (if bool_decide (0 < length (lo_APIs o)) then bool_decide (api ∈ lo_APIs o)
                  else unset_or (lo_API o) api) = true -> apis = [] \/ api ∈ apis).
Proof.
  cbn zeta. unfold parseListOpts. intros (limit & Hl & H)%bind_ok. apply bind_ok in H as (since & Hs & H).
  apply bind_ok in H as (until & Hu & [= <-]). simpl. repeat split; try done.
  intros apis -> Hne api. simpl. destruct apis as [|a [|b apis]]; simpl; [by left| |].
  - unfold unset_or. intros [Ha%bool_decide_eq_true|Ha%bool_decide_eq_true]%orb_true_iff; [congruence|].
    right. subst. left.
  - rewrite bool_decide_eq_true. by right.
Qed.

Lemma unset_or_true want have : unset_or want have = true <-> want = "" \/ have = want.
Proof. unfold unset_or. by rewrite orb_true_iff, !bool_decide_eq_true. Qed.

(** What every row of a page satisfies. *)
Definition row_as_asked (principal : option string) (q : values) (su : Summary) : Prop :=
  (forall k f, (k, f) ∈ [("action", su_Action su); ("method", su_Method su); ("decision", su_Decision su)] ->
     values_get q k = "" \/ f = values_get q k) /\
  (forall apis, q !! "api" = Some apis -> apis <> [""] -> apis = [] \/ su_API su ∈ apis) /\
  (values_get q "path_prefix" = "" \/ has_prefix (values_get q "path_prefix") (su_URL su) = true) /\
  (values_get q "since" = "" \/ exists t, parse_RFC3339 (values_get q "since") = Some t /\ (t = zero_time \/ t <= su_Timestamp su)%Z) /\
  (values_get q "until" = "" \/ exists t, parse_RFC3339 (values_get q "until") = Some t /\ (t = zero_time \/ su_Timestamp su <= t)%Z) /\
  (forall sub, principal = Some sub -> su_Subject su = sub).

Lemma match_as_asked u o principal ev :
  parseListOpts u = Ok o -> match_event (with_subject principal o) ev = true ->
  row_as_asked principal (URL_Query u) (summary ev).
Proof.
  intros Ho. destruct (parseListOpts_inv _ _ Ho) as (_ & Hs & Hu & Ea & Em & Ed & Ep & Hapi).
  unfold match_event. rewrite !andb_true_iff, !orb_true_iff, !unset_or_true, !bool_decide_eq_true. simpl.
  rewrite Ea, Em, Ed, Ep. intros (((((((Hap & Hact) & Hm) & Hd) & Hp) & Hsi) & Hun) & Hsub). split; [|split].
  - intros k f. rewrite !elem_of_cons, elem_of_nil. by intros [[= -> ->]|[[= -> ->]|[[= -> ->]|[]]]].
  - intros apis Hq Hne. by apply Hapi.
  - split; [done|]. split; [|split].
    + apply optional_field_inv in Hs as [[E _]|[_ E]]; [by left|right]. eauto.
    + apply optional_field_inv in Hu as [[E _]|[_ E]]; [by left|right]. eauto.
    + intros sub ->. by apply bool_decide_eq_true in Hsub.
Qed.

Lemma elem_of_take_sub {A} n (l : list A) x : x ∈ take n l -> x ∈ l.
Proof. intros H. rewrite <- (take_drop n l). apply elem_of_app. by left. Qed.

Lemma elem_of_resume ts id l ev : ev ∈ resume ts id l -> ev ∈ l.
Proof.
  induction l as [|x l IH]; [done|]. simpl. destruct (decide (older ts id x)); [done|].
  intros Hev. right. by apply IH.
Qed.

Lemma List_rows `{CursorCodec} o s rows next :
  TrafficStore.List_ o s = Ok (rows, next) ->
  (Z.of_nat (length rows) <= ClampLimit (lo_Limit o))%Z /\
  Forall (fun su => exists ev, ev ∈ events s /\ match_event o ev = true /\ su = summary ev) rows.
Proof.
  unfold TrafficStore.List_. intros ([ts id] & _ & H0)%bind_ok. simpl in H0. fold (listing o s) in H0.
  set (M := if decide (id = "") then listing o s else _) in H0.
  assert (forall ev, ev ∈ M -> ev ∈ events s /\ match_event o ev = true) as HM.
  { intros ev Hev. assert (ev ∈ listing o s) as Hl.
    { unfold M in Hev. destruct (decide (id = "")); [done|]. by apply elem_of_resume in Hev. }
    rewrite listing_perm in Hl. by apply elem_of_filter_b in Hl as [? ?]. }
  assert (0 <= ClampLimit (lo_Limit o))%Z as Hc.
  { unfold ClampLimit, DefaultListLimit, MaxListLimit. repeat case_bool_decide; lia. }
  injection H0 as <- _. rewrite length_map. split.
  - case_bool_decide; [rewrite length_take|]; lia.
  - apply Forall_map, Forall_forall. intros ev Hev. exists ev.
    assert (ev ∈ M) as Hin by (revert Hev; case_bool_decide; [apply elem_of_take_sub|done]).
    by destruct (HM ev Hin).
Qed.

Lemma writeMappedError_at_least e sentinel st :
  (400 <= st)%Z -> (400 <= writeMappedError e [(sentinel, st)])%Z.
Proof. intros Hst. unfold writeMappedError. simpl. repeat case_match; lia. Qed.

(** A page of the traffic viewer holds what the query asks for.  Whatever
    the query string, a listing answered with rows shows at most a thousand,
    each the summary of a recorded event that passes every filter the parsed
    query carries and belongs to the subject the principal may see; a limit or
    an instant that does not parse is answered with status 400, and so is a
    cursor that does not decode. *)
Theorem traffic_listing_as_asked `{CursorCodec} (principal : PrincipalExtractor) (c : Caller) (u : URL) (s : memoryStore) :
  (listHandler principal c u s).2 = s /\
  match (listHandler principal c u s).1 with
  | TrafficPage rows next =>
      length rows <= 1000 /\
      Forall (fun su => (exists ev, ev ∈ events s /\ su = summary ev) /\
                        row_as_asked (principal c) (URL_Query u) su) rows
  | TrafficError st _ => st = 400%Z
  | TrafficEvent _ => False
  end.
Proof.
  unfold listHandler. destruct (parseListOpts u) as [o|e] eqn:Ho; [|done]. simpl.
  destruct (TrafficStore.List_ _ s) as [[rows next]|e] eqn:Hl; simpl; (split; [done|]).
  - apply List_rows in Hl as [Hn Hr]. split.
    + unfold ClampLimit, DefaultListLimit, MaxListLimit in Hn. repeat case_bool_decide; lia.
    + eapply Forall_impl; [exact Hr|]. intros su (ev & Hev & Hm & ->). split; [eauto|]. by apply (match_as_asked u o).
  - unfold TrafficStore.List_, DecodeCursor in Hl. destruct (decide _); [done|].
    destruct (decode_payload _) as [[ts id]|]; [done|]. by injection Hl as <-.
Qed.
