(* ===== verification/Mitm.v ===== *)
(** * TLS interception: internal/server/mitm ca.go, mitm.go

    A CONNECT is answered with a tunnel behind a certificate issued on the fly
    for the name the client asks for.  crypto/x509, crypto/rand and PEM are the
    class [X509], the LRU cache of leaves is [LRU]; clocks and entropy are
    arguments, and so is what the client and the kernel do.  The theorem: the
    certificate a tunnel presents is one this CA signed for that name alone,
    and it is not about to expire. *)

From S2P Require Import Prelude GoStd.

(** ** Certificates *)

(** The fields of [x509.Certificate] the code sets or reads; instants in
    nanoseconds. *)
Record Certificate := mkCertificate {
  crt_SerialNumber : Z;
  crt_CommonName : string;
  crt_NotBefore : Z;
  crt_NotAfter : Z;
  crt_CertSign : bool;
  crt_DigitalSignature : bool;
  crt_ServerAuth : bool;
  crt_IsCA : bool;
  crt_BasicConstraintsValid : bool;
  crt_DNSNames : list string;
  crt_IPAddresses : list string
}.

Definition second : Z := 1000000000.
Definition minute : Z := 60 * second.
Definition hour : Z := 60 * minute.

(** What the DER form keeps of an instant. *)
Definition whole_seconds (t : Z) : Z := (t / second * second)%Z.

Definition encoded (c : Certificate) : Certificate :=
  mkCertificate (crt_SerialNumber c) (crt_CommonName c) (whole_seconds (crt_NotBefore c))
    (whole_seconds (crt_NotAfter c)) (crt_CertSign c) (crt_DigitalSignature c) (crt_ServerAuth c)
    (crt_IsCA c) (crt_BasicConstraintsValid c) (crt_DNSNames c) (crt_IPAddresses c).

(** Keys and DER are opaque strings. *)
Class X509 := {
  pem_decode : string -> option (string * string);
  parse_certificate : string -> result Certificate;
  parse_pkcs8 : string -> result string;
  parse_pkcs1 : string -> result string;
  parse_ec : string -> result string;
  generate_p256 : string -> result string;
  random_serial : string -> result Z;
  public_key : string -> string;
  create_certificate (tmpl : Certificate) (parent_der pub signer : string) : result string;
  parse_ip : string -> option string
}.

(** A created certificate parses to its template, to the second. *)
Class X509Laws `{X509} :=
  created_parses tmpl parent pub signer der :
    create_certificate tmpl parent pub signer = Ok der -> parse_certificate der = Ok (encoded tmpl).

Record tlsCertificate := mkTLS {
  tls_Certificate : list string;
  tls_PrivateKey : string;
  tls_Leaf : option Certificate
}.

Record cacheEntry := mkEntry { ce_leaf : tlsCertificate; ce_notAfter : Z }.

Definition result_to_option {A} (r : result A) : option A := match r with Ok a => Some a | Err _ => None end.

(** hashicorp/golang-lru *)
Class LRU := {
  lru : Type;
  lru_new : nat -> lru;
  lru_Get : string -> lru -> option cacheEntry * lru;
  lru_Add : string -> cacheEntry -> lru -> lru
}.

(** What is cached is what was added under that key; a lookup moves an entry to
    the front, an addition may evict others, and the capacity is never passed. *)
Class LRULaws `{LRU} := {
  lru_contents : lru -> gmap string cacheEntry;
  lru_capacity : lru -> nat;
  lru_new_spec n : lru_contents (lru_new n) = ∅ /\ lru_capacity (lru_new n) = n;
  lru_Get_spec k c :
    (lru_Get k c).1 = lru_contents c !! k /\ lru_contents (lru_Get k c).2 = lru_contents c /\
    lru_capacity (lru_Get k c).2 = lru_capacity c;
  lru_Add_spec k e c :
    lru_contents (lru_Add k e c) ⊆ <[k := e]> (lru_contents c) /\
    size (lru_contents (lru_Add k e c)) <= lru_capacity c /\
    lru_capacity (lru_Add k e c) = lru_capacity c
}.

Definition DefaultMaxCacheSize : nat := 1024.
Definition DefaultExpiryMargin : Z := 5 * minute.

Section ca.
Context `{X509} `{LRU}.

Record CA := mkCA {
  ca_cert : Certificate;
  ca_certDER : string;
  ca_key : string;
  ca_LeafTTL : Z;
  ca_ExpiryMargin : Z;
  ca_cache : lru
}.

Definition with_cache (ca : CA) (c : lru) : CA :=
  mkCA (ca_cert ca) (ca_certDER ca) (ca_key ca) (ca_LeafTTL ca) (ca_ExpiryMargin ca) c.

Definition parsePrivateKey (block : string * string) : result string :=
  let '(kind, bytes) := block in
  if decide (kind = "PRIVATE KEY") then parse_pkcs8 bytes
  else if decide (kind = "RSA PRIVATE KEY") then parse_pkcs1 bytes
  else if decide (kind = "EC PRIVATE KEY") then parse_ec bytes
  else Err (EMsg "unsupported PEM type").

Definition CAFromPEM (certPEM keyPEM : string) : result CA :=
  match pem_decode certPEM with
  | Some ("CERTIFICATE", der) =>
      match parse_certificate der with
      | Err e => Err (EWrap "mitm: parse ca cert" e)
      | Ok cert =>
          if negb (crt_IsCA cert) || negb (crt_CertSign cert)
          then Err (EMsg "mitm: ca cert lacks IsCA / KeyUsageCertSign")
          else
            match pem_decode keyPEM with
            | None => Err (EMsg "mitm: ca key PEM empty")
            | Some block =>
                match parsePrivateKey block with
                | Err e => Err (EWrap "mitm: parse ca key" e)
                | Ok key => Ok (mkCA cert der key (24 * hour) DefaultExpiryMargin (lru_new DefaultMaxCacheSize))
                end
            end
      end
  | _ => Err (EMsg "mitm: ca cert PEM missing or not CERTIFICATE")
  end.

Definition effectiveMargin (ca : CA) : Z :=
  if bool_decide (0 < ca_ExpiryMargin ca)%Z then ca_ExpiryMargin ca else DefaultExpiryMargin.

(** The template of a leaf for [host]. *)
Definition leaf_template (host : string) (serial now ttl : Z) : Certificate :=
  let '(names, ips) := match parse_ip host with Some ip => ([], [ip]) | None => ([host], []) end in
  mkCertificate serial host (now - minute) (now + ttl) false true true false true names ips.

Definition issueLeaf (host : string) (entropy : string) (now : Z) (ca : CA) : result (tlsCertificate * Z) :=
  match generate_p256 entropy with
  | Err e => Err (EWrap "mitm: leaf keygen" e)
  | Ok leafKey =>
      match random_serial entropy with
      | Err e => Err (EWrap "mitm: leaf serial" e)
      | Ok serial =>
          let notAfter := (now + ca_LeafTTL ca)%Z in
          match create_certificate (leaf_template host serial now (ca_LeafTTL ca)) (ca_certDER ca)
                  (public_key leafKey) (ca_key ca) with
          | Err e => Err (EWrap "mitm: leaf sign" e)
          | Ok der => Ok (mkTLS [der; ca_certDER ca] leafKey (result_to_option (parse_certificate der)), notAfter)
          end
      end
  end.

(** The clock is read at the lookup, and again when a leaf is issued. *)
Definition leafFor (host : string) (now issued : Z) (entropy : string) (ca : CA) : result tlsCertificate * CA :=
  let '(hit, cache) := lru_Get host (ca_cache ca) in
  let ca := with_cache ca cache in
  let issue :=
    match issueLeaf host entropy issued ca with
    | Err e => (Err e, ca)
    | Ok (leaf, notAfter) => (Ok leaf, with_cache ca (lru_Add host (mkEntry leaf notAfter) (ca_cache ca)))
    end in
  match hit with
  | Some e => if bool_decide (now + effectiveMargin ca < ce_notAfter e)%Z then (Ok (ce_leaf e), ca) else issue
  | None => issue
  end.

(** ** CONNECT *)

(** The index of the first and of the last occurrence of a byte. *)
Fixpoint index_byte (c : ascii) (s : string) : option nat :=
  match s with
  | EmptyString => None
  | String a s => if decide (a = c) then Some 0 else S <$> index_byte c s
  end.

Fixpoint last_index_byte (c : ascii) (s : string) : option nat :=
  match s with
  | EmptyString => None
  | String a s =>
      match last_index_byte c s with
      | Some i => Some (S i)
      | None => if decide (a = c) then Some 0 else None
      end
  end.

Definition str_from (n : nat) (s : string) : string := String.substring n (String.length s) s.

(** [net.SplitHostPort] *)
Definition SplitHostPort (hp : string) : result (string * string) :=
  match last_index_byte ":" hp with
  | None => Err (EMsg "missing port in address")
  | Some i =>
      let split host j k :=
        if has_byte "[" (str_from j hp) then Err (EMsg "unexpected '[' in address")
        else if has_byte "]" (str_from k hp) then Err (EMsg "unexpected ']' in address")
        else Ok (host, str_from (S i) hp) in
      if decide (String.get 0 hp = Some "["%char) then
        match index_byte "]" hp with
        | None => Err (EMsg "missing ']' in address")
        | Some e =>
            if decide (S e = String.length hp) then Err (EMsg "missing port in address")
            else if decide (S e = i) then split (String.substring 1 (e - 1) hp) 1 (S e)
            else if decide (String.get (S e) hp = Some ":"%char) then Err (EMsg "too many colons in address")
            else Err (EMsg "missing port in address")
        end
      else
        let host := String.substring 0 i hp in
        if has_byte ":" host then Err (EMsg "too many colons in address") else split host 0 0
  end.

(** One CONNECT: what the client asked for, what became of each step, and what
    the clock said at the leaf's lookup, at its issue and after the handshake. *)
Record connectEnv := mkConnect {
  cn_ProtoMajor : Z;
  cn_URLHost : string;
  cn_hijacker : bool;
  cn_hijacked : bool;
  cn_ack_written : bool;
  cn_ack_flushed : bool;
  cn_ServerName : option string;
  cn_handshake : bool;
  cn_now : Z;
  cn_issued : Z;
  cn_until : Z;
  cn_entropy : string
}.

(** A reply before the connection is taken over, a connection dropped at some
    stage, or a tunnel with its certificate and the instant it is closed at. *)
Inductive connectResult :=
  | Replied (status : Z) (msg : string)
  | Dropped (stage : string)
  | Tunnelled (leaf : tlsCertificate) (closes : option Z).

(** The instant of [time.Time{}]. *)
Definition zero_instant : Z := -62135596800 * second.

(** [IsZero], then the timer unless nothing remains. *)
Definition tunnel_closes (leaf : tlsCertificate) (now : Z) (ca : CA) : option Z :=
  match tls_Leaf leaf with
  | None => None
  | Some c =>
      if decide (crt_NotAfter c = zero_instant) then None
      else
        let remaining := (crt_NotAfter c - effectiveMargin ca - now)%Z in
        if bool_decide (0 < remaining)%Z then Some (now + remaining)%Z else None
  end.

(** The name in the certificate: the SNI, or else the CONNECT host.  A client
    that sends no hello at all ends the handshake. *)
Definition serveConnect (env : connectEnv) (ca : CA) : connectResult * CA :=
  if negb (bool_decide (cn_ProtoMajor env = 1%Z))
  then (Replied 505 "MITM proxy requires HTTP/1.1 for CONNECT", ca)
  else
    match SplitHostPort (cn_URLHost env) with
    | Err _ => (Replied 400 "bad CONNECT target", ca)
    | Ok (host, _) =>
        if negb (cn_hijacker env) then (Replied 500 "hijack unsupported", ca)
        else if negb (cn_hijacked env) then (Replied 500 "hijack failed", ca)
        else if negb (cn_ack_written env) then (Dropped "ack write", ca)
        else if negb (cn_ack_flushed env) then (Dropped "ack flush", ca)
        else
          match cn_ServerName env with
          | None => (Dropped "tls handshake", ca)
          | Some sni =>
              let name := if decide (sni = "") then host else sni in
              match leafFor name (cn_now env) (cn_issued env) (cn_entropy env) ca with
              | (Err _, ca) => (Dropped "tls handshake", ca)
              | (Ok leaf, ca) =>
                  if negb (cn_handshake env) then (Dropped "tls handshake", ca)
                  else (Tunnelled leaf (tunnel_closes leaf (cn_until env) ca), ca)
              end
          end
    end.

(** [ServeHTTP]: [None] for a request the inner handler serves. *)
Definition ServeHTTP (method : string) (env : connectEnv) (ca : CA) : option connectResult * CA :=
  if decide (method = "CONNECT") then let '(r, ca) := serveConnect env ca in (Some r, ca) else (None, ca).
End ca.

(** ** The listener of one connection *)

Record singleConnListener := mkListener { l_served : bool; l_closed : bool }.

Definition newSingleConnListener : singleConnListener := mkListener false false.

Inductive accepted := Conn | ListenerDone | Blocked.

Definition Accept (l : singleConnListener) : accepted * singleConnListener :=
  if negb (l_served l) then (Conn, mkListener true (l_closed l))
  else (if l_closed l then ListenerDone else Blocked, l).

Definition Close (l : singleConnListener) : singleConnListener := mkListener (l_served l) true.

(** ** The cache of leaves *)

Section facts.
Context `{X509Laws} `{LRULaws}.

(** A leaf for [host] that this CA signed at instant [t]. *)
Definition issued_at (host : string) (t : Z) (ca : CA) (leaf : tlsCertificate) : Prop :=
  exists key serial der,
    create_certificate (leaf_template host serial t (ca_LeafTTL ca)) (ca_certDER ca) (public_key key) (ca_key ca) = Ok der /\
    leaf = mkTLS [der; ca_certDER ca] key (Some (encoded (leaf_template host serial t (ca_LeafTTL ca)))).

(** Everything but the cache stays. *)
Definition same_ca (ca ca' : CA) : Prop := ca' = with_cache ca (ca_cache ca').

Record cache_inv (ca : CA) : Prop := {
  ci_issued h e : lru_contents (ca_cache ca) !! h = Some e ->
    exists t, issued_at h t ca (ce_leaf e) /\ ce_notAfter e = (t + ca_LeafTTL ca)%Z;
  ci_size : size (lru_contents (ca_cache ca)) <= lru_capacity (ca_cache ca);
  ci_capacity : lru_capacity (ca_cache ca) = DefaultMaxCacheSize
}.

Lemma issueLeaf_spec host entropy now ca leaf notAfter :
  issueLeaf host entropy now ca = Ok (leaf, notAfter) ->
  issued_at host now ca leaf /\ notAfter = (now + ca_LeafTTL ca)%Z.
Proof.
  unfold issueLeaf. destruct (generate_p256 entropy) as [key|]; [|done].
  destruct (random_serial entropy) as [serial|]; [|done].
  destruct (create_certificate _ _ _ _) as [der|] eqn:Ec; [|done]. intros [= <- <-].
  split; [|done]. exists key, serial, der. split; [done|]. by rewrite (created_parses _ _ _ _ _ Ec).
Qed.

Lemma lookup_kept host ca :
  cache_inv ca -> cache_inv (with_cache ca (lru_Get host (ca_cache ca)).2).
Proof.
  intros [Hi Hs Hc]. destruct (lru_Get_spec host (ca_cache ca)) as (_ & E1 & E2).
  split; simpl; rewrite ?E1, ?E2; done.
Qed.

Lemma added_kept host leaf t ca :
  cache_inv ca -> issued_at host t ca leaf ->
  cache_inv (with_cache ca (lru_Add host (mkEntry leaf (t + ca_LeafTTL ca)) (ca_cache ca))).
Proof.
  intros [Hi Hs Hc] Hleaf. set (e := mkEntry _ _).
  destruct (lru_Add_spec host e (ca_cache ca)) as (Hsub & Hsize & Hcap). split; simpl; [|lia..].
  intros h x Hx. apply (lookup_weaken _ _ _ _ Hx) in Hsub.
  apply lookup_insert_Some in Hsub as [[<- <-]|[_ Hsub]]; [by exists t|by apply Hi].
Qed.

Lemma leafFor_spec host now issued entropy ca r ca' :
  cache_inv ca -> leafFor host now issued entropy ca = (r, ca') ->
  cache_inv ca' /\ same_ca ca ca' /\
  forall leaf, r = Ok leaf ->
    exists t, issued_at host t ca leaf /\
      (t = issued \/ (now + effectiveMargin ca < t + ca_LeafTTL ca)%Z).
Proof.
  intros Hinv. pose proof (lookup_kept host ca Hinv) as Hk. unfold leafFor.
  destruct (lru_Get_spec host (ca_cache ca)) as (Eget & _ & _).
  destruct (lru_Get host (ca_cache ca)) as [hit cache]. simpl in *. set (ca1 := with_cache ca cache) in *.
  assert (forall r ca', match issueLeaf host entropy issued ca1 with
      | Err e => (Err e, ca1)
      | Ok (leaf, notAfter) => (Ok leaf, with_cache ca1 (lru_Add host (mkEntry leaf notAfter) cache))
      end = (r, ca') ->
    cache_inv ca' /\ same_ca ca ca' /\ forall leaf, r = Ok leaf ->
      exists t, issued_at host t ca leaf /\ (t = issued \/ (now + effectiveMargin ca < t + ca_LeafTTL ca)%Z)) as Hissue.
  { intros r1 ca2. destruct (issueLeaf _ _ _ _) as [[leaf notAfter]|e] eqn:Ei; intros [= <- <-]; [|done].
    apply issueLeaf_spec in Ei as [Hl ->]. split; [by apply (added_kept host leaf issued ca1)|].
    split; [done|]. intros leaf' [= <-]. exists issued. split; [exact Hl|by left]. }
  destruct hit as [e|]; [|apply Hissue]. case_bool_decide as Hf; [|apply Hissue]. intros [= <- <-].
  split; [done|]. split; [done|]. intros leaf [= <-].
  destruct (ci_issued _ Hinv host e) as (t & Hl & Et); [done|]. exists t. split; [done|]. right.
  by rewrite <- Et.
Qed.

Lemma serveConnect_spec env ca r ca' :
  cache_inv ca -> serveConnect env ca = (r, ca') ->
  cache_inv ca' /\ same_ca ca ca' /\
  forall leaf closes, r = Tunnelled leaf closes ->
    exists host port sni t, SplitHostPort (cn_URLHost env) = Ok (host, port) /\ cn_ServerName env = Some sni /\
      issued_at (if decide (sni = "") then host else sni) t ca leaf /\
      (t = cn_issued env \/ (cn_now env + effectiveMargin ca < t + ca_LeafTTL ca)%Z) /\
      closes = tunnel_closes leaf (cn_until env) ca.
Proof.
  intros Hinv. unfold serveConnect.
  assert (forall r0 : connectResult, (forall leaf closes, r0 <> Tunnelled leaf closes) -> (r0, ca) = (r, ca') ->
    cache_inv ca' /\ same_ca ca ca' /\ (forall leaf closes, r <> Tunnelled leaf closes)) as Hno
    by (intros r0 Hr [= <- <-]; by destruct ca).
  repeat match goal with
  | |- context [negb ?b] => destruct b; simpl
  | |- (?r0, ca) = _ -> _ =>
      intros E; edestruct (Hno r0) as (H1' & H2' & H3'); [by intros ??|exact E|];
      split; [exact H1'|]; split; [exact H2'|]; intros ?? E'; by apply H3' in E'
  | |- context [SplitHostPort ?x] => destruct (SplitHostPort x) as [[host port]|]
  | |- context [cn_ServerName ?x] => destruct (cn_ServerName x) as [sni|]
  | |- context [leafFor ?a ?b ?c ?d ?e] =>
      let El := fresh "El" in destruct (leafFor a b c d e) as [lr ca1] eqn:El;
      destruct (leafFor_spec _ _ _ _ _ _ _ Hinv El) as (Hi1 & Hs1 & Hl1); destruct lr as [leaf|]
  end; intros [= <- <-]; (split; [done|]; split; [done|]); intros ?? E; try done.
  injection E as <- <-. destruct (Hl1 leaf eq_refl) as (t & Ht & Hf). exists host, port, sni, t.
  repeat (split; [done|]). rewrite Hs1. unfold tunnel_closes, effectiveMargin. done.
Qed.
End facts.

(** ** Tunnels *)

Fixpoint serve_all `{X509} `{LRU} (envs : list connectEnv) (ca : CA) : CA :=
  match envs with [] => ca | env :: envs => serve_all envs (serveConnect env ca).2 end.

Lemma CAFromPEM_inv `{X509} `{LRULaws} certPEM keyPEM ca :
  CAFromPEM certPEM keyPEM = Ok ca ->
  cache_inv ca /\ ca_LeafTTL ca = (24 * hour)%Z /\ effectiveMargin ca = DefaultExpiryMargin /\
  crt_IsCA (ca_cert ca) = true /\ parse_certificate (ca_certDER ca) = Ok (ca_cert ca).
Proof.
  unfold CAFromPEM. destruct (pem_decode certPEM) as [[kind der]|]; [|done].
  assert (forall A (x y : A), (if decide (kind = "CERTIFICATE") then x else y) =
    match kind with "CERTIFICATE" => x | _ => y end) as Hk.
  { intros A x y. case_decide as E; [by subst|].
    repeat (destruct kind as [|[[] [] [] [] [] [] [] []] kind]; try reflexivity). done. }
  rewrite <- Hk. case_decide; [|done]. destruct (parse_certificate der) as [cert|] eqn:Ep; [|done].
  destruct (crt_IsCA cert) eqn:Ea; [|done]. destruct (crt_CertSign cert); [|done]. simpl.
  destruct (pem_decode keyPEM) as [block|]; [|done]. destruct (parsePrivateKey block); [|done].
  intros [= <-]. destruct (lru_new_spec DefaultMaxCacheSize) as [En Ec].
  split; [|done]. split; simpl; rewrite ?En, ?Ec, ?map_size_empty; [done|lia|done].
Qed.

Lemma serve_all_inv `{X509Laws} `{LRULaws} envs ca :
  cache_inv ca -> cache_inv (serve_all envs ca) /\ same_ca ca (serve_all envs ca).
Proof.
  revert ca. induction envs as [|env envs IH]; intros ca Hi; simpl; [by destruct ca|].
  destruct (serveConnect env ca) as [r ca'] eqn:E.
  destruct (serveConnect_spec env ca r ca' Hi E) as (Hi' & Hs & _). simpl.
  destruct (IH ca' Hi') as [Hi2 Hs2]. split; [done|]. unfold same_ca in *. rewrite Hs2, Hs. done.
Qed.

Lemma tunnel_closes_spec `{X509} `{LRU} leaf c now ca :
  tls_Leaf leaf = Some c -> effectiveMargin ca = DefaultExpiryMargin -> (0 <= now)%Z ->
  match tunnel_closes leaf now ca with
  | Some d => d = (crt_NotAfter c - 5 * minute)%Z /\ (now < d)%Z
  | None => (crt_NotAfter c - 5 * minute <= now)%Z
  end.
Proof.
  unfold tunnel_closes, DefaultExpiryMargin. intros -> -> Hnow. case_decide as E.
  - rewrite E. unfold zero_instant, minute, second. lia.
  - case_bool_decide; lia.
Qed.

(** C16. A tunnel presents a certificate for the name the client asked for and
    no other.  Whatever CONNECTs came before, the chain is a leaf signed with
    the CA's key and the CA's certificate; the leaf names the SNI, or the
    CONNECT host when there was none, in its common name and in its only
    subject alternative name, and is no CA; it was issued on the spot or has
    more than the expiry margin left.  The tunnel is closed that margin before
    the leaf expires unless that instant is already past after the handshake,
    when nothing closes it.  The cache never holds more than its 1024 leaves. *)
Theorem tunnel_certificate `{X509Laws} `{LRULaws} (certPEM keyPEM : string) (ca : CA)
    (history : list connectEnv) (env : connectEnv) (leaf : tlsCertificate) (closes : option Z)
    (Hca : CAFromPEM certPEM keyPEM = Ok ca)
    (Hrun : (serveConnect env (serve_all history ca)).1 = Tunnelled leaf closes)
    (Hclock : (0 <= cn_until env)%Z) :
  size (lru_contents (ca_cache (serve_all history ca))) <= 1024 /\
  exists host port sni t, SplitHostPort (cn_URLHost env) = Ok (host, port) /\ cn_ServerName env = Some sni /\
  let name := if decide (sni = "") then host else sni in
  exists serial key der c,
    create_certificate (leaf_template name serial t (24 * hour)) (ca_certDER ca) (public_key key) (ca_key ca) = Ok der /\
    leaf = mkTLS [der; ca_certDER ca] key (Some c) /\
    crt_CommonName c = name /\ crt_IsCA c = false /\
    match parse_ip name with
    | Some ip => crt_DNSNames c = [] /\ crt_IPAddresses c = [ip]
    | None => crt_DNSNames c = [name] /\ crt_IPAddresses c = []
    end /\
    crt_NotAfter c = whole_seconds (t + 24 * hour) /\
    (t = cn_issued env \/ (cn_now env + 5 * minute < t + 24 * hour)%Z) /\
    match closes with
    | Some d => d = (crt_NotAfter c - 5 * minute)%Z /\ (cn_until env < d)%Z
    | None => (crt_NotAfter c - 5 * minute <= cn_until env)%Z
    end.
Proof.
  destruct (CAFromPEM_inv _ _ _ Hca) as (Hi & Httl & Hm & _).
  destruct (serve_all_inv history ca Hi) as [Hi' Hs]. set (ca1 := serve_all history ca) in *.
  assert (ca_LeafTTL ca1 = (24 * hour)%Z /\ effectiveMargin ca1 = DefaultExpiryMargin /\
    ca_certDER ca1 = ca_certDER ca /\ ca_key ca1 = ca_key ca) as (E1 & E2 & E3 & E4) by (by rewrite Hs).
  split; [pose proof (ci_size _ Hi') as Hsz; rewrite (ci_capacity _ Hi') in Hsz; exact Hsz|].
  destruct (serveConnect env ca1) as [r ca2] eqn:Er. simpl in Hrun. subst r.
  destruct (serveConnect_spec env ca1 _ _ Hi' Er) as (_ & _ & Hl).
  destruct (Hl _ _ eq_refl) as (host & port & sni & t & Eh & Es & Hiss & Hfresh & Hcl).
  destruct Hiss as (key & serial & der & Hder & ->). rewrite E1, E2, E3, E4 in *.
  exists host, port, sni, t. split; [done|]. split; [done|]. intros name. fold name in Hder, Hcl.
  eexists serial, key, der, _. split; [exact Hder|]. split; [reflexivity|].
  assert (forall c, encoded (leaf_template name serial t (24 * hour)) = c ->
    crt_CommonName c = name /\ crt_IsCA c = false /\ crt_NotAfter c = whole_seconds (t + 24 * hour) /\
    match parse_ip name with
    | Some ip => crt_DNSNames c = [] /\ crt_IPAddresses c = [ip]
    | None => crt_DNSNames c = [name] /\ crt_IPAddresses c = []
    end) as Hc by (intros c <-; unfold leaf_template; by destruct (parse_ip name)).
  destruct (Hc _ eq_refl) as (Hcn & Hisca & Hna & Hip). split; [exact Hcn|]. split; [exact Hisca|].
  split; [exact Hip|]. split; [exact Hna|]. split; [exact Hfresh|].
  rewrite Hcl. by apply tunnel_closes_spec.
Qed.

(** The listener hands its connection out once, to the first [Accept], and an
    [Accept] waits exactly as long as the connection is served. *)
Fixpoint accepts (l : singleConnListener) (acts : list bool) : list accepted :=
  match acts with
  | [] => []
  | true :: acts => let '(r, l) := Accept l in r :: accepts l acts
  | false :: acts => accepts (Close l) acts
  end.

Lemma listener_served b acts : Conn ∉ accepts (mkListener true b) acts.
Proof.
  revert b. induction acts as [|[] acts IH]; intros b; simpl; [by intros ?%not_elem_of_nil| |apply IH].
  rewrite not_elem_of_cons. split; [by destruct b|apply IH].
Qed.

Lemma listener_serves_once b acts :
  accepts (mkListener false b) acts = [] \/
  exists rest, accepts (mkListener false b) acts = Conn :: rest /\ Conn ∉ rest.
Proof.
  revert b. induction acts as [|[] acts IH]; intros b; simpl; [by left| |apply IH].
  right. eexists. split; [done|]. apply listener_served.
Qed.

Lemma closed_never_blocks b acts : Blocked ∉ accepts (mkListener b true) acts.
Proof.
  revert b. induction acts as [|[] acts IH]; intros b; simpl; [by intros ?%not_elem_of_nil| |apply IH].
  destruct b; simpl; rewrite not_elem_of_cons; (split; [done|]); apply IH.
Qed.

(** ** Examples *)

(** A cache as the list of its entries, most recent first. *)
Record demo_cache := mkCache { dc_cap : nat; dc_list : list (string * cacheEntry) }.

Definition without {A} (k : string) (l : list (string * A)) : list (string * A) :=
  List.filter (fun x => negb (bool_decide (x.1 = k))) l.

Definition assoc {A} (l : list (string * A)) : gmap string A := list_to_map l.

#[export] Instance demo_lru : LRU := {|
  lru := demo_cache;
  lru_new n := mkCache n [];
  lru_Get k c :=
    match assoc (dc_list c) !! k with
    | None => (None, c)
    | Some e => (Some e, mkCache (dc_cap c) ((k, e) :: without k (dc_list c)))
    end;
  lru_Add k e c := mkCache (dc_cap c) (take (dc_cap c) ((k, e) :: without k (dc_list c)))
|}.

Lemma assoc_without {A} k (l : list (string * A)) : assoc (without k l) = delete k (assoc l).
Proof.
  unfold assoc. induction l as [|[k' v] l IH]; simpl; [by rewrite delete_empty|].
  case_bool_decide as E; simpl.
  - by rewrite E, delete_insert_eq, IH.
  - by rewrite IH, delete_insert_ne by done.
Qed.

Lemma assoc_take {A} n (l : list (string * A)) : assoc (take n l) ⊆ assoc l.
Proof.
  unfold assoc. revert n. induction l as [|[k v] l IH]; intros [|n]; simpl; try done; [apply map_empty_subseteq|].
  by apply insert_mono.
Qed.

Lemma size_assoc {A} (l : list (string * A)) : size (assoc l) <= length l.
Proof.
  unfold assoc. induction l as [|[k v] l IH]; simpl; [done|]. rewrite map_size_insert.
  destruct (_ !! k); simpl; lia.
Qed.

#[export] Instance demo_lru_laws : LRULaws.
Proof.
  refine {| lru_contents := fun c : lru => assoc (dc_list c); lru_capacity := dc_cap |}.
  - done.
  - intros k c. simpl. destruct (assoc (dc_list c) !! k) as [e|] eqn:E; [|done]. simpl.
    split; [done|]. split; [|done]. unfold assoc at 1. simpl. fold (assoc (without k (dc_list c))).
    by rewrite assoc_without, insert_delete_id.
  - intros k e c. simpl. split; [|split; [|done]].
    + etrans; [apply assoc_take|]. unfold assoc at 1. simpl. fold (assoc (without k (dc_list c))).
      by rewrite assoc_without, insert_delete_eq.
    + etrans; [apply size_assoc|]. rewrite length_take. lia.
Defined.

(** DER as the bits of an encoding. *)
Definition demo_fields (c : Certificate) : list positive :=
  [encode (crt_SerialNumber c); encode (crt_CommonName c); encode (crt_NotBefore c); encode (crt_NotAfter c);
   encode (crt_CertSign c); encode (crt_DigitalSignature c); encode (crt_ServerAuth c); encode (crt_IsCA c);
   encode (crt_BasicConstraintsValid c); encode (crt_DNSNames c); encode (crt_IPAddresses c)].

Definition demo_certificate (l : list positive) : option Certificate :=
  match l with
  | [a; b; c; d; e; f; g; h; i; j; k] =>
      a ← decode a; b ← decode b; c ← decode c; d ← decode d; e ← decode e; f ← decode f;
      g ← decode g; h ← decode h; i ← decode i; j ← decode j; k ← decode k;
      Some (mkCertificate a b c d e f g h i j k)
  | _ => None
  end.

Definition demo_der (c : Certificate) : string := bits (encode (demo_fields (encoded c))).

#[export] Instance demo_x509 : X509 := {|
  pem_decode s := if has_prefix "key" s then Some ("EC PRIVATE KEY", s) else Some ("CERTIFICATE", s);
  parse_certificate s :=
    match decode (unbits s) ≫= demo_certificate with Some c => Ok c | None => Err (EMsg "x509") end;
  parse_pkcs8 := Ok; parse_pkcs1 := Ok; parse_ec := Ok;
  generate_p256 s := Ok s;
  random_serial s := Ok (Z.of_nat (String.length s));
  public_key s := s;
  create_certificate c _ _ _ := Ok (demo_der c);
  parse_ip s := if has_prefix "127." s then Some s else None
|}.

#[export] Instance demo_x509_laws : X509Laws.
Proof.
  intros tmpl parent pub signer der. simpl. intros [= <-]. unfold demo_der.
  rewrite unbits_bits, decode_encode. unfold demo_certificate, demo_fields. cbn [mbind option_bind].
  repeat (rewrite decode_encode; cbn [mbind option_bind]). done.
Qed.

Definition demo_ca_cert : Certificate := mkCertificate 1 "bouncer MITM CA" 0 0 true true false true true [] [].

Definition demo_ca : CA :=
  mkCA demo_ca_cert (demo_der demo_ca_cert) "key1" (24 * hour) DefaultExpiryMargin (lru_new DefaultMaxCacheSize).

Definition demo_connect (now until : Z) : connectEnv :=
  mkConnect 1 "mail.example:443" true true true true (Some "") true now now until "e".

(** The second tunnel is given the first one's leaf. *)
Lemma tunnel_certificate_witness :
  let history := [demo_connect 500000000 600000000] in
  exists leaf, (serveConnect (demo_connect hour hour) (serve_all history demo_ca)).1 =
      Tunnelled leaf (Some (24 * hour - 5 * minute)%Z) /\
    exists key der c, leaf = mkTLS [der; ca_certDER demo_ca] key (Some c) /\ crt_DNSNames c = ["mail.example"].
Proof.
  cbn zeta. eexists. split; [vm_compute; reflexivity|].
  edestruct (tunnel_certificate (demo_der demo_ca_cert) "key1" demo_ca [demo_connect 500000000 600000000]
    (demo_connect hour hour)) as (_ & host & port & sni & t & Eh & Es & Hleaf).
  - vm_compute. reflexivity.
  - vm_compute. reflexivity.
  - vm_compute. congruence.
  - vm_compute in Eh. injection Eh as <- <-. vm_compute in Es. injection Es as <-. cbn zeta in Hleaf.
    destruct Hleaf as (serial & key & der & c & _ & El & _ & _ & Hn & _). exists key, der, c.
    split; [exact El|]. vm_compute in Hn. apply Hn.
Defined.

(** The cache trusts the exact expiry, the tunnel the one in the certificate,
    which has no fraction of a second: reused in that fraction, the leaf leaves
    nothing to time and the tunnel stays open past the leaf's expiry. *)
Example tunnel_outlives_leaf :
  let history := [demo_connect 500000000 600000000] in
  let now := (24 * hour - 5 * minute + 200000000)%Z in
  match (serveConnect (demo_connect now now) (serve_all history demo_ca)).1 with
  | Tunnelled leaf closes => bool_decide (closes = None) && bool_decide (crt_NotAfter <$> tls_Leaf leaf = Some (24 * hour)%Z)
  | _ => false
  end = true.
Proof. vm_compute. reflexivity. Qed.

(** The CONNECT target may be an IPv6 literal. *)
Example split_ipv6 : SplitHostPort "[::1]:443" = Ok ("::1", "443").
Proof. vm_compute. reflexivity. Qed.

Example split_bare_colons : SplitHostPort "::1:443" = Err (EMsg "too many colons in address").
Proof. vm_compute. reflexivity. Qed.
