(* ===== verification/Paths.v ===== *)
(** * Slash-separated paths, as path/filepath reads them on Unix

    [Clean] and [Join] are lexical; [resolve] is what the operating system
    makes of a path when there are no symbolic links.  A resolved path is the
    list of its components, deepest first, so that a parent is a tail and a
    subtree is a suffix.  The lemmas: cleaning does not change what a path
    names, and a cleaned path with another's prefix is in its subtree. *)

From S2P Require Import Prelude GoStd.

Definition path := list string.

Definition plain (seg : string) : Prop := seg <> "" /\ seg <> "." /\ seg <> "..".

#[export] Instance plain_dec seg : Decision (plain seg).
Proof. unfold plain. apply _. Defined.

(** One component of a path, on the reversed output of [Clean]. *)
Definition seg_push (rooted : bool) (st : list string) (seg : string) : list string :=
  if decide (seg = "" \/ seg = ".") then st
  else if decide (seg = "..") then
    match st with
    | [] => if rooted then [] else [".."]
    | x :: rest => if decide (x = "..") then ".." :: st else rest
    end
  else seg :: st.

Definition rooted (p : string) : bool := has_prefix "/" p.

Definition clean_stack (p : string) : list string := foldl (seg_push (rooted p)) [] (split_byte "/" p).

(** [filepath.Clean] *)
Definition Clean (p : string) : string :=
  let segs := rev (clean_stack p) in
  if rooted p then "/" +:+ join "/" segs else if decide (segs = []) then "." else join "/" segs.

(** [filepath.Join] of two elements. *)
Definition Join (a b : string) : string :=
  let elems := List.filter (fun x => negb (bool_decide (x = ""))) [a; b] in
  if decide (elems = []) then "" else Clean (join "/" elems).

(** [filepath.Base], of a path that has one. *)
Definition Base (p : string) : string := default "." (head (clean_stack p)).

(** What the operating system makes of one component. *)
Definition os_step (p : path) (seg : string) : path :=
  if decide (seg = "" \/ seg = ".") then p else if decide (seg = "..") then tail p else seg :: p.

Definition base (cwd : path) (p : string) : path := if rooted p then [] else cwd.

Definition resolve (cwd : path) (p : string) : path := foldl os_step (base cwd p) (split_byte "/" p).

Definition under (d p : path) : Prop := exists k, p = k ++ d.

Lemma under_refl d : under d d.
Proof. by exists []. Qed.

Lemma under_cons d p x : under d p -> under d (x :: p).
Proof. intros [k ->]. by exists (x :: k). Qed.

Lemma under_trans a b c : under a b -> under b c -> under a c.
Proof. intros [k ->] [l ->]. exists (l ++ k). by rewrite app_assoc. Qed.

(** ** The output of [Clean] *)

Definition slashless (x : string) : Prop := has_byte "/" x = false.

(** Names on top of parents; parents only in a relative path. *)
Definition clean_shape (r : bool) (st : list string) : Prop :=
  exists names k, st = names ++ replicate k ".." /\ Forall plain names /\ (r = true -> k = 0).

Lemma clean_shape_nil r : clean_shape r [].
Proof. by exists [], 0. Qed.

Lemma seg_push_shape r st seg : clean_shape r st -> clean_shape r (seg_push r st seg).
Proof.
  intros (names & k & -> & Hn & Hk). unfold seg_push. case_decide as H1; [by exists names, k|].
  case_decide as H2.
  - destruct names as [|x names]; simpl.
    + destruct k as [|k]; simpl; [destruct r; [by exists [], 0|by exists [], 1]|].
      exists [], (S (S k)). split; [done|]. split; [done|]. intros ->. by specialize (Hk eq_refl).
    + apply Forall_cons in Hn as [Hx Hn]. rewrite decide_False by apply Hx. by exists names, k.
  - exists (seg :: names), k. split; [done|]. split; [|done]. constructor; [|done]. unfold plain. tauto.
Qed.

Lemma fold_shape r l st : clean_shape r st -> clean_shape r (foldl (seg_push r) st l).
Proof. revert st. induction l as [|x l IH]; intros st Hst; [done|]. by apply IH, seg_push_shape. Qed.

Lemma clean_stack_shape p : clean_shape (rooted p) (clean_stack p).
Proof. apply fold_shape, clean_shape_nil. Qed.

Lemma seg_push_slashless r st seg :
  slashless seg -> Forall slashless st -> Forall slashless (seg_push r st seg).
Proof.
  intros Hs Hst. unfold seg_push. case_decide; [done|]. case_decide; [|by constructor].
  destruct st as [|x st]; [destruct r; repeat constructor|]. case_decide; [by constructor|]. by inversion Hst.
Qed.

Lemma clean_stack_slashless p : Forall slashless (clean_stack p).
Proof.
  unfold clean_stack. pose proof (split_byte_elems_free "/" p) as H. revert H.
  generalize (split_byte "/" p). intros l. assert (Forall slashless []) as Hn by constructor. revert Hn.
  generalize (@nil string). induction l as [|x l IH]; intros st Hst Hl; [done|].
  apply Forall_cons in Hl as [Hx Hl]. simpl. apply IH; [|done]. by apply seg_push_slashless.
Qed.

(** ** Cleaning keeps what a path names *)

Definition denote (b : path) (st : list string) : path := foldr (fun seg p => os_step p seg) b st.

Lemma denote_push r b st seg :
  clean_shape r st -> (r = true -> b = []) -> denote b (seg_push r st seg) = os_step (denote b st) seg.
Proof.
  intros (names & k & -> & Hn & Hk) Hb. unfold seg_push. case_decide as H1.
  { unfold os_step. by rewrite decide_True. }
  case_decide as H2; [|done]. subst seg. destruct (names ++ replicate k "..") as [|x rest] eqn:E.
  - simpl. destruct r; [|done]. by rewrite Hb.
  - case_decide as Hx; [by subst|]. simpl. unfold os_step at 2. destruct names as [|y names].
    + destruct k; simpl in E; [done|]. by injection E as <- _.
    + injection E as -> <-. apply Forall_cons in Hn as [(H3 & H4 & _) _].
      rewrite (decide_False (P := x = "" \/ x = ".")) by tauto. rewrite (decide_False (P := x = "..")) by done. done.
Qed.

Lemma denote_fold r b l st :
  clean_shape r st -> (r = true -> b = []) ->
  denote b (foldl (seg_push r) st l) = foldl os_step (denote b st) l.
Proof.
  intros Hst Hb. revert st Hst. induction l as [|x l IH]; intros st Hst; [done|]. simpl.
  rewrite IH by (by apply seg_push_shape). by rewrite denote_push.
Qed.

Lemma base_rooted cwd p : rooted p = true -> base cwd p = [].
Proof. unfold base. by intros ->. Qed.

Lemma resolve_stack cwd p : resolve cwd p = denote (base cwd p) (clean_stack p).
Proof.
  unfold clean_stack, resolve. rewrite denote_fold; [done|apply clean_shape_nil|apply base_rooted].
Qed.

Lemma foldl_rev_denote b st : foldl os_step b (rev st) = denote b st.
Proof. induction st as [|x st IH]; simpl; [done|]. rewrite foldl_app. simpl. by rewrite IH. Qed.

(** The split of a cleaned path. *)
Definition clean_split (p : string) : list string :=
  (if rooted p then [""] else []) ++
  (if decide (clean_stack p = []) then [if rooted p then "" else "."] else rev (clean_stack p)).

Lemma rev_nil_iff {A} (l : list A) : rev l = [] <-> l = [].
Proof. split; [|by intros ->]. intros E. by rewrite <- (rev_involutive l), E. Qed.

Lemma split_Clean p : split_byte "/" (Clean p) = clean_split p.
Proof.
  unfold Clean, clean_split. pose proof (clean_stack_slashless p) as Hs.
  assert (clean_stack p <> [] -> split_byte "/" (join "/" (rev (clean_stack p))) = rev (clean_stack p)) as Hj.
  { intros Hne. apply split_join; [by rewrite rev_nil_iff|]. by apply Forall_rev. }
  destruct (rooted p) eqn:Er; cbn [app].
  - change (split_byte "/" ("/" +:+ join "/" (rev (clean_stack p)))) with
      ("" :: split_byte "/" (join "/" (rev (clean_stack p)))).
    case_decide as E; [by rewrite E|]. by rewrite Hj.
  - case_decide as E1; case_decide as E2; rewrite rev_nil_iff in E1; try done. by rewrite Hj.
Qed.

Lemma rooted_split p : rooted p = true <-> exists y l, split_byte "/" p = "" :: y :: l.
Proof.
  unfold rooted. destruct p as [|a p]; simpl; [split; [done|by intros (y & l & ?)]|].
  destruct (decide (a = "/"%char)) as [->|Ha].
  - split; [|done]. intros _. destruct (split_byte "/" p) as [|y l] eqn:E; [by apply split_byte_nonempty in E|].
    by exists y, l.
  - rewrite bool_decide_eq_false_2 by congruence. simpl. split; [done|]. intros (y & l & E).
    destruct (split_byte "/" p); by injection E.
Qed.

Lemma clean_stack_named p : Forall (fun x => x <> "" /\ x <> ".") (clean_stack p).
Proof.
  destruct (clean_stack_shape p) as (names & k & -> & Hn & _). apply Forall_app. split.
  - eapply Forall_impl; [exact Hn|]. intros x (H1 & H2 & _). done.
  - by apply Forall_replicate.
Qed.

Lemma rooted_Clean p : rooted (Clean p) = rooted p.
Proof.
  destruct (rooted p) eqn:Er; [unfold Clean; by rewrite Er|].
  destruct (rooted (Clean p)) eqn:E; [|done]. apply rooted_split in E as (y & l & E).
  rewrite split_Clean in E. unfold clean_split in E. rewrite Er in E. cbn [app] in E. case_decide; [done|].
  pose proof (clean_stack_named p) as Hn. apply Forall_rev in Hn. rewrite E in Hn.
  apply Forall_cons in Hn as [[? _] _]. done.
Qed.

Lemma resolve_Clean cwd p : resolve cwd (Clean p) = resolve cwd p.
Proof.
  rewrite (resolve_stack cwd p). unfold resolve, base. rewrite rooted_Clean, split_Clean. unfold clean_split.
  rewrite foldl_app. case_decide as E; [rewrite E; by destruct (rooted p)|].
  rewrite foldl_rev_denote. by destruct (rooted p).
Qed.

Lemma Clean_nonempty p : Clean p <> "".
Proof.
  unfold Clean. destruct (rooted p); [done|]. case_decide as E; [done|]. intros [H|H]%join_eq_nil_inv; [done| |done].
  pose proof (clean_stack_named p) as Hn. apply Forall_rev in Hn. rewrite H in Hn.
  by apply Forall_cons in Hn as [[? _] _].
Qed.

Lemma dots_first k names a y b :
  replicate k ".." ++ names = a ++ y :: b -> ".." ∉ names -> ".." ∈ b -> y = "..".
Proof.
  revert a. induction k as [|k IH]; intros a E Hn Hb; simpl in E.
  - destruct Hn. rewrite E. set_solver.
  - destruct a as [|z a]; [by injection E as <-|]. injection E as _ E. by apply (IH a).
Qed.

(** What stands before a parent is a parent. *)
Lemma clean_split_dots p a y b : clean_split p = a ++ y :: b -> ".." ∈ b -> y = "..".
Proof.
  unfold clean_split. destruct (clean_stack_shape p) as (names & k & Est & Hn & Hk). rewrite Est.
  assert (".." ∉ rev names) as Hr.
  { intros H. apply list_elem_of_In, in_rev, list_elem_of_In in H.
    rewrite Forall_forall in Hn. by destruct (Hn _ H) as (_ & _ & ?). }
  assert (rev (names ++ replicate k "..") = replicate k ".." ++ rev names) as ->.
  { rewrite rev_app_distr. f_equal. clear. induction k as [|k IH]; [done|].
    simpl. rewrite IH. by rewrite <- replicate_S_end. }
  intros E Hb. destruct (rooted p).
  - rewrite (Hk eq_refl) in E. cbn [replicate app] in E. exfalso.
    assert (".." ∈ a ++ y :: b) as Hin by set_solver. rewrite <- E in Hin. case_decide; set_solver.
  - cbn [app] in E. case_decide as Ec; [|by eapply dots_first].
    exfalso. assert (".." ∈ a ++ y :: b) as Hin by set_solver. rewrite <- E in Hin. set_solver.
Qed.

Lemma clean_split_last d : exists a, clean_split d = a ++ [default (if rooted d then "" else ".") (head (clean_stack d))].
Proof.
  unfold clean_split. destruct (clean_stack d) as [|x st]; simpl; [by eexists|]. rewrite app_assoc. by eexists.
Qed.

(** A cleaned path that extends a cleaned directory is in its subtree. *)
Lemma resolve_prefix cwd d p x :
  Clean p = Clean d +:+ "/" +:+ x -> head (clean_stack d) <> Some ".." -> under (resolve cwd d) (resolve cwd p).
Proof.
  intros E Hd. assert (split_byte "/" (Clean p) = split_byte "/" (Clean d) ++ split_byte "/" x) as Hs.
  { rewrite E. generalize (Clean d). intros s. induction s as [|a s IH]; [done|].
    rewrite string_app_cons. cbn [split_byte]. rewrite IH.
    case_decide; [done|]. destruct (split_byte "/" s) eqn:Es; [by apply split_byte_nonempty in Es|done]. }
  assert (rooted p = rooted d) as Hr.
  { rewrite <- (rooted_Clean p), <- (rooted_Clean d), E. pose proof (Clean_nonempty d). by destruct (Clean d). }
  rewrite <- (resolve_Clean cwd p), <- (resolve_Clean cwd d). unfold resolve.
  assert (base cwd (Clean p) = base cwd (Clean d)) as -> by (unfold base; by rewrite !rooted_Clean, Hr).
  assert (".." ∉ split_byte "/" x) as Hx.
  { intros Hin. rewrite !split_Clean in Hs. destruct (clean_split_last d) as [a Ha].
    rewrite Ha, <- app_assoc in Hs. apply clean_split_dots in Hs; [|done].
    destruct (clean_stack d) as [|y st]; simpl in *; [by destruct (rooted d)|congruence]. }
  rewrite Hs, foldl_app. generalize (foldl os_step (base cwd (Clean d)) (split_byte "/" (Clean d))). intros b.
  clear Hs. revert b Hx. induction (split_byte "/" x) as [|y l IH]; intros b Hx; [apply under_refl|].
  simpl. eapply under_trans; [|apply IH; set_solver].
  unfold os_step. case_decide; [apply under_refl|]. rewrite decide_False by set_solver. apply under_cons, under_refl.
Qed.

(** [filepath.Dir] *)
Definition Dir (p : string) : string :=
  match removelast (split_byte "/" p) with
  | [] => "."
  | segs => Clean (join "/" segs +:+ "/")
  end.

Lemma join_snoc sep l x : l <> [] -> join sep (l ++ [x]) = join sep l +:+ sep +:+ x.
Proof.
  induction l as [|y l IH]; intros Hl; [done|]. destruct l as [|z l]; [done|].
  change ((y :: z :: l) ++ [x]) with (y :: ((z :: l) ++ [x])). rewrite !join_cons by done.
  rewrite IH by done. by rewrite !string_app_assoc.
Qed.

Lemma join_app sep l1 l2 : l1 <> [] -> l2 <> [] -> join sep (l1 ++ l2) = join sep l1 +:+ sep +:+ join sep l2.
Proof.
  intros H1 H2. induction l1 as [|x l1 IH]; [done|]. destruct l1 as [|y l1].
  - simpl ([x] ++ l2). by rewrite join_cons.
  - change ((x :: y :: l1) ++ l2) with (x :: ((y :: l1) ++ l2)). rewrite !join_cons by done.
    rewrite IH by done. by rewrite !string_app_assoc.
Qed.

(** A path is one component further than its directory. *)
Lemma resolve_Dir cwd p : resolve cwd p = os_step (resolve cwd (Dir p)) (List.last (split_byte "/" p) "").
Proof.
  destruct (exists_last (split_byte_nonempty "/" p)) as (l & x & E). unfold Dir.
  rewrite E, removelast_last, last_last. pose proof (split_byte_elems_free "/" p) as Hs. rewrite E in Hs.
  apply Forall_app in Hs as [Hl _]. unfold resolve at 1. rewrite E, foldl_app. cbn [foldl]. f_equal.
  destruct l as [|y l].
  - unfold resolve, base. destruct (rooted p) eqn:Er; [|done]. apply rooted_split in Er as (z & l & Er).
    rewrite E in Er. done.
  - rewrite resolve_Clean.
    assert (split_byte "/" (join "/" (y :: l) +:+ "/") = (y :: l) ++ [""]) as Hj.
    { assert (join "/" (y :: l) +:+ "/" = join "/" ((y :: l) ++ [""])) as -> by by rewrite join_snoc.
      apply split_join; [by destruct l|]. apply Forall_app. split; [done|]. by repeat constructor. }
    unfold resolve. rewrite Hj, foldl_app. assert (forall b, foldl os_step b [""] = b) as -> by done.
    f_equal. unfold base.
    assert (rooted p = rooted (join "/" (y :: l) +:+ "/")) as ->; [|done].
    apply eq_true_iff_eq. rewrite !rooted_split, Hj, E. split; intros (a & b & Eq).
    + injection Eq as -> Eq. destruct l as [|z l]; [by exists "", []|]. by exists z, (l ++ [""]).
    + injection Eq as -> Eq. destruct l as [|z l]; [by exists x, []|]. by exists z, (l ++ [x]).
Qed.

(** ** Children *)

Lemma push_shape r st : clean_shape r st -> foldl (seg_push r) [] (rev st) = st.
Proof.
  intros (names & k & -> & Hn & Hk). induction Hn as [|x names (H1 & H2 & H3) _ IH]; simpl.
  - destruct r; [by rewrite (Hk eq_refl)|]. clear. induction k as [|k IH]; [done|]. simpl.
    rewrite foldl_app, IH. simpl. unfold seg_push. rewrite decide_False by naive_solver. rewrite decide_True by done.
    by destruct k.
  - rewrite foldl_app, IH. simpl. unfold seg_push. rewrite decide_False by naive_solver. by rewrite decide_False.
Qed.

Lemma clean_stack_Clean p : clean_stack (Clean p) = clean_stack p.
Proof.
  unfold clean_stack at 1. rewrite rooted_Clean, split_Clean. unfold clean_split. rewrite foldl_app.
  assert (foldl (seg_push (rooted p)) [] (if rooted p then [""] else []) = []) as -> by by destruct (rooted p).
  case_decide as E; [rewrite E; by destruct (rooted p)|]. apply push_shape, clean_stack_shape.
Qed.

Lemma rooted_app a b : a <> "" -> rooted (a +:+ b) = rooted a.
Proof. by destruct a. Qed.

Lemma split_app_slash a n : slashless n -> split_byte "/" (a +:+ "/" +:+ n) = split_byte "/" a ++ [n].
Proof.
  intros Hn. induction a as [|c a IH]; [simpl; by rewrite split_byte_free|].
  rewrite string_app_cons. cbn [split_byte]. rewrite IH. case_decide; [done|].
  destruct (split_byte "/" a) eqn:E; [by apply split_byte_nonempty in E|done].
Qed.

Lemma Join_child_clean a n :
  plain n -> slashless n -> Join a n = Clean (if decide (a = "") then n else a +:+ "/" +:+ n).
Proof.
  intros (Hn & _) _. unfold Join. simpl. destruct (decide (a = "")) as [->|Ha].
  - rewrite bool_decide_eq_true_2 by done. cbn [negb]. by rewrite bool_decide_eq_false_2.
  - rewrite !bool_decide_eq_false_2 by done. done.
Qed.

Lemma plain_push r st n : plain n -> seg_push r st n = n :: st.
Proof. intros (H1 & H2 & H3). unfold seg_push. by rewrite !decide_False by tauto. Qed.

Lemma plain_step p n : plain n -> os_step p n = n :: p.
Proof. intros (H1 & H2 & H3). unfold os_step. by rewrite !decide_False by tauto. Qed.

Lemma rooted_plain n : plain n -> slashless n -> rooted n = false.
Proof.
  intros (Hn & _) Hs. destruct (rooted n) eqn:E; [|done]. apply rooted_split in E as (y & l & E).
  by rewrite split_byte_free in E.
Qed.

(** The path of an entry of a directory. *)
Lemma Join_child cwd a n :
  plain n -> slashless n ->
  resolve cwd (Join a n) = n :: resolve cwd a /\ head (clean_stack (Join a n)) = Some n.
Proof.
  intros Hp Hs. rewrite Join_child_clean, resolve_Clean, clean_stack_Clean by done. case_decide as Ha.
  - subst. unfold resolve, clean_stack, base. rewrite rooted_plain, split_byte_free by done. simpl.
    by rewrite plain_step, plain_push.
  - unfold resolve, clean_stack, base. rewrite rooted_app, split_app_slash, !foldl_app by done. simpl.
    by rewrite plain_step, plain_push.
Qed.

Lemma Dir_Join_child cwd a n : plain n -> slashless n -> resolve cwd (Dir (Join a n)) = resolve cwd a.
Proof.
  intros Hp Hs. destruct (Join_child cwd a n Hp Hs) as [E Hh]. rewrite resolve_Dir in E.
  assert (List.last (split_byte "/" (Join a n)) "" = n) as Hl.
  { rewrite Join_child_clean, split_Clean by done. rewrite Join_child_clean, clean_stack_Clean in Hh by done.
    match goal with |- List.last (clean_split ?q) _ = _ => destruct (clean_split_last q) as [l ->] end.
    rewrite last_last. by rewrite Hh. }
  rewrite Hl, plain_step in E by done. by injection E.
Qed.

Lemma Clean_Clean p : Clean (Clean p) = Clean p.
Proof. unfold Clean at 1. by rewrite rooted_Clean, clean_stack_Clean. Qed.

Lemma Join_Clean a b : a <> "" -> exists p, Join a b = Clean p.
Proof. intros Ha. unfold Join. simpl. rewrite bool_decide_eq_false_2 by done. simpl. case_match; by eexists. Qed.
