(* ===== verification/Bundles.v ===== *)
(** * Bundles, the data: internal/control/bundles ref.go, types.go

    References to upstream repositories, the manifest and the install record
    with their validation.  The lemmas: what a parsed reference looks like and when its text reads
    back, and which manifests are accepted. *)

From S2P Require Import Prelude GoStd Models Url ApiClient Query Paths.

(** ** References *)

Record Ref := mkRef { ref_Host : string; ref_Owner : string; ref_Repo : string; ref_Version : string }.

#[export] Instance Ref_eq_dec : EqDecision Ref.
Proof. solve_decision. Defined.

Definition Slug (r : Ref) : string := ref_Host r +:+ "/" +:+ ref_Owner r +:+ "/" +:+ ref_Repo r.

Definition Ref_String (r : Ref) : string :=
  if decide (ref_Version r = "") then Slug r else Slug r +:+ "@" +:+ ref_Version r.

(** [^[A-Za-z0-9][A-Za-z0-9._-]*$] *)
Definition validRefSegment (s : string) : bool :=
  match s with String a r => is_alnum a && all_bytes (fun c => is_alnum c || one_of "._-" c) r | EmptyString => false end.

(** What [ParseRef] drops around the reference. *)
Definition strip_ref (s : string) : string :=
  trim_suffix ".git" (trim_suffix "/" (trim_prefix "http://" (trim_prefix "https://" s))).

(** [strings.ContainsAny(version, " \t\n\r")] *)
Definition blank_free (s : string) : bool := all_bytes (fun c => negb (one_of (bytes_of [32; 9; 10; 13]) c)) s.

Definition bad_ref : goerr := EMsg "ref".

Definition parse_slug (version s : string) : result Ref :=
  match split_byte "/" s with
  | [host; owner; repo] =>
      fail_if negb (bool_decide (host = "github.com")) with bad_ref ;;
      fail_if negb (validRefSegment owner && validRefSegment repo) with bad_ref ;;
      fail_if negb (blank_free version) with bad_ref ;;
      Ok (mkRef host owner repo version)
  | _ => Err bad_ref
  end.

Definition ParseRef (s : string) : result Ref :=
  let s := trim_space s in
  if decide (s = "") then Err bad_ref
  else
    match cut_byte "@" (strip_ref s) with
    | Some (s, version) => if decide (version = "") then Err bad_ref else parse_slug version s
    | None => parse_slug "" (strip_ref s)
    end.

Definition is_hex (a : ascii) : bool := in_range 48 57 a || in_range 97 102 a || in_range 65 70 a.

Definition IsFullSHA (v : string) : bool := bool_decide (String.length v = 40) && all_bytes is_hex v.

(** ** The manifest *)

Record BundleService := mkBundleService { bs_Slug : string; bs_Title : string; bs_Description : string }.

Record TokenField := mkTokenField {
  tf_Name : string; tf_Label : string; tf_Kind : string; tf_Placeholder : string; tf_Help : string;
  tf_Required : bool; tf_Header : string; tf_Template : string
}.

(** [tv_Refresh]: the token URL of a refresh variant. *)
Record TokenVariant := mkTokenVariant {
  tv_ID : string; tv_Title : string; tv_Description : string; tv_Refresh : option string; tv_Fields : list TokenField
}.

Record Manifest := mkManifest {
  mf_SchemaVersion : Z; mf_Name : string; mf_Version : string; mf_Description : string;
  mf_MinProxyVersion : string; mf_MaxProxyVersion : string; mf_APIs : list string;
  mf_Service : option BundleService; mf_Token : list TokenVariant
}.

Definition SchemaVersion : Z := 1.

Definition is_lower (a : ascii) : bool := in_range 97 122 a.

Definition serviceSlug (s : string) : bool :=
  match s with String a r => is_lower a && all_bytes (fun c => is_lower c || in_range 48 57 c || one_of "-" c) r | _ => false end.

Definition idPattern (s : string) : bool :=
  match s with String a r => is_lower a && all_bytes (fun c => is_lower c || in_range 48 57 c || one_of "_-" c) r | _ => false end.

Definition blank (s : string) : bool := bool_decide (trim_space s = "").

Definition validateRelPath (p : string) : result unit :=
  fail_if bool_decide (p = "") with EMsg "path is empty" ;;
  fail_if has_prefix "/" p with EMsg "must be relative" ;;
  fail_if bool_decide (".." ∈ split_byte "/" p) with EMsg "escapes the bundle directory" ;;
  Ok tt.

Definition BundleService_Validate (s : BundleService) : result unit :=
  fail_if negb (serviceSlug (bs_Slug s)) with EMsg "slug" ;;
  fail_if blank (bs_Title s) with EMsg "title is required" ;;
  Ok tt.

Definition TokenField_validate (f : TokenField) : result unit :=
  fail_if negb (idPattern (tf_Name f)) with EMsg "name" ;;
  fail_if negb (bool_decide (tf_Kind f ∈ [""; "text"; "secret"; "multiline"])) with EMsg "kind" ;;
  Ok tt.

(** Validates each element and refuses a repeated key. *)
Fixpoint each_once {A} (validate : A -> result unit) (key : A -> string) (seen : list string) (l : list A) : result unit :=
  match l with
  | [] => Ok tt
  | x :: l =>
      _ ← validate x;
      fail_if bool_decide (key x ∈ seen) with EMsg "duplicate" ;;
      each_once validate key (key x :: seen) l
  end.

Definition TokenVariant_validate (v : TokenVariant) : result unit :=
  fail_if negb (idPattern (tv_ID v)) with EMsg "id" ;;
  fail_if blank (tv_Title v) with EMsg "title is required" ;;
  fail_if bool_decide (tv_Fields v = []) with EMsg "fields: at least one is required" ;;
  fail_if match tv_Refresh v with Some url => blank url | None => false end with EMsg "refresh.token_url is required" ;;
  each_once TokenField_validate tf_Name [] (tv_Fields v).

Definition Manifest_Validate (m : Manifest) : result unit :=
  fail_if bool_decide (mf_SchemaVersion m = 0%Z) with EMsg "schema_version is required" ;;
  fail_if negb (bool_decide (mf_SchemaVersion m = SchemaVersion)) with EMsg "schema_version not supported" ;;
  fail_if blank (mf_Name m) with EMsg "name is required" ;;
  fail_if blank (mf_Version m) with EMsg "version is required" ;;
  fail_if bool_decide (mf_APIs m = []) with EMsg "apis: at least one entry is required" ;;
  _ ← mapM validateRelPath (mf_APIs m);
  _ ← match mf_Service m with Some s => BundleService_Validate s | None => Ok tt end;
  fail_if negb (bool_decide (mf_Token m = [])) && bool_decide (mf_Service m = None) with EMsg "token requires a service" ;;
  each_once TokenVariant_validate tv_ID [] (mf_Token m).

(** ** The install record *)

Record SourceRecord := mkSource {
  src_Ref : string; src_ResolvedSHA : string; src_FetchedAt : Z; src_APIRenames : gmap string string
}.

Definition SourceRecord_Validate (s : SourceRecord) : result unit :=
  fail_if blank (src_Ref s) with EMsg "ref is required" ;;
  fail_if blank (src_ResolvedSHA s) with EMsg "resolved_sha is required" ;;
  fail_if existsb (fun ft => blank ft.1 || blank ft.2) (map_to_list (src_APIRenames s)) with EMsg "api_renames" ;;
  Ok tt.

(** ** Properties *)

Lemma each_once_ok {A} (validate : A -> result unit) (key : A -> string) seen l :
  each_once validate key seen l = Ok tt <->
  Forall (fun x => validate x = Ok tt) l /\ NoDup (map key l) /\ Forall (fun x => key x ∉ seen) l.
Proof.
  revert seen. induction l as [|x l IH]; intros seen; simpl.
  { split; [intros _; repeat constructor|done]. }
  rewrite bind_ok, !Forall_cons, NoDup_cons. setoid_rewrite fail_if_ok. setoid_rewrite IH.
  setoid_rewrite bool_decide_eq_false. setoid_rewrite Forall_forall. split.
  - intros ([] & Hv & Hx & Hl & Hnd & Hs). split; [done|]. split; [split; [|done]|split; [done|]].
    + intros (y & Hy & Hin)%list_elem_of_fmap_1. specialize (Hs y Hin). set_solver.
    + intros y Hy. specialize (Hs y Hy). set_solver.
  - intros ([Hv Hl] & [Hn Hnd] & Hx & Hs). exists tt. split; [done|]. split; [done|]. split; [done|]. split; [done|].
    intros y Hy Hin. apply elem_of_cons in Hin as [E|Hin]; [|by apply (Hs y)].
    apply Hn. rewrite <- E. by apply list_elem_of_fmap_2.
Qed.

Record field_ok (f : TokenField) : Prop := {
  fk_name : idPattern (tf_Name f) = true;
  fk_kind : tf_Kind f ∈ [""; "text"; "secret"; "multiline"]
}.

Record variant_ok (v : TokenVariant) : Prop := {
  vk_id : idPattern (tv_ID v) = true;
  vk_title : trim_space (tv_Title v) <> "";
  vk_refresh : forall url, tv_Refresh v = Some url -> trim_space url <> "";
  vk_fields : tv_Fields v <> [] /\ Forall field_ok (tv_Fields v) /\ NoDup (map tf_Name (tv_Fields v))
}.

Record manifest_ok (m : Manifest) : Prop := {
  mk_schema : mf_SchemaVersion m = SchemaVersion;
  mk_name : trim_space (mf_Name m) <> "" /\ trim_space (mf_Version m) <> "";
  mk_apis : mf_APIs m <> [] /\
    Forall (fun p => p <> "" /\ rooted p = false /\ ".." ∉ split_byte "/" p) (mf_APIs m);
  mk_service : forall s, mf_Service m = Some s -> serviceSlug (bs_Slug s) = true /\ trim_space (bs_Title s) <> "";
  mk_token : mf_Token m <> [] -> mf_Service m <> None;
  mk_variants : Forall variant_ok (mf_Token m) /\ NoDup (map tv_ID (mf_Token m))
}.

Lemma blank_false s : blank s = false <-> trim_space s <> "".
Proof. apply bool_decide_eq_false. Qed.

Lemma validateRelPath_ok p :
  validateRelPath p = Ok tt <-> p <> "" /\ rooted p = false /\ ".." ∉ split_byte "/" p.
Proof. unfold validateRelPath. rewrite !fail_if_ok, !bool_decide_eq_false. tauto. Qed.

Lemma TokenField_validate_ok f : TokenField_validate f = Ok tt <-> field_ok f.
Proof.
  unfold TokenField_validate. rewrite !fail_if_ok, !negb_false_iff, bool_decide_eq_true. split.
  - by intros (H1 & H2 & _).
  - by intros [H1 H2].
Qed.

Lemma TokenVariant_validate_ok v : TokenVariant_validate v = Ok tt <-> variant_ok v.
Proof.
  unfold TokenVariant_validate. rewrite !fail_if_ok, !negb_false_iff, bool_decide_eq_false, each_once_ok, blank_false.
  setoid_rewrite TokenField_validate_ok. split.
  - intros (H1 & H2 & H3 & H4 & H5 & H6 & _). split; try done. intros url E. rewrite E in H4. by apply blank_false.
  - intros [H1 H2 H3 (H4 & H5 & H6)]. split; [done|]. split; [done|]. split; [done|].
    split; [|split; [done|split; [done|]]].
    + destruct (tv_Refresh v) as [url|]; [by apply blank_false, H3|done].
    + apply Forall_forall. set_solver.
Qed.

Lemma mapM_unit_ok {A} (f : A -> result unit) l :
  (exists us, mapM f l = Ok us) <-> Forall (fun x => f x = Ok tt) l.
Proof.
  setoid_rewrite mapM_ok. split.
  - intros [us H]. induction H as [|x [] l us Hx _ IH]; by constructor.
  - induction 1 as [|x l Hx _ [us IH]]; [by exists []|]. exists (tt :: us). by constructor.
Qed.

Lemma rel_path_under cwd p : rooted p = false -> ".." ∉ split_byte "/" p -> under cwd (resolve cwd p).
Proof.
  intros Hr. unfold resolve, base. rewrite Hr. generalize cwd. induction (split_byte "/" p) as [|x l IH];
    intros d Hx; [apply under_refl|].
  simpl. eapply under_trans; [|apply IH; set_solver]. unfold os_step. case_decide; [apply under_refl|].
  rewrite decide_False by set_solver. apply under_cons, under_refl.
Qed.

Lemma Manifest_Validate_ok m : Manifest_Validate m = Ok tt <-> manifest_ok m.
Proof.
  unfold Manifest_Validate. rewrite !fail_if_ok, !bind_ok, !negb_false_iff, !bool_decide_eq_false, bool_decide_eq_true,
    !blank_false. setoid_rewrite bind_ok. setoid_rewrite fail_if_ok. setoid_rewrite each_once_ok. split.
  - intros (_ & H1 & H2 & H3 & H4 & us & H5 & [] & H6 & H7 & H8 & H9 & _). split; try done.
    + split; [done|]. eapply Forall_impl; [apply (proj1 (mapM_unit_ok _ _) (ex_intro _ us H5))|].
      intros p. apply validateRelPath_ok.
    + intros s Hs. rewrite Hs in H6. unfold BundleService_Validate in H6.
      rewrite !fail_if_ok, negb_false_iff, blank_false in H6. tauto.
    + intros Ht Hs. rewrite (bool_decide_eq_false_2 _ Ht), (bool_decide_eq_true_2 _ Hs) in H7. done.
    + split; [|done]. eapply Forall_impl; [exact H8|]. intros v. apply TokenVariant_validate_ok.
  - intros [H1 [H2 H3] [H4 H5] H6 H7 [H8 H9]]. rewrite H1. split; [done|]. split; [done|]. split; [done|].
    split; [done|]. split; [done|].
    destruct (proj2 (mapM_unit_ok validateRelPath (mf_APIs m))) as [us Hus].
    { eapply Forall_impl; [exact H5|]. intros p. apply validateRelPath_ok. }
    exists us. split; [done|]. exists tt. split; [|split; [|split; [|split; [done|]]]].
    + destruct (mf_Service m) as [s|]; [|done]. destruct (H6 s eq_refl). unfold BundleService_Validate.
      rewrite !fail_if_ok, negb_false_iff, blank_false. done.
    + destruct (decide (mf_Token m = [])) as [->|Ht]; [done|]. apply andb_false_intro2.
      apply bool_decide_eq_false. by apply H7.
    + eapply Forall_impl; [exact H8|]. intros v. apply TokenVariant_validate_ok.
    + apply Forall_forall. set_solver.
Qed.

Lemma validRefSegment_free s c :
  validRefSegment s = true -> is_alnum c = false -> one_of "._-" c = false -> has_byte c s = false.
Proof.
  destruct s as [|a s]; [done|]. intros [Ha Hs]%andb_true_iff Hc Hd. simpl. apply orb_false_iff. split.
  - apply bool_decide_eq_false. intros ->. congruence.
  - eapply all_bytes_free; [|exact Hs]. change (is_alnum c || one_of "._-" c = false). by rewrite Hc, Hd.
Qed.

Lemma validRefSegment_plain s : validRefSegment s = true -> plain s /\ slashless s.
Proof.
  intros H. split; [|by apply validRefSegment_free]. split; [by intros ->|]. split; by intros ->.
Qed.

Record ref_ok (r : Ref) : Prop := {
  rk_host : ref_Host r = "github.com";
  rk_owner : validRefSegment (ref_Owner r) = true;
  rk_repo : validRefSegment (ref_Repo r) = true;
  rk_version : blank_free (ref_Version r) = true
}.

Lemma parse_slug_ok v s r :
  parse_slug v s = Ok r <-> ref_ok r /\ ref_Version r = v /\ s = Slug r.
Proof.
  unfold parse_slug. split.
  - destruct (split_byte "/" s) as [|h [|o [|p [|]]]] eqn:E; try done.
    rewrite !fail_if_ok, !negb_false_iff, andb_true_iff, bool_decide_eq_true. intros (-> & [Ho Hp] & Hv & [= <-]).
    split; [done|]. split; [done|]. rewrite <- (join_split "/" s), E. done.
  - intros ([Hh Ho Hp Hv] & <- & ->). assert (split_byte "/" (Slug r) = [ref_Host r; ref_Owner r; ref_Repo r]) as ->.
    { apply (split_join "/" [_; _; _]); [done|]. rewrite Hh. repeat constructor; by apply validRefSegment_plain. }
    rewrite !fail_if_ok, Ho, Hp, Hv, Hh. rewrite bool_decide_eq_true_2 by done. repeat (split; [done|]).
    f_equal. destruct r; simpl in *; congruence.
Qed.

Lemma ParseRef_ok s r :
  ParseRef s = Ok r -> ref_ok r /\ strip_ref (trim_space s) = Ref_String r.
Proof.
  unfold ParseRef. cbn zeta. case_decide; [done|]. unfold Ref_String.
  destruct (cut_byte "@" (strip_ref (trim_space s))) as [[x v]|] eqn:E.
  - case_decide as Hv; [done|]. intros (Hr & Hver & ->)%parse_slug_ok. apply cut_byte_Some in E.
    rewrite Hver, decide_False by done. done.
  - intros (Hr & Hver & ->)%parse_slug_ok. by rewrite decide_True.
Qed.

Lemma ParseRef_String r :
  ref_ok r -> trim_space (Ref_String r) = Ref_String r -> strip_ref (Ref_String r) = Ref_String r ->
  ParseRef (Ref_String r) = Ok r.
Proof.
  intros Hr Ht Hs. unfold ParseRef. cbn zeta. rewrite Ht, Hs. destruct Hr as [Hh Ho Hp Hv] eqn:Er.
  assert (has_byte "@" (Slug r) = false) as Hat.
  { unfold Slug. rewrite Hh, !has_byte_app.
    by rewrite (validRefSegment_free (ref_Owner r) "@"), (validRefSegment_free (ref_Repo r) "@") by done. }
  rewrite decide_False.
  - unfold Ref_String. case_decide as E.
    + rewrite cut_byte_free by done. by apply parse_slug_ok.
    + change ("@" +:+ ref_Version r) with (String "@" (ref_Version r)). rewrite cut_byte_app by done.
      rewrite decide_False by done. by apply parse_slug_ok.
  - unfold Ref_String, Slug. rewrite Hh. by case_decide.
Qed.

(** A parsed reference is safe to build paths and URLs from, and reads back.
    Whatever text [ParseRef] accepts, the host is github.com, owner and
    repository are single path components that are neither empty nor dots, and
    the version has no blanks; the text of the reference is what was left of
    the input once blanks, scheme, one trailing slash and one [.git] were
    dropped, and unless the text itself ends in one of these it parses to the
    same reference. *)
Theorem ParseRef_safe (s : string) (r : Ref) (Hparse : ParseRef s = Ok r) :
  ref_Host r = "github.com" /\
  plain (ref_Owner r) /\ slashless (ref_Owner r) /\ plain (ref_Repo r) /\ slashless (ref_Repo r) /\
  blank_free (ref_Version r) = true /\
  Ref_String r = strip_ref (trim_space s) /\
  (trim_space (Ref_String r) = Ref_String r -> strip_ref (Ref_String r) = Ref_String r ->
   ParseRef (Ref_String r) = Ok r).
Proof.
  destruct (ParseRef_ok _ _ Hparse) as [Hr Hs]. destruct Hr as [Hh Ho Hp Hv] eqn:Er.
  destruct (validRefSegment_plain _ Ho), (validRefSegment_plain _ Hp).
  do 6 (split; [done|]). split; [done|]. by apply ParseRef_String.
Qed.

Definition demo_ref : Ref := mkRef "github.com" "acme" "apis" "v1.2".

Lemma ParseRef_safe_witness :
  ParseRef " https://github.com/acme/apis@v1.2/" = Ok demo_ref /\ plain (ref_Repo demo_ref) /\
  ParseRef (Ref_String demo_ref) = Ok demo_ref.
Proof.
  destruct (ParseRef_safe " https://github.com/acme/apis@v1.2/" demo_ref) as (_ & _ & _ & Hp & _ & _ & _ & H);
    [vm_compute; reflexivity|].
  split; [vm_compute; reflexivity|]. split; [exact Hp|]. apply H; vm_compute; reflexivity.
Defined.

(** With a version the [.git] of a clone URL is not at the end and stays, so
    the same repository has two slugs. *)
Example git_suffix_kept :
  (Slug <$> ParseRef "https://github.com/acme/apis.git@v1") = Ok "github.com/acme/apis.git" /\
  (Slug <$> ParseRef "https://github.com/acme/apis@v1") = Ok "github.com/acme/apis".
Proof. vm_compute. done. Qed.

(** The manifest's name is free text, and the directory of the bundle is
    joined from it. *)
Definition escaping_manifest : Manifest := mkManifest 1 "../../etc/cron.d" "1" "" "" "" ["apis"] None [].

Example escaping_name_accepted :
  Manifest_Validate escaping_manifest = Ok tt /\
  Join "/var/lib/apis" (mf_Name escaping_manifest) = "/var/etc/cron.d".
Proof. vm_compute. done. Qed.

(** A manifest is accepted exactly when it is well formed: the one schema
    version, a name, a version, at least one API path, each of them relative
    and without a parent component, a slug of the documented shape, token
    variants only with a service, and identifiers of the documented shape that
    do not repeat; and whatever directory the bundle is in, each path of an
    accepted manifest names something inside it. *)
Theorem Manifest_Validate_spec (m : Manifest) :
  (Manifest_Validate m = Ok tt <-> manifest_ok m) /\
  (forall root p, Manifest_Validate m = Ok tt -> p ∈ mf_APIs m -> under root (resolve root p)).
Proof.
  split; [apply Manifest_Validate_ok|]. intros root p [_ _ [_ Hp] _ _ _]%Manifest_Validate_ok Hin.
  rewrite Forall_forall in Hp. destruct (Hp _ Hin) as (_ & Hr & Hd). by apply rel_path_under.
Qed.
