(* ===== verification/Disk.v ===== *)
(** * Directories and files

    What the Go code asks of the operating system, over a finite map from
    resolved paths to inodes: no symbolic links, permissions or hard links.
    Every call may fail by script, and every change leaves the disk it made in
    the history, so that a theorem can speak of the state a killed process
    leaves behind. *)

From S2P Require Import Prelude GoStd Paths.

Inductive inode : Type :=
  | IFile (data : string)
  | IDir.

#[export] Instance inode_eq_dec : EqDecision inode.
Proof. solve_decision. Defined.

Notation disk := (gmap path inode).

(** The newest past disk comes first. *)
Record world := mkWorld {
  w_disk : disk;
  w_cwd : path;
  w_faults : list bool;
  w_past : list disk
}.

Definition io (A : Type) := world -> result A * world.

Definition io_ret {A} (a : A) : io A := fun w => (Ok a, w).
Definition io_fail {A} (e : goerr) : io A := fun w => (Err e, w).

Definition io_bind {A B} (m : io A) (f : A -> io B) : io B := fun w =>
  match m w with
  | (Ok a, w) => f a w
  | (Err e, w) => (Err e, w)
  end.

(** What the call returned, its error included. *)
Definition io_try {A} (m : io A) : io (result A) := fun w => let '(r, w) := m w in (Ok r, w).

(** A deferred cleanup that runs unless the body committed. *)
Definition unless_committed {A} (m : io A) (cleanup : io unit) : io A := fun w =>
  match m w with
  | (Ok a, w) => (Ok a, w)
  | (Err e, w) => (Err e, (cleanup w).2)
  end.

Definition io_lift {A} (r : result A) : io A := fun w => (r, w).

Declare Scope io_scope.
Delimit Scope io_scope with io.
Notation "'do' x <- m ; k" := (io_bind m (fun x => k)) (at level 10, x pattern, m at level 100, k at level 200) : io_scope.
Notation "'do!' m ; k" := (io_bind m (fun _ => k)) (at level 10, m at level 100, k at level 200) : io_scope.
Open Scope io_scope.

Definition ENOENT : goerr := ESentinel "ErrNotExist".
Definition EEXIST : goerr := ESentinel "ErrExist".
Definition ENOTDIR : goerr := EMsg "not a directory".
Definition EISDIR : goerr := EMsg "is a directory".

(** The root is always there. *)
Definition stat (p : path) (d : disk) : option inode := if decide (p = []) then Some IDir else d !! p.

(** A call that reads, and one that changes the disk. *)
Definition sys_read {A} (f : disk -> result A) : io A := fun w =>
  let '(fault, fs) := pop (w_faults w) in
  let w := mkWorld (w_disk w) (w_cwd w) fs (w_past w) in
  if fault then (Err disk_error, w) else (f (w_disk w), w).

Definition sys_write (f : disk -> result disk) : io unit := fun w =>
  let '(fault, fs) := pop (w_faults w) in
  let w := mkWorld (w_disk w) (w_cwd w) fs (w_past w) in
  if fault then (Err disk_error, w)
  else
    match f (w_disk w) with
    | Ok d => (Ok tt, mkWorld d (w_cwd w) fs (w_disk w :: w_past w))
    | Err e => (Err e, w)
    end.

Definition at_path {A} (p : string) (f : path -> io A) : io A := fun w => f (resolve (w_cwd w) p) w.

(** ** The calls *)

Definition Stat (p : string) : io inode := at_path p (fun p =>
  sys_read (fun d => match stat p d with Some i => Ok i | None => Err ENOENT end)).

Definition ReadFile (p : string) : io string := at_path p (fun p =>
  sys_read (fun d => match stat p d with Some (IFile b) => Ok b | Some IDir => Err EISDIR | None => Err ENOENT end)).

Definition children (p : path) (d : disk) : list string :=
  omap (fun q => match q with x :: q' => if decide (q' = p) then Some x else None | [] => None end)
    (map_to_list d).*1.

(** Names in order, each with whether it is a directory. *)
Definition dir_entries (p : path) (d : disk) : list (string * bool) :=
  map (fun n => (n, bool_decide (stat (n :: p) d = Some IDir))) (sort_strings (children p d)).

(** [os.ReadDir] *)
Definition ReadDir (p : string) : io (list (string * bool)) := at_path p (fun p =>
  sys_read (fun d =>
    match stat p d with
    | Some IDir => Ok (dir_entries p d)
    | Some (IFile _) => Err ENOTDIR
    | None => Err ENOENT
    end)).

Definition mkdir (p : path) (d : disk) : result disk :=
  match stat p d, stat (tail p) d with
  | Some _, _ => Err EEXIST
  | None, Some IDir => Ok (<[p := IDir]> d)
  | None, Some (IFile _) => Err ENOTDIR
  | None, None => Err ENOENT
  end.

(** [os.MkdirAll], one directory at a time. *)
Fixpoint mkdir_all (p : path) : io unit :=
  do i <- sys_read (fun d => Ok (stat p d));
  match i with
  | Some IDir => io_ret tt
  | Some (IFile _) => io_fail ENOTDIR
  | None =>
      match p with
      | [] => io_ret tt
      | _ :: q => do! mkdir_all q; sys_write (mkdir p)
      end
  end.

Definition MkdirAll (p : string) : io unit := at_path p mkdir_all.

(** [os.MkdirTemp(dir, pattern)]: [name] is the pattern with its random part,
    which the call chooses so that nothing is there. *)
Definition MkdirTemp (dir name : string) : io string :=
  do! at_path (Join dir name) (fun p => sys_write (mkdir p)); io_ret (Join dir name).

Definition create (p : path) (d : disk) : result disk :=
  match stat p d, stat (tail p) d with
  | Some IDir, _ => Err EISDIR
  | _, Some IDir => Ok (<[p := IFile ""]> d)
  | _, Some (IFile _) => Err ENOTDIR
  | _, None => Err ENOENT
  end.

(** [O_CREATE|O_TRUNC], then the bytes in one write. *)
Definition write_file (data : string) (p : path) : io unit :=
  do! sys_write (create p);
  sys_write (fun d => match stat p d with Some (IFile _) => Ok (<[p := IFile data]> d) | _ => Err (EMsg "no such file") end).

(** What is at or below [p], and where it goes when [src] becomes [dst]. *)
Definition below (d p : path) : bool := bool_decide (drop (length p - length d) p = d).

Definition relocate (src dst p : path) : path := take (length p - length src) p ++ dst.

Definition subtree (p : path) (d : disk) : disk := filter (fun kv => below p kv.1 = true) d.
Definition outside (p : path) (d : disk) : disk := filter (fun kv => below p kv.1 = false) d.

Definition moved (src dst : path) (d : disk) : disk :=
  list_to_map ((fun kv => (relocate src dst kv.1, kv.2)) <$> map_to_list (subtree src d)).

(** [rename(2)] of a directory or a file to a place where nothing is, or of a
    file over a file. *)
Definition rename (src dst : path) (d : disk) : result disk :=
  match stat src d, stat dst d, stat (tail dst) d with
  | None, _, _ => Err ENOENT
  | Some i, target, Some IDir =>
      if below src dst && negb (bool_decide (src = dst)) then Err (EMsg "invalid argument")
      else
        match i, target with
        | _, None | IFile _, Some (IFile _) => Ok (moved src dst d ∪ outside dst (outside src d))
        | IFile _, Some IDir => Err EISDIR
        | IDir, Some (IFile _) => Err ENOTDIR
        | IDir, Some IDir =>
            if bool_decide (children dst d = []) then Ok (moved src dst d ∪ outside dst (outside src d))
            else Err (EMsg "directory not empty")
        end
  | _, _, _ => Err ENOENT
  end.

Definition Rename (src dst : string) : io unit := at_path src (fun s => at_path dst (fun t => sys_write (rename s t))).

(** [os.RemoveAll], in one step. *)
Definition RemoveAll (p : string) : io unit := at_path p (fun p => sys_write (fun d => Ok (outside p d))).

(** ** Lemmas *)

Lemma below_under d p : below d p = true <-> under d p.
Proof.
  unfold below, under. rewrite bool_decide_eq_true. split.
  - intros E. exists (take (length p - length d) p). rewrite <- (take_drop (length p - length d) p) at 1. by rewrite E.
  - intros [k ->]. rewrite length_app. replace (length k + length d - length d) with (length k) by lia.
    by rewrite drop_app_length.
Qed.

Lemma relocate_app src dst k : relocate src dst (k ++ src) = k ++ dst.
Proof.
  unfold relocate. rewrite length_app. replace (length k + length src - length src) with (length k) by lia.
  by rewrite take_app_length.
Qed.

Lemma subtree_lookup p d k : subtree p d !! (k ++ p) = d !! (k ++ p).
Proof.
  unfold subtree. apply option_eq. intros i. rewrite map_lookup_filter_Some. simpl.
  assert (below p (k ++ p) = true) by (apply below_under; by exists k). naive_solver.
Qed.

Lemma outside_lookup p d q : ~ under p q -> outside p d !! q = d !! q.
Proof.
  intros Hq. unfold outside. apply option_eq. intros i. rewrite map_lookup_filter_Some. simpl.
  assert (below p q = false) by (apply not_true_iff_false; by rewrite below_under). naive_solver.
Qed.

Lemma outside_lookup_none p d q : under p q -> outside p d !! q = None.
Proof.
  intros Hq. apply map_lookup_filter_None. right. intros i _. simpl. by rewrite (proj2 (below_under _ _) Hq).
Qed.

(** After a move the destination holds what the source held. *)
Lemma moved_lookup src dst d k : moved src dst d !! (k ++ dst) = d !! (k ++ src).
Proof.
  rewrite <- (subtree_lookup src d k). unfold moved. apply option_eq. intros i.
  assert (NoDup ((fun kv : path * inode => (relocate src dst kv.1, kv.2)) <$> map_to_list (subtree src d)).*1) as Hnd.
  { rewrite <- list_fmap_compose.
    pose proof (NoDup_fst_map_to_list (subtree src d)) as Hk.
    assert (forall kv, kv ∈ map_to_list (subtree src d) -> under src kv.1) as Hu.
    { intros [q j] Hin%elem_of_map_to_list. apply map_lookup_filter_Some in Hin as [_ Hb]. by apply below_under. }
    revert Hk Hu. generalize (map_to_list (subtree src d)). intros l. induction l as [|[q j] l IH]; [constructor|].
    simpl. rewrite !NoDup_cons. intros [Hq Hl] Hu. split; [|apply IH; [done|set_solver]].
    intros ([q' j'] & E & Hin)%list_elem_of_fmap_1. simpl in E. apply Hq.
    destruct (Hu (q, j)) as [a Ha]; [set_solver|]. destruct (Hu (q', j')) as [b Hb]; [set_solver|]. simpl in *.
    subst q q'. rewrite !relocate_app in E. apply app_inv_tail in E as ->. by apply (list_elem_of_fmap_2 fst) in Hin. }
  rewrite <- (elem_of_list_to_map _ _ _ Hnd). split.
  - intros ([q j] & E & Hin)%list_elem_of_fmap_1. simpl in E. injection E as E ->.
    apply elem_of_map_to_list in Hin. pose proof Hin as Hb. unfold subtree in Hb.
    apply map_lookup_filter_Some in Hb as [_ Hb]. simpl in Hb. apply below_under in Hb as [a ->].
    rewrite relocate_app in E. apply app_inv_tail in E as ->. exact Hin.
  - intros Hk. apply list_elem_of_fmap. exists (k ++ src, i). simpl. rewrite relocate_app. split; [done|].
    by apply elem_of_map_to_list.
Qed.

Lemma moved_outside src dst d q : ~ under dst q -> moved src dst d !! q = None.
Proof.
  intros Hq. unfold moved. apply not_elem_of_list_to_map. rewrite <- list_fmap_compose.
  intros ([q' j] & -> & Hin)%list_elem_of_fmap_1. apply Hq. simpl. apply elem_of_map_to_list in Hin.
  unfold subtree in Hin. apply map_lookup_filter_Some in Hin as [_ Hb]. simpl in Hb. apply below_under in Hb as [k ->].
  rewrite relocate_app. by exists k.
Qed.

(** ** Reasoning about every state a call passes through *)

(** From [cwd], whatever [m] returns, it keeps the working directory, and every
    state it makes is related to the first by [R]. *)
Definition steps_in (cwd : path) (R : disk -> disk -> Prop) {A} (m : io A) : Prop :=
  forall w r w', w_cwd w = cwd -> m w = (r, w') ->
    w_cwd w' = cwd /\ R (w_disk w) (w_disk w') /\
    exists new, w_past w' = new ++ w_past w /\ Forall (R (w_disk w)) new.

Section steps_in.
Context (cwd : path) (R : disk -> disk -> Prop) `{!PreOrder R}.

Lemma steps_in_pure {A} (r : result A) : steps_in cwd R (io_lift r).
Proof. intros w r' w' Hc [= <- <-]. split; [done|]. split; [done|]. by exists []. Qed.

Lemma steps_in_ret {A} (a : A) : steps_in cwd R (io_ret a).
Proof. apply (steps_in_pure (Ok a)). Qed.

Lemma steps_in_fail {A} e : steps_in cwd R (@io_fail A e).
Proof. apply (steps_in_pure (Err e)). Qed.

Lemma steps_in_bind {A B} (m : io A) (f : A -> io B) :
  steps_in cwd R m -> (forall a, steps_in cwd R (f a)) -> steps_in cwd R (io_bind m f).
Proof.
  intros Hm Hf w r w' Hc. unfold io_bind. destruct (m w) as [[a|e] w1] eqn:E.
  2: { intros [= <- <-]. by apply Hm in E. }
  apply Hm in E as (Hc1 & HR & new & Hp & Hn); [|done]. intros E2.
  apply Hf in E2 as (Hc2 & HR2 & new2 & Hp2 & Hn2); [|done]. split; [done|]. split; [by etrans|].
  exists (new2 ++ new). rewrite Hp2, Hp, app_assoc. split; [done|]. apply Forall_app. split; [|done].
  eapply Forall_impl; [exact Hn2|]. intros d Hd. by etrans.
Qed.

Lemma steps_in_try {A} (m : io A) : steps_in cwd R m -> steps_in cwd R (io_try m).
Proof.
  intros Hm w r w' Hc. unfold io_try. destruct (m w) as [r1 w1] eqn:E. intros [= <- <-]. by apply Hm in E.
Qed.

Lemma steps_in_at {A} p (f : path -> io A) : steps_in cwd R (f (resolve cwd p)) -> steps_in cwd R (at_path p f).
Proof. intros Hf w r w' Hc. unfold at_path. rewrite Hc. by apply Hf. Qed.

Lemma steps_in_read {A} (f : disk -> result A) : steps_in cwd R (sys_read f).
Proof.
  intros w r w' Hc. unfold sys_read. destruct (pop _) as [[] fs]; intros [= <- <-]; (split; [done|]);
    (split; [done|]); by exists [].
Qed.

Lemma steps_in_write f : (forall d d', f d = Ok d' -> R d d') -> steps_in cwd R (sys_write f).
Proof.
  intros Hf w r w' Hc. unfold sys_write. destruct (pop _) as [[] fs]; [intros [= <- <-]|].
  { split; [done|]. split; [done|]. by exists []. }
  simpl. destruct (f (w_disk w)) as [d|e] eqn:E; intros [= <- <-]; (split; [done|]).
  - simpl. split; [by apply Hf|]. exists [w_disk w]. split; [done|]. by repeat constructor.
  - split; [done|]. by exists [].
Qed.

Lemma steps_in_cleanup {A} (m : io A) c : steps_in cwd R m -> steps_in cwd R c ->
  steps_in cwd R (unless_committed m c).
Proof.
  intros Hm Hk w r w' Hc. unfold unless_committed. destruct (m w) as [[a|e] w1] eqn:E; [intros [= <- <-]; by apply Hm in E|].
  apply Hm in E as (Hc1 & HR & new & Hp & Hn); [|done]. destruct (c w1) as [r2 w2] eqn:E2. intros [= <- <-].
  apply Hk in E2 as (Hc2 & HR2 & new2 & Hp2 & Hn2); [|done]. simpl. split; [done|]. split; [by etrans|].
  exists (new2 ++ new). rewrite Hp2, Hp, app_assoc. split; [done|]. apply Forall_app. split; [|done].
  eapply Forall_impl; [exact Hn2|]. intros d Hd. by etrans.
Qed.
End steps_in.

(** ** Working below a directory *)

(** Everything above [D], itself included, is a directory. *)
Definition dirs_to (D : path) (d : disk) : Prop := forall p, under p D -> stat p d = Some IDir.

(** [d'] came from [d] by changes below [D] only. *)
Definition below_only (D : path) (d d' : disk) : Prop :=
  dirs_to D d -> dirs_to D d' /\ forall p, ~ (under D p /\ p <> D) -> d' !! p = d !! p.

#[export] Instance below_only_preorder D : PreOrder (below_only D).
Proof.
  split; [by intros d|]. intros a b c Hab Hbc Ha. destruct (Hab Ha) as [Hb E1]. destruct (Hbc Hb) as [Hc E2].
  split; [done|]. intros p Hp. by rewrite E2, E1.
Qed.

Lemma under_antisym p q : under p q -> under q p -> p = q.
Proof.
  intros [k ->] [l E]. rewrite app_assoc in E. rewrite <- (app_nil_l p) in E at 1. apply app_inv_tail in E.
  symmetry in E. apply app_eq_nil in E as [_ ->]. done.
Qed.

Lemma below_only_insert D p i d :
  under D p -> p <> D -> below_only D d (<[p := i]> d).
Proof.
  intros Hp Hne Hd. split.
  - intros q Hq. assert (q <> p) as Hqp by (intros ->; apply Hne; by apply under_antisym).
    specialize (Hd q Hq). unfold stat in *. case_decide; [done|]. by rewrite lookup_insert_ne.
  - intros q Hq. rewrite lookup_insert_ne; [done|]. intros <-. by apply Hq.
Qed.

Lemma mkdir_below D p d d' : under D p \/ under p D -> mkdir p d = Ok d' -> below_only D d d'.
Proof.
  intros Hp. unfold mkdir. destruct (stat p d) eqn:Es; [done|]. destruct (stat (tail p) d) as [[]|]; try done.
  intros [= <-] Hd. assert (~ under p D) as Hn by (intros Hu; apply Hd in Hu; congruence).
  destruct Hp as [Hp|]; [|done]. apply below_only_insert; [done| |done]. intros ->. apply Hn, under_refl.
Qed.

Lemma create_below D p d d' : under D p -> create p d = Ok d' -> below_only D d d'.
Proof.
  intros Hp Hc Hd. assert (p <> D) as Hne.
  { intros ->. unfold create in Hc. by rewrite (Hd D (under_refl D)) in Hc. }
  unfold create in Hc. destruct (stat p d) as [[]|], (stat (tail p) d) as [[]|]; try done;
    injection Hc as <-; by apply below_only_insert.
Qed.

Lemma under_tail D p : under D p \/ under p D -> under D (tail p) \/ under (tail p) D.
Proof.
  intros [[k ->]|[k ->]].
  - destruct k as [|x k]; simpl; [right|left; by exists k]. destruct D as [|x D]; [apply under_refl|by exists [x]].
  - right. destruct p as [|x p]; simpl; [by exists k|]. simpl. exists (k ++ [x]).
    by rewrite <- app_assoc.
Qed.

Lemma mkdir_all_below cwd D p : under D p \/ under p D -> steps_in cwd (below_only D) (mkdir_all p).
Proof.
  induction p as [|x p IH]; intros Hp; cbn [mkdir_all]; apply steps_in_bind; try apply _; try apply steps_in_read;
    try apply _; intros [[]|]; try apply steps_in_ret; try apply steps_in_fail; try apply _.
  apply steps_in_bind; [apply _|by apply IH, (under_tail D (x :: p))|]. intros _. apply steps_in_write; [apply _|].
  intros d d'. by apply mkdir_below.
Qed.

Lemma write_file_below cwd D data p : under D p -> steps_in cwd (below_only D) (write_file data p).
Proof.
  intros Hp. apply steps_in_bind; [apply _|apply steps_in_write; [apply _|]; intros d d'; by apply create_below|].
  intros _. apply steps_in_write; [apply _|]. intros d d'. destruct (stat p d) as [[]|] eqn:E; try done.
  intros [= <-] Hd. assert (p <> D) as Hne by (intros ->; rewrite (Hd D (under_refl D)) in E; done).
  by apply below_only_insert.
Qed.

(** ** Making a directory *)

(** On a real disk everything is in a directory. *)
Definition disk_wf (d : disk) : Prop := forall p i, d !! p = Some i -> p <> [] /\ stat (tail p) d = Some IDir.

#[export] Instance disk_wf_dec d : Decision (disk_wf d).
Proof. exact (map_Forall_dec (fun p i => p <> [] /\ stat (tail p) d = Some IDir) d). Defined.

(** [d'] is [d] with some of the missing directories on the way to [D]. *)
Definition adds_dirs (D : path) (d d' : disk) : Prop :=
  (forall p, d' !! p = d !! p \/ (under p D /\ d !! p = None /\ d' !! p = Some IDir)) /\ (disk_wf d -> disk_wf d').

#[export] Instance adds_dirs_preorder D : PreOrder (adds_dirs D).
Proof.
  split; [intros d; split; [by left|done]|]. intros a b c [Hab Wab] [Hbc Wbc]. split; [|by eauto]. intros p.
  destruct (Hab p) as [E|(Hu & Ha & Hb)], (Hbc p) as [E'|(Hu' & Hb' & Hc)]; try congruence.
  - left. congruence.
  - right. rewrite <- E. done.
  - right. rewrite E'. done.
Qed.

Lemma stat_lookup p d i : d !! p = Some i -> p <> [] -> stat p d = Some i.
Proof. intros E Hp. unfold stat. by rewrite decide_False. Qed.

Lemma mkdir_ok p d d' :
  mkdir p d = Ok d' -> p <> [] /\ d !! p = None /\ stat (tail p) d = Some IDir /\ d' = <[p := IDir]> d.
Proof.
  unfold mkdir. destruct (stat p d) eqn:Es; [done|]. destruct (stat (tail p) d) as [[]|]; try done. intros [= <-].
  unfold stat in Es. by destruct (decide (p = [])).
Qed.

Lemma insert_wf p i d :
  disk_wf d -> p <> [] -> stat (tail p) d = Some IDir -> (forall b, i = IFile b -> stat p d <> Some IDir) ->
  disk_wf (<[p := i]> d).
Proof.
  intros Hwf Hp Ht Hi. assert (forall q, stat q d = Some IDir -> stat q (<[p := i]> d) = Some IDir) as Hs.
  { intros q Hq. unfold stat in *. case_decide; [done|]. destruct (decide (p = q)) as [<-|]; [|by rewrite lookup_insert_ne].
    rewrite lookup_insert_eq. destruct i as [b|]; [|done]. exfalso. apply (Hi b eq_refl). by rewrite decide_False. }
  intros q j [[<- <-]|[_ Hq]]%lookup_insert_Some; [by split; [|apply Hs]|]. destruct (Hwf _ _ Hq). split; [done|].
  by apply Hs.
Qed.

Lemma mkdir_adds D p d d' : under p D -> mkdir p d = Ok d' -> adds_dirs D d d'.
Proof.
  intros Hu (Hp & Hn & Ht & ->)%mkdir_ok. split; [|intros Hwf; by apply insert_wf]. intros q.
  destruct (decide (p = q)) as [<-|Hne]; [right; by rewrite lookup_insert_eq|left; by rewrite lookup_insert_ne].
Qed.

Lemma mkdir_all_adds cwd D p : under p D -> steps_in cwd (adds_dirs D) (mkdir_all p).
Proof.
  induction p as [|x p IH]; intros Hp; cbn [mkdir_all]; apply steps_in_bind; try apply _; try apply steps_in_read;
    try apply _; intros [[]|]; try apply steps_in_ret; try apply steps_in_fail; try apply _.
  apply steps_in_bind; [apply _| |].
  - apply IH. destruct Hp as [k ->]. exists (k ++ [x]). by rewrite <- app_assoc.
  - intros _. apply steps_in_write; [apply _|]. intros d d'. by apply mkdir_adds.
Qed.

Lemma wf_dirs d p : disk_wf d -> stat p d = Some IDir -> dirs_to p d.
Proof.
  intros Hwf Hp q [k ->]. revert Hp. induction k as [|x k IH]; intros Hp; [done|]. apply IH.
  unfold stat in Hp. simpl in Hp. by apply Hwf in Hp as [_ Hp].
Qed.

Lemma mkdir_all_ok p w w' : mkdir_all p w = (Ok tt, w') -> stat p (w_disk w') = Some IDir.
Proof.
  destruct p as [|x p]; [by intros; unfold stat; rewrite decide_True|].
  cbn [mkdir_all]. unfold io_bind, sys_read. destruct (pop _) as [[] fs]; [done|]. simpl.
  destruct (stat (x :: p) (w_disk w)) as [[]|] eqn:E; [done|by intros [= <-]|].
  destruct (mkdir_all p _) as [[[]|e] w1]; [|done]. unfold sys_write. destruct (pop _) as [[] fs1]; [done|]. simpl.
  destruct (mkdir (x :: p) (w_disk w1)) as [d|] eqn:Em; [|done]. intros [= <-]. simpl.
  apply mkdir_ok in Em as (_ & _ & _ & ->). unfold stat. rewrite decide_False by done. by rewrite lookup_insert_eq.
Qed.

(** ** Bytes on disk *)

Definition length_z (s : string) : Z := Z.of_nat (String.length s).
Definition inode_bytes (i : inode) : Z := match i with IFile b => length_z b | IDir => 0 end.
Definition disk_bytes (d : disk) : Z := map_fold (fun _ i n => inode_bytes i + n)%Z 0%Z d.

Lemma inode_bytes_nonneg i : (0 <= inode_bytes i)%Z.
Proof. destruct i; simpl; unfold length_z; lia. Qed.

Lemma disk_bytes_new p i d : d !! p = None -> disk_bytes (<[p := i]> d) = (inode_bytes i + disk_bytes d)%Z.
Proof. intros Hp. apply (map_fold_insert_L (fun _ i n => (inode_bytes i + n)%Z)); [intros; lia|done]. Qed.

Lemma disk_bytes_insert p i d : (disk_bytes (<[p := i]> d) <= disk_bytes d + inode_bytes i)%Z.
Proof.
  destruct (d !! p) as [j|] eqn:E; [|rewrite disk_bytes_new by done; lia].
  rewrite <- insert_delete_eq, disk_bytes_new by apply lookup_delete_eq.
  rewrite <- (insert_delete_id d p j E) at 2. rewrite disk_bytes_new by apply lookup_delete_eq.
  pose proof (inode_bytes_nonneg j). lia.
Qed.

(** Whatever [m] returns, no state it makes holds more than [n] bytes more. *)
Definition grows (n : Z) {A} (m : io A) : Prop :=
  forall w r w', m w = (r, w') ->
    (disk_bytes (w_disk w') <= disk_bytes (w_disk w) + n)%Z /\
    exists new, w_past w' = new ++ w_past w /\
      Forall (fun d => disk_bytes d <= disk_bytes (w_disk w) + n)%Z new.

Lemma grows_weaken {A} a b (m : io A) : (a <= b)%Z -> grows a m -> grows b m.
Proof.
  intros Hab Hm w r w' E. destruct (Hm _ _ _ E) as (Hd & new & Hp & Hn). split; [lia|]. exists new. split; [done|].
  eapply Forall_impl; [exact Hn|]. simpl. lia.
Qed.

Lemma grows_lift {A} n (r : result A) : (0 <= n)%Z -> grows n (io_lift r).
Proof. intros Hn w r' w' [= <- <-]. split; [lia|]. by exists []. Qed.

Lemma grows_bind {A B} a b (m : io A) (f : A -> io B) :
  (0 <= a)%Z -> (0 <= b)%Z -> grows a m -> (forall x, grows b (f x)) -> grows (a + b) (io_bind m f).
Proof.
  intros Ha Hb Hm Hf w r w'. unfold io_bind. destruct (m w) as [[x|e] w1] eqn:E;
    destruct (Hm _ _ _ E) as (Hd & new & Hp & Hn).
  - intros E2. destruct (Hf _ _ _ _ E2) as (Hd2 & new2 & Hp2 & Hn2). split; [lia|]. exists (new2 ++ new).
    rewrite Hp2, Hp, app_assoc. split; [done|]. apply Forall_app.
    split; (eapply Forall_impl; [eassumption|]); simpl; lia.
  - intros [= <- <-]. split; [lia|]. exists new. split; [done|]. eapply Forall_impl; [exact Hn|]. simpl. lia.
Qed.

Lemma grows_at {A} n p (f : path -> io A) : (forall q, grows n (f q)) -> grows n (at_path p f).
Proof. intros Hf w r w'. apply Hf. Qed.

Lemma grows_read {A} (f : disk -> result A) : grows 0 (sys_read f).
Proof.
  intros w r w'. unfold sys_read. destruct (pop _) as [[] fs]; intros [= <- <-]; (split; [simpl; lia|]); by exists [].
Qed.

Lemma grows_write n f : (0 <= n)%Z ->
  (forall d d', f d = Ok d' -> disk_bytes d' <= disk_bytes d + n)%Z -> grows n (sys_write f).
Proof.
  intros Hn Hf w r w'. unfold sys_write. destruct (pop _) as [[] fs]; [intros [= <- <-]; split; [simpl; lia|by exists []]|].
  simpl. destruct (f (w_disk w)) as [d|e] eqn:E; intros [= <- <-]; simpl; (split; [first [by apply Hf | lia]|]).
  - exists [w_disk w]. split; [done|]. repeat constructor. lia.
  - by exists [].
Qed.

Lemma grows_mkdir p : grows 0 (sys_write (mkdir p)).
Proof. apply grows_write; [lia|]. intros d d' (_ & _ & _ & ->)%mkdir_ok. apply disk_bytes_insert. Qed.

Lemma grows_mkdir_all p : grows 0 (mkdir_all p).
Proof.
  induction p as [|x p IH]; cbn [mkdir_all]; apply (grows_bind 0 0); try lia; try apply grows_read; intros [[]|];
    try (apply (grows_lift 0 (Ok tt)); lia); try (apply (grows_lift 0 (Err ENOTDIR)); lia).
  apply (grows_bind 0 0); [lia..|done|]. intros _. apply grows_mkdir.
Qed.

Lemma grows_write_file data p : grows (length_z data) (write_file data p).
Proof.
  assert (0 <= length_z data)%Z by (unfold length_z; lia). apply (grows_bind 0); [lia|done| |].
  - apply grows_write; [lia|]. intros d d' Hc. unfold create in Hc.
    destruct (stat p d) as [[]|], (stat (tail p) d) as [[]|]; try done; injection Hc as <-;
      apply (disk_bytes_insert p (IFile "")).
  - intros _. apply grows_write; [done|]. intros d d'. destruct (stat p d) as [[]|]; try done. intros [= <-].
    apply (disk_bytes_insert p (IFile data)).
Qed.

(** ** Calls that succeed *)

Lemma io_bind_ok {A B} (m : io A) (f : A -> io B) w b w' :
  io_bind m f w = (Ok b, w') -> exists a w1, m w = (Ok a, w1) /\ f a w1 = (Ok b, w').
Proof. unfold io_bind. destruct (m w) as [[a|e] w1]; [|done]. by exists a, w1. Qed.

(** [w'] is [w] after calls that only read. *)
Definition same_disk (w w' : world) : Prop :=
  w_disk w' = w_disk w /\ w_cwd w' = w_cwd w /\ w_past w' = w_past w.

Lemma sys_read_ok {A} (f : disk -> result A) w a w' :
  sys_read f w = (Ok a, w') -> same_disk w w' /\ f (w_disk w) = Ok a.
Proof. unfold sys_read. destruct (pop _) as [[] fs]; [done|]. by intros [= E <-]. Qed.

Lemma sys_write_ok f w w' :
  sys_write f w = (Ok tt, w') ->
  f (w_disk w) = Ok (w_disk w') /\ w_cwd w' = w_cwd w /\ w_past w' = w_disk w :: w_past w.
Proof. unfold sys_write. destruct (pop _) as [[] fs]; [done|]. simpl. by destruct (f (w_disk w)) eqn:E; intros [= <-]. Qed.

(** ** Moving *)

(** What a [rename] leaves: the moved subtree, and everything else. *)
Lemma rename_ok src dst d d' :
  rename src dst d = Ok d' ->
  is_Some (stat src d) /\ stat (tail dst) d = Some IDir /\
  (forall k, d' !! (k ++ dst) = d !! (k ++ src)) /\
  (forall p, ~ under dst p -> ~ under src p -> d' !! p = d !! p) /\
  (forall p, ~ under dst p -> under src p -> d' !! p = None).
Proof.
  unfold rename. destruct (stat src d) as [i|] eqn:Es; [|done].
  destruct (stat dst d) as [j|], (stat (tail dst) d) as [[]|]; try done;
    (destruct (below src dst && _); [done|]).
  all: assert (forall d', Ok (moved src dst d ∪ outside dst (outside src d)) = Ok d' ->
    is_Some (Some i) /\ Some IDir = Some IDir /\ (forall k, d' !! (k ++ dst) = d !! (k ++ src)) /\
    (forall p, ~ under dst p -> ~ under src p -> d' !! p = d !! p) /\
    (forall p, ~ under dst p -> under src p -> d' !! p = None)) as Hm.
  1, 3: clear; intros d' [= <-]; split; [done|]; split; [done|]; split; [|split].
  1, 4: intros k; rewrite lookup_union; rewrite moved_lookup;
    rewrite (outside_lookup_none dst) by (by exists k); by destruct (d !! (k ++ src)).
  1, 3: intros p Hd Hs; rewrite lookup_union, moved_outside, !outside_lookup by done; by destruct (d !! p).
  1, 2: intros p Hd Hs; rewrite lookup_union, moved_outside, outside_lookup, outside_lookup_none by done; done.
  - destruct i, j; try done; [by apply Hm|]. case_bool_decide; [by apply Hm|done].
  - destruct i; by apply Hm.
Qed.

Lemma rename_below D src dst d d' :
  under D src -> src <> D -> under D dst -> dst <> D -> rename src dst d = Ok d' -> below_only D d d'.
Proof.
  intros Hs Hsn Hd Hdn (_ & _ & _ & Hk & _)%rename_ok. intros Hdirs.
  assert (forall p, ~ (under D p /\ p <> D) -> d' !! p = d !! p) as Hsame.
  { intros p Hp. apply Hk; intros Hu; apply Hp.
    - split; [exact (under_trans _ _ _ Hd Hu)|]. intros ->. apply Hdn. by apply under_antisym.
    - split; [exact (under_trans _ _ _ Hs Hu)|]. intros ->. apply Hsn. by apply under_antisym. }
  split; [|done]. intros p Hp. specialize (Hdirs p Hp). unfold stat in *. case_decide; [done|].
  rewrite Hsame; [done|]. intros [Hu Hne]. apply Hne. by apply under_antisym.
Qed.

Lemma delete_below D p d : under D p -> p <> D -> below_only D d (delete p d).
Proof.
  intros Hp Hn Hd. assert (forall q, ~ (under D q /\ q <> D) -> delete p d !! q = d !! q) as Hsame.
  { intros q Hq. rewrite lookup_delete_ne; [done|]. intros ->. by apply Hq. }
  split; [|done]. intros q Hq. specialize (Hd q Hq). unfold stat in *. case_decide; [done|].
  rewrite Hsame; [done|]. intros [Hu Hne]. apply Hne. by apply under_antisym.
Qed.

(** From [w] to [w'] only through states that satisfy [P]. *)
Definition passed (P : disk -> Prop) (w w' : world) : Prop :=
  w_cwd w' = w_cwd w /\ P (w_disk w') /\ exists new, w_past w' = new ++ w_past w /\ Forall P new.

Lemma passed_trans P w w1 w2 : passed P w w1 -> passed P w1 w2 -> passed P w w2.
Proof.
  intros (C1 & _ & n1 & E1 & F1) (C2 & D2 & n2 & E2 & F2). split; [congruence|]. split; [done|].
  exists (n2 ++ n1). rewrite E2, E1, app_assoc. split; [done|]. by apply Forall_app.
Qed.

Lemma passed_impl (P Q : disk -> Prop) w w' : (forall d, P d -> Q d) -> passed P w w' -> passed Q w w'.
Proof.
  intros HPQ (C & D & n & E & F). split; [done|]. split; [by apply HPQ|]. exists n. split; [done|].
  by eapply Forall_impl.
Qed.

Lemma steps_in_passed cwd R {A} (m : io A) w r w' :
  steps_in cwd R m -> w_cwd w = cwd -> m w = (r, w') -> passed (R (w_disk w)) w w'.
Proof. intros Hm Hc E. destruct (Hm _ _ _ Hc E) as (C & HR & new & Hp & Hn). split; [congruence|]. split; [done|]. by exists new. Qed.

Lemma write_file_ok data p w w' : write_file data p w = (Ok tt, w') -> stat p (w_disk w') = Some (IFile data).
Proof.
  unfold write_file. intros ([] & w1 & _ & E)%io_bind_ok. apply sys_write_ok in E as (E & _).
  destruct (stat p (w_disk w1)) as [[]|] eqn:Es; try done. injection E as <-. unfold stat in *.
  case_decide; [done|]. by rewrite lookup_insert_eq.
Qed.

(** Calls that change nothing. *)
Definition reads {A} (m : io A) : Prop := forall w r w', m w = (r, w') -> same_disk w w'.

Lemma same_disk_trans w1 w2 w3 : same_disk w1 w2 -> same_disk w2 w3 -> same_disk w1 w3.
Proof. intros (A & B & C) (A' & B' & C'). unfold same_disk. split; [|split]; congruence. Qed.

Lemma reads_read {A} (f : disk -> result A) : reads (sys_read f).
Proof. intros w r w'. unfold sys_read. destruct (pop _) as [[] fs]; by intros [= <- <-]. Qed.

Lemma reads_lift {A} (r : result A) : reads (io_lift r).
Proof. by intros w r' w' [= <- <-]. Qed.

Lemma reads_at {A} p (f : path -> io A) : (forall q, reads (f q)) -> reads (at_path p f).
Proof. intros Hf w r w'. apply Hf. Qed.

Lemma reads_bind {A B} (m : io A) (f : A -> io B) : reads m -> (forall a, reads (f a)) -> reads (io_bind m f).
Proof.
  intros Hm Hf w r w'. unfold io_bind. destruct (m w) as [[a|e] w1] eqn:E; apply Hm in E.
  - intros E2. apply Hf in E2. by eapply same_disk_trans.
  - by intros [= <- <-].
Qed.

Lemma reads_try {A} (m : io A) : reads m -> reads (io_try m).
Proof. intros Hm w r w'. unfold io_try. destruct (m w) as [r1 w1] eqn:E. intros [= <- <-]. by apply Hm in E. Qed.

Lemma Stat_absent p w e w' :
  Stat p w = (Err e, w') -> errors_is e "ErrNotExist" = true -> stat (resolve (w_cwd w) p) (w_disk w) = None.
Proof.
  unfold Stat, at_path, sys_read. destruct (pop _) as [[] fs]; [by intros [= <- _]|]. simpl.
  by destruct (stat _ _).
Qed.

Lemma io_bind_assoc {A B C} (m : io A) (f : A -> io B) (g : B -> io C) w :
  io_bind m (fun x => io_bind (f x) g) w = io_bind (io_bind m f) g w.
Proof. unfold io_bind. by destruct (m w) as [[]]. Qed.

Lemma passed_refl (P : disk -> Prop) w w' : P (w_disk w) -> same_disk w w' -> passed P w w'.
Proof. intros HP (E1 & E2 & E3). split; [done|]. rewrite E1. split; [done|]. by exists []. Qed.

Lemma passed_write (P : disk -> Prop) f w r w' :
  P (w_disk w) -> (forall d, f (w_disk w) = Ok d -> P d) -> sys_write f w = (r, w') -> passed P w w'.
Proof.
  intros HP Hf. unfold sys_write. destruct (pop _) as [[] fs]; [by intros [= <- <-]; apply passed_refl|]. simpl.
  destruct (f (w_disk w)) as [d|e]; intros [= <- <-]; [|by apply passed_refl]. split; [done|]. split; [by apply Hf|].
  exists [w_disk w]. split; [done|]. by repeat constructor.
Qed.

(** ** Directory listings *)

Lemma elem_of_children x p d : x ∈ children p d <-> is_Some (d !! (x :: p)).
Proof.
  unfold children. rewrite list_elem_of_omap. split.
  - intros ([|y q] & Hq & Hx); [done|]. case_decide; [|done]. simplify_eq.
    apply list_elem_of_fmap in Hq as ([q' i] & -> & Hin%elem_of_map_to_list). by exists i.
  - intros [i Hi]. exists (x :: p). split; [|by rewrite decide_True].
    apply list_elem_of_fmap. exists (x :: p, i). split; [done|]. by apply elem_of_map_to_list.
Qed.

Lemma elem_of_children_stat x p d : x ∈ children p d <-> is_Some (stat (x :: p) d).
Proof. rewrite elem_of_children. unfold stat. by rewrite decide_False. Qed.

Lemma NoDup_omap_inj {A B} (f : A -> option B) (l : list A) :
  (forall x y b, f x = Some b -> f y = Some b -> x = y) -> NoDup l -> NoDup (omap f l).
Proof.
  intros Hf. induction 1 as [|x l Hx Hl IH]; [constructor|]. simpl. destruct (f x) as [b|] eqn:E; [|done].
  constructor; [|done]. intros (y & Hy & Eb)%list_elem_of_omap. by rewrite (Hf _ _ _ E Eb) in Hx.
Qed.

Lemma children_NoDup p d : NoDup (children p d).
Proof.
  apply NoDup_omap_inj; [|apply NoDup_fst_map_to_list]. intros [|x q] [|y q'] b; try done.
  do 2 (case_decide; [|done]). intros [= ->] [= ->]. congruence.
Qed.

Lemma elem_of_dir_entries x b p d :
  (x, b) ∈ dir_entries p d -> is_Some (d !! (x :: p)) /\ b = bool_decide (d !! (x :: p) = Some IDir).
Proof.
  unfold dir_entries. intros (y & [= <- ->] & Hy)%list_elem_of_fmap. unfold sort_strings in Hy.
  rewrite merge_sort_Permutation in Hy. apply elem_of_children in Hy. split; [done|]. unfold stat.
  by rewrite decide_False.
Qed.

(** Names on a disk are path components. *)
Definition names_ok (d : disk) : Prop := forall p i, d !! p = Some i -> Forall (fun x => plain x /\ slashless x) p.

#[export] Instance names_ok_dec d : Decision (names_ok d).
Proof. exact (map_Forall_dec (fun p _ => Forall (fun x => plain x /\ has_byte "/" x = false) p) d). Defined.

Lemma io_bind_reads_ok {A B} (m : io A) (f : A -> io B) w b w' :
  reads m -> io_bind m f w = (Ok b, w') -> exists a w1, m w = (Ok a, w1) /\ same_disk w w1 /\ f a w1 = (Ok b, w').
Proof. intros Hm (a & w1 & E & E')%io_bind_ok. exists a, w1. split; [done|]. split; [by eapply Hm|done]. Qed.
