(* ===== verification/BundleFetch.v ===== *)
(** * Bundles, fetching and installing: internal/control/bundles fetch.go and
    the file access of types.go

    A reference is resolved to a commit, its tarball unpacked into a hidden
    sibling of the final directory, and renamed into place.  GitHub and the
    gzip and tar readers are the class [GitHub] (their composition, with its limit,
    is [untar]), YAML is [BundleYaml]; random
    names and the clock are arguments.  The theorems: unpacking stays inside
    its directory and within its limits whatever the archive says, and an
    install is all or nothing at every point where it can be killed. *)

From S2P Require Import Prelude GoStd Models Url ApiClient Query Paths Disk Bundles.

(** What the tar reader returns, one call of [Next] at a time; the end of the
    list is [io.EOF].  [te_Cut]: reading the body fails after these bytes. *)
Inductive typeflag : Type := TypeReg | TypeDir | TypeXGlobalHeader | TypeXHeader | TypeOther.

#[export] Instance typeflag_eq_dec : EqDecision typeflag.
Proof. solve_decision. Defined.

Record tar_entry := mkEntry {
  te_Name : string; te_Typeflag : typeflag; te_Size : Z; te_Body : string; te_Cut : bool
}.

Inductive tar_event : Type :=
  | TarEntry (e : tar_entry)
  | TarErr.

(** The bytes of a reader, and whether they end in [io.EOF] or in an error. *)
Record stream := mkStream { sm_Bytes : string; sm_Clean : bool }.

(** [http_do]: status and body of a GET; [gunzip]: what [gzip.NewReader] makes of
    a file, an error for a bad header; [tar_read]: the tar reader over a stream. *)
Class GitHub := {
  http_do : string -> header -> result (Z * string);
  gunzip : string -> result stream;
  tar_read : stream -> list tar_event
}.

Class BundleYaml := {
  yaml_manifest : string -> result Manifest;
  yaml_source : string -> result SourceRecord;
  yaml_apis : string -> result (list API);
  yaml_marshal_source : SourceRecord -> result string
}.

Definition ManifestFile : string := "bouncer.yaml".
Definition SourceFile : string := "source.yaml".
Definition ReadmeFile : string := "README.md".
Definition BundleDir (apisDir name : string) : string := Join apisDir name.

Definition maxBundleBytes : Z := 64 * 2 ^ 20.
Definition maxFileBytes : Z := 16 * 2 ^ 20.

(** [io.LimitReader]: a stream that is cut ends cleanly. *)
Definition LimitReader (s : stream) (n : Z) : stream :=
  if (length_z (sm_Bytes s) <? n)%Z then s else mkStream (String.substring 0 (Z.to_nat n) (sm_Bytes s)) true.

(** The readers that [ExtractTarGz] puts together. *)
Definition untar `{GitHub} (raw : string) : result (list tar_event) :=
  gz ← gunzip raw; Ok (tar_read (LimitReader gz (maxBundleBytes + 1))).


(** [io.LimitReader(tr, maxFileBytes+1)] *)
Definition limited (s : string) : string :=
  if (length_z s <=? maxFileBytes + 1)%Z then s else String.substring 0 (Z.to_nat (maxFileBytes + 1)) s.

Section fetch.
Context `{GitHub} `{BundleYaml}.

Definition LoadManifest (p : string) : io Manifest :=
  do raw <- ReadFile p;
  io_lift (m ← yaml_manifest raw; _ ← Manifest_Validate m; Ok m).

Definition LoadSource (p : string) : io SourceRecord :=
  do raw <- ReadFile p;
  io_lift (s ← yaml_source raw; _ ← SourceRecord_Validate s; Ok s).

Definition Remove (p : string) : io unit := at_path p (fun p => sys_write (fun d => Ok (delete p d))).

(** [rnd] is the random part of the temporary name. *)
Definition WriteSource (p : string) (s : SourceRecord) (rnd : string) : io unit :=
  do! io_lift (SourceRecord_Validate s);
  do raw <- io_lift (yaml_marshal_source s);
  let tmpName := Join (Dir p) (".source-" +:+ rnd +:+ ".yaml.tmp") in
  unless_committed (do! at_path tmpName (write_file raw); Rename tmpName p) (Remove tmpName).

(** ** Talking to GitHub *)

(** [url.PathEscape] *)
Fixpoint path_escape (s : string) : string :=
  match s with
  | EmptyString => ""
  | String a s =>
      if is_alnum a || one_of "-_.~$&+=:@" a then String a (path_escape s) else percent_byte a (path_escape s)
  end.

Variables apiBase codeloadBase token : string.

Definition github_headers (h : header) : header :=
  if decide (token = "") then h else header_Set "Authorization" ("Bearer " +:+ token) h.

Definition success (status : Z) : bool := bool_decide (Z.quot status 100 = 2%Z).

Definition ResolveSHA (r : Ref) : result string :=
  fail_if bool_decide (ref_Version r = "") with EMsg "version is required to resolve" ;;
  if IsFullSHA (ref_Version r) then Ok (to_lower (ref_Version r))
  else
    ('(status, body) ← wrap_err "resolve" (http_do
        (apiBase +:+ "/repos/" +:+ path_escape (ref_Owner r) +:+ "/" +:+ path_escape (ref_Repo r) +:+
         "/commits/" +:+ path_escape (ref_Version r))
        (github_headers (header_Set "Accept" "application/vnd.github.sha" ∅)));
     fail_if negb (success status) with EMsg "resolve: github" ;;
     let sha := trim_space (String.substring 0 4096 body) in
     fail_if negb (IsFullSHA sha) with EMsg "github returned something that is not a SHA" ;;
     Ok (to_lower sha)).

Definition Download (r : Ref) (sha : string) : result string :=
  fail_if negb (IsFullSHA sha) with EMsg "sha is not a full 40-char SHA" ;;
  ('(status, body) ← wrap_err "download" (http_do
      (codeloadBase +:+ "/" +:+ path_escape (ref_Owner r) +:+ "/" +:+ path_escape (ref_Repo r) +:+ "/tar.gz/" +:+ sha)
      (github_headers ∅));
   fail_if negb (success status) with EMsg "download: github" ;;
   Ok body).

(** ** Unpacking *)

Definition escapes : goerr := EMsg "tar entry escapes destination".
Definition too_big : goerr := EMsg "exceeds cap".

Definition writeRegular (target : string) (e : tar_entry) : io Z :=
  do! MkdirAll (Dir target);
  do! at_path target (write_file (limited (te_Body e)));
  if te_Cut e then io_fail (EMsg "unexpected EOF")
  else if (maxFileBytes <? length_z (limited (te_Body e)))%Z then io_fail too_big
  else io_ret (length_z (limited (te_Body e))).

(** The top-level directory, taken from the first entry that has one. *)
Definition capture_prefix (prefix clean : string) : string :=
  if decide (prefix = "") then match cut_byte "/" clean with Some (x, _) => x | None => clean end else prefix.

Definition entry_rel (prefix clean : string) : string := trim_prefix "/" (trim_prefix prefix clean).

Definition lexical_escape (rel : string) : bool :=
  bool_decide (rel = "..") || has_prefix "../" rel || str_contains "/../" rel || has_prefix "/" rel.

Definition inside (cleanDest target : string) : bool :=
  bool_decide (Clean target = cleanDest) || has_prefix (cleanDest +:+ "/") (Clean target).

(** One entry below [destDir]: how many bytes it wrote. *)
Definition extract_entry (destDir rel : string) (e : tar_entry) : io Z :=
  if lexical_escape rel then io_fail escapes
  else
    let target := Join destDir rel in
    if negb (inside (Clean destDir) target) then io_fail escapes
    else
      match te_Typeflag e with
      | TypeDir => do! MkdirAll target; io_ret 0%Z
      | TypeReg => if (maxFileBytes <? te_Size e)%Z then io_fail too_big else writeRegular target e
      | _ => io_ret 0%Z
      end.

Fixpoint extract_all (destDir prefix : string) (written : Z) (evs : list tar_event) : io unit :=
  match evs with
  | [] => io_ret tt
  | TarErr :: _ => io_fail (EMsg "tar")
  | TarEntry e :: evs =>
      match te_Typeflag e with
      | TypeXGlobalHeader | TypeXHeader => extract_all destDir prefix written evs
      | _ =>
          let clean := trim_prefix "./" (Clean (te_Name e)) in
          let prefix := capture_prefix prefix clean in
          let rel := entry_rel prefix clean in
          if decide (rel = "") then extract_all destDir prefix written evs
          else
            do n <- extract_entry destDir rel e;
            if (maxBundleBytes <? written + n)%Z then io_fail too_big
            else extract_all destDir prefix (written + n) evs
      end
  end.

Definition ExtractTarGz (raw destDir : string) : io unit :=
  do! MkdirAll destDir;
  do evs <- io_lift (untar raw);
  extract_all destDir "" 0 evs.

(** ** Installing *)

Definition Stage (r : Ref) (stageDir : string) (renames : gmap string string) (rnd : string) (now : Z) : io string :=
  do! io_lift (fail_if bool_decide (ref_Version r = "") with EMsg "version is required" ;; Ok tt);
  do sha <- io_lift (ResolveSHA r);
  do raw <- io_lift (Download r sha);
  do! ExtractTarGz raw stageDir;
  do _ <- LoadManifest (Join stageDir ManifestFile);
  do! WriteSource (Join stageDir SourceFile) (mkSource (Ref_String r) sha now renames) rnd;
  io_ret sha.

Definition Install (apisDir : string) (r : Ref) (renames : gmap string string) (rnd srnd : string) (now : Z)
    : io string :=
  do! io_lift (fail_if bool_decide (ref_Version r = "") with EMsg "version is required" ;; Ok tt);
  do! MkdirAll apisDir;
  do tmpDir <- MkdirTemp apisDir (".tmp." +:+ rnd);
  unless_committed
    (do! Stage r tmpDir renames srnd now;
     do manifest <- LoadManifest (Join tmpDir ManifestFile);
     let finalDir := BundleDir apisDir (mf_Name manifest) in
     do st <- io_try (Stat finalDir);
     match st with
     | Ok _ => io_fail EEXIST
     | Err e =>
         if errors_is e "ErrNotExist" then (do! Rename tmpDir finalDir; io_ret finalDir) else io_fail e
     end)
    (RemoveAll tmpDir).
End fetch.

(** ** Unpacking stays inside *)

Section confined.
Context `{GitHub} `{BundleYaml}.
Context (cwd : path) (dest : string).
Notation D := (resolve cwd dest).
#[local] Opaque write_file mkdir_all.

Ltac steps := repeat first
  [ apply steps_in_bind; [apply _| |intros ?] | apply steps_in_ret; apply _ | apply steps_in_fail; apply _
  | apply steps_in_pure; apply _ | apply steps_in_at | apply steps_in_try | apply steps_in_read; apply _
  | case_decide | case_match ].

Lemma inside_under target :
  head (clean_stack dest) <> Some ".." -> inside (Clean dest) target = true -> under D (resolve cwd target).
Proof.
  intros Hd. unfold inside. intros [E|[x E]%has_prefix_spec]%orb_true_iff.
  - apply bool_decide_eq_true in E. rewrite <- (resolve_Clean cwd target), E, resolve_Clean. apply under_refl.
  - rewrite string_app_assoc in E. by eapply resolve_prefix.
Qed.

Lemma Dir_near target : under D (resolve cwd target) -> under D (resolve cwd (Dir target)) \/ under (resolve cwd (Dir target)) D.
Proof.
  intros Hu. rewrite (resolve_Dir cwd target) in Hu. revert Hu. generalize (List.last (split_byte "/" target) ""). intros x Hu. unfold os_step in Hu.
  repeat case_decide; [by left| |].
  - destruct (resolve cwd (Dir target)) as [|y q]; [by left|]. left. by apply under_cons.
  - by apply (under_tail D (x :: resolve cwd (Dir target))); left.
Qed.

Lemma writeRegular_below target e :
  under D (resolve cwd target) -> steps_in cwd (below_only D) (writeRegular target e).
Proof.
  intros Hu. unfold writeRegular. steps; [by apply mkdir_all_below, Dir_near|by apply write_file_below].
Qed.

#[local] Opaque writeRegular.

Lemma extract_entry_below rel e :
  head (clean_stack dest) <> Some ".." -> steps_in cwd (below_only D) (extract_entry dest rel e).
Proof.
  intros Hd. unfold extract_entry. cbn zeta. destruct (lexical_escape rel); [steps|].
  destruct (inside _ _) eqn:Ei; cbn [negb]; [|steps]. apply (inside_under _ Hd) in Ei.
  destruct (te_Typeflag e); steps; [by apply writeRegular_below|apply mkdir_all_below; by left].
Qed.

#[local] Opaque extract_entry.

Lemma extract_all_below prefix written evs :
  head (clean_stack dest) <> Some ".." -> steps_in cwd (below_only D) (extract_all dest prefix written evs).
Proof.
  intros Hd. revert prefix written. induction evs as [|[e|] evs IH]; intros prefix written; cbn [extract_all]; steps;
    first [apply IH | by apply extract_entry_below].
Qed.
End confined.

(** ** Unpacking is bounded *)

Section bounded.
Context `{GitHub} `{BundleYaml}.

Lemma substring_length n m s : String.length (String.substring n m s) <= m.
Proof.
  revert n m. induction s as [|a s IH]; intros [|n] [|m]; simpl; try lia; [specialize (IH 0 m)|apply IH..]; lia.
Qed.

Lemma limited_length s : (length_z (limited s) <= maxFileBytes + 1)%Z.
Proof.
  unfold limited. case_match eqn:E; [lia|]. unfold length_z.
  pose proof (substring_length 0 (Z.to_nat (maxFileBytes + 1)) s). unfold maxFileBytes in *. lia.
Qed.

Lemma writeRegular_bytes target e w r w' :
  writeRegular target e w = (r, w') ->
  grows (maxFileBytes + 1) (writeRegular target e) /\
  forall n, r = Ok n -> (0 <= n <= maxFileBytes)%Z /\ (disk_bytes (w_disk w') <= disk_bytes (w_disk w) + n)%Z.
Proof.
  assert (grows (0 + length_z (limited (te_Body e)) + 0) (writeRegular target e)) as Hg.
  { assert (0 <= length_z (limited (te_Body e)))%Z by (unfold length_z; lia). unfold writeRegular.
    rewrite <- Z.add_assoc. apply grows_bind; [lia..|apply grows_at; intros q; apply grows_mkdir_all|].
    intros _. apply grows_bind; [lia..|apply grows_at; intros q; apply grows_write_file|]. intros _.
    destruct (te_Cut e); [apply (grows_lift 0 (Err _)); lia|].
    case_match; [apply (grows_lift 0 (Err _)); lia|apply (grows_lift 0 (Ok _)); lia]. }
  intros E. split; [eapply grows_weaken; [|exact Hg]; pose proof (limited_length (te_Body e)); lia|].
  intros n ->. assert (n = length_z (limited (te_Body e)) /\ (n <= maxFileBytes)%Z) as [-> Hn].
  { unfold writeRegular, io_bind in E. destruct (MkdirAll _ w) as [[]]; [|done].
    destruct (at_path _ _ _) as [[]]; [|done]. destruct (te_Cut e); [done|].
    destruct (maxFileBytes <? _)%Z eqn:El; [done|]. injection E as <- _. split; [done|lia]. }
  destruct (Hg _ _ _ E) as [Hd _]. unfold length_z in *. lia.
Qed.

(** A result [Ok n] means at most [n] bytes more, and at most a file. *)
Definition counted (w : world) (r : result Z) (w' : world) : Prop :=
  forall n, r = Ok n -> (0 <= n <= maxFileBytes)%Z /\ (disk_bytes (w_disk w') <= disk_bytes (w_disk w) + n)%Z.

Lemma extract_entry_bytes dest rel e :
  grows (maxFileBytes + 1) (extract_entry dest rel e) /\
  forall w r w', extract_entry dest rel e w = (r, w') -> counted w r w'.
Proof.
  assert (forall A (x : result A), grows (maxFileBytes + 1) (io_lift x)) as Hl
    by (intros; apply grows_lift; unfold maxFileBytes; lia).
  assert (forall err w r w', @io_fail Z err w = (r, w') -> counted w r w') as Hf by (by intros err w r w' [= <- <-]).
  assert (forall w r w', io_ret 0%Z w = (r, w') -> counted w r w') as Hr.
  { intros w r w' [= <- <-] n [= <-]. unfold maxFileBytes. lia. }
  unfold extract_entry. destruct (lexical_escape rel); [by split; [apply (Hl _ (Err escapes))|apply Hf]|].
  cbn zeta. destruct (negb _); [by split; [apply (Hl _ (Err escapes))|apply Hf]|].
  destruct (te_Typeflag e); try by split; [apply (Hl _ (Ok 0%Z))|apply Hr].
  - case_match; [by split; [apply (Hl _ (Err too_big))|apply Hf]|]. split.
    + intros w r w' E. exact (proj1 (writeRegular_bytes _ _ _ _ _ E) _ _ _ E).
    + intros w r w' E. exact (proj2 (writeRegular_bytes _ _ _ _ _ E)).
  - assert (grows 0 (do! MkdirAll (Join dest rel); io_ret 0%Z)) as Hg.
    { apply (grows_bind 0 0); [lia..|apply grows_at; intros q; apply grows_mkdir_all|].
      intros _. apply (grows_lift 0 (Ok 0%Z)). lia. }
    split; [eapply grows_weaken; [|exact Hg]; unfold maxFileBytes; lia|].
    intros w r w' E n ->. destruct (Hg _ _ _ E) as [Hd _]. unfold io_bind in E.
    destruct (MkdirAll _ w) as [[]]; [|done]. injection E as <- _. unfold maxFileBytes. lia.
Qed.

Lemma extract_all_grows dest prefix written evs :
  (0 <= written <= maxBundleBytes)%Z ->
  grows (maxBundleBytes - written + maxFileBytes + 1) (extract_all dest prefix written evs).
Proof.
  revert prefix written. induction evs as [|[e|] evs IH]; intros prefix written Hw; cbn [extract_all].
  - apply (grows_lift _ (Ok tt)). unfold maxFileBytes. lia.
  - cbn zeta. set (pre := capture_prefix _ _). set (rel := entry_rel _ _).
    assert (grows (maxBundleBytes - written + maxFileBytes + 1)
      (do n <- extract_entry dest rel e;
       if (maxBundleBytes <? written + n)%Z then io_fail too_big else extract_all dest pre (written + n) evs)) as Hg.
    { intros w r w' E. unfold io_bind in E. destruct (extract_entry_bytes dest rel e) as [Hg Hc].
      destruct (extract_entry dest rel e w) as [r1 w1] eqn:Ee. destruct (Hg _ _ _ Ee) as (Hd & new & Hp & Hn).
      pose proof (Hc _ _ _ Ee) as Hk.
      assert (Forall (fun d => disk_bytes d <= disk_bytes (w_disk w) + (maxBundleBytes - written + maxFileBytes + 1))%Z new)
        as Hn' by (eapply Forall_impl; [exact Hn|]; simpl; lia).
      destruct r1 as [n|e1]; [destruct (Hk n eq_refl) as [Hn1 Hd1]|injection E as <- <-; split; [lia|by exists new]].
      destruct (maxBundleBytes <? written + n)%Z eqn:El; [injection E as <- <-; split; [lia|by exists new]|].
      apply IH in E as (Hd2 & new2 & Hp2 & Hn2); [|lia]. split; [lia|]. exists (new2 ++ new).
      rewrite Hp2, Hp, app_assoc. split; [done|]. apply Forall_app. split; [|done].
      eapply Forall_impl; [exact Hn2|]. simpl. lia. }
    destruct (te_Typeflag e); try (by apply IH); case_decide; try done; by apply IH.
  - apply (grows_lift _ (Err (EMsg "tar"))). unfold maxFileBytes. lia.
Qed.
End bounded.

Lemma Forall_grows_add (l : list disk) a b n :
  (b <= a + n)%Z -> Forall (fun d => disk_bytes d <= b)%Z l -> Forall (fun d => disk_bytes d <= a + n)%Z l.
Proof. intros Hb Hl. eapply Forall_impl; [exact Hl|]. simpl. lia. Qed.

(** What a state made while unpacking into [D] may differ in. *)
Definition contained (D : path) (d d' : disk) : Prop :=
  (forall p, ~ (under D p /\ p <> D) ->
     d' !! p = d !! p \/ (under p D /\ d !! p = None /\ d' !! p = Some IDir)) /\
  (disk_bytes d' <= disk_bytes d + (maxBundleBytes + maxFileBytes + 1))%Z.

Lemma contained_adds D d d' n :
  adds_dirs D d d' -> (disk_bytes d' <= disk_bytes d + n)%Z -> (n <= maxBundleBytes + maxFileBytes + 1)%Z -> contained D d d'.
Proof. intros [Ha _] Hb Hn. split; [by intros p _|lia]. Qed.

Lemma ExtractTarGz_states `{GitHub} `{BundleYaml} raw dest w r w' :
  head (clean_stack dest) <> Some ".." -> disk_wf (w_disk w) -> ExtractTarGz raw dest w = (r, w') ->
  w_cwd w' = w_cwd w /\
  exists new, w_past w' = new ++ w_past w /\
    Forall (contained (resolve (w_cwd w) dest) (w_disk w)) (w_disk w' :: new).
Proof.
  intros Hd Hwf Hrun. set (D := resolve (w_cwd w) dest). unfold ExtractTarGz, io_bind in Hrun.
  assert (0 <= maxBundleBytes + maxFileBytes + 1)%Z by (unfold maxBundleBytes, maxFileBytes; lia).
  destruct (MkdirAll dest w) as [r1 w1] eqn:E1.
  destruct (steps_in_at (w_cwd w) (adds_dirs D) dest mkdir_all (mkdir_all_adds _ _ _ (under_refl D)) w r1 w1 eq_refl E1)
    as (Hc1 & HR1 & new1 & Hp1 & Hn1).
  destruct (grows_at 0 dest mkdir_all grows_mkdir_all w r1 w1 E1) as (Hb1 & new1' & Hp1' & Hnb1).
  rewrite Hp1 in Hp1'. apply app_inv_tail in Hp1' as <-.
  assert (Forall (contained D (w_disk w)) (w_disk w1 :: new1)) as Hfirst.
  { constructor; [by eapply contained_adds|]. rewrite Forall_forall in Hn1 |- *. rewrite Forall_forall in Hnb1.
    intros d Hin. by eapply contained_adds; [apply Hn1|apply Hnb1|]. }
  destruct r1 as [[]|e]; [|injection Hrun as <- <-; split; [done|by exists new1]].
  assert (disk_wf (w_disk w1)) as Hwf1 by (apply HR1, Hwf).
  assert (dirs_to D (w_disk w1)) as Hdirs.
  { apply wf_dirs; [done|]. apply (mkdir_all_ok D w). exact E1. }
  cbn [io_lift] in Hrun. destruct (untar raw) as [evs|e]; [|injection Hrun as <- <-; split; [done|by exists new1]]. simpl in Hrun.
  destruct (extract_all_below (w_cwd w) dest "" 0 evs Hd w1 r w' Hc1 Hrun) as (Hc2 & HR2 & new2 & Hp2 & Hn2).
  destruct (extract_all_grows dest "" 0 evs) with (2 := Hrun) as (Hb2 & new2' & Hp2' & Hnb2);
    [unfold maxBundleBytes; lia|].
  rewrite Hp2 in Hp2'. apply app_inv_tail in Hp2' as <-. split; [done|]. exists (new2 ++ new1).
  rewrite Hp2, Hp1, app_assoc. split; [done|]. rewrite app_comm_cons. apply Forall_app.
  split; [|by inversion Hfirst].
  assert (forall d, below_only D (w_disk w1) d ->
    (disk_bytes d <= disk_bytes (w_disk w1) + (maxBundleBytes - 0 + maxFileBytes + 1))%Z ->
    contained D (w_disk w) d) as Hpack.
  { intros d HR Hb. split; [|lia]. intros p Hp. rewrite (proj2 (HR Hdirs) p Hp). by apply HR1. }
  constructor; [by apply Hpack|]. rewrite Forall_forall in Hn2 |- *. rewrite Forall_forall in Hnb2.
  intros d Hin. by apply Hpack; [apply Hn2|apply Hnb2].
Qed.

(** C21. Unpacking an archive never leaves its directory and never fills the
    disk, whatever the archive says.  Every state [ExtractTarGz] passes through,
    also when it fails or is killed in between, differs from the first only
    strictly below the destination and by missing directories on the way to it,
    and holds at most the bundle limit plus one file more than before. *)
Theorem ExtractTarGz_contained `{GitHub} `{BundleYaml} (raw dest : string) (w w' : world) (r : result unit)
    (Hdest : head (clean_stack dest) <> Some "..") (Hwf : disk_wf (w_disk w))
    (Hrun : ExtractTarGz raw dest w = (r, w')) :
  exists new, w_past w' = new ++ w_past w /\
    Forall (contained (resolve (w_cwd w) dest) (w_disk w)) (w_disk w' :: new).
Proof. by destruct (ExtractTarGz_states _ _ _ _ _ Hdest Hwf Hrun). Qed.

(** ** A small archive *)

Definition demo_yaml : BundleYaml := {|
  yaml_manifest raw := if decide (raw = "manifest") then Ok (mkManifest 1 "acme" "1" "" "" "" ["apis"] None []) else Err (EMsg "yaml");
  yaml_source raw := if decide (raw = "") then Err (EMsg "yaml") else Ok (mkSource raw "sha" 0 ∅);
  yaml_apis raw := Ok [mkAPI raw "" [] [] [] 0 ""];
  yaml_marshal_source s := Ok (src_Ref s)
|}.

Definition demo_file (name body : string) : tar_event :=
  TarEntry (mkEntry name TypeReg (Z.of_nat (String.length body)) body false).

(** "good" unpacks to a bundle; "bad" has an entry that climbs out. *)
Definition demo_github : GitHub := {|
  http_do url _ := Ok (200%Z, if str_contains "/commits/" url then "0123456789abcdef0123456789ABCDEF01234567"
                              else if str_contains "/evil/" url then "bad" else "good");
  gunzip raw := Ok (mkStream raw true);
  tar_read s := demo_file "apis-0123/bouncer.yaml" "manifest" ::
                (if decide (sm_Bytes s = "good") then [demo_file "apis-0123/apis/a.yaml" "a"]
                 else [demo_file "apis-0123/../../etc/passwd" "x"])
|}.

Definition demo_disk : disk := {[ ["srv"] := IDir; ["etc"] := IDir; ["passwd"; "etc"] := IFile "root" ]}.
Definition demo_world : world := mkWorld demo_disk ["srv"] [] [].

Definition demo_unpack (raw : string) : result unit * world :=
  @ExtractTarGz demo_github raw "/srv/apis/t" demo_world.

Example bad_entry_refused : (demo_unpack "bad").1 = Err escapes /\
  w_disk (demo_unpack "bad").2 !! ["bouncer.yaml"; "t"; "apis"; "srv"] = Some (IFile "manifest").
Proof. vm_compute. done. Qed.

Lemma ExtractTarGz_contained_witness :
  w_disk (demo_unpack "bad").2 !! ["passwd"; "etc"] = Some (IFile "root").
Proof.
  destruct (demo_unpack "bad") as [r w'] eqn:E.
  assert (disk_wf (w_disk demo_world)) as Hwf by (apply (bool_decide_unpack _); vm_compute; exact I).
  destruct (@ExtractTarGz_contained demo_github demo_yaml "bad" "/srv/apis/t" demo_world w' r
    ltac:(vm_compute; discriminate) Hwf E) as (new & _ & Hall).
  apply Forall_cons in Hall as [[Hc _] _].
  assert (~ under (resolve (w_cwd demo_world) "/srv/apis/t") ["passwd"; "etc"]) as Hn by
    (intros Hu; apply below_under in Hu; vm_compute in Hu; discriminate Hu).
  destruct (Hc ["passwd"; "etc"]) as [Hs|(_ & Hs & _)].
  - intros [Hu _]. exact (Hn Hu).
  - etrans; [exact Hs|]. vm_compute. reflexivity.
  - vm_compute in Hs. discriminate Hs.
Defined.

(** ** Installing is all or nothing *)

Section install.
Context `{GitHub} `{BundleYaml}.
Variables apiBase codeloadBase token : string.
#[local] Opaque write_file mkdir_all.

Lemma plain_prefixed x s : plain x -> slashless x -> slashless s -> String.length x > 2 -> plain (x +:+ s) /\ slashless (x +:+ s).
Proof.
  intros Hp Hx Hs Hl. split; [|unfold slashless; by rewrite has_byte_app, Hx, Hs].
  destruct x as [|a [|b [|c x]]]; simpl in Hl; try lia. by split; [|split].
Qed.

Lemma source_child cwd dir rnd :
  slashless rnd ->
  resolve cwd (Join (Dir (Join dir SourceFile)) (".source-" +:+ rnd +:+ ".yaml.tmp")) =
    (".source-" +:+ rnd +:+ ".yaml.tmp") :: resolve cwd dir.
Proof.
  intros Hr. destruct (plain_prefixed ".source-" (rnd +:+ ".yaml.tmp")) as [Hp Hs]; [done|done| |simpl; lia|].
  { unfold slashless. by rewrite has_byte_app, Hr. }
  destruct (Join_child cwd (Dir (Join dir SourceFile)) _ Hp Hs) as [-> _].
  by rewrite Dir_Join_child by done.
Qed.

Lemma child_strict (D : path) x : under D (x :: D) /\ x :: D <> D.
Proof.
  split; [apply under_cons, under_refl|]. intros E. apply (f_equal length) in E. simpl in E. lia.
Qed.

Lemma WriteSource_below cwd dir s rnd :
  slashless rnd -> steps_in cwd (below_only (resolve cwd dir)) (WriteSource (Join dir SourceFile) s rnd).
Proof.
  intros Hr. unfold WriteSource. set (D := resolve cwd dir).
  apply steps_in_bind; [apply _|apply steps_in_pure; apply _|]. intros _.
  apply steps_in_bind; [apply _|apply steps_in_pure; apply _|]. intros raw. cbn zeta.
  apply steps_in_cleanup; [apply _| |].
  - apply steps_in_bind; [apply _| |intros _].
    + apply steps_in_at. rewrite source_child by done. apply write_file_below, child_strict.
    + apply steps_in_at. rewrite source_child by done. apply steps_in_at.
      destruct (Join_child cwd dir SourceFile) as [-> _]; [done|done|]. apply steps_in_write; [apply _|].
      intros d d'. apply rename_below; apply child_strict.
  - apply steps_in_at. rewrite source_child by done. apply steps_in_write; [apply _|].
    intros d d' [= <-]. apply delete_below; apply child_strict.
Qed.

Lemma LoadManifest_below cwd D p : steps_in cwd (below_only D) (LoadManifest p).
Proof.
  apply steps_in_bind; [apply _|apply steps_in_at, steps_in_read, _|]. intros raw. apply steps_in_pure, _.
Qed.

Lemma ExtractTarGz_below cwd raw dir :
  head (clean_stack dir) <> Some ".." -> steps_in cwd (below_only (resolve cwd dir)) (ExtractTarGz raw dir).
Proof.
  intros Hd. apply steps_in_bind; [apply _|apply steps_in_at, mkdir_all_below; left; apply under_refl|]. intros _.
  apply steps_in_bind; [apply _|apply steps_in_pure, _|]. intros evs. by apply extract_all_below.
Qed.

Lemma Stage_below cwd ref dir renames rnd now :
  slashless rnd -> head (clean_stack dir) <> Some ".." ->
  steps_in cwd (below_only (resolve cwd dir)) (Stage apiBase codeloadBase token ref dir renames rnd now).
Proof.
  intros Hr Hd. unfold Stage. do 3 (apply steps_in_bind; [apply _|apply steps_in_pure, _|intros ?]).
  apply steps_in_bind; [apply _|by apply ExtractTarGz_below|intros _].
  apply steps_in_bind; [apply _|apply LoadManifest_below|intros _].
  apply steps_in_bind; [apply _|by apply WriteSource_below|intros _]. apply steps_in_ret, _.
Qed.

(** ** What a staged bundle holds *)

Lemma LoadManifest_ok p w m w' :
  LoadManifest p w = (Ok m, w') ->
  same_disk w w' /\ manifest_ok m /\
  exists raw, stat (resolve (w_cwd w) p) (w_disk w) = Some (IFile raw) /\ yaml_manifest raw = Ok m.
Proof.
  unfold LoadManifest. intros (raw & w1 & E1 & E2)%io_bind_ok. unfold ReadFile, at_path in E1.
  apply sys_read_ok in E1 as [Hs E1]. unfold io_lift in E2. injection E2 as E2 <-. split; [done|].
  destruct (yaml_manifest raw) as [m'|] eqn:Ey; [|done]. cbn [mbind result_bind] in E2.
  apply bind_ok in E2 as ([] & Hv & [= <-]). split; [by apply Manifest_Validate_ok|].
  exists raw. destruct (stat _ _) as [[]|]; try done. by injection E1 as ->.
Qed.

Lemma unless_committed_ok {A} (m : io A) c w a w' : unless_committed m c w = (Ok a, w') -> m w = (Ok a, w').
Proof. unfold unless_committed. destruct (m w) as [[]]; [|done]. done. Qed.

Lemma WriteSource_ok dir s rnd w w' :
  slashless rnd -> WriteSource (Join dir SourceFile) s rnd w = (Ok tt, w') ->
  exists raw, yaml_marshal_source s = Ok raw /\
    stat (SourceFile :: resolve (w_cwd w) dir) (w_disk w') = Some (IFile raw).
Proof.
  intros Hr. unfold WriteSource. intros ([] & w1 & [= Hv <-] & Hrun)%io_bind_ok.
  apply io_bind_ok in Hrun as (raw & w2 & [= Hy <-] & Hrun). cbn zeta in Hrun.
  apply unless_committed_ok in Hrun. apply io_bind_ok in Hrun as ([] & w3 & Hw & Hmv). exists raw. split; [done|].
  set (tmp := Join _ _) in *. unfold at_path in Hw. pose proof (write_file_ok _ _ _ _ Hw) as Hs.
  assert (w_cwd w3 = w_cwd w) as Hc.
  { destruct (steps_in_passed _ _ _ _ _ _ (write_file_below (w_cwd w) _ raw _ (under_refl _)) eq_refl Hw) as (Hc & _). done. }
  unfold Rename, at_path in Hmv. rewrite Hc in Hmv. apply sys_write_ok in Hmv as (Hmv & _).
  apply rename_ok in Hmv as (_ & _ & Hk & _). specialize (Hk []). cbn [app] in Hk.
  destruct (Join_child (w_cwd w) dir SourceFile) as [E _]; [done|done|]. rewrite E in Hk.
  unfold stat in *. rewrite decide_False by done. etrans; [exact Hk|]. unfold tmp in *. rewrite source_child in Hs |- * by done.
  by rewrite decide_False in Hs.
Qed.

Lemma Stage_ok ref dir renames rnd now w sha w' :
  slashless rnd -> head (clean_stack dir) <> Some ".." ->
  Stage apiBase codeloadBase token ref dir renames rnd now w = (Ok sha, w') ->
  ResolveSHA apiBase token ref = Ok sha /\
  exists sraw, yaml_marshal_source (mkSource (Ref_String ref) sha now renames) = Ok sraw /\
    stat (SourceFile :: resolve (w_cwd w) dir) (w_disk w') = Some (IFile sraw).
Proof.
  intros Hr Hd. unfold Stage. intros (u & w1 & [= _ <-] & Hrun)%io_bind_ok.
  apply io_bind_ok in Hrun as (sha' & w2 & [= Hsha <-] & Hrun). apply io_bind_ok in Hrun as (raw & w3 & [= _ <-] & Hrun).
  apply io_bind_ok in Hrun as (u1 & w4 & Hx & Hrun). apply io_bind_ok in Hrun as (m & w5 & Hm & Hrun).
  apply io_bind_ok in Hrun as ([] & w6 & Hw & Hret). injection Hret as <- <-. split; [done|].
  destruct (steps_in_passed _ _ _ _ _ _ (ExtractTarGz_below (w_cwd w) raw dir Hd) eq_refl Hx) as (Hc & _).
  destruct (LoadManifest_ok _ _ _ _ Hm) as ((_ & Hc5 & _) & _).
  destruct (WriteSource_ok _ _ _ _ _ Hr Hw) as (sraw & Hy & Hs). exists sraw. split; [done|].
  by rewrite Hc5, Hc in Hs.
Qed.

Lemma LoadManifest_reads p : reads (LoadManifest p).
Proof. apply reads_bind; [apply reads_at; intros q; apply reads_read|]. intros raw. apply reads_lift. Qed.

(** The states before the final rename: nothing but the hidden directory [T]
    and missing directories on the way to [A]. *)
Definition pending (A T : path) (d0 d : disk) : Prop :=
  (forall p, ~ under T p -> d !! p = d0 !! p \/ (under p A /\ d0 !! p = None /\ d !! p = Some IDir)) /\
  (stat T d = stat T d0 \/ stat T d = None \/ stat T d = Some IDir).

Lemma pending_refl A T d : pending A T d d.
Proof. split; [by left|by left]. Qed.

Lemma pending_below A T d0 d d' :
  pending A T d0 d -> dirs_to T d -> below_only T d d' -> pending A T d0 d' /\ dirs_to T d'.
Proof.
  intros [Hp _] Hd Hb. destruct (Hb Hd) as [Hd' Hs]. split; [|done]. split.
  - intros p Hn. rewrite Hs by (by intros [? _]). by apply Hp.
  - right. right. apply Hd', under_refl.
Qed.

Lemma pending_outside A T d0 d : pending A T d0 d -> pending A T d0 (outside T d).
Proof.
  intros [Hp _]. split; [intros p Hn; rewrite outside_lookup by done; by apply Hp|]. right. unfold stat.
  case_decide; [by right|left]. apply outside_lookup_none, under_refl.
Qed.

Lemma pending_adds A h d0 d : adds_dirs A d0 d -> pending A (h :: A) d0 d.
Proof.
  intros [Ha _]. split; [intros p _; apply Ha|]. left. unfold stat. rewrite !decide_False by done.
  destruct (Ha (h :: A)) as [E|([k E] & _)]; [exact E|]. apply (f_equal length) in E. rewrite length_app in E. simpl in E. lia.
Qed.

(** Everything a finished bundle needs is in [T]. *)
Definition staged (ref : Ref) (renames : gmap string string) (now : Z) (T : path) (m : Manifest) (d : disk) : Prop :=
  manifest_ok m /\
  (exists raw, stat (ManifestFile :: T) d = Some (IFile raw) /\ yaml_manifest raw = Ok m) /\
  (exists sha raw, ResolveSHA apiBase token ref = Ok sha /\
     yaml_marshal_source (mkSource (Ref_String ref) sha now renames) = Ok raw /\
     stat (SourceFile :: T) d = Some (IFile raw)).

(** The body of [Install] once the hidden directory is there. *)
Definition install_body (apisDir tmpDir : string) (r : Ref) (renames : gmap string string) (srnd : string) (now : Z)
    : io string :=
  do! Stage apiBase codeloadBase token r tmpDir renames srnd now;
  do manifest <- LoadManifest (Join tmpDir ManifestFile);
  let finalDir := BundleDir apisDir (mf_Name manifest) in
  do st <- io_try (Stat finalDir);
  match st with
  | Ok _ => io_fail EEXIST
  | Err e => if errors_is e "ErrNotExist" then (do! Rename tmpDir finalDir; io_ret finalDir) else io_fail e
  end.

Lemma install_body_states apisDir tmp ref renames srnd now A d0 w r w' :
  let T := resolve (w_cwd w) tmp in
  slashless srnd -> head (clean_stack tmp) <> Some ".." ->
  pending A T d0 (w_disk w) -> dirs_to T (w_disk w) ->
  install_body apisDir tmp ref renames srnd now w = (r, w') ->
  match r with
  | Err _ => passed (pending A T d0) w w'
  | Ok dir => exists w1 m,
      passed (pending A T d0) w w1 /\ staged ref renames now T m (w_disk w1) /\ dir = BundleDir apisDir (mf_Name m) /\
      w_past w' = w_disk w1 :: w_past w1 /\ stat (resolve (w_cwd w) dir) (w_disk w1) = None /\
      rename T (resolve (w_cwd w) dir) (w_disk w1) = Ok (w_disk w')
  end.
Proof.
  intros T Hr Hh Hp Hd. unfold install_body, io_bind.
  destruct (Stage _ _ _ _ _ _ _ _ w) as [rs w1] eqn:Es.
  assert (passed (fun d => pending A T d0 d /\ dirs_to T d) w w1) as Hpass.
  { eapply passed_impl; [|exact (steps_in_passed _ _ _ _ _ _ (Stage_below _ _ _ _ _ _ Hr Hh) eq_refl Es)].
    intros d Hb. by eapply pending_below. }
  assert (forall w2, passed (fun d => pending A T d0 d /\ dirs_to T d) w w2 -> passed (pending A T d0) w w2) as Hweak
    by (intros w2 H2; eapply passed_impl; [|exact H2]; by intros d []).
  destruct rs as [sha|e]; [|intros [= <- <-]; by apply Hweak].
  assert (forall w2 w3, same_disk w2 w3 -> passed (fun d => pending A T d0 d /\ dirs_to T d) w w2 ->
    passed (fun d => pending A T d0 d /\ dirs_to T d) w w3) as Hread.
  { intros w2 w3 (E1 & E2 & E3) (C & D & new & E & F). split; [congruence|]. rewrite E1. split; [done|].
    exists new. by rewrite E3. }
  assert (passed (fun d => pending A T d0 d /\ dirs_to T d) w w1 /\ w_cwd w1 = w_cwd w) as [_ Hc1] by (by split; [|apply Hpass]).
  destruct (LoadManifest _ w1) as [rm w2] eqn:Em. pose proof (LoadManifest_reads _ _ _ _ Em) as Hs2.
  pose proof (Hread _ _ Hs2 Hpass) as Hpass2. destruct rm as [m|e]; [|intros [= <- <-]; by apply Hweak].
  cbn zeta. destruct (io_try _ w2) as [st w3] eqn:Et.
  pose proof (reads_try _ (reads_at _ _ (fun q => reads_read _)) _ _ _ Et) as Hs3.
  pose proof (Hread _ _ Hs3 Hpass2) as Hpass3. unfold io_try in Et.
  destruct (Stat _ w2) as [rst w3'] eqn:Est. injection Et as <- ->.
  destruct rst as [i|e]; [intros [= <- <-]; by apply Hweak|].
  destruct (errors_is e "ErrNotExist") eqn:Ee; [|intros [= <- <-]; by apply Hweak].
  pose proof (Stat_absent _ _ _ _ Est Ee) as Habs.
  destruct Hs2 as (Ed2 & Ec2 & _), Hs3 as (Ed3 & Ec3 & _).
  destruct (Rename _ _ w3) as [rr w4] eqn:Er. unfold Rename, at_path in Er.
  assert (w_cwd w3 = w_cwd w) as Hc3 by congruence. rewrite Hc3 in Er.
  destruct rr as [[]|e']; intros [= <- <-].
  - apply sys_write_ok in Er as (Hren & _ & Hpast). exists w3, m. split; [by apply Hweak|]. split; [|split; [done|]].
    + destruct (Stage_ok _ _ _ _ _ _ _ _ Hr Hh Es) as (Hsha & sraw & Hy & Hsrc).
      destruct (LoadManifest_ok _ _ _ _ Em) as (_ & Hmok & raw & Hraw & Hyraw).
      destruct (Join_child (w_cwd w) tmp ManifestFile) as [Ej _]; [done|done|]. rewrite Hc1, Ej in Hraw.
      split; [done|]. rewrite Ed3, Ed2. split; [by exists raw|]. by exists sha, sraw.
    + split; [done|]. rewrite Ed3. rewrite Ec2, Hc1 in Habs. split; [done|]. by rewrite Ed3 in Hren.
  - unfold sys_write in Er. apply Hweak in Hpass3. destruct (pop _) as [[] fs]; [injection Er as _ <-|].
    { destruct Hpass3 as (C & D & N). by split. }
    simpl in Er. destruct (rename _ _ _); [done|]. injection Er as _ <-. destruct Hpass3 as (C & D & N). by split.
Qed.
End install.

(** The directories an install makes first. *)
Lemma tmp_states apisDir rnd w r w' :
  let A := resolve (w_cwd w) apisDir in
  let T := (".tmp." +:+ rnd) :: A in
  slashless rnd -> disk_wf (w_disk w) ->
  (do! MkdirAll apisDir; MkdirTemp apisDir (".tmp." +:+ rnd)) w = (r, w') ->
  passed (pending A T (w_disk w)) w w' /\ resolve (w_cwd w) (Join apisDir (".tmp." +:+ rnd)) = T /\
  head (clean_stack (Join apisDir (".tmp." +:+ rnd))) <> Some ".." /\
  forall t, r = Ok t -> t = Join apisDir (".tmp." +:+ rnd) /\ dirs_to T (w_disk w').
Proof.
  intros A T Hrnd Hwf. destruct (plain_prefixed ".tmp." rnd) as [Hpl Hsl]; [done|done|done|simpl; lia|].
  destruct (Join_child (w_cwd w) apisDir (".tmp." +:+ rnd) Hpl Hsl) as [HT ->]. intros Hrun.
  unfold io_bind at 1 in Hrun. destruct (MkdirAll apisDir w) as [r1 w1] eqn:E1.
  pose proof (steps_in_passed _ _ _ _ _ _
    (steps_in_at (w_cwd w) (adds_dirs A) apisDir mkdir_all (mkdir_all_adds _ _ _ (under_refl A))) eq_refl E1) as P1.
  assert (passed (pending A T (w_disk w)) w w1) as P1'.
  { eapply passed_impl; [|exact P1]. intros d. apply pending_adds. }
  destruct P1 as (Hc1 & [_ Hwf1] & _). specialize (Hwf1 Hwf). split; [|split; [done|]].
  - destruct r1 as [[]|e]; [|by injection Hrun as _ <-].
    unfold MkdirTemp, io_bind, at_path in Hrun. cbn beta in Hrun. rewrite Hc1, HT in Hrun. fold A T in Hrun.
    destruct (sys_write (mkdir T) w1) as [r2 w2] eqn:E2. apply (passed_write (pending A T (w_disk w))) in E2.
    + eapply passed_trans; [exact P1'|]. by destruct r2; injection Hrun as _ <-.
    + apply P1'.
    + intros d (_ & _ & _ & ->)%mkdir_ok. split.
      * intros p Hp. rewrite lookup_insert_ne; [by apply P1'|]. intros <-. apply Hp, under_refl.
      * right. right. unfold stat. rewrite decide_False by done. apply lookup_insert_eq.
  - split; [by intros [=]; subst; apply Hpl|]. intros t ->. destruct r1 as [[]|e]; [|done].
    apply io_bind_ok in Hrun as ([] & w2 & E2 & [= <- <-]). split; [done|]. unfold at_path in E2.
    rewrite Hc1, HT in E2. fold A T in E2. apply sys_write_ok in E2 as (Em & _). apply mkdir_ok in Em as (Hne & _ & Hpar & Ed2).
    apply wf_dirs; rewrite Ed2; [by apply insert_wf|]. unfold stat. rewrite decide_False by done. by rewrite lookup_insert_eq.
Qed.

Lemma Install_states `{GitHub} `{BundleYaml} (apiBase codeloadBase token apisDir : string) (ref : Ref)
    (renames : gmap string string) (rnd srnd : string) (now : Z) (w w' : world) (r : result string)
    (Hrnd : slashless rnd) (Hsrnd : slashless srnd) (Hwf : disk_wf (w_disk w))
    (Hrun : Install apiBase codeloadBase token apisDir ref renames rnd srnd now w = (r, w')) :
  let A := resolve (w_cwd w) apisDir in
  let T := (".tmp." +:+ rnd) :: A in
  match r with
  | Err _ => passed (pending A T (w_disk w)) w w'
  | Ok dir => exists w1 m,
      passed (pending A T (w_disk w)) w w1 /\ staged apiBase token ref renames now T m (w_disk w1) /\
      w_past w' = w_disk w1 :: w_past w1 /\ dir = BundleDir apisDir (mf_Name m) /\
      let F := resolve (w_cwd w) dir in
      stat F (w_disk w1) = None /\
      (forall k, w_disk w' !! (k ++ F) = w_disk w1 !! (k ++ T)) /\
      (forall p, ~ under F p -> w_disk w' !! p = if below T p then None else w_disk w1 !! p)
  end.
Proof.
  intros A T. unfold Install in Hrun.
  assert (passed (pending A T (w_disk w)) w w) as Hself by (apply passed_refl; [apply pending_refl|done]).
  destruct (bool_decide (ref_Version ref = "")); [by injection Hrun as <- <-|]. unfold io_bind at 1 in Hrun.
  cbn [io_lift] in Hrun. rewrite io_bind_assoc in Hrun. unfold io_bind at 1 in Hrun.
  destruct (io_bind (MkdirAll apisDir) _ w) as [r1 w1] eqn:E1.
  destruct (tmp_states _ _ _ _ _ Hrnd Hwf E1) as (P1 & HT & Hhead & Hok). fold A T in P1, HT, Hok.
  destruct r1 as [t|e]; [|by injection Hrun as <- <-]. destruct (Hok t eq_refl) as [-> Hdirs]. clear Hok.
  set (tmp := Join apisDir (".tmp." +:+ rnd)) in *.
  change (unless_committed (install_body apiBase codeloadBase token apisDir tmp ref renames srnd now) (RemoveAll tmp) w1 = (r, w'))
    in Hrun.
  unfold unless_committed in Hrun. destruct (install_body _ _ _ _ _ _ _ _ _ w1) as [r3 w3] eqn:E3.
  pose proof (install_body_states apiBase codeloadBase token apisDir tmp ref renames srnd now A (w_disk w) w1 r3 w3 Hsrnd) as Hb.
  cbn zeta in Hb. destruct P1 as (Hc & HP & Hnew). rewrite Hc, HT in Hb. specialize (Hb Hhead HP Hdirs E3).
  assert (passed (pending A T (w_disk w)) w w1) as P1 by done. destruct r3 as [dir|e].
  - injection Hrun as <- <-. destruct Hb as (w4 & m & P4 & Hst & Hdir & Hpast & Habs & Hren).
    exists w4, m. split; [by eapply passed_trans|]. split; [done|]. split; [done|]. split; [done|]. cbn zeta.
    split; [done|]. apply rename_ok in Hren as (_ & _ & Hk & Hout & Hgone). split; [done|]. intros p Hp.
    destruct (below T p) eqn:Eu; [by apply Hgone; [|apply below_under]|].
    apply Hout; [done|]. intros Hu. apply below_under in Hu. congruence.
  - destruct (RemoveAll _ w3) as [r4 w4] eqn:E4. injection Hrun as <- <-. cbn [snd].
    eapply passed_trans; [exact P1|]. eapply passed_trans; [exact Hb|]. destruct Hb as (Hc3 & D3 & _).
    unfold RemoveAll, at_path in E4. rewrite Hc3, Hc, HT in E4.
    eapply passed_write; [exact D3| |exact E4]. intros d [= <-]. by apply pending_outside.
Qed.

(** Installing a bundle is all or nothing.  Every state an install passes
    through before its last call differs from the first only inside one fresh
    hidden directory and by missing directories on the way to the bundles; so
    does the final state when it fails, at whatever call.  When it succeeds the
    last state before held a valid manifest and the install record of the
    resolved commit in that directory, nothing was at the final place, and the
    last call moved the directory there and changed nothing else. *)
Theorem install_all_or_nothing `{GitHub} `{BundleYaml} (apiBase codeloadBase token apisDir : string) (ref : Ref)
    (renames : gmap string string) (rnd srnd : string) (now : Z) (w w' : world) (r : result string)
    (Hrnd : slashless rnd) (Hsrnd : slashless srnd) (Hwf : disk_wf (w_disk w))
    (Hrun : Install apiBase codeloadBase token apisDir ref renames rnd srnd now w = (r, w')) :
  let A := resolve (w_cwd w) apisDir in
  let T := (".tmp." +:+ rnd) :: A in
  match r with
  | Err _ => passed (pending A T (w_disk w)) w w'
  | Ok dir => exists w1 m,
      passed (pending A T (w_disk w)) w w1 /\ staged apiBase token ref renames now T m (w_disk w1) /\
      w_past w' = w_disk w1 :: w_past w1 /\ dir = BundleDir apisDir (mf_Name m) /\
      let F := resolve (w_cwd w) dir in
      stat F (w_disk w1) = None /\
      (forall k, w_disk w' !! (k ++ F) = w_disk w1 !! (k ++ T)) /\
      (forall p, ~ under F p -> w_disk w' !! p = if below T p then None else w_disk w1 !! p)
  end.
Proof. by apply (Install_states apiBase codeloadBase token apisDir ref renames rnd srnd now). Qed.

(** ** A bundle that lands elsewhere *)

Definition demo_install (github : GitHub) (yaml : BundleYaml) : result string * world :=
  @Install github yaml "https://api" "https://dl" "" "/srv/apis" (mkRef "github.com" "acme" "apis" "main") ∅ "1" "2" 0 demo_world.


Lemma install_all_or_nothing_witness :
  (demo_install demo_github demo_yaml).1 = Ok "/srv/apis/acme" /\
  w_disk (demo_install demo_github demo_yaml).2 !! ["bouncer.yaml"; "acme"; "apis"; "srv"] = Some (IFile "manifest").
Proof.
  assert ((demo_install demo_github demo_yaml).1 = Ok "/srv/apis/acme") as H1 by (vm_compute; reflexivity).
  split; [exact H1|]. destruct (demo_install demo_github demo_yaml) as [r w'] eqn:E. cbn [fst] in H1. rewrite H1 in E.
  unfold demo_install in E.
  destruct (@install_all_or_nothing demo_github demo_yaml "https://api" "https://dl" "" "/srv/apis"
    (mkRef "github.com" "acme" "apis" "main") ∅ "1" "2" 0 demo_world w' (Ok "/srv/apis/acme") eq_refl eq_refl ltac:(apply (bool_decide_unpack _); vm_compute; exact I) E) as (w1 & m & _ & Hst & _ & _ & _ & Hk & _).
  destruct Hst as (_ & (raw & Hraw & Hy) & _). etrans; [exact (Hk ["bouncer.yaml"])|].
  etrans; [exact Hraw|]. cbn in Hy. case_decide; [by subst|done].
Defined.

(** The name is not checked to be a path component: a bundle called
    "../elsewhere" is installed next to the directory of the bundles. *)
Definition escaping_yaml : BundleYaml := {|
  yaml_manifest raw := Ok (mkManifest 1 "../elsewhere" "1" "" "" "" ["apis"] None []);
  yaml_source := @yaml_source demo_yaml; yaml_apis := @yaml_apis demo_yaml; yaml_marshal_source := @yaml_marshal_source demo_yaml
|}.

Example install_escapes :
  (demo_install demo_github escaping_yaml).1 = Ok "/srv/elsewhere" /\
  w_disk (demo_install demo_github escaping_yaml).2 !! ["bouncer.yaml"; "elsewhere"; "srv"] = Some (IFile "manifest").
Proof. vm_compute. done. Qed.
