(* ===== verification/BundleLoad.v ===== *)
(** * Bundles, loading: internal/control/bundles load.go

    The API specs of a directory: loose files first, then the bundles of its
    visible subdirectories, with their renames and without duplicate names.
    The theorems: where every loaded spec comes from, and that a directory in
    the middle of an install loads as it did before. *)

From S2P Require Import Prelude GoStd Models Url ApiClient Query Paths Disk Bundles BundleFetch.

Record LoadedAPI := mkLoaded {
  la_Spec : API;
  la_Source : string;
  la_BundleDir : string;
  la_BundleName : string;
  la_Readme : string;
  la_Service : option BundleService;
  la_TokenVariants : list TokenVariant
}.

Definition isYAMLFile (name : string) : bool := has_suffix ".yaml" name || has_suffix ".yml" name.

Definition hidden (name : string) : bool := has_prefix "." name.

Definition with_name (n : string) (a : API) : API :=
  mkAPI n (api_BaseURL a) (api_PathPrefixes a) (api_Meta a) (api_Actions a) (api_AccessDeniedStatus a) (api_Auth a).

(** One call per element, in order, until one fails. *)
Fixpoint io_each {A B} (f : A -> io (list B)) (l : list A) : io (list B) :=
  match l with
  | [] => io_ret []
  | x :: l => do ys <- f x; do zs <- io_each f l; io_ret (ys ++ zs)
  end.

Section load.
Context `{BundleYaml}.

Definition decodeAPIDocs (p : string) : io (list API) := do raw <- ReadFile p; io_lift (yaml_apis raw).

Definition yaml_names (es : list (string * bool)) : list string :=
  omap (fun e => if e.2 || negb (isYAMLFile e.1) then None else Some e.1) es.

Definition ResolveManifestEntry (bundleRoot rel : string) : io (list string) :=
  let full := Join bundleRoot rel in
  if negb (has_prefix (bundleRoot +:+ "/") full) && negb (bool_decide (full = bundleRoot))
  then io_fail (EMsg "escapes bundle directory")
  else
    do info <- Stat full;
    match info with
    | IFile _ => if isYAMLFile (Base full) then io_ret [full] else io_fail (EMsg "not a YAML file")
    | IDir =>
        do es <- ReadDir full;
        let out := map (Join full) (yaml_names es) in
        if decide (out = []) then io_fail (EMsg "contains no YAML files") else io_ret (sort_strings out)
    end.

Definition rename_api (renames : gmap string string) (a : API) : API :=
  match renames !! api_Name a with Some n => with_name n a | None => a end.

Definition load_file (dir readme : string) (m : Manifest) (src : SourceRecord) (full : string) : io (list LoadedAPI) :=
  do docs <- decodeAPIDocs full;
  io_ret (map (fun a => mkLoaded (rename_api (src_APIRenames src) a) full dir (mf_Name m) readme (mf_Service m) (mf_Token m)) docs).

Definition loadOneBundle (dir : string) : io (list LoadedAPI) :=
  do manifest <- LoadManifest (Join dir ManifestFile);
  do source <- LoadSource (Join dir SourceFile);
  let bundleRoot := Clean dir in
  do readme <- io_try (ReadFile (Join bundleRoot ReadmeFile));
  let readme := match readme with Ok b => b | Err _ => "" end in
  io_each (fun rel =>
    do paths <- ResolveManifestEntry bundleRoot rel;
    io_each (load_file dir readme manifest source) paths) (mf_APIs manifest).

Definition readDirOrEmpty (dir : string) : io (list (string * bool)) :=
  do es <- io_try (ReadDir dir);
  match es with
  | Ok es => io_ret es
  | Err e => if errors_is e "ErrNotExist" then io_ret [] else io_fail e
  end.

(** The first loop of [LoadAll]: loose files and bundle directories. *)
Fixpoint scan_dir (dir : string) (es : list (string * bool)) : io (list string * list string) :=
  match es with
  | [] => io_ret ([], [])
  | (n, true) :: es =>
      if hidden n then scan_dir dir es
      else
        do st <- io_try (Stat (Join (Join dir n) ManifestFile));
        do rest <- scan_dir dir es;
        io_ret (rest.1, if is_ok st then Join dir n :: rest.2 else rest.2)
  | (n, false) :: es =>
      do rest <- scan_dir dir es;
      io_ret (if isYAMLFile n then Join dir n :: rest.1 else rest.1, rest.2)
  end.

Fixpoint assertUniqueNames (seen : list string) (l : list LoadedAPI) : result unit :=
  match l with
  | [] => Ok tt
  | a :: l =>
      fail_if bool_decide (api_Name (la_Spec a) ∈ seen) with EMsg "declared twice" ;;
      assertUniqueNames (api_Name (la_Spec a) :: seen) l
  end.

Definition load_loose (p : string) : io (list LoadedAPI) :=
  do docs <- decodeAPIDocs p; io_ret (map (fun a => mkLoaded a p "" "" "" None []) docs).

Definition LoadAll (APIsDir : string) : io (list LoadedAPI) :=
  if decide (APIsDir = "") then io_ret []
  else
    do es <- readDirOrEmpty APIsDir;
    do found <- scan_dir APIsDir es;
    do out1 <- io_each load_loose found.1;
    do out2 <- io_each loadOneBundle found.2;
    let out := out1 ++ out2 in
    do! io_lift (assertUniqueNames [] out);
    io_ret out.
End load.

(** ** What the server derives *)

Record LoadedService := mkLoadedService {
  ls_Service : BundleService;
  ls_TokenVariants : list TokenVariant;
  ls_APIs : list string;
  ls_BundleName : string
}.

(** Adjacent duplicates go. *)
Fixpoint dedupeStrings (l : list string) : list string :=
  match l with
  | x :: (y :: _) as l' => if decide (x = y) then dedupeStrings l' else x :: dedupeStrings l'
  | _ => l
  end.

(** [byBundle], built in order: the entry keeps the first service it saw. *)
Definition add_to_bundle (m : gmap string LoadedService) (l : LoadedAPI) : gmap string LoadedService :=
  match la_Service l with
  | None => m
  | Some s =>
      let entry := default (mkLoadedService s (la_TokenVariants l) [] (la_BundleName l)) (m !! la_BundleName l) in
      <[la_BundleName l := mkLoadedService (ls_Service entry) (ls_TokenVariants entry)
         (ls_APIs entry ++ [api_Name (la_Spec l)]) (ls_BundleName entry)]> m
  end.

Definition slug_le (a b : LoadedService) : Prop := String.le (bs_Slug (ls_Service a)) (bs_Slug (ls_Service b)).

#[export] Instance slug_le_dec : RelDecision slug_le.
Proof. intros a b. unfold slug_le. apply _. Defined.

(** The order of services with one slug is that of the map, here fixed. *)
Definition Services (loaded : list LoadedAPI) : list LoadedService :=
  merge_sort slug_le
    (map (fun kv => mkLoadedService (ls_Service kv.2) (ls_TokenVariants kv.2)
                      (dedupeStrings (sort_strings (ls_APIs kv.2))) (ls_BundleName kv.2))
       (map_to_list (foldl add_to_bundle ∅ loaded))).

Definition Readmes (loaded : list LoadedAPI) : gmap string string :=
  foldl (fun m l => if bool_decide (la_BundleName l = "") || bool_decide (la_Readme l = "") then m
                    else <[la_BundleName l := la_Readme l]> m) ∅ loaded.

Definition APIBundles (loaded : list LoadedAPI) : gmap string string :=
  foldl (fun m l => if decide (la_BundleName l = "") then m else <[api_Name (la_Spec l) := la_BundleName l]> m) ∅ loaded.

(** ** Loading only reads *)

Lemma reads_each {A B} (f : A -> io (list B)) l : (forall x, reads (f x)) -> reads (io_each f l).
Proof.
  intros Hf. induction l as [|x l IH]; simpl; [apply reads_lift|]. apply reads_bind; [apply Hf|]. intros ys.
  apply reads_bind; [apply IH|]. intros zs. apply reads_lift.
Qed.

Lemma reads_ret {A} (a : A) : reads (io_ret a).
Proof. apply reads_lift. Qed.

Lemma reads_fail {A} e : reads (@io_fail A e).
Proof. apply reads_lift. Qed.

Lemma ReadFile_reads p : reads (ReadFile p).
Proof. apply reads_at. intros q. apply reads_read. Qed.

Lemma ReadDir_reads p : reads (ReadDir p).
Proof. apply reads_at. intros q. apply reads_read. Qed.

Lemma Stat_reads p : reads (Stat p).
Proof. apply reads_at. intros q. apply reads_read. Qed.

Create HintDb bundle_reads.
#[export] Hint Resolve reads_ret reads_fail ReadFile_reads ReadDir_reads Stat_reads : bundle_reads.

Ltac reading := repeat first
  [ solve [auto 2 with bundle_reads] | apply reads_each; intros ? | apply reads_try | apply reads_bind; [|intros ?]
  | case_match | case_decide | apply reads_lift ].

Section load_facts.
Context `{BundleYaml}.

#[local] Hint Resolve LoadManifest_reads : bundle_reads.

Lemma decodeAPIDocs_reads p : reads (decodeAPIDocs p).
Proof. unfold decodeAPIDocs. reading. Qed.

Lemma LoadSource_reads p : reads (LoadSource p).
Proof. unfold LoadSource. reading. Qed.

Lemma ResolveManifestEntry_reads root rel : reads (ResolveManifestEntry root rel).
Proof. unfold ResolveManifestEntry. cbn zeta. reading. Qed.

#[local] Hint Resolve decodeAPIDocs_reads LoadSource_reads ResolveManifestEntry_reads : bundle_reads.

Lemma load_file_reads dir readme m src full : reads (load_file dir readme m src full).
Proof. unfold load_file. reading. Qed.

#[local] Hint Resolve load_file_reads : bundle_reads.

Lemma loadOneBundle_reads dir : reads (loadOneBundle dir).
Proof. unfold loadOneBundle. reading. Qed.

Lemma scan_dir_reads dir es : reads (scan_dir dir es).
Proof. induction es as [|[n []] es IH]; cbn [scan_dir]; reading; apply IH. Qed.

Lemma load_loose_reads p : reads (load_loose p).
Proof. unfold load_loose. reading. Qed.

#[local] Hint Resolve loadOneBundle_reads scan_dir_reads load_loose_reads : bundle_reads.

Lemma readDirOrEmpty_reads p : reads (readDirOrEmpty p).
Proof. unfold readDirOrEmpty. reading. Qed.

Lemma LoadAll_reads dir : reads (LoadAll dir).
Proof. unfold LoadAll. pose proof readDirOrEmpty_reads. reading. Qed.

(** ** Where a loaded spec comes from *)

Lemma io_each_ok {A B} (f : A -> io (list B)) l w zs w' :
  (forall x, reads (f x)) -> io_each f l w = (Ok zs, w') ->
  same_disk w w' /\ forall z, z ∈ zs -> exists x w1 ys w2, x ∈ l /\ same_disk w w1 /\ f x w1 = (Ok ys, w2) /\ z ∈ ys.
Proof.
  intros Hf. revert w zs. induction l as [|x l IH]; intros w zs; cbn [io_each].
  { intros [= <- <-]. split; [done|]. set_solver. }
  intros (ys & w1 & E & S & Hr)%io_bind_reads_ok; [|apply Hf].
  apply io_bind_ok in Hr as (zs' & w2 & Hz & [= <- <-]). apply IH in Hz as [S2 Hz].
  split; [by eapply same_disk_trans|]. intros z [Hin|Hin]%elem_of_app.
  - exists x, w, ys, w1. split; [set_solver|]. done.
  - destruct (Hz _ Hin) as (y & w3 & ys' & w4 & Hy & S3 & E3 & Hin3). exists y, w3, ys', w4.
    split; [set_solver|]. split; [by eapply same_disk_trans|]. done.
Qed.

Lemma decodeAPIDocs_ok p w docs w' :
  decodeAPIDocs p w = (Ok docs, w') ->
  exists raw, stat (resolve (w_cwd w) p) (w_disk w) = Some (IFile raw) /\ yaml_apis raw = Ok docs.
Proof.
  intros (raw & w1 & E & [= E2 _])%io_bind_ok. exists raw. split; [|done].
  unfold ReadFile, at_path in E. apply sys_read_ok in E as [_ E]. destruct (stat _ _) as [[]|]; try done. by injection E as ->.
Qed.

Lemma yaml_names_ok x es : x ∈ yaml_names es -> (x, false) ∈ es /\ isYAMLFile x = true.
Proof.
  unfold yaml_names. intros ([y []] & Hin & E)%list_elem_of_omap; simpl in E; [done|].
  destruct (isYAMLFile y) eqn:Ey; [|done]. by injection E as ->.
Qed.

Lemma full_under cwd root rel :
  Clean root = root -> head (clean_stack root) <> Some ".." ->
  negb (has_prefix (root +:+ "/") (Join root rel)) && negb (bool_decide (Join root rel = root)) = false ->
  under (resolve cwd root) (resolve cwd (Join root rel)).
Proof.
  intros Hroot Hhead [E|E]%andb_false_iff; apply negb_false_iff in E.
  - apply has_prefix_spec in E as [x E]. rewrite string_app_assoc in E.
    destruct (Join_Clean root rel) as [q Hq]; [rewrite <- Hroot; apply Clean_nonempty|].
    apply (resolve_prefix _ _ _ x); [|done]. by rewrite Hroot, Hq, Clean_Clean, <- Hq.
  - apply bool_decide_eq_true in E. rewrite E. apply under_refl.
Qed.

Lemma ResolveManifestEntry_ok root rel w ps w' :
  Clean root = root -> head (clean_stack root) <> Some ".." -> names_ok (w_disk w) ->
  ResolveManifestEntry root rel w = (Ok ps, w') ->
  forall p, p ∈ ps -> under (resolve (w_cwd w) root) (resolve (w_cwd w) p).
Proof.
  intros Hroot Hhead Hnames. unfold ResolveManifestEntry. cbn zeta. destruct (_ && _) eqn:Echk; [done|].
  pose proof (full_under (w_cwd w) _ _ Hroot Hhead Echk) as Hfull.
  intros (info & w1 & _ & (Sd & Sc & _) & Hr)%io_bind_reads_ok; [|apply Stat_reads]. destruct info as [b|].
  - destruct (isYAMLFile _); [|done]. injection Hr as <- _. by intros p ->%list_elem_of_singleton.
  - apply io_bind_ok in Hr as (es & w2 & Ed & Hr). case_decide; [done|]. injection Hr as <- _. intros p Hp.
    unfold sort_strings in Hp. rewrite merge_sort_Permutation in Hp. apply list_elem_of_fmap in Hp as (n & -> & Hn).
    apply yaml_names_ok in Hn as [Hn _]. unfold ReadDir, at_path in Ed. apply sys_read_ok in Ed as [_ Ed].
    destruct (stat _ _) as [[]|]; try done. injection Ed as <-. apply elem_of_dir_entries in Hn as [[i Hi] _].
    rewrite Sd in Hi. apply Hnames, Forall_cons in Hi as [[Hp Hs] _].
    destruct (Join_child (w_cwd w) (Join root rel) n Hp Hs) as [-> _]. by apply under_cons.
Qed.
End load_facts.

#[export] Hint Resolve LoadManifest_reads decodeAPIDocs_reads LoadSource_reads ResolveManifestEntry_reads : bundle_reads.

(** Where [l] comes from when [dir] is loaded from disk [d]. *)
Definition loose_from `{BundleYaml} (cwd : path) (d : disk) (dir : string) (l : LoadedAPI) : Prop :=
  exists n raw docs,
    la_Source l = Join dir n /\ isYAMLFile n = true /\
    stat (resolve cwd (la_Source l)) d = Some (IFile raw) /\ yaml_apis raw = Ok docs /\ la_Spec l ∈ docs /\
    la_BundleName l = "" /\ la_Service l = None.

Definition bundled_from `{BundleYaml} (cwd : path) (d : disk) (dir : string) (l : LoadedAPI) : Prop :=
  exists n m mraw src sraw raw docs spec,
    hidden n = false /\ la_BundleDir l = Join dir n /\
    stat (ManifestFile :: resolve cwd (Join dir n)) d = Some (IFile mraw) /\ yaml_manifest mraw = Ok m /\ manifest_ok m /\
    stat (SourceFile :: resolve cwd (Join dir n)) d = Some (IFile sraw) /\ yaml_source sraw = Ok src /\
    under (resolve cwd (Join dir n)) (resolve cwd (la_Source l)) /\
    stat (resolve cwd (la_Source l)) d = Some (IFile raw) /\ yaml_apis raw = Ok docs /\ spec ∈ docs /\
    la_Spec l = rename_api (src_APIRenames src) spec /\
    la_BundleName l = mf_Name m /\ la_Service l = mf_Service m /\ la_TokenVariants l = mf_Token m.

Section provenance.
Context `{BundleYaml}.

Lemma LoadSource_ok p w s w' :
  LoadSource p w = (Ok s, w') ->
  exists raw, stat (resolve (w_cwd w) p) (w_disk w) = Some (IFile raw) /\ yaml_source raw = Ok s.
Proof.
  unfold LoadSource. intros (raw & w1 & E1 & [= E2 _])%io_bind_ok. exists raw. unfold ReadFile, at_path in E1.
  apply sys_read_ok in E1 as [_ E1]. destruct (stat _ _) as [[]|]; try done. injection E1 as ->. split; [done|].
  destruct (yaml_source raw) as [s'|]; [|done]. cbn [mbind result_bind] in E2. by apply bind_ok in E2 as ([] & _ & [= <-]).
Qed.

Lemma load_file_ok dir readme m src full w ls w' l :
  load_file dir readme m src full w = (Ok ls, w') -> l ∈ ls ->
  exists raw docs spec, stat (resolve (w_cwd w) full) (w_disk w) = Some (IFile raw) /\ yaml_apis raw = Ok docs /\
    spec ∈ docs /\ l = mkLoaded (rename_api (src_APIRenames src) spec) full dir (mf_Name m) readme (mf_Service m) (mf_Token m).
Proof.
  unfold load_file. intros (docs & w1 & E & [= <- _])%io_bind_ok (spec & -> & Hs)%list_elem_of_fmap.
  apply decodeAPIDocs_ok in E as (raw & Hraw & Hy). by exists raw, docs, spec.
Qed.

Lemma loadOneBundle_ok dir n w ls w' l :
  plain n -> slashless n -> hidden n = false -> names_ok (w_disk w) ->
  loadOneBundle (Join dir n) w = (Ok ls, w') -> l ∈ ls -> bundled_from (w_cwd w) (w_disk w) dir l.
Proof.
  intros Hp Hs Hh Hnames. unfold loadOneBundle.
  intros (m & w1 & Em & S1 & Hr)%io_bind_reads_ok Hl; [|apply LoadManifest_reads].
  apply io_bind_reads_ok in Hr as (src & w2 & Es & S2 & Hr); [|apply LoadSource_reads]. cbn zeta in Hr.
  apply io_bind_reads_ok in Hr as (rd & w3 & _ & S3 & Hr); [|apply reads_try, ReadFile_reads].
  pose proof (same_disk_trans _ _ _ (same_disk_trans _ _ _ S1 S2) S3) as (Sd & Sc & _).
  apply io_each_ok in Hr as [_ Hr]; [|intros x; apply reads_bind; [apply ResolveManifestEntry_reads|];
    intros ps; apply reads_each; intros p; apply load_file_reads].
  destruct (Hr l Hl) as (rel & w4 & ys & w5 & _ & (Sd4 & Sc4 & _) & E & Hin).
  apply io_bind_reads_ok in E as (ps & w6 & Eps & (Sd6 & Sc6 & _) & E); [|apply ResolveManifestEntry_reads].
  apply io_each_ok in E as [_ E]; [|intros p; apply load_file_reads].
  destruct (E l Hin) as (full & w7 & ls7 & w8 & Hfull & (Sd7 & Sc7 & _) & Elf & Hin7).
  assert (w_disk w7 = w_disk w /\ w_cwd w7 = w_cwd w) as [Ed7 Ec7] by (split; congruence).
  destruct (load_file_ok _ _ _ _ _ _ _ _ _ Elf Hin7) as (raw & docs & spec & Hraw & Hy & Hspec & ->).
  rewrite Ed7, Ec7 in Hraw. destruct (LoadManifest_ok _ _ _ _ Em) as (_ & Hmok & mraw & Hmraw & Hmy).
  destruct (LoadSource_ok _ _ _ _ Es) as (sraw & Hsraw & Hsy). destruct S1 as (Sd1 & Sc1 & _). rewrite Sd1, Sc1 in Hsraw.
  destruct (Join_child (w_cwd w) (Join dir n) ManifestFile) as [Ejm _]; [done|done|]. rewrite Ejm in Hmraw.
  destruct (Join_child (w_cwd w) (Join dir n) SourceFile) as [Ejs _]; [done|done|]. rewrite Ejs in Hsraw.
  exists n, m, mraw, src, sraw, raw, docs, spec. do 7 (split; [done|]). split; [|done].
  assert (w_disk w4 = w_disk w /\ w_cwd w4 = w_cwd w) as [Ed4 Ec4] by (split; congruence).
  rewrite <- (resolve_Clean (w_cwd w) (Join dir n)), <- Ec4.
  eapply (ResolveManifestEntry_ok (Clean (Join dir n))); [apply Clean_Clean| |by rewrite Ed4|exact Eps|exact Hfull].
  rewrite clean_stack_Clean. destruct (Join_child [] dir n Hp Hs) as [_ ->]. intros [= ->]. by apply Hp.
Qed.

Lemma scan_dir_ok dir es w found w' :
  scan_dir dir es w = (Ok found, w') ->
  (forall p, p ∈ found.1 -> exists n, p = Join dir n /\ (n, false) ∈ es /\ isYAMLFile n = true) /\
  (forall p, p ∈ found.2 -> exists n, p = Join dir n /\ (n, true) ∈ es /\ hidden n = false).
Proof.
  revert w w' found. induction es as [|[n b] es IH]; intros w w' found; cbn [scan_dir].
  { intros [= <- _]. set_solver. }
  destruct b.
  - destruct (hidden n) eqn:Eh.
    + intros [H1 H2]%IH. split; intros p Hp; [destruct (H1 p Hp) as (x & ? & ? & ?)|destruct (H2 p Hp) as (x & ? & ? & ?)];
        exists x; set_solver.
    + intros (st & w1 & _ & Hr)%io_bind_ok. apply io_bind_ok in Hr as (rest & w2 & E & [= <- _]). apply IH in E as [H1 H2].
      simpl. split; intros p Hp; [destruct (H1 p Hp) as (x & ? & ? & ?); exists x; set_solver|].
      assert (p = Join dir n \/ p ∈ rest.2) as [->|Hp'] by (destruct (is_ok st); set_solver); [exists n; set_solver|].
      destruct (H2 p Hp') as (x & ? & ? & ?); exists x; set_solver.
  - intros (rest & w1 & E & [= <- _])%io_bind_ok. apply IH in E as [H1 H2]. simpl.
    split; intros p Hp; [|destruct (H2 p Hp) as (x & ? & ? & ?); exists x; set_solver].
    assert ((p = Join dir n /\ isYAMLFile n = true) \/ p ∈ rest.1) as [[-> Hy]|Hp'] by (destruct (isYAMLFile n) eqn:?; set_solver);
      [exists n; set_solver|]. destruct (H1 p Hp') as (x & ? & ? & ?); exists x; set_solver.
Qed.

Lemma assertUniqueNames_ok seen l :
  assertUniqueNames seen l = Ok tt <->
  NoDup (map (fun a => api_Name (la_Spec a)) l) /\ Forall (fun a => api_Name (la_Spec a) ∉ seen) l.
Proof.
  revert seen. induction l as [|a l IH]; intros seen; simpl; [split; [intros _; split; constructor|done]|].
  rewrite fail_if_ok, IH, bool_decide_eq_false, NoDup_cons, Forall_cons, !Forall_forall. split.
  - intros (H1 & H2 & H3). split; [split; [|done]|split; [done|]].
    + intros (b & E & Hb)%list_elem_of_fmap. specialize (H3 b Hb). set_solver.
    + intros b Hb. specialize (H3 b Hb). set_solver.
  - intros ([H1 H2] & H3 & H4). split; [done|]. split; [done|]. intros b Hb Hin. apply elem_of_cons in Hin as [E|Hin].
    + apply H1. apply list_elem_of_fmap. by exists b.
    + by apply (H4 b).
Qed.

Lemma readDirOrEmpty_ok dir w es w' :
  readDirOrEmpty dir w = (Ok es, w') ->
  forall n b, (n, b) ∈ es -> is_Some (w_disk w !! (n :: resolve (w_cwd w) dir)).
Proof.
  unfold readDirOrEmpty. intros (r & w1 & E & Hr)%io_bind_ok. unfold io_try in E.
  destruct (ReadDir dir w) as [r1 w2] eqn:Er. injection E as <- <-. destruct r1 as [es'|e].
  - injection Hr as <- _. unfold ReadDir, at_path in Er. apply sys_read_ok in Er as [_ Er].
    destruct (stat _ _) as [[]|]; try done. injection Er as <-. intros n b Hin. by apply elem_of_dir_entries in Hin as [? _].
  - destruct (errors_is e _); [|done]. injection Hr as <- _. set_solver.
Qed.
End provenance.

(** Loading the directory of bundles is transparent.  When [LoadAll] succeeds
    no two specs have the same name after renaming, and each one is a document
    of a file: a YAML file of the directory itself, or one inside the directory
    of a visible bundle that has a valid manifest and an install record, under
    that bundle's name, service and token variants, renamed as the record says. *)
Theorem LoadAll_provenance `{BundleYaml} (dir : string) (w w' : world) (out : list LoadedAPI)
    (Hdir : dir <> "") (Hnames : names_ok (w_disk w)) (Hrun : LoadAll dir w = (Ok out, w')) :
  same_disk w w' /\ NoDup (map (fun l => api_Name (la_Spec l)) out) /\
  forall l, l ∈ out -> loose_from (w_cwd w) (w_disk w) dir l \/ bundled_from (w_cwd w) (w_disk w) dir l.
Proof.
  split; [by eapply LoadAll_reads|]. unfold LoadAll in Hrun. rewrite decide_False in Hrun by done.
  apply io_bind_reads_ok in Hrun as (es & w1 & Ees & S1 & Hrun); [|apply readDirOrEmpty_reads].
  apply io_bind_reads_ok in Hrun as (found & w2 & Ef & S2 & Hrun); [|apply scan_dir_reads].
  apply io_bind_reads_ok in Hrun as (out1 & w3 & E1 & S3 & Hrun); [|apply reads_each, load_loose_reads].
  apply io_bind_reads_ok in Hrun as (out2 & w4 & E2 & S4 & Hrun); [|apply reads_each, loadOneBundle_reads].
  apply io_bind_ok in Hrun as ([] & w5 & [= Hu _] & [= <- _]). apply assertUniqueNames_ok in Hu as [Hnd _].
  split; [done|]. destruct (scan_dir_ok _ _ _ _ _ Ef) as [Hloose Hdirs].
  pose proof (same_disk_trans _ _ _ S1 S2) as S12. intros l [Hl|Hl]%elem_of_app.
  - left. apply io_each_ok in E1 as [_ E1]; [|apply load_loose_reads].
    destruct (E1 l Hl) as (p & w6 & ys & w7 & Hp & S6 & E & Hin). destruct (Hloose p Hp) as (n & -> & _ & Hy).
    pose proof (same_disk_trans _ _ _ S12 S6) as (Sd & Sc & _).
    unfold load_loose in E. apply io_bind_ok in E as (docs & w8 & Ed & [= <- _]).
    apply list_elem_of_fmap in Hin as (spec & -> & Hs). apply decodeAPIDocs_ok in Ed as (raw & Hraw & Hya).
    rewrite Sd, Sc in Hraw. by exists n, raw, docs.
  - right. apply io_each_ok in E2 as [_ E2]; [|apply loadOneBundle_reads].
    destruct (E2 l Hl) as (p & w6 & ys & w7 & Hp & S6 & E & Hin). destruct (Hdirs p Hp) as (n & -> & Hn & Hh).
    pose proof (same_disk_trans _ _ _ (same_disk_trans _ _ _ S12 S3) S6) as (Sd & Sc & _).
    destruct (readDirOrEmpty_ok _ _ _ _ Ees _ _ Hn) as [i Hi]. apply Hnames, Forall_cons in Hi as [[Hpl Hsl] _].
    rewrite <- Sd, <- Sc. eapply (loadOneBundle_ok dir n); [done|done|done|by rewrite Sd|exact E|exact Hin].
Qed.

(** ** An install in progress is invisible *)

Lemma StronglySorted_filter {A} (R : A -> A -> Prop) (p : A -> bool) l :
  StronglySorted R l -> StronglySorted R (List.filter p l).
Proof.
  induction 1 as [|x l Hl IH Hx]; simpl; [constructor|]. destruct (p x); [|done]. constructor; [done|].
  rewrite Forall_forall in Hx |- *. intros y Hy. apply list_elem_of_In, filter_In in Hy as [Hy _].
  by apply Hx, list_elem_of_In.
Qed.

Lemma sort_filter_ext l1 l2 (p q : string -> bool) :
  NoDup l1 -> NoDup l2 -> (forall x, x ∈ l1 /\ p x = true <-> x ∈ l2 /\ q x = true) ->
  List.filter p (sort_strings l1) = List.filter q (sort_strings l2).
Proof.
  intros H1 H2 Hx. assert (forall l (f : string -> bool), StronglySorted String.le (List.filter f (sort_strings l))) as Hs.
  { intros l f. apply StronglySorted_filter, Sorted_StronglySorted; [intros ???; apply (transitivity (R := String.le))|].
    apply Sorted_merge_sort, _. }
  apply (StronglySorted_unique String.le); [done..|]. apply NoDup_Permutation.
  - apply NoDup_ListNoDup, List.NoDup_filter, NoDup_ListNoDup. unfold sort_strings. by rewrite merge_sort_Permutation.
  - apply NoDup_ListNoDup, List.NoDup_filter, NoDup_ListNoDup. unfold sort_strings. by rewrite merge_sort_Permutation.
  - intros x. rewrite !list_elem_of_In, !filter_In, <- !list_elem_of_In. unfold sort_strings.
    rewrite !merge_sort_Permutation. apply Hx.
Qed.

Lemma filter_map_swap {A B} (p : B -> bool) (g : A -> B) l :
  List.filter p (map g l) = map g (List.filter (fun x => p (g x)) l).
Proof. induction l as [|x l IH]; simpl; [done|]. destruct (p (g x)); simpl; by rewrite IH. Qed.

Section invisible.
Context `{BundleYaml}.
Context (cwd A : path) (h : string) (Hh : hidden h = true).
Notation T := (h :: A).

(** The same process on two disks that differ in a hidden directory [T], and
    in directories on the way to it. *)
Record alike (w1 w2 : world) : Prop := {
  ak_cwd : w_cwd w1 = cwd /\ w_cwd w2 = cwd;
  ak_faults : w_faults w1 = w_faults w2;
  ak_disk : pending A T (w_disk w1) (w_disk w2);
  ak_tmp : stat T (w_disk w1) ∈ [None; Some IDir];
  ak_wf : disk_wf (w_disk w1) /\ names_ok (w_disk w1)
}.

Definition same_results {B} (m : io B) : Prop :=
  forall w1 w2, alike w1 w2 -> (m w1).1 = (m w2).1 /\ alike (m w1).2 (m w2).2.

Lemma same_lift {B} (r : result B) : same_results (io_lift r).
Proof. done. Qed.

Lemma same_bind {B C} (m : io B) (f : B -> io C) :
  same_results m -> (forall a w w', w_cwd w = cwd -> names_ok (w_disk w) -> m w = (Ok a, w') -> same_results (f a)) ->
  same_results (io_bind m f).
Proof.
  intros Hm Hf w1 w2 Ha. pose proof (Hm w1 w2 Ha) as [E1 E2]. unfold io_bind.
  destruct (m w1) as [r1 v1] eqn:Em, (m w2) as [r2 v2]. simpl in E1, E2. subst r2. destruct r1 as [a|e]; [|done].
  apply (Hf a w1 v1); [apply Ha|apply Ha|done|done].
Qed.

Lemma same_try {B} (m : io B) : same_results m -> same_results (io_try m).
Proof.
  intros Hm w1 w2 Ha. pose proof (Hm w1 w2 Ha) as [E1 E2]. unfold io_try.
  destruct (m w1), (m w2). simpl in *. by subst.
Qed.

Lemma same_each {B C} (f : B -> io (list C)) l : (forall x, x ∈ l -> same_results (f x)) -> same_results (io_each f l).
Proof.
  induction l as [|x l IH]; intros Hf; [apply same_lift|]. cbn [io_each]. apply same_bind; [apply Hf; set_solver|].
  intros ys w w' _ _ _. apply same_bind; [apply IH; intros y Hy; apply Hf; set_solver|]. intros zs v v' _ _ _. apply same_lift.
Qed.

(** Paths where two alike disks agree. *)
Definition visible (q : path) : Prop := ~ under T q /\ ~ under q A.

Lemma visible_under n q : n <> h -> under (n :: A) q -> visible q.
Proof.
  intros Hn [k ->]. split.
  - intros [l E]. apply Hn. rewrite (cons_middle n k A), (cons_middle h l A), !app_assoc in E.
    apply app_inv_tail in E. by apply app_inj_tail in E as [_ E].
  - intros [l E]. apply (f_equal length) in E. rewrite !length_app in E. simpl in E. lia.
Qed.

Lemma visible_stat w1 w2 q : alike w1 w2 -> visible q -> stat q (w_disk w1) = stat q (w_disk w2).
Proof.
  intros Ha [Hn Hu]. unfold stat. case_decide; [done|]. destruct (proj1 (ak_disk _ _ Ha) q Hn) as [->|(? & _)]; [done|done].
Qed.

Lemma same_read {B} (f : disk -> result B) :
  (forall w1 w2, alike w1 w2 -> f (w_disk w1) = f (w_disk w2)) -> same_results (sys_read f).
Proof.
  intros Hf w1 w2 Ha. unfold sys_read. rewrite (ak_faults _ _ Ha). pose proof (Hf w1 w2 Ha) as E.
  destruct (pop (w_faults w2)) as [[] fs]; simpl; (split; [done|]); destruct Ha; by split.
Qed.

Lemma same_at {B} p (f : path -> io B) : same_results (f (resolve cwd p)) -> same_results (at_path p f).
Proof. intros Hf w1 w2 Ha. unfold at_path. destruct (ak_cwd _ _ Ha) as [-> ->]. by apply Hf. Qed.

Lemma same_Stat p : visible (resolve cwd p) -> same_results (Stat p).
Proof. intros Hv. apply same_at, same_read. intros w1 w2 Ha. by rewrite (visible_stat _ _ _ Ha Hv). Qed.

Lemma same_ReadFile p : visible (resolve cwd p) -> same_results (ReadFile p).
Proof. intros Hv. apply same_at, same_read. intros w1 w2 Ha. by rewrite (visible_stat _ _ _ Ha Hv). Qed.

Lemma visible_child x q : visible q -> visible (x :: q).
Proof.
  intros [H1 H2]. split.
  - intros [[|y k] E]; simpl in E; injection E as -> E; [|by apply H1; exists k]. apply H2. rewrite E. apply under_refl.
  - intros [k ->]. apply H2. exists (k ++ [x]). by rewrite <- app_assoc.
Qed.

Lemma filter_true {B} (l : list B) : List.filter (fun _ => true) l = l.
Proof. induction l as [|x l IH]; [done|]. simpl. by rewrite IH. Qed.

Lemma visible_entries w1 w2 q : alike w1 w2 -> visible q -> dir_entries q (w_disk w1) = dir_entries q (w_disk w2).
Proof.
  intros Ha Hv. unfold dir_entries. assert (forall x, stat (x :: q) (w_disk w1) = stat (x :: q) (w_disk w2)) as Hs.
  { intros x. by apply visible_stat, visible_child. }
  assert (sort_strings (children q (w_disk w1)) = sort_strings (children q (w_disk w2))) as ->.
  { rewrite <- (filter_true (sort_strings (children q (w_disk w1)))), <- (filter_true (sort_strings (children q (w_disk w2)))).
    apply sort_filter_ext; [apply children_NoDup..|]. intros x.
    by rewrite !elem_of_children_stat, Hs. }
  apply map_ext. intros x. by rewrite Hs.
Qed.

Lemma same_ReadDir p : visible (resolve cwd p) -> same_results (ReadDir p).
Proof.
  intros Hv. apply same_at, same_read. intros w1 w2 Ha.
  by rewrite (visible_stat _ _ _ Ha Hv), (visible_entries _ _ _ Ha Hv).
Qed.

Lemma same_ResolveManifestEntry root rel n :
  n <> h -> resolve cwd root = n :: A -> Clean root = root -> head (clean_stack root) <> Some ".." ->
  same_results (ResolveManifestEntry root rel).
Proof.
  intros Hn Hr Hc Hd. unfold ResolveManifestEntry. cbn zeta. destruct (_ && _) eqn:Echk; [apply same_lift|].
  assert (visible (resolve cwd (Join root rel))) as Hv.
  { apply (visible_under n); [done|]. rewrite <- Hr. by eapply full_under. }
  apply same_bind; [by apply same_Stat|]. intros info w w' _ _ _. destruct info; [destruct (isYAMLFile _); apply same_lift|].
  apply same_bind; [by apply same_ReadDir|]. intros es v v' _ _ _.
  destruct (decide (map _ _ = [])); apply same_lift.
Qed.

Lemma same_decode p : visible (resolve cwd p) -> same_results (decodeAPIDocs p).
Proof. intros Hv. apply same_bind; [by apply same_ReadFile|]. intros raw w w' _ _ _. apply same_lift. Qed.

Lemma same_loadOneBundle dir n :
  resolve cwd dir = A -> plain n -> slashless n -> n <> h -> same_results (loadOneBundle (Join dir n)).
Proof.
  intros HA Hp Hs Hn. destruct (Join_child cwd dir n Hp Hs) as [Er Eh]. rewrite HA in Er.
  assert (forall x, plain x -> slashless x -> visible (resolve cwd (Join (Join dir n) x))) as Hv.
  { intros x Hpx Hsx. destruct (Join_child cwd (Join dir n) x Hpx Hsx) as [-> _]. rewrite Er.
    apply (visible_under n); [done|]. apply under_cons, under_refl. }
  unfold loadOneBundle. apply same_bind; [apply same_bind; [by apply same_ReadFile, Hv|intros; apply same_lift]|].
  intros m _ _ _ _ _. apply same_bind; [apply same_bind; [by apply same_ReadFile, Hv|intros; apply same_lift]|].
  intros src _ _ _ _ _. cbn zeta. apply same_bind.
  { apply same_try, same_ReadFile. destruct (Join_child cwd (Clean (Join dir n)) ReadmeFile) as [-> _]; [done|done|].
    rewrite resolve_Clean, Er. apply (visible_under n); [done|]. apply under_cons, under_refl. }
  assert (resolve cwd (Clean (Join dir n)) = n :: A) as Erc by by rewrite resolve_Clean.
  assert (head (clean_stack (Clean (Join dir n))) <> Some "..") as Ehc.
  { rewrite clean_stack_Clean, Eh. intros [= ->]. by apply Hp. }
  intros rd _ _ _ _ _. apply same_each. intros rel _.
  apply same_bind; [by apply (same_ResolveManifestEntry _ _ n); [| |apply Clean_Clean|]|].
  intros ps w w' Hcwd Hnames Eps. apply same_each. intros full Hfull.
  apply same_bind; [|intros; apply same_lift]. apply same_decode. apply (visible_under n); [done|].
  rewrite <- Erc, <- Hcwd. by eapply ResolveManifestEntry_ok; [apply Clean_Clean| | |exact Eps|].
Qed.

(** Entries [scan_dir] looks at. *)
Definition shown_entry (e : string * bool) : bool := negb (e.2 && hidden e.1).

Lemma scan_dir_shown dir es w : scan_dir dir es w = scan_dir dir (List.filter shown_entry es) w.
Proof.
  revert w. induction es as [|[n b] es IH]; intros w; [done|]. unfold shown_entry. cbn [List.filter fst snd].
  destruct b; cbn [andb negb].
  - destruct (hidden n) eqn:E; cbn [negb scan_dir]; rewrite E; [apply IH|]. unfold io_bind.
    destruct (io_try _ w) as [[st|e] w1]; [|done]. by rewrite IH.
  - cbn [scan_dir]. unfold io_bind. by rewrite IH.
Qed.

Lemma alike_child w1 w2 x : alike w1 w2 -> x <> h -> stat (x :: A) (w_disk w1) = stat (x :: A) (w_disk w2).
Proof. intros Ha Hx. apply visible_stat; [done|]. apply (visible_under x); [done|]. apply under_refl. Qed.

Lemma alike_tmp w1 w2 : alike w1 w2 ->
  stat T (w_disk w1) ∈ [None; Some IDir] /\ stat T (w_disk w2) ∈ [None; Some IDir].
Proof.
  intros Ha. pose proof (ak_tmp _ _ Ha) as Ht. split; [exact Ht|].
  destruct (proj2 (ak_disk _ _ Ha)) as [E|[E|E]]; rewrite E; [exact Ht|set_solver..].
Qed.

Lemma shown_entries w1 w2 :
  alike w1 w2 ->
  List.filter shown_entry (dir_entries A (w_disk w1)) = List.filter shown_entry (dir_entries A (w_disk w2)).
Proof.
  intros Ha. unfold dir_entries. rewrite !filter_map_swap.
  set (p1 := fun x => shown_entry (x, bool_decide (stat (x :: A) (w_disk w1) = Some IDir))).
  set (p2 := fun x => shown_entry (x, bool_decide (stat (x :: A) (w_disk w2) = Some IDir))).
  assert (forall x, x ∈ children A (w_disk w1) /\ p1 x = true <-> x ∈ children A (w_disk w2) /\ p2 x = true) as Hx.
  { intros x. rewrite !elem_of_children_stat. unfold p1, p2, shown_entry. cbn [fst snd].
    destruct (decide (x = h)) as [->|Hne]; [|by rewrite (alike_child _ _ x Ha Hne)]. rewrite Hh.
    destruct (alike_tmp _ _ Ha) as [H1 H2]. split; intros [[i Hi] Hs]; exfalso.
    - rewrite Hi in H1, Hs. assert (i = IDir) as -> by set_solver. done.
    - rewrite Hi in H2, Hs. assert (i = IDir) as -> by set_solver. done. }
  rewrite (sort_filter_ext _ _ p1 p2) by (done || apply children_NoDup). apply map_ext_in. intros x Hin.
  apply filter_In in Hin as [Hin Hp2]. destruct (decide (x = h)) as [->|Hne].
  - exfalso. apply list_elem_of_In in Hin. unfold sort_strings in Hin. rewrite merge_sort_Permutation in Hin.
    apply elem_of_children_stat in Hin as [i Hi]. destruct (alike_tmp _ _ Ha) as [_ H2]. unfold p2, shown_entry in Hp2.
    cbn [fst snd] in Hp2. rewrite Hh, Hi in Hp2. rewrite Hi in H2. assert (i = IDir) as -> by set_solver. done.
  - by rewrite (alike_child _ _ x Ha Hne).
Qed.

(** The top directory may appear empty where there was none. *)
Lemma readDirOrEmpty_alike dir w1 w2 :
  resolve cwd dir = A -> alike w1 w2 ->
  alike (readDirOrEmpty dir w1).2 (readDirOrEmpty dir w2).2 /\
  match (readDirOrEmpty dir w1).1, (readDirOrEmpty dir w2).1 with
  | Ok e1, Ok e2 => List.filter shown_entry e1 = List.filter shown_entry e2 /\
      (forall x b, (x, b) ∈ List.filter shown_entry e1 -> x <> h /\ plain x /\ slashless x)
  | Err a, Err b => a = b
  | _, _ => False
  end.
Proof.
  intros Hr Ha. unfold readDirOrEmpty, io_bind, io_try, ReadDir, at_path. destruct (ak_cwd _ _ Ha) as [-> ->].
  rewrite Hr. unfold sys_read. rewrite (ak_faults _ _ Ha). pose proof (shown_entries _ _ Ha) as He.
  destruct (alike_tmp _ _ Ha) as [Ht _]. destruct (ak_wf _ _ Ha) as [Hwf Hnames].
  assert (forall x b, (x, b) ∈ List.filter shown_entry (dir_entries A (w_disk w1)) -> x <> h /\ plain x /\ slashless x) as Hx.
  { intros x b Hin. apply list_elem_of_In, filter_In in Hin as [Hin Hs]. apply list_elem_of_In in Hin.
    apply elem_of_dir_entries in Hin as [[i Hi] ->]. split.
    - intros ->. assert (stat T (w_disk w1) = Some i) as Hst by (unfold stat; rewrite decide_False by done; exact Hi).
      rewrite Hst in Ht. assert (i = IDir) as -> by set_solver. unfold shown_entry in Hs. cbn [fst snd] in Hs.
      rewrite Hh, andb_true_r in Hs. apply negb_true_iff, bool_decide_eq_false in Hs. by apply Hs.
    - by apply Hnames, Forall_cons in Hi as [? _]. }
  assert (forall fs, alike (mkWorld (w_disk w1) (w_cwd w1) fs (w_past w1)) (mkWorld (w_disk w2) (w_cwd w2) fs (w_past w2))) as Hal
    by (intros fs; destruct Ha; by split).
  assert (stat A (w_disk w1) = stat A (w_disk w2) \/
    (stat A (w_disk w1) = None /\ stat A (w_disk w2) = Some IDir /\ children A (w_disk w1) = [])) as HA.
  { destruct (proj1 (ak_disk _ _ Ha) A) as [E|(_ & E1 & E2)].
    - intros [k E]. apply (f_equal length) in E. rewrite length_app in E. simpl in E. lia.
    - left. unfold stat. by rewrite E.
    - destruct (decide (A = [])) as [->|Hne]; [by left|right].
      assert (stat A (w_disk w1) = None) as Hnone by (unfold stat; rewrite decide_False by done; exact E1).
      split; [done|]. split; [unfold stat; rewrite decide_False by done; exact E2|].
      destruct (children A (w_disk w1)) as [|x l] eqn:Ech; [done|]. exfalso.
      assert (x ∈ children A (w_disk w1)) as [i Hi]%elem_of_children by (rewrite Ech; set_solver).
      apply Hwf in Hi as [_ Hi]. simpl in Hi. congruence. }
  destruct (pop (w_faults w2)) as [[] fs]; simpl; [by split; [apply Hal|]|].
  destruct HA as [<-|(-> & -> & Hnil)].
  - destruct (stat A (w_disk w1)) as [[]|]; simpl; (split; [apply Hal|]); try done. split; [done|]. set_solver.
  - simpl. split; [apply Hal|]. rewrite <- He. unfold dir_entries. rewrite Hnil. simpl. split; [done|]. set_solver.
Qed.

Lemma same_scan_dir dir es :
  resolve cwd dir = A -> (forall x b, (x, b) ∈ es -> x <> h /\ plain x /\ slashless x) -> same_results (scan_dir dir es).
Proof.
  intros Hr. induction es as [|[n b] es IH]; intros Hes; [apply same_lift|]. cbn [scan_dir].
  destruct (Hes n b) as (Hn & Hp & Hs); [set_solver|]. assert (same_results (scan_dir dir es)) as Hrec.
  { apply IH. intros x b' Hx. apply (Hes x b'). set_solver. }
  destruct b; [destruct (hidden n); [done|]; apply same_bind|apply same_bind]; try done.
  - apply same_try, same_Stat. destruct (Join_child cwd (Join dir n) ManifestFile) as [-> _]; [done|done|].
    destruct (Join_child cwd dir n Hp Hs) as [-> _]. rewrite Hr. apply (visible_under n); [done|]. apply under_cons, under_refl.
  - intros st _ _ _ _ _. apply same_bind; [done|]. intros; apply same_lift.
Qed.

Lemma LoadAll_alike dir w1 w2 :
  resolve cwd dir = A -> alike w1 w2 -> (LoadAll dir w1).1 = (LoadAll dir w2).1.
Proof.
  intros Hr Ha. unfold LoadAll. destruct (decide (dir = "")) as [|Hdir]; [done|].
  match goal with |- (io_bind _ ?f _).1 = _ => set (K := f) end. unfold io_bind.
  destruct (readDirOrEmpty_alike dir _ _ Hr Ha) as [Ha1 Hm].
  destruct (readDirOrEmpty dir w1) as [[e1|e1] v1] eqn:E1, (readDirOrEmpty dir w2) as [[e2|e2] v2]; simpl in Ha1, Hm; try done;
    [|by subst]. destruct Hm as [He Hx].
  assert (K e1 v1 = K (List.filter shown_entry e1) v1) as ->
    by (unfold K, io_bind; by rewrite scan_dir_shown).
  assert (K e2 v2 = K (List.filter shown_entry e1) v2) as ->
    by (unfold K, io_bind; by rewrite scan_dir_shown, <- He).
  refine (proj1 (_ v1 v2 Ha1)). unfold K. apply same_bind; [by apply same_scan_dir|].
  intros found w w' _ _ Ef. destruct (scan_dir_ok _ _ _ _ _ Ef) as [Hl Hd]. apply same_bind.
  { apply same_each. intros p Hp. destruct (Hl p Hp) as (n & -> & Hn & _). destruct (Hx _ _ Hn) as (Hne & Hpl & Hsl).
    apply same_bind; [|intros; apply same_lift]. apply same_decode. destruct (Join_child cwd dir n Hpl Hsl) as [-> _].
    rewrite Hr. apply (visible_under n); [done|]. apply under_refl. }
  intros out1 _ _ _ _ _. apply same_bind.
  { apply same_each. intros p Hp. destruct (Hd p Hp) as (n & -> & Hn & _). destruct (Hx _ _ Hn) as (Hne & Hpl & Hsl).
    by apply same_loadOneBundle. }
  intros out2 _ _ _ _ _. cbn zeta. apply same_bind; [apply same_lift|]. intros; apply same_lift.
Qed.
End invisible.

Lemma pending_reload `{BundleYaml} cwd apisDir h d0 d fs :
  hidden h = true -> disk_wf d0 -> names_ok d0 -> d0 !! (h :: resolve cwd apisDir) = None ->
  pending (resolve cwd apisDir) (h :: resolve cwd apisDir) d0 d ->
  (LoadAll apisDir (mkWorld d0 cwd fs [])).1 = (LoadAll apisDir (mkWorld d cwd fs [])).1.
Proof.
  intros Hh Hwf Hn Hfresh Hp. apply (LoadAll_alike cwd (resolve cwd apisDir) h Hh); [done|]. split; [done|done|exact Hp| |done].
  assert (stat (h :: resolve cwd apisDir) d0 = None) as E by (unfold stat; rewrite decide_False by done; exact Hfresh).
  simpl. rewrite E. set_solver.
Qed.

(** C28. An install that is running, failed or killed is invisible.  Whatever
    state of the disk an install leaves behind before its last call, loading
    the directory of bundles from it gives what it gave before the install, the
    same specs or the same error, also when the reads themselves fail. *)
Theorem install_invisible `{GitHub} `{BundleYaml} (apiBase codeloadBase token apisDir : string) (ref : Ref)
    (renames : gmap string string) (rnd srnd : string) (now : Z) (w w' : world) (r : result string) (fs : list bool)
    (Hrnd : slashless rnd) (Hsrnd : slashless srnd) (Hwf : disk_wf (w_disk w)) (Hnames : names_ok (w_disk w))
    (Hfresh : w_disk w !! ((".tmp." +:+ rnd) :: resolve (w_cwd w) apisDir) = None)
    (Hrun : Install apiBase codeloadBase token apisDir ref renames rnd srnd now w = (r, w')) :
  let reload d := (LoadAll apisDir (mkWorld d (w_cwd w) fs [])).1 in
  let unchanged d := reload d = reload (w_disk w) in
  match r with
  | Err _ => passed unchanged w w'
  | Ok _ => exists w1, passed unchanged w w1 /\ w_past w' = w_disk w1 :: w_past w1
  end.
Proof.
  intros reload unchanged. pose proof (Install_states _ _ _ _ _ _ _ _ _ _ _ _ Hrnd Hsrnd Hwf Hrun) as Hs. cbn zeta in Hs.
  assert (forall d, pending (resolve (w_cwd w) apisDir) ((".tmp." +:+ rnd) :: resolve (w_cwd w) apisDir) (w_disk w) d ->
    unchanged d) as Hu by (intros d Hp; exact (eq_sym (pending_reload _ _ (".tmp." +:+ rnd) _ _ fs eq_refl Hwf Hnames Hfresh Hp))).
  destruct r as [dir|e]; [|by eapply passed_impl].
  destruct Hs as (w1 & m & Hp & _ & Hpast & _). exists w1. split; [by eapply passed_impl|done].
Qed.

(** ** The small archive, loaded *)

Definition demo_loaded (w : world) : result (list (string * string)) :=
  (fun l => map (fun a => (api_Name (la_Spec a), la_BundleName a)) l) <$> (@LoadAll demo_yaml "/srv/apis" w).1.

Example demo_loaded_after : demo_loaded (demo_install demo_github demo_yaml).2 = Ok [("a", "acme")].
Proof. vm_compute. reflexivity. Qed.

Lemma LoadAll_provenance_witness :
  exists l, bundled_from (H := demo_yaml) ["srv"] (w_disk (demo_install demo_github demo_yaml).2) "/srv/apis" l.
Proof.
  destruct (@LoadAll demo_yaml "/srv/apis" (demo_install demo_github demo_yaml).2) as [[out|e] w'] eqn:E.
  - pose proof demo_loaded_after as Hl. unfold demo_loaded in Hl. rewrite E in Hl. cbn in Hl.
    destruct (@LoadAll_provenance demo_yaml "/srv/apis" (demo_install demo_github demo_yaml).2 w' out ltac:(discriminate)
      ltac:(apply (bool_decide_unpack _); vm_compute; exact I) E) as (_ & _ & Hp).
    destruct out as [|l [|]]; try discriminate Hl. exists l.
    destruct (Hp l ltac:(left)) as [Hlo|Hb]; [|exact Hb].
    exfalso. destruct Hlo as (n & raw & docs & _ & _ & _ & _ & _ & Hn & _). injection Hl as _ Hn'. congruence.
  - exfalso. pose proof demo_loaded_after as Hl. unfold demo_loaded in Hl. rewrite E in Hl. discriminate Hl.
Defined.

(** With the last byte of the archive missing the install fails and cleans up. *)
Definition cut_github : GitHub := {|
  http_do := @http_do demo_github;
  gunzip raw := Ok (mkStream raw false);
  tar_read s := demo_file "apis-0123/bouncer.yaml" "manifest" :: (if sm_Clean s then [] else [TarErr])
|}.

Lemma install_invisible_witness :
  (demo_install cut_github demo_yaml).1 = Err (EMsg "tar") /\
  demo_loaded (mkWorld (w_disk (demo_install cut_github demo_yaml).2) ["srv"] [] []) = Ok [].
Proof.
  assert ((demo_install cut_github demo_yaml).1 = Err (EMsg "tar")) as H1 by (vm_compute; reflexivity).
  split; [exact H1|]. destruct (demo_install cut_github demo_yaml) as [r w'] eqn:E. cbn [fst] in H1. rewrite H1 in E.
  unfold demo_install in E.
  destruct (@install_invisible cut_github demo_yaml "https://api" "https://dl" "" "/srv/apis"
    (mkRef "github.com" "acme" "apis" "main") ∅ "1" "2" 0 demo_world w' (Err (EMsg "tar")) [] eq_refl eq_refl
    ltac:(apply (bool_decide_unpack _); vm_compute; exact I) ltac:(apply (bool_decide_unpack _); vm_compute; exact I)
    ltac:(vm_compute; reflexivity) E) as (_ & Hu & _).
  unfold demo_loaded. cbn [snd]. etrans; [exact (f_equal _ Hu)|]. vm_compute. reflexivity.
Defined.

(** A clean relative root fits no prefix check: the bundle in "." cannot be
    verified by that name. *)
Example dot_root_refused :
  forall w, (ResolveManifestEntry "." "apis" w).1 = Err (EMsg "escapes bundle directory").
Proof. done. Qed.
