(* ===== verification/BundleUpgrade.v ===== *)
(** * Bundles, upgrading: internal/cli/apiscmd upgrade.go and the boot-time
    installs of internal/control/bundles install.go

    A bundle is replaced by two renames with a hidden copy of the old one in
    between.  The theorem: a version of the bundle is on the disk at every
    point, and the old one is in place again after a failure unless putting it
    back is what failed.  The examples show that point, where both are lost, and
    the one where neither version is in place. *)

From S2P Require Import Prelude GoStd Models Url ApiClient Query Paths Disk Bundles BundleFetch BundleLoad.

(** A row of [apis list]. *)
Record installedBundle := mkInstalled {
  ib_Name : string;
  ib_Ref : string;
  ib_ManifestVersion : string;
  ib_ResolvedSHA : string;
  ib_FetchedAt : Z;
  ib_APICount : nat;
  ib_RenameCount : nat;
  ib_Path : string
}.

Section upgrade.
Context `{GitHub} `{BundleYaml}.
Variables apiBase codeloadBase token : string.

(** The two renames and the removal of the old version. *)
Definition swap (rowPath tmp stale : string) : io unit :=
  let staleDest := Join stale (Base rowPath) in
  do moved <- io_try (Rename rowPath staleDest);
  match moved with
  | Err e => do! io_try (RemoveAll stale); io_fail (EWrap "rename old aside" e)
  | Ok _ =>
      do placed <- io_try (Rename tmp rowPath);
      match placed with
      | Err e =>
          do! io_try (Rename staleDest rowPath);
          do! io_try (RemoveAll stale);
          io_fail (EWrap "rename new into place" e)
      | Ok _ => do! io_try (RemoveAll stale); io_ret tt
      end
  end.

(** [upgradeOne] without the dry run; [true] when something was installed. *)
Definition upgradeOne (r : Ref) (row : installedBundle) (rnd srnd ornd : string) (now : Z) : io bool :=
  do! io_lift (fail_if bool_decide (ref_Version r = "") with EMsg "lacks a version" ;; Ok tt);
  do newSHA <- io_lift (ResolveSHA apiBase token r);
  if decide (to_lower newSHA = to_lower (ib_ResolvedSHA row)) then io_ret false
  else
    do raw <- io_lift (Download codeloadBase token r newSHA);
    let parent := Dir (ib_Path row) in
    do tmp <- MkdirTemp parent (".tmp.upgrade." +:+ rnd);
    unless_committed
      (do! ExtractTarGz raw tmp;
       do _ <- LoadManifest (Join tmp ManifestFile);
       do prev <- LoadSource (Join (ib_Path row) SourceFile);
       do! WriteSource (Join tmp SourceFile) (mkSource (Ref_String r) newSHA now (src_APIRenames prev)) srnd;
       do stale <- MkdirTemp parent (".upgrade-old." +:+ ornd);
       do! swap (ib_Path row) tmp stale;
       io_ret true)
      (RemoveAll tmp).

(** ** Installs at boot *)

(** Matches by slug, over the visible bundles with a readable record. *)
Fixpoint any_installed (root slug : string) (es : list (string * bool)) : io bool :=
  match es with
  | [] => io_ret false
  | (n, is_dir) :: es =>
      if negb is_dir || hidden n then any_installed root slug es
      else
        do src <- io_try (LoadSource (Join (Join root n) SourceFile));
        match src with
        | Err _ => any_installed root slug es
        | Ok src =>
            match ParseRef (src_Ref src) with
            | Ok r => if decide (Slug r = slug) then io_ret true else any_installed root slug es
            | Err _ => any_installed root slug es
            end
        end
  end.

Definition refAlreadyInstalled (root : string) (r : Ref) : io bool :=
  do es <- io_try (ReadDir root);
  match es with
  | Err e => if errors_is e "ErrNotExist" then io_ret false else io_fail e
  | Ok es => any_installed root (Slug r) es
  end.

Definition DefaultBranch : string := "main".

Definition with_default_branch (r : Ref) : Ref :=
  if decide (ref_Version r = "") then mkRef (ref_Host r) (ref_Owner r) (ref_Repo r) DefaultBranch else r.

Definition install_ref (root raw : string) (rnd srnd : string) (now : Z) : io unit :=
  do r <- io_lift (ParseRef raw);
  let r := with_default_branch r in
  do installed <- refAlreadyInstalled root r;
  if (installed : bool) then io_ret tt
  else do _ <- Install apiBase codeloadBase token root r ∅ rnd srnd now; io_ret tt.

(** [rnds]: the random names of each install. *)
Fixpoint install_all (root : string) (refs : list (string * (string * string))) (now : Z) : io unit :=
  match refs with
  | [] => io_ret tt
  | (raw, (rnd, srnd)) :: refs => do! install_ref root raw rnd srnd now; install_all root refs now
  end.

Definition InstallRefs (root : string) (refs : list (string * (string * string))) (now : Z) : io unit :=
  if decide (refs = []) then io_ret tt
  else do! MkdirAll root; install_all root refs now.
End upgrade.

(** ** Faults are drawn in order

    Each call takes the next fault of the script, so what happened to a run is
    read off the part of the script it has used up. *)

Definition drawn (w w' : world) : Prop := exists used, w_faults w = used ++ w_faults w'.

#[export] Instance drawn_preorder : PreOrder drawn.
Proof.
  split; [by exists []|]. intros a b c [u Hu] [v Hv]. exists (u ++ v). by rewrite Hu, Hv, app_assoc.
Qed.

Definition draws {A} (m : io A) : Prop := forall w r w', m w = (r, w') -> drawn w w'.

Lemma pop_draws l : exists used, l = used ++ (pop l).2.
Proof. destruct l as [|b l]; [by exists []|by exists [b]]. Qed.

Lemma draws_pure {A} (r : result A) : draws (io_lift r).
Proof. intros w r' w' [= _ <-]. by exists []. Qed.

Lemma draws_ret {A} (a : A) : draws (io_ret a).
Proof. apply (draws_pure (Ok a)). Qed.

Lemma draws_fail {A} e : draws (@io_fail A e).
Proof. apply (draws_pure (Err e)). Qed.

Lemma draws_bind {A B} (m : io A) (f : A -> io B) : draws m -> (forall a, draws (f a)) -> draws (io_bind m f).
Proof.
  intros Hm Hf w r w'. unfold io_bind. destruct (m w) as [[a|e] w1] eqn:E; [|intros [= _ <-]; by apply Hm in E].
  intros E2. etrans; [by eapply Hm|by eapply Hf].
Qed.

Lemma draws_try {A} (m : io A) : draws m -> draws (io_try m).
Proof. intros Hm w r w'. unfold io_try. destruct (m w) as [r1 w1] eqn:E. intros [= _ <-]. by apply Hm in E. Qed.

Lemma draws_at {A} p (f : path -> io A) : (forall q, draws (f q)) -> draws (at_path p f).
Proof. intros Hf w. apply Hf. Qed.

Lemma draws_read {A} (f : disk -> result A) : draws (sys_read f).
Proof.
  intros w r w'. unfold sys_read. destruct (pop_draws (w_faults w)) as [u Hu].
  destruct (pop (w_faults w)) as [[] fs]; intros [= _ <-]; by exists u.
Qed.

Lemma draws_write f : draws (sys_write f).
Proof.
  intros w r w'. unfold sys_write. destruct (pop_draws (w_faults w)) as [u Hu].
  destruct (pop (w_faults w)) as [[] fs]; [intros [= _ <-]; by exists u|]. simpl.
  destruct (f (w_disk w)); intros [= _ <-]; by exists u.
Qed.

Lemma draws_cleanup {A} (m : io A) c : draws m -> draws c -> draws (unless_committed m c).
Proof.
  intros Hm Hk w r w'. unfold unless_committed. destruct (m w) as [[a|e] w1] eqn:E; apply Hm in E.
  { by intros [= _ <-]. }
  destruct (c w1) as [r2 w2] eqn:E2. intros [= _ <-]. etrans; [exact E|by eapply Hk].
Qed.

Create HintDb draws.
#[export] Hint Resolve draws_pure draws_ret draws_fail draws_bind draws_try draws_at draws_read draws_write
  draws_cleanup : draws.

Ltac drawing := repeat first
  [ apply draws_bind; intros | apply draws_at; intros | apply draws_cleanup | apply draws_try
  | case_match | progress cbn zeta | solve [eauto with draws] | done ].

Lemma draws_mkdir_all p : draws (mkdir_all p).
Proof. induction p; cbn [mkdir_all]; drawing. Qed.

Lemma draws_WriteSource `{BundleYaml} p src rnd : draws (WriteSource p src rnd).
Proof. unfold WriteSource, write_file, Remove, Rename. drawing. Qed.

Lemma draws_MkdirTemp dir n : draws (MkdirTemp dir n).
Proof. unfold MkdirTemp. drawing. Qed.

#[export] Hint Resolve draws_mkdir_all draws_WriteSource draws_MkdirTemp : draws.

Lemma draws_extract_all dest prefix n evs : draws (extract_all dest prefix n evs).
Proof.
  revert prefix n. induction evs as [|ev evs IH]; intros prefix n; cbn [extract_all]; [drawing|].
  unfold extract_entry, MkdirAll, write_file. drawing.
Qed.
#[export] Hint Resolve draws_extract_all : draws.

Lemma draws_ExtractTarGz `{GitHub} raw dest : draws (ExtractTarGz raw dest).
Proof. unfold ExtractTarGz, MkdirAll. drawing. Qed.
#[export] Hint Resolve draws_ExtractTarGz : draws.

(** ** No version is lost *)

(** What was under [from] in [d0] is under [to] in [d]. *)
Definition tree_as (d0 : disk) (from : path) (d : disk) (to : path) : Prop :=
  forall k, d !! (k ++ to) = d0 !! (k ++ from).

Lemma sibling A x y k : x <> y -> ~ under (x :: A) (k ++ y :: A).
Proof.
  intros Hne [l E]. change (x :: A) with ([x] ++ A) in E. change (y :: A) with ([y] ++ A) in E.
  rewrite !app_assoc in E. apply app_inv_tail in E. by apply app_inj_2 in E as [_ [= E]].
Qed.

Lemma io_bind_split {A B} (m : io A) (f : A -> io B) w r w' :
  io_bind m f w = (r, w') ->
  (exists e, m w = (Err e, w') /\ r = Err e) \/ exists a w1, m w = (Ok a, w1) /\ f a w1 = (r, w').
Proof. unfold io_bind. destruct (m w) as [[a|e] w1]; [right; by exists a, w1|]. intros [= <- <-]. left. by exists e. Qed.

Lemma Rename_cases src dst w r w' :
  Rename src dst w = (r, w') ->
  w_cwd w' = w_cwd w /\
  match r with
  | Ok _ => w_past w' = w_disk w :: w_past w /\
      rename (resolve (w_cwd w) src) (resolve (w_cwd w) dst) (w_disk w) = Ok (w_disk w')
  | Err _ => same_disk w w'
  end.
Proof.
  unfold Rename, at_path, sys_write. destruct (pop _) as [[] fs]; [by intros [= <- <-]|]. simpl.
  by destruct (rename _ _ _) as [d|e]; intros [= <- <-].
Qed.

Lemma stat_cons x p d : stat (x :: p) d = d !! (x :: p).
Proof. reflexivity. Qed.

Section swapping.
Context `{BundleYaml}.
Context (d0 : disk) (cwd A : path) (name t s : string) (ref : Ref) (sha : string) (now : Z).
Context (Hnt : name <> t) (Hns : name <> s) (Hts : t <> s).

(** The bundle's place, the new version's, and where the old one is kept. *)
Let R := name :: A.
Let T := t :: A.
Let S' := name :: s :: A.

(** At [p] is a valid bundle of the new commit, with the renames of the old. *)
Definition upgraded (p : path) (d : disk) : Prop :=
  (exists raw m, stat (ManifestFile :: p) d = Some (IFile raw) /\ yaml_manifest raw = Ok m /\ manifest_ok m) /\
  (exists old prev raw, stat (SourceFile :: R) d0 = Some (IFile old) /\ yaml_source old = Ok prev /\
     yaml_marshal_source (mkSource (Ref_String ref) sha now (src_APIRenames prev)) = Ok raw /\
     stat (SourceFile :: p) d = Some (IFile raw)).

Definition kept (d : disk) : Prop := tree_as d0 R d R.
Definition some_version (d : disk) : Prop := kept d \/ tree_as d0 R d S' \/ upgraded R d.

Lemma upgraded_as (p q : path) d d' :
  (forall x, d' !! (x :: q) = d !! (x :: p)) -> upgraded p d -> upgraded q d'.
Proof.
  intros E [(raw & m & Hm & Hy & Hok) (old & prev & sraw & Ho & Hp & Hw & Hs)].
  rewrite stat_cons in Hm, Hs. split.
  - exists raw, m. by rewrite stat_cons, E.
  - exists old, prev, sraw. by rewrite (stat_cons SourceFile q), E.
Qed.

Lemma R_not_T k : ~ under T (k ++ R). Proof. by apply sibling. Qed.
Lemma R_not_S k : ~ under (s :: A) (k ++ R). Proof. by apply sibling. Qed.
Lemma T_not_R k : ~ under R (k ++ T). Proof. by apply sibling. Qed.
Lemma T_not_S k : ~ under (s :: A) (k ++ T). Proof. by apply sibling. Qed.
Lemma S'_under : under (s :: A) S'. Proof. by exists [name]. Qed.

(** Neither hidden place is above the bundle's. *)
Lemma T_above_R : ~ under T R.
Proof.
  intros [[|y l] E]; [by injection E|]. apply (f_equal (@length string)) in E. unfold T, R in E. simpl in E.
  rewrite length_app in E. simpl in E. lia.
Qed.

Lemma S'_above_R : ~ under S' R.
Proof.
  intros [l E]. apply (f_equal (@length string)) in E. unfold S', R in E. rewrite length_app in E. simpl in E. lia.
Qed.

Lemma not_S' p : ~ under (s :: A) p -> ~ under S' p.
Proof. intros Hn Hu. apply Hn. eapply under_trans; [apply S'_under|exact Hu]. Qed.

Lemma S'_not_R k : ~ under R (k ++ S').
Proof.
  unfold S', R. change (name :: s :: A) with ([name] ++ s :: A). rewrite app_assoc. by apply sibling.
Qed.

Lemma kept_removed x d : x <> name -> kept d -> kept (outside (x :: A) d).
Proof. intros Hx Hk k. rewrite outside_lookup; [apply Hk|]. by apply sibling. Qed.

Lemma upgraded_removed x d : x <> name -> upgraded R d -> upgraded R (outside (x :: A) d).
Proof.
  intros Hx. apply upgraded_as. intros y. apply outside_lookup. change (y :: R) with ([y] ++ R). by apply sibling.
Qed.

Lemma RemoveAll_passed (P : disk -> Prop) p w r w' :
  P (w_disk w) -> (forall d, P d -> P (outside (resolve (w_cwd w) p) d)) ->
  RemoveAll p w = (r, w') -> passed P w w'.
Proof. intros HP Hout E. eapply passed_write; [done| |exact E]. intros d [= <-]. by apply Hout. Qed.

(** The run from [w] to [w'] drew two faults in a row: the first at the rename
    into place, the second, in [w1], where the old version is still set aside
    whole, at the rename that was to put it back.  After that it only removed
    its two hidden directories. *)
Definition rollback_failed (rowPath tmp stale : string) (w w' : world) : Prop :=
  exists used w1 w2 w3, w_faults w = used ++ true :: w_faults w1 /\
    passed some_version w w1 /\ tree_as d0 R (w_disk w1) S' /\
    w_faults w1 = true :: w_faults w2 /\ Rename (Join stale (Base rowPath)) rowPath w1 = (Err disk_error, w2) /\
    w3 = (RemoveAll stale w2).2 /\ w' = (RemoveAll tmp w3).2.

(** Up to the removal of the new version's directory. *)
Definition rollback_left (rowPath stale : string) (w w' : world) : Prop :=
  exists used w1 w2, w_faults w = used ++ true :: w_faults w1 /\
    passed some_version w w1 /\ tree_as d0 R (w_disk w1) S' /\
    w_faults w1 = true :: w_faults w2 /\ Rename (Join stale (Base rowPath)) rowPath w1 = (Err disk_error, w2) /\
    w' = (RemoveAll stale w2).2.

(** A rename to a place that is free fails only by a fault. *)
Lemma Rename_fault src dst w e w' :
  is_Some (stat (resolve (w_cwd w) src) (w_disk w)) -> stat (resolve (w_cwd w) dst) (w_disk w) = None ->
  stat (tail (resolve (w_cwd w) dst)) (w_disk w) = Some IDir ->
  ~ under (resolve (w_cwd w) src) (resolve (w_cwd w) dst) -> Rename src dst w = (Err e, w') ->
  e = disk_error /\ w_faults w = true :: w_faults w'.
Proof.
  intros [i Hi] Hd Ht Hn. unfold Rename, at_path, sys_write.
  destruct (w_faults w) as [|[] fs] eqn:Ef; simpl; [|by intros [= <- <-]|]; unfold rename; rewrite Hi, Hd, Ht;
    (assert (below (resolve (w_cwd w) src) (resolve (w_cwd w) dst) = false) as ->
       by (apply not_true_iff_false; by rewrite below_under)); simpl; by destruct i.
Qed.

(** The bundle's place is free, in a directory that is there. *)
Definition free_place (w : world) : Prop := stat R (w_disk w) = None /\ stat A (w_disk w) = Some IDir.

Lemma place_fault src rowPath p w e w' :
  w_cwd w = cwd -> resolve cwd src = p -> resolve cwd rowPath = R -> stat p (w_disk w) = Some IDir ->
  free_place w -> ~ under p R -> Rename src rowPath w = (Err e, w') ->
  e = disk_error /\ w_faults w = true :: w_faults w'.
Proof.
  intros Hc Hs HR Hp [Hf Ha] Hn. subst p. rewrite <- Hc in *. rewrite <- HR in *. apply Rename_fault; [by rewrite Hp|done| |done].
  by rewrite HR.
Qed.

(** After the rename into place has failed, by a fault. *)
Lemma placing_failed rowPath stale w w2 e (r : result unit) w' :
  w_cwd w2 = cwd -> resolve cwd rowPath = R -> resolve cwd (Join stale (Base rowPath)) = S' ->
  resolve cwd stale = s :: A -> passed some_version w w2 -> tree_as d0 R (w_disk w2) S' ->
  free_place w2 -> stat S' (w_disk w2) = Some IDir -> (exists used, w_faults w = used ++ true :: w_faults w2) ->
  (do! io_try (Rename (Join stale (Base rowPath)) rowPath); do! io_try (RemoveAll stale); io_fail e) w2 = (r, w') ->
  (exists e, r = Err e) /\ ((passed some_version w w' /\ kept (w_disk w')) \/ rollback_left rowPath stale w w').
Proof.
  intros Hc HR HS' HS P2 Hs2 Hfree HdS Hf. set (sd := Join stale (Base rowPath)) in *. unfold io_bind, io_try.
  destruct (Rename sd rowPath w2) as [r3 w3] eqn:E3. pose proof E3 as E3'.
  destruct (RemoveAll stale w3) as [r4 w4] eqn:E4. intros [= <- <-]. split; [by eexists|]. destruct r3 as [[]|e3].
  2: { right. destruct Hf as [used Hf]. exists used, w2, w3. split; [done|].
    apply (place_fault _ _ S') in E3 as [-> Hf3]; [by rewrite E4|done..|apply S'_above_R]. }
  apply Rename_cases in E3 as [Hc3 [Hp3 E3]]. rewrite Hc, HR, HS' in E3.
  apply rename_ok in E3 as (_ & _ & Hto3 & _ & _).
  assert (kept (w_disk w3)) as Hk3 by (intros k; rewrite Hto3; apply Hs2). left.
  assert (passed kept w3 w4) as P4.
  { eapply RemoveAll_passed; [done| |exact E4]. rewrite Hc3, Hc, HS. intros d. by apply kept_removed. }
  split; [|apply P4]. eapply passed_trans; [exact P2|]. eapply passed_trans; [|eapply passed_impl; [|exact P4]; intros d Hd; by left].
  split; [done|]. split; [by left|]. exists [w_disk w2]. split; [done|]. apply Forall_singleton. by right; left.
Qed.

(** Setting the old version aside frees its place and touches nothing of the
    new one. *)
Lemma aside w rowPath sd w1 :
  w_cwd w = cwd -> resolve cwd rowPath = R -> resolve cwd sd = S' ->
  stat R d0 = Some IDir -> stat T (w_disk w) = Some IDir -> stat A (w_disk w) = Some IDir ->
  kept (w_disk w) -> upgraded T (w_disk w) -> Rename rowPath sd w = (Ok tt, w1) ->
  passed some_version w w1 /\ tree_as d0 R (w_disk w1) S' /\ upgraded T (w_disk w1) /\ free_place w1 /\
  stat T (w_disk w1) = Some IDir /\ stat S' (w_disk w1) = Some IDir.
Proof.
  intros Hc HR HS' Hd0 HdT HdA Hk Hu E1. apply Rename_cases in E1 as [Hc1 E1]. rewrite Hc, HR, HS' in E1.
  destruct E1 as [Hp1 (_ & _ & Hto & Hout & Hgone)%rename_ok].
  assert (tree_as d0 R (w_disk w1) S') as Hs1 by (intros k; rewrite Hto; apply Hk).
  assert (forall x, w_disk w1 !! (x ++ T) = w_disk w !! (x ++ T)) as HoutT
    by (intros x; apply Hout; [apply not_S', T_not_S|apply T_not_R]).
  split; [|split; [done|split; [|split; [split|split]]]].
  - split; [done|]. split; [by right; left|]. exists [w_disk w]. split; [done|]. apply Forall_singleton. by left.
  - revert Hu. apply upgraded_as. intros x. apply (HoutT [x]).
  - apply (Hgone ([] ++ R)); [apply not_S', R_not_S|apply under_refl].
  - revert HdA. unfold stat. case_decide; [done|]. intros <-. apply Hout; intros [k E];
      apply (f_equal (@length string)) in E; unfold S', R in E; rewrite length_app in E; simpl in E; lia.
  - rewrite <- HdT. apply (HoutT []).
  - rewrite <- Hd0. apply (Hs1 []).
Qed.

Lemma swap_states rowPath tmp stale w r w' :
  w_cwd w = cwd -> resolve cwd rowPath = R -> resolve cwd tmp = T ->
  resolve cwd (Join stale (Base rowPath)) = S' -> resolve cwd stale = s :: A ->
  stat R d0 = Some IDir -> stat T (w_disk w) = Some IDir -> stat A (w_disk w) = Some IDir ->
  kept (w_disk w) -> upgraded T (w_disk w) -> swap rowPath tmp stale w = (r, w') ->
  match r with
  | Ok _ => passed some_version w w' /\ upgraded R (w_disk w')
  | Err _ => passed kept w w' \/ (passed some_version w w' /\ kept (w_disk w')) \/
             rollback_left rowPath stale w w'
  end.
Proof.
  intros Hc HR HT HS' HS Hd0 HdT HdA Hk Hu. unfold swap. unfold io_bind at 1, io_try at 1.
  set (sd := Join stale (Base rowPath)) in *. destruct (Rename rowPath sd w) as [r1 w1] eqn:E1.
  assert (draws (Rename rowPath sd)) as Hd1 by (unfold Rename; drawing). apply Hd1 in E1 as Hf1.
  destruct (Rename_cases _ _ _ _ _ E1) as [Hc1 Hdone]. destruct r1 as [[]|e1].
  2: { unfold io_bind, io_try. destruct (RemoveAll stale w1) as [r2 w2] eqn:E2. intros [= <- <-]. left.
    eapply passed_trans; [by apply passed_refl|]. destruct Hdone as (Ed & _ & _).
    eapply RemoveAll_passed; [by rewrite Ed| |exact E2]. rewrite Hc1, Hc, HS. intros d. by apply kept_removed. }
  destruct (aside w rowPath sd w1) as (P1 & Hs1 & Hu1 & Hfree & HT1 & HS1); try done. clear Hdone.
  unfold io_bind at 1, io_try at 1. destruct (Rename tmp rowPath w1) as [r2 w2] eqn:E2.
  destruct (Rename_cases _ _ _ _ _ E2) as [Hc2 Hdone]. rewrite Hc1, Hc, HT, HR in Hdone. destruct r2 as [[]|e2].
  - destruct Hdone as [Hp2 (_ & _ & Hto2 & _ & _)%rename_ok].
    assert (upgraded R (w_disk w2)) as Hu2 by (revert Hu1; apply upgraded_as; intros x; apply (Hto2 [x])).
    unfold io_bind, io_try. destruct (RemoveAll stale w2) as [r3 w3] eqn:E3. intros [= <- <-].
    assert (passed (upgraded R) w2 w3) as P3.
    { eapply RemoveAll_passed; [done| |exact E3]. rewrite Hc2, Hc1, Hc, HS. intros d. by apply upgraded_removed. }
    split; [|apply P3]. eapply passed_trans; [exact P1|]. eapply passed_trans; [|eapply passed_impl; [|exact P3]; intros d Hd; by right; right].
    split; [done|]. split; [by right; right|]. exists [w_disk w1]. split; [done|]. apply Forall_singleton. by right; left.
  - apply (place_fault _ _ T) in E2 as [_ Hf2]; [|congruence|done|done|done|done|apply T_above_R].
    destruct Hdone as (Ed2 & Ec2 & Ep2). intros Hrest.
    apply (placing_failed rowPath stale w w2 _ r w') in Hrest as [[e ->] Hor]; [by right|congruence|done..| | | | |].
    + eapply passed_trans; [exact P1|]. by apply passed_refl; [right; left|].
    + by rewrite Ed2.
    + unfold free_place. by rewrite Ed2.
    + by rewrite Ed2.
    + destruct Hf1 as [used Hf1]. exists used. by rewrite Hf1, Hf2.
Qed.
End swapping.

Lemma rollback_failed_from `{BundleYaml} d0 A name st ref sha now rowPath tmp stale w w1 w' :
  passed (some_version d0 A name st ref sha now) w w1 -> drawn w w1 ->
  rollback_failed d0 A name st ref sha now rowPath tmp stale w1 w' ->
  rollback_failed d0 A name st ref sha now rowPath tmp stale w w'.
Proof.
  intros P [u Hu] (u2 & w2 & w3 & w4 & Hf & P2 & Hrest). exists (u ++ u2), w2, w3, w4.
  split; [by rewrite Hu, Hf, app_assoc|]. split; [by eapply passed_trans|done].
Qed.

Lemma rollback_left_removed `{BundleYaml} d0 A name st ref sha now rowPath tmp stale w w1 :
  rollback_left d0 A name st ref sha now rowPath stale w w1 ->
  rollback_failed d0 A name st ref sha now rowPath tmp stale w (RemoveAll tmp w1).2.
Proof. intros (u & w2 & w3 & Hf & P & Hs & Hf2 & E & ->). by eexists u, w2, w3, _. Qed.

Lemma MkdirTemp_cases dir n w r w' :
  plain n -> slashless n -> MkdirTemp dir n w = (r, w') ->
  w_cwd w' = w_cwd w /\
  match r with
  | Ok tmp => tmp = Join dir n /\ w_past w' = w_disk w :: w_past w /\
      mkdir (n :: resolve (w_cwd w) dir) (w_disk w) = Ok (w_disk w')
  | Err _ => same_disk w w'
  end.
Proof.
  intros Hp Hs. destruct (Join_child (w_cwd w) dir n Hp Hs) as [E _].
  unfold MkdirTemp, io_bind, at_path. rewrite E. unfold sys_write.
  destruct (pop _) as [[] fs]; [by intros [= <- <-]|]. simpl. by destruct (mkdir _ _) as [d|e]; intros [= <- <-].
Qed.

Lemma draws_LoadManifest `{BundleYaml} p : draws (LoadManifest p).
Proof. unfold LoadManifest, ReadFile. drawing. Qed.

Lemma draws_LoadSource `{BundleYaml} p : draws (LoadSource p).
Proof. unfold LoadSource, ReadFile. drawing. Qed.

(** A step of an operation that keeps the old version in place. *)
Definition keeping (d0 : disk) (R T : path) (d : disk) : Prop := tree_as d0 R d R /\ dirs_to T d.

Lemma keeping_below d0 A n t d d' :
  n <> t -> keeping d0 (n :: A) (t :: A) d -> below_only (t :: A) d d' -> keeping d0 (n :: A) (t :: A) d'.
Proof.
  intros Hnt [Hk Hd] Hb. destruct (Hb Hd) as [Hd' Hs]. split; [|done]. intros k. rewrite Hs; [apply Hk|].
  intros [Hu _]. by apply (sibling A t n k) in Hu.
Qed.

Lemma keeping_mkdir d0 A n t x d d' :
  n <> x -> keeping d0 (n :: A) (t :: A) d -> mkdir (x :: A) d = Ok d' -> keeping d0 (n :: A) (t :: A) d'.
Proof.
  intros Hnx [Hk Hd] (_ & Hnone & _ & ->)%mkdir_ok. split.
  - intros k. rewrite lookup_insert_ne; [apply Hk|]. intros E. apply (sibling A x n k); [done|]. rewrite <- E. apply under_refl.
  - intros p Hp. specialize (Hd p Hp). unfold stat in *. case_decide; [done|]. rewrite lookup_insert_ne; [done|].
    intros <-. congruence.
Qed.

(** Writing the record leaves the other files of the directory. *)
Definition same_at (p : path) (d d' : disk) : Prop := d' !! p = d !! p.

#[export] Instance same_at_preorder p : PreOrder (same_at p).
Proof. split; [by intros d|]. unfold same_at. intros a b c E1 E2. congruence. Qed.

Lemma WriteSource_outside `{BundleYaml} cwd dir s rnd q :
  slashless rnd -> ~ under (SourceFile :: resolve cwd dir) q ->
  ~ under ((".source-" +:+ rnd +:+ ".yaml.tmp") :: resolve cwd dir) q ->
  steps_in cwd (same_at q) (WriteSource (Join dir SourceFile) s rnd).
Proof.
  intros Hr Hx Hxt. unfold WriteSource. set (D := resolve cwd dir).
  apply steps_in_bind; [apply _|apply steps_in_pure; apply _|]. intros _.
  apply steps_in_bind; [apply _|apply steps_in_pure; apply _|]. intros raw. cbn zeta.
  assert (q <> (".source-" +:+ rnd +:+ ".yaml.tmp") :: D) as Hne by (intros ->; apply Hxt, under_refl).
  assert (forall i d, same_at q d (<[(".source-" +:+ rnd +:+ ".yaml.tmp") :: D := i]> d)) as Hi.
  { intros i d. unfold same_at. by apply lookup_insert_ne. }
  apply steps_in_cleanup; [apply _| |].
  - apply steps_in_bind; [apply _| |intros _].
    + apply steps_in_at. rewrite source_child by done. unfold write_file.
      apply steps_in_bind; [apply _|apply steps_in_write; [apply _|]|intros _; apply steps_in_write; [apply _|]].
      * intros d d'. unfold create. repeat match goal with |- context [stat ?q d] => destruct (stat q d) as [[]|] end; try done; intros [= <-]; apply Hi.
      * intros d d'. repeat match goal with |- context [stat ?q d] => destruct (stat q d) as [[]|] end; try done; intros [= <-]; apply Hi.
    + apply steps_in_at. rewrite source_child by done. apply steps_in_at.
      destruct (Join_child cwd dir SourceFile) as [-> _]; [done|done|]. apply steps_in_write; [apply _|].
      intros d d' (_ & _ & _ & Hout & _)%rename_ok. by apply Hout.
  - apply steps_in_at. rewrite source_child by done. apply steps_in_write; [apply _|].
    intros d d' [= <-]. unfold same_at. by apply lookup_delete_ne.
Qed.

Lemma WriteSource_other `{BundleYaml} cwd dir s rnd x :
  slashless rnd -> x <> SourceFile -> x <> ".source-" +:+ rnd +:+ ".yaml.tmp" ->
  steps_in cwd (same_at (x :: resolve cwd dir)) (WriteSource (Join dir SourceFile) s rnd).
Proof. intros Hr Hx Hxt. apply WriteSource_outside; [done|by apply (sibling _ _ x [])..]. Qed.

Section upgrading.
Context `{GitHub} `{BundleYaml}.
Context (apiBase codeloadBase token : string).
#[local] Opaque write_file mkdir_all ExtractTarGz WriteSource LoadManifest LoadSource MkdirTemp.

(** Up to the swap: the new version is made in its hidden directory. *)
Lemma prepare_states (k : string -> io bool) d0 A n t x ref sha now raw tmp rowPath parent srnd w r w' :
  n <> t -> n <> x -> x <> t -> plain x -> slashless x -> slashless srnd ->
  resolve (w_cwd w) tmp = t :: A -> head (clean_stack tmp) <> Some ".." ->
  resolve (w_cwd w) rowPath = n :: A -> resolve (w_cwd w) parent = A ->
  keeping d0 (n :: A) (t :: A) (w_disk w) ->
  (do! ExtractTarGz raw tmp;
   do _ <- LoadManifest (Join tmp ManifestFile);
   do prev <- LoadSource (Join rowPath SourceFile);
   do! WriteSource (Join tmp SourceFile) (mkSource (Ref_String ref) sha now (src_APIRenames prev)) srnd;
   do stale <- MkdirTemp parent x;
   k stale) w = (r, w') ->
  (exists e, r = Err e /\ passed (kept d0 A n) w w') \/
  exists w1, passed (kept d0 A n) w w1 /\ upgraded d0 A n ref sha now (t :: A) (w_disk w1) /\
    dirs_to (t :: A) (w_disk w1) /\ drawn w w1 /\ k (Join parent x) w1 = (r, w').
Proof.
  intros Hnt Hnx Hxt Hpx Hsx Hsr HT Hh HR HA HQ Hrun. set (Q := keeping d0 (n :: A) (t :: A)) in *.
  assert (forall w2, passed Q w w2 -> passed (kept d0 A n) w w2) as Hweak
    by (intros w2; apply passed_impl; by intros d []).
  assert (forall {B} (m : io B) w1 w2 (r2 : result B), steps_in (w_cwd w) (below_only (t :: A)) m -> passed Q w w1 ->
    m w1 = (r2, w2) -> passed Q w w2) as Hstep.
  { intros B m w1 w2 r2 Hm P1 E. pose proof P1 as (C1 & Q1 & _). eapply passed_trans; [exact P1|].
    eapply passed_impl; [|exact (steps_in_passed _ _ _ _ _ _ Hm C1 E)]. intros d Hb. by eapply keeping_below. }
  assert (forall w1 w2, passed Q w w1 -> same_disk w1 w2 -> passed Q w w2) as Hread.
  { intros w1 w2 P1 Hsd. eapply passed_trans; [exact P1|]. apply passed_refl; [apply P1|done]. }
  apply io_bind_split in Hrun as [(e & E1 & ->)|(u1 & w1 & E1 & Hrun)].
  { left. exists e. split; [done|]. apply Hweak. eapply Hstep; [rewrite <- HT; by apply ExtractTarGz_below| |exact E1].
    by apply passed_refl. }
  assert (passed Q w w1) as P1.
  { eapply Hstep; [rewrite <- HT; by apply ExtractTarGz_below| |exact E1]. by apply passed_refl. }
  apply io_bind_split in Hrun as [(e & E2 & ->)|(m & w2 & E2 & Hrun)].
  { left. exists e. split; [done|]. apply Hweak. eapply Hread; [exact P1|]. by eapply LoadManifest_reads. }
  destruct (LoadManifest_ok _ _ _ _ E2) as (Hs2 & Hmok & mraw & Hmraw & Hmy).
  pose proof (Hread _ _ P1 Hs2) as P2. pose proof P1 as (C1 & _). rewrite C1 in Hmraw.
  destruct (Join_child (w_cwd w) tmp ManifestFile) as [Ej _]; [done|done|]. rewrite Ej, HT in Hmraw. clear Ej.
  apply io_bind_split in Hrun as [(e & E3 & ->)|(prev & w3 & E3 & Hrun)].
  { left. exists e. split; [done|]. apply Hweak. eapply Hread; [exact P2|]. by eapply LoadSource_reads. }
  pose proof (LoadSource_reads _ _ _ _ E3) as Hs3.
  destruct (LoadSource_ok _ _ _ _ E3) as (old & Hold & Hprev).
  pose proof (Hread _ _ P2 Hs3) as P3. pose proof P2 as (C2 & [Hk2 _] & _). rewrite C2 in Hold.
  destruct (Join_child (w_cwd w) rowPath SourceFile) as [Ej _]; [done|done|]. rewrite Ej, HR in Hold. clear Ej.
  rewrite stat_cons in Hold. pose proof (Hk2 [SourceFile]) as Hk2'. simpl in Hk2'. rewrite Hk2' in Hold.
  apply io_bind_split in Hrun as [(e & E4 & ->)|([] & w4 & E4 & Hrun)].
  { left. exists e. split; [done|]. apply Hweak. eapply Hstep; [rewrite <- HT; by apply WriteSource_below|exact P3|exact E4]. }
  assert (passed Q w w4) as P4 by (eapply Hstep; [rewrite <- HT; by apply WriteSource_below|exact P3|exact E4]).
  destruct (WriteSource_ok _ _ _ _ _ Hsr E4) as (sraw & Hsy & Hsraw). pose proof P3 as (C3 & Q3 & _).
  rewrite C3, HT in Hsraw.
  assert (stat (ManifestFile :: t :: A) (w_disk w4) = Some (IFile mraw)) as Hmraw4.
  { destruct (WriteSource_other (w_cwd w3) tmp _ srnd ManifestFile Hsr ltac:(done) ltac:(done) _ _ _ eq_refl E4)
      as (_ & Hm4 & _). unfold same_at in Hm4. rewrite C3, HT in Hm4. etrans; [exact Hm4|].
    destruct Hs3 as (Hd3 & _), Hs2 as (Hd2 & _). rewrite Hd3, Hd2. exact Hmraw. }
  apply io_bind_split in Hrun as [(e & E5 & ->)|(stale & w5 & E5 & Hrun)].
  { apply MkdirTemp_cases in E5 as [C5 E5]; [|done..]. left. exists e. split; [done|]. apply Hweak. by eapply Hread. }
  assert (drawn w w5) as Hdrawn.
  { etrans; [by eapply draws_ExtractTarGz|]. etrans; [by eapply draws_LoadManifest|].
    etrans; [by eapply draws_LoadSource|]. etrans; [by eapply draws_WriteSource|]. by eapply draws_MkdirTemp. }
  apply MkdirTemp_cases in E5 as [C5 E5]; [|done..].
  destruct E5 as (-> & Hpast & Hmk). pose proof P4 as (C4 & Q4 & _). rewrite C4, HA in Hmk.
  right. exists w5. assert (Q (w_disk w5)) as Q5 by (by eapply keeping_mkdir).
  split; [|split; [|split; [apply Q5|done]]].
  - apply Hweak. eapply passed_trans; [exact P4|]. split; [done|].
    split; [done|]. exists [w_disk w4]. split; [done|]. by apply Forall_singleton.
  - apply mkdir_ok in Hmk as (_ & _ & _ & ->). apply (upgraded_as _ _ _ _ _ _ (t :: A) (t :: A) (w_disk w4)).
    + intros y. apply lookup_insert_ne. intros E. assert (~ under (x :: A) ([y] ++ t :: A)) as Hn by (by apply sibling).
      apply Hn. simpl. rewrite <- E. apply under_refl.
    + split; [by exists mraw, m|]. exists old, prev, sraw. rewrite !stat_cons in *. done.
Qed.

(** From the hidden directory on. *)
Lemma commit_states d0 apisDir name t x ref sha now raw tmp srnd w r w' :
  let A := resolve (w_cwd w) apisDir in
  let rowPath := Join apisDir name in
  let stale := Join (Dir rowPath) x in
  plain name -> slashless name -> plain x -> slashless x -> slashless srnd ->
  name <> t -> name <> x -> x <> t ->
  resolve (w_cwd w) tmp = t :: A -> head (clean_stack tmp) <> Some ".." ->
  stat (name :: A) d0 = Some IDir -> keeping d0 (name :: A) (t :: A) (w_disk w) ->
  unless_committed
    (do! ExtractTarGz raw tmp;
     do _ <- LoadManifest (Join tmp ManifestFile);
     do prev <- LoadSource (Join rowPath SourceFile);
     do! WriteSource (Join tmp SourceFile) (mkSource (Ref_String ref) sha now (src_APIRenames prev)) srnd;
     do stale <- MkdirTemp (Dir rowPath) x;
     do! swap rowPath tmp stale;
     io_ret true)
    (RemoveAll tmp) w = (r, w') ->
  match r with
  | Ok b => b = true /\ passed (some_version d0 A name x ref sha now) w w' /\
      upgraded d0 A name ref sha now (name :: A) (w_disk w')
  | Err _ => (passed (some_version d0 A name x ref sha now) w w' /\ kept d0 A name (w_disk w')) \/
      rollback_failed d0 A name x ref sha now rowPath tmp stale w w'
  end.
Proof.
  intros A rowPath stale Hpn Hsn Hpx Hsx Hsr Hnt Hnx Hxt HT Hh Hd0 HQ Hrun.
  assert (resolve (w_cwd w) (Dir rowPath) = A) as HA by (by apply Dir_Join_child).
  destruct (Join_child (w_cwd w) apisDir name Hpn Hsn) as [HR HB]. fold A rowPath in HR, HB.
  assert (forall w2 w3 r2, w_cwd w2 = w_cwd w -> kept d0 A name (w_disk w2) -> RemoveAll tmp w2 = (r2, w3) ->
    passed (kept d0 A name) w2 w3) as Hclean.
  { intros w2 w3 r2 C2 K2. apply RemoveAll_passed; [done|]. rewrite C2, HT. intros d. by apply kept_removed. }
  assert (forall w2 w3, passed (kept d0 A name) w2 w3 -> passed (some_version d0 A name x ref sha now) w2 w3) as Hsome
    by (intros w2 w3; apply passed_impl; intros d Hd; by left).
  unfold unless_committed in Hrun. destruct (io_bind (ExtractTarGz raw tmp) _ w) as [rb w2] eqn:Eb.
  assert (forall e, rb = Err e -> r = Err e /\ exists r3, RemoveAll tmp w2 = (r3, w')) as Hre.
  { intros e ->. injection Hrun as <- <-. split; [done|]. eexists. by rewrite <- surjective_pairing. }
  apply (prepare_states (fun stale => do! swap rowPath tmp stale; io_ret true) d0 A name t x
    ref sha now raw tmp rowPath (Dir rowPath) srnd w rb w2) in Eb; try done.
  destruct Eb as [(e & -> & P2)|(w3 & P3 & Hu & Hdirs & Hdrawn & Hk)].
  { destruct (Hre e eq_refl) as (-> & r3 & E3). left. pose proof P2 as (C2 & K2 & _).
    pose proof (Hclean _ _ _ C2 K2 E3) as P3. split; [|apply P3].
    eapply passed_trans; [apply Hsome, P2|by apply Hsome]. }
  destruct (Join_child (w_cwd w) (Dir rowPath) x Hpx Hsx) as [HS _]. rewrite HA in HS. fold stale in HS, Hk.
  assert (resolve (w_cwd w) (Join stale (Base rowPath)) = name :: x :: A) as HS'.
  { unfold Base. rewrite HB. simpl. rewrite (proj1 (Join_child (w_cwd w) stale name Hpn Hsn)). by rewrite HS. }
  pose proof P3 as (C3 & K3 & _). apply Hsome in P3.
  unfold io_bind in Hk. destruct (swap _ _ _ w3) as [rs w4] eqn:Es.
  eapply (swap_states d0 (w_cwd w) A name t x ref sha now) in Es; try done.
  2: { apply Hdirs, under_refl. }
  2: { apply Hdirs. by exists [t]. }
  destruct rs as [u1|e]; injection Hk as <- <-.
  - injection Hrun as <- <-. destruct Es as [P4 Hu4]. split; [done|]. split; [by eapply passed_trans|done].
  - destruct (Hre e eq_refl) as (-> & r3 & E3).
    assert (passed (some_version d0 A name x ref sha now) w3 w4 -> kept d0 A name (w_disk w4) ->
      passed (some_version d0 A name x ref sha now) w w' /\ kept d0 A name (w_disk w')) as Hdone.
    { intros P4 K4. pose proof P4 as (C4 & _). pose proof (Hclean _ _ _ (eq_trans C4 C3) K4 E3) as P5.
      split; [|apply P5]. eapply passed_trans; [exact P3|]. eapply passed_trans; [exact P4|by apply Hsome]. }
    destruct Es as [P4|[[P4 K4]|Hrf]]; [left; apply Hdone; [by apply Hsome|apply P4]|left; by apply Hdone|right].
    apply (rollback_failed_from _ _ _ _ _ _ _ _ _ _ w w3); [done..|]. replace w' with (RemoveAll tmp w4).2 by (by rewrite E3).
    by apply rollback_left_removed.
Qed.

Lemma upgrade_states apisDir name row ref rnd srnd ornd now w r w' :
  ib_Path row = Join apisDir name ->
  plain name -> slashless name -> hidden name = false -> slashless rnd -> slashless srnd -> slashless ornd ->
  disk_wf (w_disk w) -> stat (name :: resolve (w_cwd w) apisDir) (w_disk w) = Some IDir ->
  upgradeOne apiBase codeloadBase token ref row rnd srnd ornd now w = (r, w') ->
  let A := resolve (w_cwd w) apisDir in
  let x := ".upgrade-old." +:+ ornd in
  match r with
  | Ok false => w' = w
  | Ok true => exists sha, ResolveSHA apiBase token ref = Ok sha /\ to_lower sha <> to_lower (ib_ResolvedSHA row) /\
      passed (some_version (w_disk w) A name x ref sha now) w w' /\
      upgraded (w_disk w) A name ref sha now (name :: A) (w_disk w')
  | Err _ => exists sha, (passed (some_version (w_disk w) A name x ref sha now) w w' /\ kept (w_disk w) A name (w_disk w')) \/
      rollback_failed (w_disk w) A name x ref sha now (ib_Path row)
        (Join (Dir (ib_Path row)) (".tmp.upgrade." +:+ rnd)) (Join (Dir (ib_Path row)) x) w w'
  end.
Proof.
  intros Hpath Hpn Hsn Hhn Hr Hsr Hor Hwf Hrow Hrun A x. set (t := ".tmp.upgrade." +:+ rnd).
  assert (forall sha w1, same_disk w w1 -> passed (some_version (w_disk w) A name x ref sha now) w w1 /\
    kept (w_disk w) A name (w_disk w1)) as Hself
    by (intros sha w1 Hs; split; [apply passed_refl; [by left|done]|by destruct Hs as [-> _]]).
  destruct (plain_prefixed ".tmp.upgrade." rnd) as [Hpt Hst]; [done|done|done|simpl; lia|].
  destruct (plain_prefixed ".upgrade-old." ornd) as [Hpx Hsx]; [done|done|done|simpl; lia|]. fold t x in Hpt, Hst, Hpx, Hsx.
  assert (name <> t /\ name <> x /\ x <> t) as (Hnt & Hnx & Hxt)
    by (assert (hidden t = true /\ hidden x = true) as [? ?] by done; split; [|split]; [congruence..|done]).
  unfold upgradeOne in Hrun. rewrite Hpath in Hrun.
  apply io_bind_split in Hrun as [(e & [= _ <-] & ->)|(u & w1 & [= _ <-] & Hrun)]; [exists ""; left; by apply Hself|].
  apply io_bind_split in Hrun as [(e & [= _ <-] & ->)|(sha & w1 & [= Hsha <-] & Hrun)]; [exists ""; left; by apply Hself|].
  case_decide as Hne; [by injection Hrun as <- <-|].
  apply io_bind_split in Hrun as [(e & [= _ <-] & ->)|(raw & w1 & [= _ <-] & Hrun)]; [exists sha; left; by apply Hself|].
  cbn zeta in Hrun. assert (resolve (w_cwd w) (Dir (Join apisDir name)) = A) as HA by (by apply Dir_Join_child).
  apply io_bind_split in Hrun as [(e & E1 & ->)|(tmp & w1 & E1 & Hrun)];
    pose proof (draws_MkdirTemp _ _ _ _ _ E1) as Hdrawn;
    apply MkdirTemp_cases in E1 as [C1 E1]; try done; [exists sha; left; by apply Hself|].
  destruct E1 as (-> & Hpast & Hmk). rewrite HA in Hmk. fold t in Hmk, Hrun.
  destruct (Join_child (w_cwd w) (Dir (Join apisDir name)) t Hpt Hst) as [HT Hh]. rewrite HA in HT.
  assert (keeping (w_disk w) (name :: A) (t :: A) (w_disk w1)) as HQ.
  { apply mkdir_ok in Hmk as (_ & _ & Hpar & Ed). split.
    - intros k. rewrite Ed, lookup_insert_ne; [done|]. intros E. apply (sibling A t name k); [done|]. rewrite <- E. apply under_refl.
    - rewrite Ed. apply wf_dirs; [by apply insert_wf|]. rewrite stat_cons. apply lookup_insert_eq. }
  assert (passed (some_version (w_disk w) A name x ref sha now) w w1) as P1.
  { split; [done|]. split; [left; apply HQ|]. exists [w_disk w]. split; [done|]. apply Forall_singleton. by left. }
  apply (commit_states (w_disk w) apisDir name t x ref sha now raw _ srnd w1 r w') in Hrun; rewrite ?C1; try done.
  2: { rewrite Hh. by intros [=]. }
  rewrite C1 in Hrun. fold A in Hrun. destruct r as [b|e].
  - destruct Hrun as (-> & P2 & Hu). exists sha. split; [done|]. split; [done|]. split; [by eapply passed_trans|done].
  - exists sha. destruct Hrun as [[P2 K2]|Hrf]; [left; split; [by eapply passed_trans|done]|right].
    rewrite Hpath. by apply (rollback_failed_from _ _ _ _ _ _ _ _ _ _ w w1).
Qed.
End upgrading.


(** ** Killed between the renames *)

Definition newer_github : GitHub := {|
  http_do url h := if str_contains "/commits/" url then Ok (200%Z, "ffffffffffffffffffffffffffffffffffffffff") else @http_do demo_github url h;
  gunzip := @gunzip demo_github;
  tar_read := @tar_read demo_github
|}.

Definition demo_row : installedBundle :=
  mkInstalled "acme" "github.com/acme/apis@main" "1" "0123456789abcdef0123456789abcdef01234567" 0 1 0 "/srv/apis/acme".

Definition demo_upgrade : result bool * world :=
  @upgradeOne newer_github demo_yaml "https://api" "https://dl" "" (mkRef "github.com" "acme" "apis" "main")
    demo_row "3" "4" "5" 0
    (demo_install demo_github demo_yaml).2.

(** The old version is set aside and no bundle is visible. *)
Definition in_the_gap (d : disk) : bool :=
  match demo_loaded (mkWorld d ["srv"] [] []) with
  | Ok [] => is_some_b (d !! ["acme"; ".upgrade-old.5"; "apis"; "srv"])
  | _ => false
  end.

(** The upgrade succeeds, and goes through such a state. *)
Example upgrade_gap :
  demo_upgrade.1 = Ok true /\ demo_loaded demo_upgrade.2 = Ok [("a", "acme")] /\
  existsb in_the_gap (w_past demo_upgrade.2) = true.
Proof. split; [vm_compute; reflexivity|]. split; vm_compute; reflexivity. Qed.


(** When both the rename into place and the one that was to undo the first fail,
    the copy is removed all the same, and no version is left. *)
Definition two_faults (n : nat) : world :=
  let w := (demo_install demo_github demo_yaml).2 in
  mkWorld (w_disk w) (w_cwd w) (repeat false n ++ [true; true]) (w_past w).

Definition demo_failed_upgrade (n : nat) : result bool * world :=
  @upgradeOne newer_github demo_yaml "https://api" "https://dl" "" (mkRef "github.com" "acme" "apis" "main")
    demo_row "3" "4" "5" 0 (two_faults n).

Definition no_version (w : world) : bool :=
  bool_decide (dir_entries ["apis"; "srv"] (w_disk w) = []).

Example upgrade_loses_both :
  (demo_failed_upgrade 17).1 = Err (EWrap "rename new into place" disk_error) /\
  no_version (demo_failed_upgrade 17).2 = true.
Proof. split; vm_compute; reflexivity. Qed.
