(* ===== verification/DataDir.v ===== *)
(** * The data directory: internal/cli/datadir/datadir.go,
    internal/cli/initcmd/initcmd.go, internal/auth/secret.go

    [bouncer init] writes a directory that [bouncer serve] reads back.  Files
    are those of [Disk]; the random bytes, the password that is prompted for,
    bcrypt and the generation of a CA are arguments.  The theorems: an init that
    succeeds leaves a complete layout, and one without [--force] changes nothing
    when it sees any file of an earlier one. *)

From S2P Require Import Prelude GoStd Paths Disk Z85 Ids Url Bundles BundleFetch BundleLoad.

(** ** [datadir.go] *)

Definition SecretFile : string := "secret.hex".
Definition AdminPasswordFile : string := "admin-password.hash".
Definition StoreDir : string := "store".
Definition StoreDBFile : string := "store.db".
Definition APIsDir : string := "apis".
Definition PoliciesDir : string := "policies".
Definition MITMCertFile : string := "mitm-ca.crt".
Definition MITMKeyFile : string := "mitm-ca.key".
Definition ReadmeFile : string := "README.md".

(** [Layout]: the directory and its paths. *)
Definition Layout : Type := string.
Definition APIs (l : Layout) : string := Join l APIsDir.
Definition Policies (l : Layout) : string := Join l PoliciesDir.
Definition StorePath (l : Layout) : string := Join l StoreDir.
Definition StoreDB (l : Layout) : string := Join (Join l StoreDir) StoreDBFile.
Definition Secret (l : Layout) : string := Join l SecretFile.
Definition AdminHash (l : Layout) : string := Join l AdminPasswordFile.
Definition MITMCert (l : Layout) : string := Join l MITMCertFile.
Definition MITMKey (l : Layout) : string := Join l MITMKeyFile.

(** [os.Stat] without an error. *)
Definition Exists (p : string) : io bool :=
  do r <- io_try (Stat p); io_ret (is_ok r).

Fixpoint all_exist (ps : list string) : io bool :=
  match ps with
  | [] => io_ret true
  | p :: ps => do b <- Exists p; if (b : bool) then all_exist ps else io_ret false
  end.

Definition IsInitialized (dir : string) : io bool := all_exist [Join dir SecretFile; Join dir AdminPasswordFile].

Definition readTrimmed (p : string) : io string := do raw <- ReadFile p; io_ret (trim_space raw).
Definition ReadSecret (l : Layout) : io string := readTrimmed (Secret l).
Definition ReadAdminHash (l : Layout) : io string := readTrimmed (AdminHash l).

(** [Resolve]: the flag, the environment, the current directory. *)
Definition Resolve (flag env : string) : io string :=
  if negb (bool_decide (flag = "")) then io_ret flag
  else if negb (blank env) then io_ret (trim_space env)
  else do b <- IsInitialized "."; io_ret (if (b : bool) then "." else "").

(** ** [secret.go] *)

(** [hex.DecodeString] *)
Fixpoint hex_decode (s : string) : option (list Z) :=
  match s with
  | EmptyString => Some []
  | String h (String l s') =>
      vh ← unhex h; vl ← unhex l; rest ← hex_decode s'; Some (Z.of_N (vh * 16 + vl) :: rest)
  | String _ EmptyString => None
  end.

Definition SecretFromHex (s : string) : result (list Z) :=
  match hex_decode s with
  | None => Err (EWrap "hex decode secret" (EMsg "encoding/hex"))
  | Some raw => if decide (length raw = 32) then Ok raw else Err (EMsg "secret must be 32 bytes")
  end.

(** ** [initcmd.go] *)

(** What the prompt gives is read only when flag and environment are empty. *)
Definition resolvePassword (flagVal env : string) (prompt : result string) : result string :=
  if negb (bool_decide (flagVal = "")) then Ok flagVal
  else if negb (bool_decide (env = "")) then Ok env
  else pw ← prompt; if decide (pw = "") then Err (EMsg "empty password") else Ok pw.

Definition existing_names : list string :=
  [SecretFile; AdminPasswordFile; MITMCertFile; MITMKeyFile; Join StoreDir "store.db"].

Fixpoint existing_of (dir : string) (names : list string) : io (list string) :=
  match names with
  | [] => io_ret []
  | n :: names => do b <- Exists (Join dir n); do hits <- existing_of dir names; io_ret (if (b : bool) then n :: hits else hits)
  end.

Definition existingLayoutFiles (dir : string) : io (list string) := existing_of dir existing_names.

(** [filepath.Abs] *)
Definition path_string (p : path) : string := "/" +:+ join "/" (rev p).

Definition Abs (dir : string) : io string := fun w =>
  (Ok (if rooted dir then Clean dir else Join (path_string (w_cwd w)) dir), w).

Definition WriteFile (p data : string) : io unit := at_path p (write_file data).

Definition newline : string := String "010" "".
Definition quote : string := String "034" "".

Definition readmeBody (dir : string) (mitm : bool) : string :=
  "# bouncer data dir

This directory was created by `bouncer init`. The layout is:

- " +:+ SecretFile +:+ " : 32-byte server secret (hex). Treat like a private key.
- " +:+ AdminPasswordFile +:+ " : bcrypt hash of the admin password (for /_admin/login).
- " +:+ StoreDir +:+ "/ : sqlite store(s) for traffic and policies (populated on first serve).
- " +:+ APIsDir +:+ "/ : API specs. Top-level *.yaml files are loose specs; immediate subdirs are bundles installed via " +:+
  quote +:+ "bouncer apis add ..." +:+ quote +:+ ".
- " +:+ PoliciesDir +:+ "/ : drop policy YAML specs here. Loaded at boot; policies edited via the UI/API persist in the store and override same-named files.
" +:+ (if mitm then
  "- " +:+ MITMCertFile +:+ " + " +:+ MITMKeyFile +:+ " : self-signed MITM CA. Install " +:+ MITMCertFile +:+
  " in your client's trust store and run serve with --mitm." +:+ newline else "") +:+ "
Optional bouncer.yaml in this dir constrains which refs apis add
will install:

    apis:
      allowlist:
        - github.com/acme/*
        - github.com/jkylling/*

Start the proxy:

    bouncer serve --data-dir " +:+ dir +:+ "

The serve subcommand reads each file above in place; you can override any
individual flag (e.g. --addr :8443) without unsetting --data-dir.
".

Record Options := mkInitOptions {
  io_AdminPassword : string;
  io_MITM : bool;
  io_MITMCommonName : string;
  io_Force : bool;
  io_SkipIfInitialized : bool
}.

(** What a bootstrap takes from outside: 32 random bytes, the environment's
    password, the prompt, bcrypt and the CA for a common name. *)
Record init_env := mkInitEnv {
  ie_random : list Z;
  ie_password : string;
  ie_prompt : result string;
  ie_bcrypt : string -> result string;
  ie_CA : string -> result (string * string)
}.

Definition writeSecret (p : string) (random : list Z) : io unit := WriteFile p (hex_encode random +:+ newline).

Definition writeBcrypt (p pw : string) (bcrypt : string -> result string) : io unit :=
  do hash <- io_lift (bcrypt pw); WriteFile p (hash +:+ newline).

Definition writeMITMCA (dir cn : string) (generate : string -> result (string * string)) : io unit :=
  do ck <- io_lift (generate cn);
  do! WriteFile (Join dir MITMCertFile) ck.1;
  WriteFile (Join dir MITMKeyFile) ck.2.

(** The part of [bootstrap] that writes. *)
Definition write_layout (abs : string) (o : Options) (e : init_env) : io unit :=
  do! MkdirAll abs;
  do! MkdirAll (Join abs APIsDir);
  do! MkdirAll (Join abs PoliciesDir);
  do! MkdirAll (Join abs StoreDir);
  do! writeSecret (Join abs SecretFile) (ie_random e);
  do pw <- io_lift (resolvePassword (io_AdminPassword o) (ie_password e) (ie_prompt e));
  do! writeBcrypt (Join abs AdminPasswordFile) pw (ie_bcrypt e);
  do! (if io_MITM o
       then writeMITMCA abs (if decide (io_MITMCommonName o = "") then "bouncer MITM CA" else io_MITMCommonName o) (ie_CA e)
       else io_ret tt);
  WriteFile (Join abs ReadmeFile) (readmeBody abs (io_MITM o)).

Definition bootstrap (dir : string) (o : Options) (e : init_env) : io unit :=
  do abs <- Abs dir;
  do existing <- existingLayoutFiles abs;
  if negb (bool_decide (existing = [])) && negb (io_Force o) then io_fail (EMsg "refusing to overwrite existing files")
  else write_layout abs o e.

(** [Run]: [install] is [InstallRefs] on the references asked for. *)
Definition Run (dir : string) (o : Options) (e : init_env) (install : string -> io unit) : io unit :=
  let dir := if decide (dir = "") then "." else dir in
  do skip <- (if io_SkipIfInitialized o then IsInitialized dir else io_ret false);
  do! (if (skip : bool) then io_ret tt else bootstrap dir o e);
  install (Join dir APIsDir).

Definition nonHiddenCount (es : list (string * bool)) : nat :=
  length (List.filter (fun e => negb (has_prefix "." e.1)) es).

(** [runInit] *)
Definition runInit (args : list string) (o : Options) (e : init_env) (install : string -> io unit) : io unit :=
  match args with
  | [] =>
      do! (if io_Force o then io_ret tt
           else
             do es <- ReadDir ".";
             if decide (nonHiddenCount es = 0) then io_ret tt else io_fail (EMsg "refusing to init the current directory"));
      Run "." o e install
  | [dir] => Run dir o e install
  | _ => io_fail (EMsg "expected at most one directory argument")
  end.

(** ** Looking only reads *)

Lemma IsInitialized_reads dir : reads (IsInitialized dir).
Proof.
  unfold IsInitialized. generalize [Join dir SecretFile; Join dir AdminPasswordFile]. intros l.
  induction l as [|p l IH]; cbn [all_exist]; [apply reads_ret|]. apply reads_bind; [unfold Exists; reading|].
  intros b. destruct b; [exact IH|apply reads_ret].
Qed.

Lemma Resolve_reads flag env : reads (Resolve flag env).
Proof. unfold Resolve. pose proof (IsInitialized_reads "."). reading. Qed.

Lemma ReadSecret_reads l : reads (ReadSecret l).
Proof. unfold ReadSecret, readTrimmed. reading. Qed.

(** ** The secret, there and back *)

Lemma unhex_lower n : (0 <= n < 16)%Z -> unhex (hex_lower n) = Some (Z.to_N n).
Proof.
  intros Hn. assert (n ∈ seqZ 0 16) as Hin by (apply elem_of_seqZ; lia). clear Hn. revert n Hin.
  apply Forall_forall, (bool_decide_unpack _). vm_compute. exact I.
Qed.

Lemma hex_decode_encode l : Forall is_byte l -> hex_decode (hex_encode l) = Some l.
Proof.
  induction 1 as [|b l Hb Hl IH]; [done|]. unfold is_byte in Hb. simpl.
  rewrite !unhex_lower by (try apply Z.mod_pos_bound; try (split; [apply Z.div_pos|apply Z.div_lt_upper_bound]); lia).
  simpl. rewrite IH. simpl. do 2 f_equal.
  rewrite N2Z.inj_add, N2Z.inj_mul, !Z2N.id by (try apply Z.mod_pos_bound; try apply Z.div_pos; lia).
  pose proof (Z.div_mod b 16). lia.
Qed.

Lemma SecretFromHex_encode l : Forall is_byte l -> length l = 32 -> SecretFromHex (hex_encode l) = Ok l.
Proof. intros Hl Hn. unfold SecretFromHex. by rewrite hex_decode_encode, decide_True. Qed.

(** ** What the calls leave alone *)

Definition kept_at (q : path) (d d' : disk) : Prop := stat q d' = stat q d.

#[export] Instance kept_at_preorder q : PreOrder (kept_at q).
Proof. split; [by intros d|]. intros a b c Hab Hbc. unfold kept_at in *. congruence. Qed.

Lemma stat_insert_ne q p i d : q <> p -> stat q (<[p := i]> d) = stat q d.
Proof. intros Hne. unfold stat. case_decide; [done|]. by rewrite lookup_insert_ne. Qed.

Lemma mkdir_all_kept cwd q p : ~ under q p -> steps_in cwd (kept_at q) (mkdir_all p).
Proof.
  induction p as [|x p IH]; intros Hq; cbn [mkdir_all]; apply steps_in_bind; try apply _; try apply steps_in_read;
    try apply _; intros [[]|]; try apply steps_in_ret; try apply steps_in_fail; try apply _.
  apply steps_in_bind; [apply _| |].
  - apply IH. intros Hu. apply Hq. by apply under_cons.
  - intros _. apply steps_in_write; [apply _|]. intros d d' (_ & _ & _ & ->)%mkdir_ok. apply stat_insert_ne.
    intros ->. apply Hq, under_refl.
Qed.

Lemma write_file_kept cwd q data p : q <> p -> steps_in cwd (kept_at q) (write_file data p).
Proof.
  intros Hq. apply steps_in_bind; [apply _| |intros _]; apply steps_in_write; try apply _; intros d d'.
  - unfold create. destruct (stat p d) as [[]|], (stat (tail p) d) as [[]|]; try done; intros [= <-]; by apply stat_insert_ne.
  - destruct (stat p d) as [[]|]; try done. intros [= <-]. by apply stat_insert_ne.
Qed.

Lemma MkdirAll_kept cwd q p : ~ under q (resolve cwd p) -> steps_in cwd (kept_at q) (MkdirAll p).
Proof. intros Hq. apply steps_in_at. by apply mkdir_all_kept. Qed.

Lemma WriteFile_kept cwd q p data : q <> resolve cwd p -> steps_in cwd (kept_at q) (WriteFile p data).
Proof. intros Hq. apply steps_in_at. by apply write_file_kept. Qed.

(** A call that succeeds at [p] and is known to keep the rest. *)
Lemma kept_ok cwd q {A} (m : io A) w r w' :
  steps_in cwd (kept_at q) m -> w_cwd w = cwd -> m w = (r, w') -> stat q (w_disk w') = stat q (w_disk w).
Proof. intros Hm Hc E. by destruct (Hm _ _ _ Hc E) as (_ & H & _). Qed.

Lemma MkdirAll_ok p w w' :
  MkdirAll p w = (Ok tt, w') -> stat (resolve (w_cwd w) p) (w_disk w') = Some IDir /\ w_cwd w' = w_cwd w.
Proof.
  unfold MkdirAll, at_path. intros E. split; [by eapply mkdir_all_ok|].
  by destruct (mkdir_all_adds (w_cwd w) _ _ (under_refl _) _ _ _ eq_refl E) as (H & _).
Qed.

Lemma WriteFile_ok p data w w' :
  WriteFile p data w = (Ok tt, w') -> stat (resolve (w_cwd w) p) (w_disk w') = Some (IFile data) /\ w_cwd w' = w_cwd w.
Proof.
  unfold WriteFile, at_path. intros E. split; [by eapply write_file_ok|].
  set (q := "x" :: resolve (w_cwd w) p).
  assert (q <> resolve (w_cwd w) p) as Hq by (intros H; apply (f_equal length) in H; simpl in H; lia).
  by destruct (write_file_kept (w_cwd w) q data _ Hq _ _ _ eq_refl E) as (H & _).
Qed.

Lemma child_not_above (D : path) n : ~ under (n :: D) D.
Proof. intros [k E]. apply (f_equal length) in E. rewrite length_app in E. simpl in E. lia. Qed.

Lemma siblings_apart (D : path) n m : n <> m -> ~ under (n :: D) (m :: D).
Proof.
  intros Hne [[|x k] E]; [by injection E|]. apply (f_equal length) in E. simpl in E. rewrite length_app in E. simpl in E. lia.
Qed.

(** ** An init that succeeds *)

(** The layout at [D], as [serve] will find it. *)
Record layout_written (D : path) (o : Options) (e : init_env) (d : disk) : Prop := {
  lw_apis : stat (APIsDir :: D) d = Some IDir;
  lw_policies : stat (PoliciesDir :: D) d = Some IDir;
  lw_store : stat (StoreDir :: D) d = Some IDir;
  lw_secret : stat (SecretFile :: D) d = Some (IFile (hex_encode (ie_random e) +:+ newline));
  lw_hash : exists pw hash, resolvePassword (io_AdminPassword o) (ie_password e) (ie_prompt e) = Ok pw /\
    ie_bcrypt e pw = Ok hash /\ stat (AdminPasswordFile :: D) d = Some (IFile (hash +:+ newline));
  lw_mitm : io_MITM o = true -> exists cn cert key, ie_CA e cn = Ok (cert, key) /\
    stat (MITMCertFile :: D) d = Some (IFile cert) /\ stat (MITMKeyFile :: D) d = Some (IFile key)
}.

Lemma resolve_child cwd a n :
  plain n -> slashless n -> resolve cwd (Join a n) = n :: resolve cwd a.
Proof. intros Hp Hs. by destruct (Join_child cwd a n Hp Hs). Qed.

(** Making a directory, or writing a file, beside the entry [n] of [D]. *)
Lemma mkdir_beside cwd a n m : plain m -> slashless m -> n <> m ->
  steps_in cwd (kept_at (n :: resolve cwd a)) (MkdirAll (Join a m)).
Proof. intros Hp Hs Hne. apply MkdirAll_kept. rewrite resolve_child by done. by apply siblings_apart. Qed.

Lemma write_beside cwd a n m data : plain m -> slashless m -> n <> m ->
  steps_in cwd (kept_at (n :: resolve cwd a)) (WriteFile (Join a m) data).
Proof. intros Hp Hs Hne. apply WriteFile_kept. rewrite resolve_child by done. by intros [= ->]. Qed.

Ltac entry := first [reflexivity | discriminate | by repeat split].

Ltac beside := first [apply mkdir_beside | apply write_beside]; entry.

(** Carries what is known of an entry past the calls that follow it. *)
Ltac carry := repeat (etrans; [eapply kept_ok; [..|eassumption]; [beside|eassumption]|]); assumption.

Ltac apart := apply (bool_decide_eq_true (_ ∉ _)); vm_compute; reflexivity.

(** The optional CA of [write_layout]. *)
Definition write_ca (abs : string) (o : Options) (e : init_env) : io unit :=
  if io_MITM o
  then writeMITMCA abs (if decide (io_MITMCommonName o = "") then "bouncer MITM CA" else io_MITMCommonName o) (ie_CA e)
  else io_ret tt.

Lemma write_ca_kept cwd abs o e n :
  n ∉ [MITMCertFile; MITMKeyFile] -> steps_in cwd (kept_at (n :: resolve cwd abs)) (write_ca abs o e).
Proof.
  rewrite !not_elem_of_cons. intros (Hn1 & Hn2 & _). unfold write_ca. destruct (io_MITM o); [|apply steps_in_ret; apply _].
  apply steps_in_bind; [apply _|apply steps_in_pure; apply _|]. intros ck.
  apply steps_in_bind; [apply _|apply write_beside; [entry..|done]|]. intros _. apply write_beside; [entry..|done].
Qed.

Lemma write_ca_ok abs o e w w' :
  write_ca abs o e w = (Ok tt, w') -> io_MITM o = true ->
  exists cn cert key, ie_CA e cn = Ok (cert, key) /\
    stat (MITMCertFile :: resolve (w_cwd w) abs) (w_disk w') = Some (IFile cert) /\
    stat (MITMKeyFile :: resolve (w_cwd w) abs) (w_disk w') = Some (IFile key).
Proof.
  intros H Hm. unfold write_ca in H. rewrite Hm in H. set (cwd := w_cwd w). assert (w_cwd w = cwd) as C by done. clearbody cwd.
  apply io_bind_ok in H as ([cert key] & w7 & [= Hck <-] & H).
  apply io_bind_ok in H as ([] & wc & Ec & Ek). simpl in Ec, Ek.
  pose proof (WriteFile_ok _ _ _ _ Ec) as [Sc Cc]. pose proof (WriteFile_ok _ _ _ _ Ek) as [Sk _].
  rewrite C in Cc, Sc. rewrite Cc in Sk. rewrite resolve_child in Sc, Sk by entry.
  eexists _, cert, key. split; [exact Hck|]. split; [carry|done].
Qed.

Lemma write_layout_ok abs o e w w' :
  write_layout abs o e w = (Ok tt, w') -> layout_written (resolve (w_cwd w) abs) o e (w_disk w') /\ w_cwd w' = w_cwd w.
Proof.
  unfold write_layout, writeSecret, writeBcrypt. fold (write_ca abs o e).
  set (cwd := w_cwd w). assert (w_cwd w = cwd) as C0 by done. clearbody cwd. intros H.
  apply io_bind_ok in H as ([] & w1 & E1 & H). pose proof (MkdirAll_ok _ _ _ E1) as [_ C1]. rewrite C0 in C1.
  apply io_bind_ok in H as ([] & w2 & E2 & H). pose proof (MkdirAll_ok _ _ _ E2) as [S2 C2]. rewrite C1 in C2, S2.
  apply io_bind_ok in H as ([] & w3 & E3 & H). pose proof (MkdirAll_ok _ _ _ E3) as [S3 C3]. rewrite C2 in C3, S3.
  apply io_bind_ok in H as ([] & w4 & E4 & H). pose proof (MkdirAll_ok _ _ _ E4) as [S4 C4]. rewrite C3 in C4, S4.
  apply io_bind_ok in H as ([] & w5 & E5 & H). pose proof (WriteFile_ok _ _ _ _ E5) as [S5 C5]. rewrite C4 in C5, S5.
  apply io_bind_ok in H as (pw & w6 & [= Hpw <-] & H).
  apply io_bind_ok in H as ([] & w7 & Hb & H). apply io_bind_ok in Hb as (hash & w6 & [= Hh <-] & E7).
  pose proof (WriteFile_ok _ _ _ _ E7) as [S7 C7]. rewrite C5 in C7, S7.
  rewrite resolve_child in S2, S3, S4, S5, S7 by entry.
  apply io_bind_ok in H as ([] & w8 & Hm & E9).
  destruct (write_ca_kept cwd abs o e "x" ltac:(apart) _ _ _ C7 Hm) as [C8 _].
  pose proof (write_ca_ok _ _ _ _ _ Hm) as M8. rewrite C7 in M8.
  pose proof (WriteFile_ok _ _ _ _ E9) as [_ C9]. rewrite C8 in C9. split; [|done].
  assert (forall n, n ∉ [MITMCertFile; MITMKeyFile] -> n <> ReadmeFile ->
    stat (n :: resolve cwd abs) (w_disk w') = stat (n :: resolve cwd abs) (w_disk w7)) as K.
  { intros n Hn Hr. etrans; [eapply kept_ok; [..|exact E9]; [apply write_beside; [entry..|done]|done]|].
    by apply (kept_ok cwd _ _ _ _ _ (write_ca_kept cwd abs o e n Hn) C7 Hm). }
  split.
  - rewrite (K APIsDir) by (apart || done). carry.
  - rewrite (K PoliciesDir) by (apart || done). carry.
  - rewrite (K StoreDir) by (apart || done). carry.
  - rewrite (K SecretFile) by (apart || done). carry.
  - exists pw, hash. by rewrite (K AdminPasswordFile) by (apart || done).
  - intros Hy. destruct (M8 Hy) as (cn & cert & key & H1 & H2 & H3). exists cn, cert, key. split; [done|]. split; carry.
Qed.

(** ** Where the layout is *)

(** The working directory has a name. *)
Definition cwd_ok (cwd : path) : Prop := Forall (fun x => plain x /\ slashless x) cwd.

Lemma fold_plain l b : Forall (fun x => plain x /\ slashless x) l -> foldl os_step b l = rev l ++ b.
Proof.
  revert b. induction l as [|x l IH]; intros b; [done|]. intros [[Hx _] Hl]%Forall_cons. simpl.
  rewrite (plain_step b x Hx), IH by done. by rewrite <- app_assoc.
Qed.

Lemma split_path_string cwd :
  cwd_ok cwd -> split_byte "/" (path_string cwd) = "" :: (if decide (cwd = []) then [""] else rev cwd).
Proof.
  intros Hc. unfold path_string. change ("/" +:+ ?s) with (String "/"%char s). cbn [split_byte].
  rewrite decide_True by done. f_equal. case_decide as E; [by subst|]. apply split_join.
  - by rewrite rev_nil_iff.
  - apply Forall_rev. eapply Forall_impl; [exact Hc|]. by intros x [_ Hx].
Qed.

Lemma split_slash_app a b : split_byte "/" (a +:+ "/" +:+ b) = split_byte "/" a ++ split_byte "/" b.
Proof.
  induction a as [|c a IH]; [done|]. rewrite string_app_cons. cbn [split_byte]. rewrite IH. case_decide; [done|].
  destruct (split_byte "/" a) eqn:E; [by apply split_byte_nonempty in E|done].
Qed.

Lemma resolve_Join cwd a b :
  a <> "" -> b <> "" -> resolve cwd (Join a b) = foldl os_step (resolve cwd a) (split_byte "/" b).
Proof.
  intros Ha Hb. unfold Join. simpl. rewrite !bool_decide_eq_false_2 by done. rewrite decide_False by done.
  rewrite resolve_Clean. unfold resolve, base. cbn [join negb].
  rewrite rooted_app, split_slash_app, foldl_app by done. done.
Qed.

Lemma resolve_path_string b cwd : cwd_ok cwd -> resolve b (path_string cwd) = cwd.
Proof.
  intros Hc. unfold resolve, base. change (rooted (path_string cwd)) with true. rewrite split_path_string by done.
  cbn [foldl]. unfold os_step at 2. rewrite decide_True by (by left).
  case_decide as E; [by subst|]. rewrite fold_plain by (by apply Forall_rev). by rewrite rev_involutive, app_nil_r.
Qed.

Lemma resolve_Abs cwd dir abs w w' :
  cwd_ok cwd -> w_cwd w = cwd -> dir <> "" -> Abs dir w = (Ok abs, w') ->
  w' = w /\ resolve cwd abs = resolve cwd dir /\ abs <> "".
Proof.
  intros Hc Hw Hd. unfold Abs. rewrite Hw. intros [= <- <-]. split; [done|].
  destruct (rooted dir) eqn:Er; [split; [apply resolve_Clean|apply Clean_nonempty]|]. split.
  - rewrite resolve_Join, resolve_path_string by done. unfold resolve, base. by rewrite Er.
  - destruct (Join_Clean (path_string cwd) dir) as [p ->]; [done|]. apply Clean_nonempty.
Qed.

(** ** An init that finds an earlier one *)

Lemma Exists_clean p w :
  (pop (w_faults w)).1 = false ->
  Exists p w = (Ok (is_some_b (stat (resolve (w_cwd w) p) (w_disk w))),
                mkWorld (w_disk w) (w_cwd w) (pop (w_faults w)).2 (w_past w)).
Proof.
  intros Hf. unfold Exists, io_try, io_bind, Stat, at_path, sys_read. destruct (pop (w_faults w)) as [[] fs]; [done|].
  simpl. by destruct (stat _ _).
Qed.

Lemma existing_of_clean dir names w :
  true ∉ take (length names) (w_faults w) ->
  exists fs, existing_of dir names w =
    (Ok (List.filter (fun n => is_some_b (stat (resolve (w_cwd w) (Join dir n)) (w_disk w))) names),
     mkWorld (w_disk w) (w_cwd w) fs (w_past w)).
Proof.
  revert w. induction names as [|n names IH]; intros w Hf; [exists (w_faults w); by destruct w|]. cbn [existing_of].
  assert ((pop (w_faults w)).1 = false /\ true ∉ take (length names) (pop (w_faults w)).2) as [Hp Hr].
  { destruct (w_faults w) as [|b fs]; [split; [done|]; simpl; rewrite take_nil; apply not_elem_of_nil|].
    simpl in *. apply not_elem_of_cons in Hf as [Hb Hf]. split; [by destruct b|done]. }
  unfold io_bind at 1. rewrite Exists_clean by done.
  destruct (IH (mkWorld (w_disk w) (w_cwd w) (pop (w_faults w)).2 (w_past w)) Hr) as [fs E].
  exists fs. unfold io_bind. rewrite E. simpl. by destruct (is_some_b _).
Qed.

(** An init does not overwrite an earlier one.  When the directory holds a
    secret, a password hash, a CA file or a database, and looking for them does
    not fail, [bouncer init] without [--force] reports an error and leaves the
    disk as it was: no token that was issued is invalidated. *)
Theorem init_refuses_existing (dir : string) (o : Options) (e : init_env) (w : world) (n : string)
    (Hcwd : cwd_ok (w_cwd w)) (Hdir : dir <> "") (Hforce : io_Force o = false)
    (Hreads : true ∉ take 5 (w_faults w))
    (Hn : n ∈ [SecretFile; AdminPasswordFile; MITMCertFile; MITMKeyFile])
    (Hold : stat (n :: resolve (w_cwd w) dir) (w_disk w) <> None \/
            stat (StoreDBFile :: StoreDir :: resolve (w_cwd w) dir) (w_disk w) <> None) :
  exists w', bootstrap dir o e w = (Err (EMsg "refusing to overwrite existing files"), w') /\ same_disk w w'.
Proof.
  destruct (Abs dir w) as [[abs|?] w1] eqn:Ea; [|done].
  destruct (resolve_Abs _ _ _ _ _ Hcwd eq_refl Hdir Ea) as (-> & Hr & Hne).
  destruct (existing_of_clean abs existing_names w Hreads) as [fs E].
  eexists. unfold bootstrap, io_bind. rewrite Ea. unfold existingLayoutFiles. rewrite E, Hforce.
  rewrite bool_decide_eq_false_2; [by repeat split|].
  assert (exists m, m ∈ existing_names /\ stat (resolve (w_cwd w) (Join abs m)) (w_disk w) <> None) as (m & Hm & Hs).
  { destruct Hold as [Hs|Hs].
    - exists n. rewrite !elem_of_cons, elem_of_nil in Hn.
      destruct Hn as [->|[->|[->|[->|[]]]]]; (split; [unfold existing_names; rewrite !elem_of_cons; tauto|]); by rewrite resolve_child, Hr by entry.
    - exists (Join StoreDir "store.db"). split; [unfold existing_names; rewrite !elem_of_cons; tauto|]. by rewrite resolve_Join, Hr by done. }
  intros H. assert (m ∈ @nil string) as Hx; [|by apply not_elem_of_nil in Hx]. rewrite <- H. apply list_elem_of_In, filter_In.
  split; [by apply list_elem_of_In|]. cbn beta.
  by destruct (stat (resolve _ (Join abs m)) _).
Qed.

(** ** Directories for examples *)

Definition demo_options : Options := mkInitOptions "hunter2" true "" false false.

Definition demo_random : list Z := map Z.of_nat (seq 0 32).

Definition demo_env : init_env :=
  mkInitEnv demo_random "" (Err (EMsg "EOF")) (fun _ => Ok "$2a$12$k") (fun cn => Ok ("cert of " +:+ cn, "key of " +:+ cn)).

Definition empty_dir : world := mkWorld {[ ["srv"] := IDir ]} ["srv"] [] [].

Definition initialised : world := (bootstrap "data" demo_options demo_env empty_dir).2.

Lemma demo_init : bootstrap "data" demo_options demo_env empty_dir = (Ok tt, initialised).
Proof. rewrite (surjective_pairing (bootstrap _ _ _ _)). apply (f_equal2 pair); [vm_compute; reflexivity|reflexivity]. Qed.

Lemma init_refuses_existing_witness :
  exists w', bootstrap "data" demo_options demo_env initialised =
    (Err (EMsg "refusing to overwrite existing files"), w') /\ same_disk initialised w'.
Proof.
  apply (init_refuses_existing "data" demo_options demo_env initialised SecretFile).
  - assert (w_cwd initialised = ["srv"]) as -> by (vm_compute; reflexivity).
    constructor; [|constructor]. by repeat split.
  - discriminate.
  - reflexivity.
  - assert (w_faults initialised = []) as -> by (vm_compute; reflexivity). apply not_elem_of_nil.
  - left.
  - left. vm_compute. discriminate.
Defined.

(** A prompt that fails after the secret was written leaves a directory that is
    not initialised and that a second attempt refuses. *)
Example failed_prompt_poisons :
  let o := mkInitOptions "" true "" false false in
  let w := (bootstrap "data" o demo_env empty_dir).2 in
  (bootstrap "data" o demo_env empty_dir).1 = Err (EMsg "EOF") /\
  (IsInitialized "data" w).1 = Ok false /\
  (bootstrap "data" demo_options demo_env w).1 = Err (EMsg "refusing to overwrite existing files").
Proof. vm_compute. done. Qed.

(** A look at the directory that fails counts as finding nothing. *)
Example unreadable_is_overwritten :
  let w := mkWorld (w_disk initialised) ["srv"] (replicate 5 true) [] in
  let e := mkInitEnv (rev demo_random) "" (Err (EMsg "EOF")) (ie_bcrypt demo_env) (ie_CA demo_env) in
  is_ok (bootstrap "data" demo_options e w).1 = true /\
  (ReadSecret "data" (bootstrap "data" demo_options e w).2).1 = Ok (hex_encode (rev demo_random)).
Proof. vm_compute. done. Qed.
