(* ===== verification/Config.v ===== *)
(** * The configuration of [bouncer serve]: internal/cli/servecmd/config.go,
    the kinds of stores.go, internal/cli/cliconfig/config.go

    [buildConfig] completes what flags and environment give with what the data
    directory holds, and refuses what does not fit together.  What viper reads
    from flags and environment is an argument, and so are the flags that the
    command line changed and the variables the environment has.  The theorems:
    a configuration that is accepted is complete and keeps what the operator
    said, and a directory that [bouncer init] wrote is served with its own
    secret. *)

From S2P Require Import Prelude GoStd Paths Disk Z85 Ids Url Bundles DataDir.

(** ** The kinds of [stores.go] *)

Definition TrafficStoreNone : string := "none".
Definition TrafficStoreMemory : string := "memory".
Definition TrafficStoreSqlite : string := "sqlite".
Definition PoliciesStoreFile : string := "file".
Definition PoliciesStoreMemory : string := "memory".
Definition PoliciesStoreSqlite : string := "sqlite".
Definition ProposalsStoreMemory : string := "memory".
Definition ProposalsStoreSqlite : string := "sqlite".

Definition unmarshal_kind (kinds : list string) (what b : string) : result string :=
  let s := to_lower (trim_space b) in
  if decide (s ∈ kinds) then Ok s else Err (EMsg what).

Definition UnmarshalTrafficKind : string -> result string :=
  unmarshal_kind [TrafficStoreNone; TrafficStoreMemory; TrafficStoreSqlite] "invalid traffic store".
Definition UnmarshalPoliciesKind : string -> result string :=
  unmarshal_kind [PoliciesStoreFile; PoliciesStoreMemory; PoliciesStoreSqlite] "invalid policies store".
Definition UnmarshalProposalsKind : string -> result string :=
  unmarshal_kind [ProposalsStoreMemory; ProposalsStoreSqlite] "invalid proposals store".

(** ** The configuration *)

(** What [buildConfig] never rewrites. *)
Record given := mkGiven {
  gv_Addr : string;
  gv_InboundReadHeaderTimeout : Z;
  gv_InboundReadTimeout : Z;
  gv_InboundWriteTimeout : Z;
  gv_InboundIdleTimeout : Z;
  gv_UpstreamCallTimeout : Z;
  gv_RefreshTTL : Z;
  gv_TrafficDB : string;
  gv_TrafficBudget : Z;
  gv_TrafficMaxAge : Z;
  gv_PoliciesDB : string;
  gv_PoliciesReadOnly : bool;
  gv_ProposalsDB : string;
  gv_AdminPassword : string;
  gv_Init : bool;
  gv_WithApis : list string;
  gv_InternalPolicies : string
}.

Record config := mkConfig {
  cf_given : given;
  cf_DataDir : string;
  cf_SecretHex : string;
  cf_ApisDir : string;
  cf_PoliciesDir : string;
  cf_AdminPasswordHash : string;
  cf_StoreDB : string;
  cf_TrafficStore : string;
  cf_PoliciesStore : string;
  cf_ProposalsStore : string;
  cf_MITMCAPath : string;
  cf_MITMCAKey : string;
  cf_MITM : bool
}.

Definition EnvPrefix : string := "BOUNCER".

(** The flags that [fs.Changed] knows, and the variables [os.LookupEnv] finds. *)
Record flags := mkFlags { fl_Changed : list string; fl_Env : list string }.

Definition env_name (name : string) : string := EnvPrefix +:+ "_" +:+ to_upper (replace_byte "-" "_" name).

Definition flagOrEnvSet (fs : flags) (name : string) : bool :=
  bool_decide (name ∈ fl_Changed fs) || bool_decide (env_name name ∈ fl_Env fs).

(** ** [config.go] *)

Definition with_DataDir (d : string) (c : config) : config :=
  mkConfig (cf_given c) d (cf_SecretHex c) (cf_ApisDir c) (cf_PoliciesDir c) (cf_AdminPasswordHash c) (cf_StoreDB c)
    (cf_TrafficStore c) (cf_PoliciesStore c) (cf_ProposalsStore c) (cf_MITMCAPath c) (cf_MITMCAKey c) (cf_MITM c).

Definition with_MITM (b : bool) (c : config) : config :=
  mkConfig (cf_given c) (cf_DataDir c) (cf_SecretHex c) (cf_ApisDir c) (cf_PoliciesDir c) (cf_AdminPasswordHash c) (cf_StoreDB c)
    (cf_TrafficStore c) (cf_PoliciesStore c) (cf_ProposalsStore c) (cf_MITMCAPath c) (cf_MITMCAKey c) b.

Definition defaultDataDirFromCwd (c : config) : io config :=
  if negb (bool_decide (cf_DataDir c = "")) then io_ret c
  else do b <- (if gv_Init (cf_given c) then io_ret true else IsInitialized ".");
       io_ret (if (b : bool) then with_DataDir "." c else c).

(** The options of [bootstrapIfRequested]. *)
Definition daemon_options (c : config) : Options :=
  mkInitOptions (gv_AdminPassword (cf_given c)) (cf_MITM c) "" false true.

(** A field the operator left empty takes what a file holds, if it is there. *)
Definition from_file (fs : flags) (name old : string) (what : string) (read : io string) : io string :=
  if flagOrEnvSet fs name || negb (bool_decide (old = "")) then io_ret old
  else
    do r <- io_try read;
    match r with
    | Ok v => io_ret v
    | Err e => if errors_is e "ErrNotExist" then io_ret old else io_fail (EWrap what e)
    end.

(** A path of the layout that exists. *)
Definition from_layout (fs : flags) (name old p : string) : io string :=
  if flagOrEnvSet fs name then io_ret old
  else do b <- Exists p; io_ret (if (b : bool) then p else old).

Definition to_sqlite (fs : flags) (name old : string) : string := if flagOrEnvSet fs name then old else "sqlite".

Definition applyDataDir (fs : flags) (c : config) : io config :=
  if decide (cf_DataDir c = "") then io_ret c
  else
    let l := cf_DataDir c in
    do secret <- from_file fs "secret-hex" (cf_SecretHex c) "data-dir secret.hex" (ReadSecret l);
    do apis <- from_layout fs "apis-dir" (cf_ApisDir c) (APIs l);
    do policies <- from_layout fs "policies-dir" (cf_PoliciesDir c) (Policies l);
    do hash <- from_file fs "admin-password-hash" (cf_AdminPasswordHash c) "data-dir admin-password.hash" (ReadAdminHash l);
    do stores <-
      (if flagOrEnvSet fs "store-db" || negb (bool_decide (cf_StoreDB c = ""))
       then io_ret (cf_StoreDB c, (cf_TrafficStore c, cf_PoliciesStore c, cf_ProposalsStore c))
       else
         do r <- io_try (MkdirAll (StorePath l));
         match r with
         | Err e => io_fail (EWrap "data-dir store/" e)
         | Ok _ => io_ret (StoreDB l, (to_sqlite fs "traffic-store" (cf_TrafficStore c),
             to_sqlite fs "policies-store" (cf_PoliciesStore c), to_sqlite fs "proposals-store" (cf_ProposalsStore c)))
         end);
    do cert <- from_layout fs "mitm-ca-cert" (cf_MITMCAPath c) (MITMCert l);
    do key <- from_layout fs "mitm-ca-key" (cf_MITMCAKey c) (MITMKey l);
    io_ret (mkConfig (cf_given c) l secret apis policies hash stores.1 stores.2.1.1 stores.2.1.2 stores.2.2 cert key (cf_MITM c)).

Definition resolveMITMDefault (fs : flags) (c : config) : config :=
  if flagOrEnvSet fs "mitm" then c
  else if bool_decide (cf_MITMCAPath c = "") || bool_decide (cf_MITMCAKey c = "") then with_MITM false c else c.

Definition validateStoreDB (name : string) (isSqlite : bool) (perDB fallback : string) : result unit :=
  if isSqlite && bool_decide (perDB = "") && bool_decide (fallback = "") then Err (EMsg ("--" +:+ name +:+ "-store=sqlite requires --store-db"))
  else if negb isSqlite && negb (bool_decide (perDB = "")) then Err (EMsg ("--" +:+ name +:+ "-db set without sqlite"))
  else Ok tt.

Definition PolicySetDemo : string := "demo".
Definition PolicySetSimple : string := "simple".
Definition PolicySetProduction : string := "production".
Definition Sets : list string := [PolicySetDemo; PolicySetSimple; PolicySetProduction].

(** [PolicySet.Validate] *)
Definition set_Validate (s : string) : result unit :=
  if decide (s ∈ Sets) then Ok tt else Err (EMsg "unknown internal-policies set").

Definition validate (c : config) : result unit :=
  if decide (cf_SecretHex c = "") then Err (EMsg "must set --secret-hex")
  else if cf_MITM c && (bool_decide (cf_MITMCAPath c = "") || bool_decide (cf_MITMCAKey c = ""))
  then Err (EMsg "--mitm requires both --mitm-ca-cert and --mitm-ca-key")
  else
    _ ← validateStoreDB "traffic" (bool_decide (cf_TrafficStore c = TrafficStoreSqlite)) (gv_TrafficDB (cf_given c)) (cf_StoreDB c);
    _ ← validateStoreDB "policies" (bool_decide (cf_PoliciesStore c = PoliciesStoreSqlite)) (gv_PoliciesDB (cf_given c)) (cf_StoreDB c);
    _ ← validateStoreDB "proposals" (bool_decide (cf_ProposalsStore c = ProposalsStoreSqlite)) (gv_ProposalsDB (cf_given c)) (cf_StoreDB c);
    match set_Validate (gv_InternalPolicies (cf_given c)) with
    | Err e => Err (EWrap "--internal-policies" e)
    | Ok _ => Ok tt
    end.

(** [deriveSecret] *)
Definition deriveSecret (c : config) : result (list Z) := SecretFromHex (cf_SecretHex c).

Section build.
(** [InstallRefs] for a list of references and a directory. *)
Context (e : init_env) (install : list string -> string -> io unit).

Definition bootstrapIfRequested (c : config) : io unit :=
  if gv_Init (cf_given c) then Run (cf_DataDir c) (daemon_options c) e (install (gv_WithApis (cf_given c))) else io_ret tt.

Definition installRequestedBundles (c : config) : io unit :=
  if gv_Init (cf_given c) || bool_decide (gv_WithApis (cf_given c) = []) then io_ret tt
  else install (gv_WithApis (cf_given c)) (cf_ApisDir c).

(** [buildConfig]; [loaded] is what [cliconfig.Load] read. *)
Definition buildConfig (fs : flags) (loaded : result config) : io config :=
  do c <- io_lift loaded;
  if bool_decide ("admin-password" ∈ fl_Changed fs) && negb (gv_Init (cf_given c))
  then io_fail (EMsg "--admin-password requires --init")
  else
    do c <- defaultDataDirFromCwd c;
    do! bootstrapIfRequested c;
    do c <- applyDataDir fs c;
    do! installRequestedBundles c;
    let c := resolveMITMDefault fs c in
    do! io_lift (validate c);
    io_ret c.
End build.

(** ** What a file's line gives back *)

(** Printable and not a space. *)
Definition printable (a : ascii) : bool := (33 <=? nat_of_ascii a) && (nat_of_ascii a <=? 126).

(** The byte is in none of the encodings of a space. *)
Definition never_space (a : ascii) : bool :=
  forallb (fun l => negb (one_of (bytes_of l) a))
    [[9; 10; 11; 12; 13; 32]; [194]; [133; 160]; [225]; [154]; [128]; [227]; [226]; [168; 169; 175]; [129]; [159]]
  && negb (in_range 128 138 a).

Lemma printable_never_space a : printable a = true -> never_space a = true.
Proof.
  assert (forallb (fun n => implb (printable (ascii_of_nat n)) (never_space (ascii_of_nat n))) (seq 0 256) = true) as H
    by (vm_compute; reflexivity).
  rewrite forallb_forall in H. specialize (H (nat_of_ascii a)). rewrite ascii_nat_embedding in H.
  intros Hp. rewrite Hp in H. apply H, in_seq. pose proof (nat_ascii_bounded a). lia.
Qed.

Lemma printable_plain a :
  printable a = true -> is_space a = false /\
    (forall b, is_space2 a b = false /\ is_space2 b a = false) /\
    (forall b c, is_space3 a b c = false /\ is_space3 b c a = false).
Proof.
  intros Hp%printable_never_space. unfold never_space in Hp. cbn [forallb] in Hp.
  rewrite !andb_true_iff, !negb_true_iff in Hp. destruct_and! Hp. unfold is_space, is_space2, is_space3.
  repeat match goal with H : _ = false |- _ => rewrite H; clear H end. split; [done|].
  split; intros; rewrite ?andb_false_r, ?orb_false_r; repeat case_match; done.
Qed.

Lemma trim_front_printable two three s :
  (forall a b, printable a = true -> two a b = false) -> (forall a b c, printable a = true -> three a b c = false) ->
  all_bytes printable s = true -> trim_front two three s = s.
Proof.
  intros H2 H3. destruct s as [|a [|b [|c s]]]; [done|..]; simpl; intros Hs; apply andb_true_iff in Hs as [Ha _];
    destruct (printable_plain a Ha) as (-> & _); rewrite ?H2, ?H3; done.
Qed.

Lemma all_bytes_rev p s : all_bytes p (string_rev s) = all_bytes p s.
Proof.
  induction s as [|a s IH]; [done|]. rewrite string_rev_cons, all_bytes_app, IH. simpl.
  by rewrite andb_true_r, andb_comm.
Qed.

Lemma trim_line s : all_bytes printable s = true -> trim_space (s +:+ newline) = s.
Proof.
  intros Hs. assert (trim_left (s +:+ newline) = match s with "" => "" | _ => s +:+ newline end) as E.
  { destruct s as [|a [|b [|c s]]]; [reflexivity|..]; simpl in Hs; apply andb_true_iff in Hs as [Ha _];
      destruct (printable_plain a Ha) as (E1 & E2 & E3); unfold trim_left; simpl;
      rewrite E1, ?(proj1 (E2 _)), ?(proj1 (E3 _ _)); reflexivity. }
  unfold trim_space. rewrite E. destruct s as [|a s]; [reflexivity|]. unfold trim_right.
  rewrite string_rev_append. change (string_rev newline) with newline. unfold newline at 1. rewrite string_app_cons.
  cbn [trim_front]. change (is_space "010") with true. cbn iota.
  rewrite string_app_nil_l, trim_front_printable, string_rev_involutive; [done|..].
  - intros x y Hx. by apply (printable_plain x Hx).
  - intros x y z Hx. by apply (printable_plain x Hx).
  - by rewrite all_bytes_rev.
Qed.

Lemma hex_encode_printable l : Forall is_byte l -> all_bytes printable (hex_encode l) = true.
Proof.
  intros Hl. assert (forall n, (0 <= n < 16)%Z -> printable (hex_lower n) = true) as Hx.
  { intros n Hn. assert (n ∈ seqZ 0 16) as Hin by (apply elem_of_seqZ; lia). clear Hn. revert n Hin.
    apply Forall_forall, (bool_decide_unpack _). vm_compute. exact I. }
  induction Hl as [|b l Hb Hl IH]; [done|]. unfold is_byte in Hb. simpl.
  rewrite !Hx, IH by (try apply Z.mod_pos_bound; try (split; [apply Z.div_pos|apply Z.div_lt_upper_bound]); lia). done.
Qed.

(** ** What is kept, and what is there *)

(** Every text that the data directory may fill in, by the flag that names it. *)
Definition settings : list (string * (config -> string)) :=
  [("secret-hex", cf_SecretHex); ("apis-dir", cf_ApisDir); ("policies-dir", cf_PoliciesDir);
   ("admin-password-hash", cf_AdminPasswordHash); ("store-db", cf_StoreDB); ("traffic-store", cf_TrafficStore);
   ("policies-store", cf_PoliciesStore); ("proposals-store", cf_ProposalsStore); ("mitm-ca-cert", cf_MITMCAPath);
   ("mitm-ca-key", cf_MITMCAKey)].

(** What the operator said of the texts stands. *)
Definition as_said (fs : flags) (c c' : config) : Prop :=
  Forall (fun s => flagOrEnvSet fs s.1 = true -> s.2 c' = s.2 c) settings.

(** [resolveDBPath] of stores.go *)
Definition resolveDBPath (perDomain fallback : string) : string :=
  if negb (bool_decide (perDomain = "")) then perDomain else fallback.

(** A store that is sqlite has a database, and only such a one. *)
Definition db_paired (kind perDB fallback : string) : Prop :=
  (kind = "sqlite" -> resolveDBPath perDB fallback <> "") /\ (perDB <> "" -> kind = "sqlite").

Record usable (c : config) : Prop := {
  us_secret : cf_SecretHex c <> "";
  us_mitm : cf_MITM c = true -> cf_MITMCAPath c <> "" /\ cf_MITMCAKey c <> "";
  us_traffic : db_paired (cf_TrafficStore c) (gv_TrafficDB (cf_given c)) (cf_StoreDB c);
  us_policies : db_paired (cf_PoliciesStore c) (gv_PoliciesDB (cf_given c)) (cf_StoreDB c);
  us_proposals : db_paired (cf_ProposalsStore c) (gv_ProposalsDB (cf_given c)) (cf_StoreDB c);
  us_set : gv_InternalPolicies (cf_given c) ∈ Sets
}.

Lemma validateStoreDB_ok name kind perDB fallback u :
  validateStoreDB name (bool_decide (kind = "sqlite")) perDB fallback = Ok u <-> db_paired kind perDB fallback.
Proof.
  unfold validateStoreDB, db_paired, resolveDBPath. destruct u.
  repeat case_bool_decide; simpl;
    (split; [intros E; first [discriminate E|split; intros; congruence]|intros []; first [reflexivity|exfalso; tauto]]).
Qed.

Lemma set_Validate_ok s u : set_Validate s = Ok u <-> s ∈ Sets.
Proof. unfold set_Validate. destruct u. by case_decide. Qed.

Lemma validate_ok c u : validate c = Ok u <-> usable c.
Proof.
  unfold validate. destruct u. case_decide as Hs; [split; [done|by intros []]|].
  destruct (cf_MITM c && _) eqn:Em.
  - split; [done|]. intros [_ Hm _ _ _ _]. apply andb_true_iff in Em as [Em Eo]. apply Hm in Em as [H1 H2].
    by rewrite !bool_decide_eq_false_2 in Eo.
  - assert (cf_MITM c = true -> cf_MITMCAPath c <> "" /\ cf_MITMCAKey c <> "") as Hm.
    { intros E. rewrite E in Em. simpl in Em. apply orb_false_iff in Em as [?%bool_decide_eq_false ?%bool_decide_eq_false]. done. }
    unfold TrafficStoreSqlite, PoliciesStoreSqlite, ProposalsStoreSqlite. split.
    + destruct (validateStoreDB "traffic" _ _ _) eqn:E1; [|done]. destruct (validateStoreDB "policies" _ _ _) eqn:E2; [|done].
      destruct (validateStoreDB "proposals" _ _ _) eqn:E3; [|done].
      destruct (set_Validate _) eqn:E4; [|done]. intros _.
      split; try done; by (eapply validateStoreDB_ok || eapply set_Validate_ok).
    + intros [_ _ H1 H2 H3 H4]. rewrite (proj2 (validateStoreDB_ok "traffic" _ _ _ tt) H1),
        (proj2 (validateStoreDB_ok "policies" _ _ _ tt) H2), (proj2 (validateStoreDB_ok "proposals" _ _ _ tt) H3),
        (proj2 (set_Validate_ok _ tt) H4). done.
Qed.

Lemma from_file_said fs name old what read w v w' :
  from_file fs name old what read w = (Ok v, w') -> flagOrEnvSet fs name = true -> v = old.
Proof. unfold from_file. intros E Hs. rewrite Hs in E. by injection E as -> _. Qed.

Lemma from_layout_said fs name old p w v w' :
  from_layout fs name old p w = (Ok v, w') -> flagOrEnvSet fs name = true -> v = old.
Proof. unfold from_layout. intros E Hs. rewrite Hs in E. by injection E as -> _. Qed.

Lemma applyDataDir_said fs c w c' w' :
  applyDataDir fs c w = (Ok c', w') ->
  cf_given c' = cf_given c /\ cf_DataDir c' = cf_DataDir c /\ cf_MITM c' = cf_MITM c /\ as_said fs c c'.
Proof.
  unfold applyDataDir. case_decide as Hd; [intros [= <- <-]; repeat split; by repeat constructor|]. intros H.
  apply io_bind_ok in H as (secret & w1 & E1 & H). apply io_bind_ok in H as (apis & w2 & E2 & H).
  apply io_bind_ok in H as (pols & w3 & E3 & H). apply io_bind_ok in H as (hash & w4 & E4 & H).
  apply io_bind_ok in H as (stores & w5 & E5 & H). apply io_bind_ok in H as (cert & w6 & E6 & H).
  apply io_bind_ok in H as (key & w7 & E7 & [= <- <-]). split; [done|]. split; [done|]. split; [done|].
  assert ((flagOrEnvSet fs "store-db" = true -> stores.1 = cf_StoreDB c) /\
    (flagOrEnvSet fs "traffic-store" = true -> stores.2.1.1 = cf_TrafficStore c) /\
    (flagOrEnvSet fs "policies-store" = true -> stores.2.1.2 = cf_PoliciesStore c) /\
    (flagOrEnvSet fs "proposals-store" = true -> stores.2.2 = cf_ProposalsStore c)) as (S1 & S2 & S3 & S4).
  { destruct (flagOrEnvSet fs "store-db") eqn:Es; simpl in E5; [by injection E5 as <- <-|].
    destruct (negb _); [by injection E5 as <- <-|]. unfold to_sqlite, io_bind, io_try in E5.
    destruct (MkdirAll _ w4) as [[] ?]; [|done]. injection E5 as <- <-. simpl. repeat split; intros Ef; by rewrite ?Ef. }
  repeat constructor; simpl; try done; eauto using from_file_said, from_layout_said.
Qed.

Lemma resolveMITMDefault_spec fs c :
  let c' := resolveMITMDefault fs c in
  cf_given c' = cf_given c /\ cf_DataDir c' = cf_DataDir c /\ as_said fs c c' /\
  (flagOrEnvSet fs "mitm" = true -> c' = c) /\
  (flagOrEnvSet fs "mitm" = false -> cf_MITM c' = true -> cf_MITM c = true /\ cf_MITMCAPath c' <> "" /\ cf_MITMCAKey c' <> "").
Proof.
  unfold resolveMITMDefault. destruct (flagOrEnvSet fs "mitm"); [repeat split; try done; by repeat constructor|].
  destruct (bool_decide _ || bool_decide _) eqn:E; repeat split; try done; try by repeat constructor.
  all: by apply orb_false_iff in E as [?%bool_decide_eq_false ?%bool_decide_eq_false].
Qed.

Lemma as_said_trans fs a b c : as_said fs a b -> as_said fs b c -> as_said fs a c.
Proof.
  unfold as_said. rewrite !Forall_forall. intros H1 H2 s Hs Hf. by rewrite H2, H1.
Qed.

Lemma buildConfig_ok e install fs loaded w c w' :
  buildConfig e install fs loaded w = (Ok c, w') ->
  exists c0 c1 c2 w1 w2 w3 w4, loaded = Ok c0 /\
    defaultDataDirFromCwd c0 w = (Ok c1, w1) /\ bootstrapIfRequested e install c1 w1 = (Ok tt, w2) /\
    applyDataDir fs c1 w2 = (Ok c2, w3) /\ installRequestedBundles install c2 w3 = (Ok tt, w4) /\
    c = resolveMITMDefault fs c2 /\ validate c = Ok tt /\ w' = w4.
Proof.
  unfold buildConfig. intros H. apply io_bind_ok in H as (c0 & w0 & [= -> <-] & H).
  destruct (_ && _); [done|]. apply io_bind_ok in H as (c1 & w1 & E1 & H).
  apply io_bind_ok in H as ([] & w2 & E2 & H). apply io_bind_ok in H as (c2 & w3 & E3 & H).
  apply io_bind_ok in H as ([] & w4 & E4 & H). apply io_bind_ok in H as ([] & w5 & [= Hv <-] & [= <- <-]).
  by exists c0, c1, c2, w1, w2, w3, w4.
Qed.

Lemma defaultDataDir_ok c w c1 w1 :
  defaultDataDirFromCwd c w = (Ok c1, w1) ->
  (cf_DataDir c <> "" -> c1 = c) /\ (c1 = c \/ c1 = with_DataDir "." c).
Proof.
  unfold defaultDataDirFromCwd. destruct (bool_decide _) eqn:E; simpl; [|intros [= <- <-]; auto].
  apply bool_decide_eq_true in E. intros H. split; [done|]. apply io_bind_ok in H as (b & w2 & _ & [= <- <-]).
  destruct b; auto.
Qed.

(** C30. A configuration that [bouncer serve] accepts keeps what the operator
    said and lacks nothing.  Every setting given by a flag or by a [BOUNCER_]
    variable has the value it was given, whatever the data directory holds; there
    is a secret; interception is on only with both CA files; every sqlite store
    has a database and no other store names one; and the control plane runs one of
    the three policy sets. *)
Theorem serve_config_complete (e : init_env) (install : list string -> string -> io unit) (fs : flags)
    (loaded : result config) (w w' : world) (c : config)
    (Hbuild : buildConfig e install fs loaded w = (Ok c, w')) :
  usable c /\
  exists c0, loaded = Ok c0 /\ cf_given c = cf_given c0 /\ as_said fs c0 c /\
    (flagOrEnvSet fs "mitm" = true -> cf_MITM c = cf_MITM c0) /\
    (cf_DataDir c0 <> "" -> cf_DataDir c = cf_DataDir c0).
Proof.
  apply buildConfig_ok in Hbuild as (c0 & c1 & c2 & w1 & w2 & w3 & w4 & -> & E1 & _ & E3 & _ & -> & Hv & _).
  split; [by eapply validate_ok|]. exists c0. split; [done|].
  apply defaultDataDir_ok in E1 as [D1 D2]. apply applyDataDir_said in E3 as (G & D & M & S).
  destruct (resolveMITMDefault_spec fs c2) as (G' & D' & S' & M' & _).
  assert (cf_given c1 = cf_given c0 /\ cf_MITM c1 = cf_MITM c0 /\ as_said fs c0 c1) as (G1 & M1 & S1).
  { destruct D2 as [->| ->]; repeat split; by repeat constructor. }
  split; [congruence|]. split; [by eapply as_said_trans, as_said_trans|]. split.
  - intros Hm. rewrite M' by done. congruence.
  - intros Hd. rewrite D', D. by rewrite D1.
Qed.

(** ** Calls that do not fail *)

Lemma quiet_world w : w_faults w = [] -> mkWorld (w_disk w) (w_cwd w) (pop (w_faults w)).2 (w_past w) = w.
Proof. intros Hf. destruct w as [d c f p]. simpl in *. by subst. Qed.

Lemma io_bind_to {A B} (m : io A) (k : A -> io B) a w w' r : m w = (Ok a, w') -> k a w' = r -> io_bind m k w = r.
Proof. unfold io_bind. by intros ->. Qed.

Lemma Exists_quiet p w i :
  w_faults w = [] -> stat (resolve (w_cwd w) p) (w_disk w) = Some i -> Exists p w = (Ok true, w).
Proof. intros Hf Hs. rewrite Exists_clean by (by rewrite Hf). rewrite Hs, quiet_world; done. Qed.

Lemma ReadFile_quiet p w b :
  w_faults w = [] -> stat (resolve (w_cwd w) p) (w_disk w) = Some (IFile b) -> ReadFile p w = (Ok b, w).
Proof.
  destruct w as [d cwd f past]. simpl. intros -> Hs. unfold ReadFile, at_path, sys_read. simpl. by rewrite Hs.
Qed.

Lemma MkdirAll_quiet p w :
  w_faults w = [] -> stat (resolve (w_cwd w) p) (w_disk w) = Some IDir -> MkdirAll p w = (Ok tt, w).
Proof.
  destruct w as [d cwd f past]. simpl. intros -> Hs. unfold MkdirAll, at_path. simpl.
  destruct (resolve cwd p) as [|x q]; [done|].
  cbn [mkdir_all]. unfold io_bind, sys_read. simpl. by rewrite Hs.
Qed.

Lemma Join_nonempty a b : a <> "" -> Join a b <> "".
Proof. intros Ha. destruct (Join_Clean a b Ha) as [p ->]. apply Clean_nonempty. Qed.

Lemma from_file_quiet fs name what p w s :
  flagOrEnvSet fs name = false -> w_faults w = [] -> all_bytes printable s = true ->
  stat (resolve (w_cwd w) p) (w_disk w) = Some (IFile (s +:+ newline)) ->
  from_file fs name "" what (readTrimmed p) w = (Ok s, w).
Proof.
  intros Hs Hf Hv Hp. unfold from_file. rewrite Hs. simpl. unfold io_bind, io_try, readTrimmed, io_bind.
  rewrite (ReadFile_quiet p w _ Hf Hp). simpl. by rewrite trim_line.
Qed.

Lemma from_layout_quiet fs name old p w i :
  flagOrEnvSet fs name = false -> w_faults w = [] -> stat (resolve (w_cwd w) p) (w_disk w) = Some i ->
  from_layout fs name old p w = (Ok p, w).
Proof. intros Hs Hf Hp. unfold from_layout, io_bind. by rewrite Hs, (Exists_quiet p w i Hf Hp). Qed.

Lemma existing_of_cwd dir names w r w' : existing_of dir names w = (r, w') -> w_cwd w' = w_cwd w.
Proof.
  assert (steps_in (w_cwd w) eq (existing_of dir names)) as H; [|by intros E; apply H in E as (? & _)].
  induction names as [|n names IH]; cbn [existing_of]; [apply steps_in_ret, _|].
  apply steps_in_bind; [apply _| |].
  - apply steps_in_bind; [apply _| |intros; apply steps_in_ret, _]. apply steps_in_try, steps_in_at, steps_in_read, _.
  - intros b. apply steps_in_bind; [apply _|done|]. intros hits. apply steps_in_ret, _.
Qed.

(** Nothing of the layout was said, and the rest fits. *)
Record plain_serve (fs : flags) (dir : string) (c : config) : Prop := {
  ps_unset : Forall (fun s => flagOrEnvSet fs (fst s) = false) settings;
  ps_DataDir : cf_DataDir c = dir;
  ps_empty : cf_SecretHex c = "" /\ cf_AdminPasswordHash c = "" /\ cf_StoreDB c = "";
  ps_MITM : cf_MITM c = true;
  ps_Init : gv_Init (cf_given c) = false /\ "admin-password" ∉ fl_Changed fs /\ gv_WithApis (cf_given c) = [];
  ps_set : gv_InternalPolicies (cf_given c) ∈ Sets
}.

(** The configuration that the layout at [dir] gives. *)
Definition layout_config (dir secret hash : string) (c : config) : config :=
  mkConfig (cf_given c) dir secret (APIs dir) (Policies dir) hash (StoreDB dir) "sqlite" "sqlite" "sqlite"
    (MITMCert dir) (MITMKey dir) true.

Lemma layout_config_usable dir secret hash c :
  dir <> "" -> secret <> "" -> gv_InternalPolicies (cf_given c) ∈ Sets -> usable (layout_config dir secret hash c).
Proof.
  intros Hd Hs Hset. assert (forall perDB, db_paired "sqlite" perDB (StoreDB dir)) as Hp.
  { intros perDB. split; [|done]. intros _. unfold resolveDBPath. case_bool_decide; simpl; [|done].
    by apply Join_nonempty, Join_nonempty. }
  split; try done; try apply Hp. intros _. split; by apply Join_nonempty.
Qed.

Lemma applyDataDir_layout fs dir c o e w hash :
  dir <> "" -> plain_serve fs dir c -> w_faults w = [] -> io_MITM o = true ->
  Forall is_byte (ie_random e) -> all_bytes printable hash = true ->
  layout_written (resolve (w_cwd w) dir) o e (w_disk w) ->
  stat (AdminPasswordFile :: resolve (w_cwd w) dir) (w_disk w) = Some (IFile (hash +:+ newline)) ->
  applyDataDir fs c w = (Ok (layout_config dir (hex_encode (ie_random e)) hash c), w).
Proof.
  intros Hd [Hu HD (He1 & He2 & He3) HM _ _] Hf Hm Hr Hh [L1 L2 L3 L4 _ L6] Hp.
  destruct (L6 Hm) as (cn & cert & key & _ & L7 & L8). unfold applyDataDir. rewrite HD, decide_False by done.
  repeat (apply Forall_cons in Hu as [? Hu]). clear Hu. simpl in *. rewrite He1, He2, He3.
  eapply io_bind_to; [apply (from_file_quiet fs _ _ _ _ (hex_encode (ie_random e))); try done; [by apply hex_encode_printable|unfold Secret; by rewrite resolve_child by entry]|].
  eapply io_bind_to; [eapply from_layout_quiet; try done; unfold APIs; by rewrite resolve_child by entry|].
  eapply io_bind_to; [eapply from_layout_quiet; try done; unfold Policies; by rewrite resolve_child by entry|].
  eapply io_bind_to; [apply (from_file_quiet fs _ _ _ _ hash); try done; unfold AdminHash; by rewrite resolve_child by entry|].
  unfold to_sqlite. rewrite H3, H4, H5, H6. simpl.
  eapply io_bind_to; [eapply io_bind_to;
    [unfold io_try; rewrite MkdirAll_quiet; [reflexivity|done|unfold StorePath; by rewrite resolve_child by entry]|reflexivity]|].
  eapply io_bind_to; [eapply from_layout_quiet; try done; unfold MITMCert; by rewrite resolve_child by entry|].
  eapply io_bind_to; [eapply from_layout_quiet; try done; unfold MITMKey; by rewrite resolve_child by entry|].
  unfold layout_config. by rewrite HM.
Qed.

(** C6. What [bouncer init] writes is what [bouncer serve] runs on.  After an init
    of [dir] that succeeds, and while reading does not fail, a serve of [dir] with
    no other setting accepts the directory without changing anything: its secret is
    the 32 bytes that init drew, so tokens that were issued stay valid, its password
    hash is that of the password chosen, its bundles, policies and database are
    those of [dir] with all three stores in sqlite, and it intercepts with the CA
    that init made. *)
Theorem init_then_serve (e : init_env) (install : list string -> string -> io unit) (fs : flags) (c0 : config)
    (dir : string) (o : Options) (w w1 : world)
    (Hcwd : cwd_ok (w_cwd w)) (Hdir : dir <> "")
    (Hrandom : Forall is_byte (ie_random e)) (Hlength : length (ie_random e) = 32)
    (Hbcrypt : forall pw h, ie_bcrypt e pw = Ok h -> all_bytes printable h = true)
    (Hmitm : io_MITM o = true) (Hserve : plain_serve fs dir c0)
    (Hinit : bootstrap dir o e w = (Ok tt, w1)) (Hreads : w_faults w1 = []) :
  exists c pw hash cn cert key,
    buildConfig e install fs (Ok c0) w1 = (Ok c, w1) /\
    deriveSecret c = Ok (ie_random e) /\
    resolvePassword (io_AdminPassword o) (ie_password e) (ie_prompt e) = Ok pw /\ ie_bcrypt e pw = Ok hash /\
    c = layout_config dir (hex_encode (ie_random e)) hash c0 /\
    ie_CA e cn = Ok (cert, key) /\
    ReadFile (cf_MITMCAPath c) w1 = (Ok cert, w1) /\ ReadFile (cf_MITMCAKey c) w1 = (Ok key, w1).
Proof.
  unfold bootstrap in Hinit. apply io_bind_ok in Hinit as (abs & w2 & Ea & Hinit).
  destruct (resolve_Abs _ _ _ _ _ Hcwd eq_refl Hdir Ea) as (-> & Hr & _).
  apply io_bind_ok in Hinit as (existing & w3 & E3 & Hinit). destruct (_ && _); [done|].
  assert (w_cwd w3 = w_cwd w) as C3 by (by eapply existing_of_cwd).
  pose proof (write_layout_ok _ _ _ _ _ Hinit) as [HL C1]. rewrite C3, Hr, <- C3, <- C1 in HL.
  pose proof (lw_hash _ _ _ _ HL) as (pw & hash & Hpw & Hh & Hs).
  destruct (lw_mitm _ _ _ _ HL Hmitm) as (cn & cert & key & Hca & Hc & Hk).
  exists (layout_config dir (hex_encode (ie_random e)) hash c0), pw, hash, cn, cert, key.
  pose proof (ps_Init _ _ _ Hserve) as (I1 & I2 & I3).
  split; [|repeat split; try done].
  - unfold buildConfig. eapply io_bind_to; [reflexivity|]. rewrite bool_decide_eq_false_2 by done. simpl.
    eapply io_bind_to; [unfold defaultDataDirFromCwd; by rewrite (ps_DataDir _ _ _ Hserve), bool_decide_eq_false_2|].
    eapply io_bind_to; [unfold bootstrapIfRequested; by rewrite I1|].
    eapply io_bind_to; [eapply applyDataDir_layout; try done; by eapply Hbcrypt|].
    eapply io_bind_to; [unfold installRequestedBundles; simpl; by rewrite I1, I3|].
    assert (resolveMITMDefault fs (layout_config dir (hex_encode (ie_random e)) hash c0) =
      layout_config dir (hex_encode (ie_random e)) hash c0) as ->.
    { unfold resolveMITMDefault. simpl. rewrite !bool_decide_eq_false_2 by (by apply Join_nonempty). by destruct (flagOrEnvSet _ _). }
    unfold io_bind, io_lift. rewrite (proj2 (validate_ok _ tt)); [done|]. apply layout_config_usable; [done| |apply Hserve].
    intros E. by destruct (ie_random e).
  - unfold deriveSecret. by apply SecretFromHex_encode.
  - apply ReadFile_quiet; [done|]. simpl. unfold MITMCert. by rewrite resolve_child by entry.
  - apply ReadFile_quiet; [done|]. simpl. unfold MITMKey. by rewrite resolve_child by entry.
Qed.

(** ** Examples *)

Definition demo_given : given :=
  mkGiven ":8080" 5 30 60 120 30 0 "" 16777216 86400 "" false "" "" false [] "demo".

(** What viper reads when nothing is said but the directory. *)
Definition demo_given_config (dir : string) : config :=
  mkConfig demo_given dir "" "./apis" "./policies" "" "" "none" "file" "memory" "" "" true.

Definition no_flags : flags := mkFlags [] [].

Definition no_install (refs : list string) (root : string) : io unit := io_ret tt.

Definition demo_dir_config : config := layout_config "data" (hex_encode demo_random) "$2a$12$k" (demo_given_config "data").

Lemma serve_config_complete_witness :
  usable demo_dir_config /\
  exists c0, Ok (demo_given_config "data") = Ok c0 /\ cf_given demo_dir_config = cf_given c0 /\ as_said no_flags c0 demo_dir_config /\
    (flagOrEnvSet no_flags "mitm" = true -> cf_MITM demo_dir_config = cf_MITM c0) /\
    (cf_DataDir c0 <> "" -> cf_DataDir demo_dir_config = cf_DataDir c0).
Proof.
  apply (serve_config_complete demo_env no_install no_flags (Ok (demo_given_config "data")) initialised
    (buildConfig demo_env no_install no_flags (Ok (demo_given_config "data")) initialised).2 demo_dir_config).
  rewrite (surjective_pairing (buildConfig _ _ _ _ _)) at 1.
  apply (f_equal2 pair); [vm_compute; reflexivity|reflexivity].
Defined.

Lemma demo_plain : plain_serve no_flags "data" (demo_given_config "data").
Proof.
  split; [vm_compute; repeat constructor|reflexivity|repeat split|reflexivity|repeat split|].
  - apply not_elem_of_nil.
  - vm_compute. left.
Qed.

Lemma init_then_serve_witness :
  exists c pw hash cn cert key,
    buildConfig demo_env no_install no_flags (Ok (demo_given_config "data")) initialised = (Ok c, initialised) /\
    deriveSecret c = Ok demo_random /\
    resolvePassword "hunter2" "" (Err (EMsg "EOF")) = Ok pw /\ ie_bcrypt demo_env pw = Ok hash /\
    c = layout_config "data" (hex_encode demo_random) hash (demo_given_config "data") /\
    ie_CA demo_env cn = Ok (cert, key) /\
    ReadFile (cf_MITMCAPath c) initialised = (Ok cert, initialised) /\
    ReadFile (cf_MITMCAKey c) initialised = (Ok key, initialised).
Proof.
  apply (init_then_serve demo_env no_install no_flags (demo_given_config "data") "data" demo_options empty_dir initialised).
  - constructor; [|constructor]. by repeat split.
  - discriminate.
  - apply Forall_forall. intros x (n & -> & Hn%elem_of_seq)%list_elem_of_fmap. unfold is_byte. lia.
  - reflexivity.
  - intros pw h [= <-]. reflexivity.
  - reflexivity.
  - exact demo_plain.
  - exact demo_init.
  - vm_compute. reflexivity.
Defined.

(** A variable set to the empty string counts as said, but viper does not read
    it: the secret of the directory is not loaded, and interception stays on
    without a CA. *)
Example empty_variable_blocks :
  let unread := mkFlags [] ["BOUNCER_SECRET_HEX"] in
  let kept_on := mkFlags [] ["BOUNCER_MITM"] in
  (buildConfig demo_env no_install unread (Ok (demo_given_config "data")) initialised).1 = Err (EMsg "must set --secret-hex") /\
  let bare := (bootstrap "data" (mkInitOptions "hunter2" false "" false false) demo_env empty_dir).2 in
  is_ok (buildConfig demo_env no_install no_flags (Ok (demo_given_config "data")) bare).1 = true /\
  (buildConfig demo_env no_install kept_on (Ok (demo_given_config "data")) bare).1 =
    Err (EMsg "--mitm requires both --mitm-ca-cert and --mitm-ca-key").
Proof. vm_compute. done. Qed.

(** A directory that is not there is made by [--init], and used. *)
Example init_and_serve :
  let c := mkConfig (mkGiven ":8080" 5 30 60 120 30 0 "" 16777216 86400 "" false "" "hunter2" true [] "demo")
    "" "" "./apis" "./policies" "" "" "none" "file" "memory" "" "" true in
  let r := buildConfig demo_env no_install (mkFlags ["init"; "admin-password"] []) (Ok c) empty_dir in
  match r.1 with
  | Ok c => cf_DataDir c = "." /\ cf_SecretHex c = hex_encode demo_random /\ cf_MITM c = true /\ cf_StoreDB c = "store/store.db"
  | Err _ => False
  end.
Proof. vm_compute. done. Qed.
