(* ===== verification/SqlBackend.v ===== *)
(** * The shared backends: internal/control/store/sqlite.go, fs.go, store.go,
    and the schema ladders of the three domains

    One database file holds the tables of several domains, and each domain brings
    its tables up to date when it opens: [Migrate] runs the scripts of the domain's
    ladder that the file has not seen, each in a transaction with the number that
    records it.  What a script does is the database's business, so the engine is a
    class; every call to the database may fail by script.  The theorem: however
    opens are interleaved, repeated and cut short, each script of each ladder has
    run exactly once and in order.  A directory backend gives each domain a
    subdirectory of its own. *)

From S2P Require Import Prelude GoStd Paths Disk Bundles DataDir.

(** A script's effect on the tables; [None] for one that the engine refuses. *)
Class SqlEngine := {
  tables : Type;
  no_tables : tables;
  sql_exec : string -> tables -> option tables
}.

Section sqlite.
Context `{SqlEngine}.

(** A database: the tables of the domains, and [_store_migrations]. *)
Record dbfile := mkDb { db_tables : tables; db_versions : gmap string nat }.

Definition new_db : dbfile := mkDb no_tables ∅.

(** The data source name that [OpenSQLite] opens. *)
Definition full_dsn (dsn : string) : string :=
  if str_contains "_pragma=" dsn then dsn
  else dsn +:+ (if str_contains "?" dsn then "&" else "?") +:+
    "_pragma=journal_mode(WAL)&_pragma=synchronous(NORMAL)&_pragma=foreign_keys(1)".

(** A call of a backend: what it returned, the database, and the faults left. *)
Definition call (A : Type) : Type := dbfile -> list bool -> result A * (dbfile * list bool).

Definition readVersion (ns : string) : call nat := fun b fs =>
  let '(fault, fs) := pop fs in
  if fault then (Err (EWrap "read version" disk_error), (b, fs)) else (Ok (default 0 (db_versions b !! ns)), (b, fs)).

(** The transaction: begin, the script, the version, commit; the deferred
    rollback restores what was there. *)
Definition applyMigration (ns : string) (idx : nat) (script : string) : call unit := fun b fs =>
  let '(fault, fs) := pop fs in
  if fault then (Err (EWrap "begin migration tx" disk_error), (b, fs))
  else
    let '(fault, fs) := pop fs in
    match (if fault then None else sql_exec script (db_tables b)) with
    | None => (Err (EWrap "migration" disk_error), (b, fs))
    | Some t =>
        let '(fault, fs) := pop fs in
        if fault then (Err (EWrap "bump version" disk_error), (b, fs))
        else
          let '(fault, fs) := pop fs in
          if fault then (Err (EWrap "commit migration" disk_error), (b, fs))
          else (Ok tt, (mkDb t (<[ns := S idx]> (db_versions b)), fs))
    end.

Fixpoint migrate_from (ns : string) (v : nat) (todo : list string) : call unit := fun b fs =>
  match todo with
  | [] => (Ok tt, (b, fs))
  | script :: todo =>
      match applyMigration ns v script b fs with
      | (Err e, s) => (Err e, s)
      | (Ok _, (b, fs)) => migrate_from ns (S v) todo b fs
      end
  end.

Definition Migrate (ns : string) (migrations : list string) : call unit := fun b fs =>
  match readVersion ns b fs with
  | (Err e, s) => (Err e, s)
  | (Ok current, (b, fs)) =>
      if decide (length migrations < current) then (Err (EMsg "refusing to downgrade"), (b, fs))
      else migrate_from ns current (drop current migrations) b fs
  end.
End sqlite.

(** ** The ladders of the domains *)

Definition policiesNamespace : string := "policies".
Definition proposalsNamespace : string := "proposals".
Definition trafficNamespace : string := "traffic".

Definition policiesMigrations : list string :=
  ["CREATE TABLE IF NOT EXISTS policies (
		api     TEXT NOT NULL,
		name    TEXT NOT NULL,
		payload BLOB NOT NULL,
		PRIMARY KEY (api, name)
	)"].

Definition proposalsMigrations : list string :=
  ["CREATE TABLE IF NOT EXISTS proposals (
		id      TEXT PRIMARY KEY,
		status  TEXT NOT NULL DEFAULT '',
		api     TEXT NOT NULL DEFAULT '',
		payload BLOB NOT NULL
	);
	CREATE INDEX IF NOT EXISTS proposals_status ON proposals(status);
	CREATE INDEX IF NOT EXISTS proposals_api ON proposals(api);"].

Definition trafficMigrations : list string :=
  ["CREATE TABLE IF NOT EXISTS events (
		id TEXT PRIMARY KEY,
		ts INTEGER NOT NULL,
		subject TEXT NOT NULL DEFAULT '',
		method TEXT NOT NULL DEFAULT '',
		url TEXT NOT NULL DEFAULT '',
		api TEXT NOT NULL DEFAULT '',
		action TEXT NOT NULL DEFAULT '',
		decision TEXT NOT NULL DEFAULT '',
		policy TEXT NOT NULL DEFAULT '',
		upstream_status INTEGER NOT NULL DEFAULT 0,
		latency_ms INTEGER NOT NULL DEFAULT 0,
		pinned INTEGER NOT NULL DEFAULT 0,
		size_bytes INTEGER NOT NULL DEFAULT 0,
		payload BLOB NOT NULL
	);
	CREATE INDEX IF NOT EXISTS events_ts ON events(ts DESC, id DESC);
	CREATE INDEX IF NOT EXISTS events_api_ts ON events(api, ts DESC);
	CREATE INDEX IF NOT EXISTS events_subject_ts ON events(subject, ts DESC);
	CREATE INDEX IF NOT EXISTS events_pinned_ts ON events(pinned, ts ASC);";
   "DROP INDEX IF EXISTS events_pinned_ts;
	ALTER TABLE events DROP COLUMN pinned;"].

(** What the domains' [Open] asks of a sqlite backend. *)
Definition domain_ladders : list (string * list string) :=
  [(policiesNamespace, policiesMigrations); (proposalsNamespace, proposalsMigrations); (trafficNamespace, trafficMigrations)].

(** ** Each script once *)

Section ladders.
Context `{SqlEngine}.

Definition version (b : dbfile) (ns : string) : nat := default 0 (db_versions b !! ns).

(** The tables after the scripts of a log, oldest first. *)
Fixpoint run_log (log : list (string * string)) (t : tables) : option tables :=
  match log with [] => Some t | (_, script) :: log => t ← sql_exec script t; run_log log t end.

Definition scripts_of (ns : string) (log : list (string * string)) : list string :=
  omap (fun e => if decide (e.1 = ns) then Some e.2 else None) log.

(** [log] made [b]: of every domain it holds the first scripts of its ladder,
    as many as the file records. *)
Definition made_by (L : string -> list string) (log : list (string * string)) (b : dbfile) : Prop :=
  run_log log no_tables = Some (db_tables b) /\
  forall ns, version b ns <= length (L ns) /\ scripts_of ns log = take (version b ns) (L ns).

Lemma run_log_app l1 l2 t : run_log (l1 ++ l2) t = t' ← run_log l1 t; run_log l2 t'.
Proof. revert t. induction l1 as [|[ns s] l1 IH]; intros t; [done|]. simpl. destruct (sql_exec s t); [apply IH|done]. Qed.

Lemma scripts_of_app ns l1 l2 : scripts_of ns (l1 ++ l2) = scripts_of ns l1 ++ scripts_of ns l2.
Proof. apply omap_app. Qed.

(** What a call may do to a database: add the next scripts of one ladder. *)
Definition extends (L : string -> list string) (b b' : dbfile) : Prop :=
  forall log, made_by L log b -> exists new, made_by L (log ++ new) b'.

#[export] Instance extends_preorder L : PreOrder (extends L).
Proof.
  split; [intros b log Hl; exists []; by rewrite app_nil_r|].
  intros a b c Hab Hbc log Hl. destruct (Hab log Hl) as [n1 H1]. destruct (Hbc _ H1) as [n2 H2].
  exists (n1 ++ n2). by rewrite app_assoc.
Qed.

Lemma applyMigration_extends L ns idx script b fs r b' fs' :
  version b ns = idx -> L ns !! idx = Some script -> applyMigration ns idx script b fs = (r, (b', fs')) ->
  extends L b b' /\ match r with Ok _ => version b' ns = S idx | Err _ => b' = b end.
Proof.
  intros Hv Hs. unfold applyMigration. destruct (pop fs) as [[] f1]; [by intros [= <- <- <-]|].
  destruct (pop f1) as [[] f2]; [by intros [= <- <- <-]|].
  destruct (sql_exec script _) as [t|] eqn:Et; [|by intros [= <- <- <-]].
  destruct (pop f2) as [[] f3]; [by intros [= <- <- <-]|]. destruct (pop f3) as [[] f4]; [by intros [= <- <- <-]|].
  intros [= <- <- <-]. split; [|unfold version; simpl; by rewrite lookup_insert_eq].
  intros log [Hr Hl]. exists [(ns, script)]. split; [rewrite run_log_app, Hr; simpl; by rewrite Et|].
  intros m. rewrite scripts_of_app. destruct (Hl m) as [H1 H2]. unfold version. simpl.
  destruct (decide (ns = m)) as [->|Hne].
  - rewrite lookup_insert_eq. simpl. split; [apply lookup_lt_Some in Hs; lia|]. rewrite H2, Hv. by apply take_S_r in Hs as ->.
  - rewrite lookup_insert_ne by done. simpl. split; [done|]. by rewrite app_nil_r.
Qed.

Lemma migrate_from_extends L ns todo v b fs r b' fs' :
  version b ns = v -> todo `prefix_of` drop v (L ns) -> migrate_from ns v todo b fs = (r, (b', fs')) ->
  extends L b b' /\ (is_ok r = true -> version b' ns = v + length todo).
Proof.
  revert v b fs. induction todo as [|s todo IH]; intros v b fs Hv Hp; cbn [migrate_from].
  - intros [= <- <- <-]. split; [done|]. intros _. simpl. lia.
  - destruct (applyMigration _ _ _ _ _) as [[[]|e] [b1 f1]] eqn:E; destruct Hp as [rest Hp].
    all: assert (L ns !! v = Some s) as Hs by (rewrite <- (Nat.add_0_r v), <- lookup_drop, Hp; done).
    all: destruct (applyMigration_extends L _ _ _ _ _ _ _ _ Hv Hs E) as [H1 H2].
    + intros Hr. apply IH in Hr as [H3 H4]; [|done|].
      * split; [by etrans|]. intros Ho. rewrite H4 by done. simpl. lia.
      * exists rest. assert (drop (S v) (L ns) = drop 1 (drop v (L ns))) as -> by (by rewrite drop_drop, Nat.add_1_r). by rewrite Hp.
    + intros [= <- <- <-]. by split.
Qed.

Lemma Migrate_extends L ns migs b fs r b' fs' :
  migs `prefix_of` L ns -> Migrate ns migs b fs = (r, (b', fs')) ->
  extends L b b' /\ (is_ok r = true -> version b' ns = length migs).
Proof.
  intros [rest Hp]. unfold Migrate, readVersion. destruct (pop fs) as [[] f1]; [by intros [= <- <- <-]|].
  fold (version b ns). case_decide as Hd; [by intros [= <- <- <-]|]. intros E.
  apply (migrate_from_extends L) in E as [H1 H2]; [|done|].
  - split; [done|]. intros Ho. rewrite H2, length_drop by done. lia.
  - exists rest. rewrite Hp, drop_app_le by lia. done.
Qed.

Lemma Migrate_downgrade ns migs b fs :
  length migs < version b ns -> exists e fs', Migrate ns migs b fs = (Err e, (b, fs')).
Proof.
  intros Hl. unfold Migrate, readVersion. destruct (pop fs) as [[] f1]; [by eexists _, _|].
  fold (version b ns). rewrite decide_True by done. by eexists _, _.
Qed.

(** Domains that open a file one after another, over any number of boots. *)
Fixpoint open_all (opens : list (string * list string)) : call (list (result unit)) := fun b fs =>
  match opens with
  | [] => (Ok [], (b, fs))
  | (ns, migs) :: opens =>
      let '(r, (b, fs)) := Migrate ns migs b fs in
      match open_all opens b fs with
      | (Ok rs, s) => (Ok (r :: rs), s)
      | (Err e, s) => (Err e, s)
      end
  end.

Lemma open_all_extends L opens b fs rs b' fs' :
  Forall (fun o => o.2 `prefix_of` L o.1) opens -> open_all opens b fs = (Ok rs, (b', fs')) ->
  extends L b b' /\
  forall log, made_by L log b -> exists new, made_by L (log ++ new) b' /\
    forall i ns migs, opens !! i = Some (ns, migs) -> rs !! i = Some (Ok tt) -> migs `prefix_of` scripts_of ns (log ++ new).
Proof.
  revert b fs rs. induction opens as [|[ns migs] opens IH]; intros b fs rs Ho; cbn [open_all].
  { intros [= <- <- <-]. split; [done|]. intros log Hl. exists []. by rewrite app_nil_r. }
  apply Forall_cons in Ho as [Hp Ho]. simpl in Hp.
  destruct (Migrate ns migs b fs) as [r [b1 f1]] eqn:E. destruct (open_all opens b1 f1) as [[rs1|e] [b2 f2]] eqn:E1; [|done].
  intros [= <- <- <-]. destruct (Migrate_extends L _ _ _ _ _ _ _ Hp E) as [H1 H2].
  destruct (IH _ _ _ Ho E1) as [H3 H4]. split; [by etrans|]. intros log Hl.
  destruct (H1 log Hl) as [n1 M1]. destruct (H4 _ M1) as (n2 & M2 & H5). exists (n1 ++ n2). rewrite app_assoc.
  split; [done|]. intros [|i] m ms; simpl; [|apply H5]. intros [= <- <-] [= ->].
  rewrite scripts_of_app. apply prefix_app_r. destruct M1 as [_ M1]. destruct (M1 ns) as [_ ->].
  rewrite H2 by done. destruct Hp as [rest ->]. rewrite take_app_length. done.
Qed.
End ladders.

(** C32. Every migration runs exactly once.  Let the domains open one database file
    in any order and number of boots, each with an initial part of its append-only
    ladder, while calls of the database fail at any point.  Then the tables are
    those that some log of scripts makes of an empty file; of each ladder the log
    has an initial part, in order and without repetition, of the length the file
    records; an open that succeeded finds its whole ladder applied; and a ladder
    that is shorter than what the file has seen is refused and changes nothing. *)
Theorem migrations_run_once `{SqlEngine} (L : string -> list string) (opens : list (string * list string))
    (faults faults' : list bool) (rs : list (result unit)) (b : dbfile)
    (Hladders : Forall (fun o => o.2 `prefix_of` L o.1) opens)
    (Hrun : open_all opens new_db faults = (Ok rs, (b, faults'))) :
  exists log, run_log log no_tables = Some (db_tables b) /\
    (forall ns, scripts_of ns log `prefix_of` L ns /\ length (scripts_of ns log) = version b ns) /\
    (forall i ns migs, opens !! i = Some (ns, migs) -> rs !! i = Some (Ok tt) -> migs `prefix_of` scripts_of ns log) /\
    (forall ns migs fs, length migs < version b ns -> exists e fs', Migrate ns migs b fs = (Err e, (b, fs'))).
Proof.
  destruct (open_all_extends L _ _ _ _ _ _ Hladders Hrun) as [_ H1].
  destruct (H1 []) as (log & [Hr Hm] & Ho).
  - split; [done|]. intros ns. unfold version, new_db. simpl. rewrite lookup_empty. simpl. split; [lia|done].
  - simpl in *. exists log. split; [done|]. split; [|split; [done|intros; by apply Migrate_downgrade]].
    intros ns. destruct (Hm ns) as [Hv ->]. split; [by exists (drop (version b ns) (L ns)); rewrite take_drop|].
    rewrite length_take. lia.
Qed.

(** An engine that keeps the scripts it ran, and refuses one of them. *)
Definition log_engine (bad : string) : SqlEngine := {|
  tables := list string; no_tables := [];
  sql_exec := fun s t => if decide (s = bad) then None else Some (t ++ [s])
|}.

Definition demo_ladder (ns : string) : list string :=
  default [] ((list_to_map domain_ladders : gmap string (list string)) !! ns).

(** Two boots, the first cut short in the second script of the traffic ladder. *)
Definition demo_opens : list (string * list string) := domain_ladders ++ domain_ladders.
Definition demo_sql_faults : list bool := replicate 17 false ++ [true].

Definition demo_boots : result (list (result unit)) * (@dbfile (log_engine "") * list bool) :=
  @open_all (log_engine "") demo_opens (@new_db (log_engine "")) demo_sql_faults.

Lemma migrations_run_once_witness :
  exists log, @run_log (log_engine "") log [] = Some (policiesMigrations ++ proposalsMigrations ++ trafficMigrations) /\
    (forall ns, scripts_of ns log `prefix_of` demo_ladder ns /\
      length (scripts_of ns log) = @version (log_engine "") demo_boots.2.1 ns) /\
    (forall i ns migs, demo_opens !! i = Some (ns, migs) ->
      [Ok tt; Ok tt; Err (EWrap "bump version" disk_error); Ok tt; Ok tt; Ok tt] !! i = Some (Ok tt) ->
      migs `prefix_of` scripts_of ns log) /\
    (forall ns migs fs, length migs < @version (log_engine "") demo_boots.2.1 ns ->
      exists e fs', @Migrate (log_engine "") ns migs demo_boots.2.1 fs = (Err e, (demo_boots.2.1, fs'))).
Proof.
  apply (@migrations_run_once (log_engine "") demo_ladder demo_opens demo_sql_faults demo_boots.2.2
    [Ok tt; Ok tt; Err (EWrap "bump version" disk_error); Ok tt; Ok tt; Ok tt] demo_boots.2.1).
  - apply Forall_forall. intros o. unfold demo_opens, domain_ladders. rewrite elem_of_app, !elem_of_cons, elem_of_nil.
    intros [[->|[->|[->|[]]]]|[->|[->|[->|[]]]]]; vm_compute; eexists; reflexivity.
  - vm_compute. reflexivity.
Defined.

(** ** [fs.go] *)

Definition validNamespace (ns : string) : bool :=
  negb (bool_decide (ns = "") || bool_decide (ns = ".") || bool_decide (ns = ".."))
  && negb (has_byte "/" ns || has_byte "\" ns) && negb (rooted ns).

(** [OpenFS]: the root is the absolute path. *)
Definition OpenFS (dir : string) : io string :=
  do i <- Stat dir;
  if decide (i = IDir) then Abs dir else io_fail (EMsg "store/fs: root is not a directory").

Definition Subdir (root ns : string) : io string :=
  if negb (validNamespace ns) then io_fail (EMsg "store/fs: invalid namespace")
  else do! MkdirAll (Join root ns); io_ret (Join root ns).

(** [NewFileStore]: the directory has to be there. *)
Definition NewFileStore (dir : string) : io string :=
  do i <- Stat dir;
  if decide (i = IDir) then io_ret dir else io_fail (EMsg "policies dir is not a directory").

(** A subdirectory is an entry of the root, whatever the namespace. *)
Lemma Subdir_confined root ns w r w' :
  dirs_to (resolve (w_cwd w) root) (w_disk w) -> Subdir root ns w = (r, w') ->
  forall q, q <> ns :: resolve (w_cwd w) root -> kept_at q (w_disk w) (w_disk w').
Proof.
  intros Hd. unfold Subdir. destruct (validNamespace ns) eqn:Hv; [|by intros [= <- <-]]. simpl.
  unfold validNamespace in Hv. apply andb_true_iff in Hv as [Hv _]. apply andb_true_iff in Hv as [H1 H2].
  apply negb_true_iff in H1, H2. apply orb_false_iff in H1 as [H1 H3%bool_decide_eq_false].
  apply orb_false_iff in H1 as [H1%bool_decide_eq_false H4%bool_decide_eq_false]. apply orb_false_iff in H2 as [H2 _].
  intros E q Hq. assert (exists r1, MkdirAll (Join root ns) w = (r1, w')) as [r1 E1].
  { unfold io_bind in E. destruct (MkdirAll _ w) as [[[]|e] w1]; injection E as <- <-; by eexists. }
  unfold MkdirAll, at_path in E1. rewrite resolve_child in E1 by done.
  apply (mkdir_all_adds (w_cwd w) _ _ (under_refl _)) in E1 as (_ & [Ha _] & _); [|done].
  unfold kept_at, stat. case_decide; [done|]. destruct (Ha q) as [->|([k Hk] & Hn & _)]; [done|].
  destruct k as [|x k]; [by subst|]. injection Hk as -> Hk.
  assert (stat q (w_disk w) = Some IDir) as Hs by (apply Hd; by exists k). unfold stat in Hs.
  rewrite decide_False in Hs by done. congruence.
Qed.
