(* ===== verification/Catalogue.v ===== *)
(** * What a deployment serves about itself: internal/control/services,
    internal/server/admin services.go and apis.go, and the resources of
    internal/server/admin/mcp resources.go and apis_tools.go

    Services, API descriptions and bundle READMEs are projections of what the
    bundles loader found ([BundleLoad]) and of the runtime's specifications
    ([Runtime]).  Bodies are the values before JSON.  The theorems: the registry
    finds exactly the listed services, and every resource that is listed can be
    read, README for README. *)

From S2P Require Import Prelude GoStd Models Interfaces PathTemplate Routes Messages Compiled Evaluator EvaluatorFacts PolicyStore ApiRuntime Runtime Bundles Paths Disk BundleFetch BundleLoad.

(** ** [services.go] *)

Record FieldDescriptor := mkFieldDescriptor {
  fd_Name : string; fd_Label : string; fd_Kind : string; fd_Placeholder : string; fd_Help : string;
  fd_Required : bool; fd_Header : string; fd_Template : string
}.

(** [vd_Refresh]: the token URL, when there is one. *)
Record VariantDescriptor := mkVariantDescriptor {
  vd_ID : string; vd_Title : string; vd_Description : string; vd_Refresh : option string; vd_Fields : list FieldDescriptor
}.

Record Descriptor := mkDescriptor {
  de_Slug : string; de_Title : string; de_Description : string; de_BundleName : string;
  de_APIs : list string; de_TokenVariants : list VariantDescriptor
}.

Definition describeField (f : TokenField) : FieldDescriptor :=
  mkFieldDescriptor (tf_Name f) (tf_Label f) (if decide (tf_Kind f = "") then "text" else tf_Kind f) (tf_Placeholder f)
    (tf_Help f) (tf_Required f) (tf_Header f) (tf_Template f).

Definition describeVariant (v : TokenVariant) : VariantDescriptor :=
  mkVariantDescriptor (tv_ID v) (tv_Title v) (tv_Description v) (tv_Refresh v) (map describeField (tv_Fields v)).

Definition describe (l : LoadedService) : Descriptor :=
  let s := ls_Service l in
  mkDescriptor (bs_Slug s) (bs_Title s) (bs_Description s) (ls_BundleName l) (ls_APIs l)
    (map describeVariant (ls_TokenVariants l)).

Definition ErrUnknown : goerr := ESentinel "services.ErrUnknown".

Module Registry.
Record Registry := mkRegistry { rg_services : list LoadedService; rg_bySlug : gmap string LoadedService }.

Definition slug (l : LoadedService) : string := bs_Slug (ls_Service l).

(** [bySlug] is filled in order: of services with one slug the last stays. *)
Definition New (loaded : list LoadedService) : Registry :=
mkRegistry loaded (fold_left (fun m l => <[slug l := l]> m) loaded ∅).

Definition List_ (r : Registry) : list Descriptor := map describe (rg_services r).

Definition Get (s : string) (r : Registry) : result Descriptor :=
match rg_bySlug r !! s with
| None => Err (EWrap "services" ErrUnknown)
| Some l => Ok (describe l)
end.

Definition Variant (s variant : string) (r : Registry) : result TokenVariant :=
match rg_bySlug r !! s with
| None => Err (EWrap "services" ErrUnknown)
| Some l =>
    match List.find (fun v => bool_decide (tv_ID v = variant)) (ls_TokenVariants l) with
    | Some v => Ok v
    | None => Err (EWrap "services: variant" ErrUnknown)
    end
end.
End Registry.

(** ** The handlers: a status and a body.  A deployment without a registry has
    none. *)

Definition listServicesHandler (svc : option Registry.Registry) : list Descriptor :=
  match svc with None => [] | Some r => Registry.List_ r end.

(** [respondServiceError] *)
Definition respondServiceError (e : goerr) : Z := if errors_is e "services.ErrUnknown" then 404 else 500.

Definition getServiceHandler (slug : string) (svc : option Registry.Registry) : Z + Descriptor :=
  match svc with
  | None => inl (respondServiceError ErrUnknown)
  | Some r => match Registry.Get slug r with Err e => inl (respondServiceError e) | Ok d => inr d end
  end.

(** [serviceDetailUIHandler], up to the rendering. *)
Definition serviceDetailUIHandler (slug : string) (svc : option Registry.Registry) : Z + Descriptor :=
  match svc with
  | None => inl 404%Z
  | Some r => match Registry.Get slug r with Err _ => inl 404%Z | Ok d => inr d end
  end.

(** ** [apis.go] *)

Record BundleData := mkBundleData {
  bd_Readmes : gmap string string;
  bd_APIBundle : gmap string string;
  bd_Services : list LoadedService
}.

Record ActionDescriptor := mkActionDescriptor {
  ad_Name : string; ad_Method : string; ad_Path : string; ad_Filter : string; ad_Binds : list string
}.

Record MetaDescriptor := mkMetaDescriptor {
  md_Name : string; md_Kind : string; md_Input : list string; md_Output : list (string * string)
}.

Record APIDescriptor := mkAPIDescriptor {
  ap_Name : string; ap_BaseURL : string; ap_PathPrefixes : list string; ap_Actions : list ActionDescriptor;
  ap_Meta : list MetaDescriptor; ap_AccessDeniedStatus : Z; ap_ReadmeURL : string
}.

Definition readmeURLFor (bundle : string) : string := "/_api/apis/" +:+ bundle +:+ "/readme".

Definition describeAction (a : Action) : ActionDescriptor :=
  mkActionDescriptor (act_Name a) (act_Method a) (act_Path a) (act_Filter a) (AllBinds a).

Definition describeMeta (m : Metadata) : MetaDescriptor :=
  mkMetaDescriptor (meta_Name m) (meta_Kind m) (map if_Name (meta_Input m))
    (map (fun o => (of_Name o, of_Expr o)) (meta_Output m)).

(** The bundle of an API, when that bundle has a README. *)
Definition readme_bundle (bd : BundleData) (api : string) : option string :=
  bundle ← bd_APIBundle bd !! api; _ ← bd_Readmes bd !! bundle; Some bundle.

Definition describeAPI (a : API) (bd : BundleData) : APIDescriptor :=
  mkAPIDescriptor (api_Name a) (api_BaseURL a) (api_PathPrefixes a) (map describeAction (api_Actions a))
    (map describeMeta (api_Meta a)) (api_AccessDeniedStatus a)
    (match readme_bundle bd (api_Name a) with Some b => readmeURLFor b | None => "" end).

Definition listAPIsHandler (rt : Runtime) (bd : BundleData) : list APIDescriptor :=
  map (fun a => describeAPI a bd) (APISpecs rt).

(** [readmeHandler]: [None] is a 404. *)
Definition readmeHandler (readmes : gmap string string) (bundle : string) : option string :=
  match readmes !! bundle with
  | Some body => if decide (body = "") then None else Some body
  | None => None
  end.

(** ** [resources.go] *)

Definition URIDocsAgent : string := "bouncer://docs/agent".
Definition URIDocsPolicies : string := "bouncer://docs/policies".
Definition URIDocsAPIs : string := "bouncer://docs/apis".
Definition URIAPIs : string := "bouncer://apis".
Definition URIBundleReadmePrefix : string := "bouncer://bundles/".
Definition uriBundleReadmeSuffix : string := "/readme".

Definition BundleReadmeURI (bundle : string) : string := URIBundleReadmePrefix +:+ bundle +:+ uriBundleReadmeSuffix.

Definition bundleFromReadmeURI (uri : string) : option string :=
  rest ← cut_prefix URIBundleReadmePrefix uri;
  name ← cut_suffix uriBundleReadmeSuffix rest;
  if bool_decide (name = "") || has_byte slash name then None else Some name.

Record Docs := mkDocs { dc_AgentGuide : string; dc_PolicyAuthoring : string; dc_APIAuthoring : string }.

Record resourceDescriptor := mkResource {
  rd_URI : string; rd_Name : string; rd_Title : string; rd_Description : string; rd_MIMEType : string
}.

Definition static_resources : list resourceDescriptor :=
  [ mkResource URIDocsAgent "agent_guide" "Bouncer agent guide"
      "Orientation for an agent calling through bouncer: auth tiers, request shape, denial recovery." "text/markdown";
    mkResource URIDocsPolicies "policy_authoring" "Policy authoring guide"
      "How to write a CEL policy plus a self-contained CEL primer. Read after a 403 denial." "text/markdown";
    mkResource URIDocsAPIs "api_authoring" "API integration spec"
      "How to describe a new upstream API to bouncer (resources, fetch URLs, actions)." "text/markdown";
    mkResource URIAPIs "registered_apis" "Registered APIs (live catalogue)"
      "JSON snapshot of every API the proxy knows about. Same payload as GET /_api/apis." "application/json" ].

Definition readme_resource (name : string) : resourceDescriptor :=
  mkResource (BundleReadmeURI name) ("bundle_readme_" +:+ name) ("README — " +:+ name)
    ("Operator-facing notes shipped with the " +:+ name +:+ " bundle.") "text/markdown".

Definition handleResourcesList (readmes : gmap string string) : list resourceDescriptor :=
  static_resources ++ map readme_resource (sort_strings (map_to_list readmes).*1).

Inductive resource_body : Type :=
  | Markdown (text : string)
  | APIsJSON (specs : list API).

(** The error is the message of an invalid-params answer. *)
Definition handleResourcesRead (docs : Docs) (rt : Runtime) (readmes : gmap string string) (uri : string)
    : string + resource_body :=
  if decide (uri = "") then inl "uri is required"
  else if decide (uri = URIDocsAgent) then inr (Markdown (dc_AgentGuide docs))
  else if decide (uri = URIDocsPolicies) then inr (Markdown (dc_PolicyAuthoring docs))
  else if decide (uri = URIDocsAPIs) then inr (Markdown (dc_APIAuthoring docs))
  else if decide (uri = URIAPIs) then inr (APIsJSON (APISpecs rt))
  else
    match bundleFromReadmeURI uri with
    | Some name =>
        match readmes !! name with
        | Some body => if decide (body = "") then inl ("unknown bundle: " +:+ name) else inr (Markdown body)
        | None => inl ("unknown bundle: " +:+ name)
        end
    | None => inl ("unknown resource uri: " +:+ uri)
    end.

(** [runListAPIs]: the specification with its bundle and README pointers. *)
Record apiSummary := mkApiSummary { as_API : API; as_Bundle : string; as_ReadmeURI : string }.

Definition runListAPIs (rt : Runtime) (bd : BundleData) : list apiSummary :=
  map (fun a => mkApiSummary a (default "" (bd_APIBundle bd !! api_Name a))
                  (match readme_bundle bd (api_Name a) with Some b => BundleReadmeURI b | None => "" end)) (APISpecs rt).

(** ** Links and the resources behind them *)

Lemma bundleFromReadmeURI_build name :
  bundleFromReadmeURI (BundleReadmeURI name) = if bool_decide (name = "") || has_byte slash name then None else Some name.
Proof.
  unfold bundleFromReadmeURI, BundleReadmeURI.
  rewrite (proj2 (cut_prefix_Some URIBundleReadmePrefix _ _) eq_refl). simpl.
  by rewrite (proj2 (cut_suffix_Some uriBundleReadmeSuffix (name +:+ uriBundleReadmeSuffix) name) eq_refl).
Qed.

Lemma bundleFromReadmeURI_Some uri name :
  bundleFromReadmeURI uri = Some name <-> uri = BundleReadmeURI name /\ name <> "" /\ has_byte slash name = false.
Proof.
  split.
  - unfold bundleFromReadmeURI. intros (rest & Hp & H)%bind_Some. apply bind_Some in H as (n & Hs & H).
    apply cut_prefix_Some in Hp as ->. apply cut_suffix_Some in Hs as ->.
    destruct (bool_decide (n = "") || has_byte slash n) eqn:E; [done|]. injection H as ->.
    apply orb_false_iff in E as [E%bool_decide_eq_false E']. done.
  - intros (-> & Hn & Hs). rewrite bundleFromReadmeURI_build, Hs, bool_decide_eq_false_2; done.
Qed.

#[export] Instance BundleReadmeURI_inj : Inj (=) (=) BundleReadmeURI.
Proof. intros a b. unfold BundleReadmeURI. by intros E%string_app_inj_l%string_app_inj_r. Qed.

Lemma static_not_readme name : BundleReadmeURI name ∉ map rd_URI static_resources.
Proof. intros H. simpl in H. repeat (apply elem_of_cons in H as [H|H]; [by inversion H|]). by apply not_elem_of_nil in H. Qed.

Lemma Readmes_fold loaded (m : gmap string string) name body :
  foldl (fun m l => if bool_decide (la_BundleName l = "") || bool_decide (la_Readme l = "") then m
                    else <[la_BundleName l := la_Readme l]> m) m loaded !! name = Some body ->
  m !! name = Some body \/
  (name <> "" /\ body <> "" /\ exists l, l ∈ loaded /\ la_BundleName l = name /\ la_Readme l = body).
Proof.
  revert m. induction loaded as [|l loaded IH]; intros m; simpl; [by left|]. intros [H|H]%IH.
  - destruct (bool_decide _ || bool_decide _) eqn:E; [by left|].
    apply orb_false_iff in E as [E1%bool_decide_eq_false E2%bool_decide_eq_false].
    apply lookup_insert_Some in H as [[<- <-]|[_ H]]; [|by left]. right. split; [done|]. split; [done|].
    exists l. split; [left|done].
  - right. destruct H as (H1 & H2 & k & Hk & H3). split; [done|]. split; [done|]. exists k. split; [by right|done].
Qed.

Lemma Readmes_Some loaded name body :
  Readmes loaded !! name = Some body ->
  name <> "" /\ body <> "" /\ exists l, l ∈ loaded /\ la_BundleName l = name /\ la_Readme l = body.
Proof. unfold Readmes. intros [H|H]%Readmes_fold; [by rewrite lookup_empty in H|done]. Qed.

Lemma Readmes_keep loaded (m : gmap string string) name :
  is_Some (m !! name) ->
  is_Some (foldl (fun m l => if bool_decide (la_BundleName l = "") || bool_decide (la_Readme l = "") then m
                    else <[la_BundleName l := la_Readme l]> m) m loaded !! name).
Proof.
  revert m. induction loaded as [|l loaded IH]; intros m H; simpl; [done|]. apply IH.
  destruct (_ || _); [done|]. destruct (decide (la_BundleName l = name)) as [<-|Hne]; [by rewrite lookup_insert_eq|].
  by rewrite lookup_insert_ne.
Qed.

Lemma Readmes_is_Some loaded l :
  l ∈ loaded -> la_BundleName l <> "" -> la_Readme l <> "" -> is_Some (Readmes loaded !! la_BundleName l).
Proof.
  intros Hl Hn Hr. apply list_elem_of_split in Hl as (l1 & l2 & ->). unfold Readmes. rewrite foldl_app. simpl.
  apply Readmes_keep. rewrite !bool_decide_eq_false_2 by done. simpl. by rewrite lookup_insert_eq.
Qed.

Lemma elem_of_names (m : gmap string string) name : name ∈ sort_strings (map_to_list m).*1 <-> is_Some (m !! name).
Proof.
  unfold sort_strings. rewrite string_sort_perm. split.
  - intros ([k v] & -> & H%elem_of_map_to_list)%list_elem_of_fmap. by exists v.
  - intros [v H]. apply list_elem_of_fmap. exists (name, v). split; [done|]. by apply elem_of_map_to_list.
Qed.

Lemma read_readme docs rt (readmes : gmap string string) name body :
  readmes !! name = Some body -> name <> "" -> body <> "" -> has_byte slash name = false ->
  handleResourcesRead docs rt readmes (BundleReadmeURI name) = inr (Markdown body).
Proof.
  intros Hb Hn Hb' Hs. pose proof (static_not_readme name) as Hst. simpl in Hst.
  rewrite !not_elem_of_cons in Hst. destruct Hst as (H1 & H2 & H3 & H4 & _).
  unfold handleResourcesRead. rewrite decide_False by done. rewrite !decide_False by done.
  rewrite bundleFromReadmeURI_build, Hs, bool_decide_eq_false_2 by done. simpl. rewrite Hb. by rewrite decide_False.
Qed.

Lemma read_static docs rt readmes uri :
  uri ∈ map rd_URI static_resources -> exists body, handleResourcesRead docs rt readmes uri = inr body.
Proof.
  intros H. simpl in H. rewrite !elem_of_cons, elem_of_nil in H.
  destruct H as [->|[->|[->|[->|[]]]]]; by eexists.
Qed.

Lemma read_listed docs rt (readmes : gmap string string) uri body :
  handleResourcesRead docs rt readmes uri = inr body -> uri ∈ map rd_URI (handleResourcesList readmes).
Proof.
  unfold handleResourcesRead, handleResourcesList. rewrite map_app, elem_of_app, map_map.
  destruct (decide (uri = "")); [done|].
  destruct (decide (uri = URIDocsAgent)) as [->|]; [intros _; left; simpl; set_solver|].
  destruct (decide (uri = URIDocsPolicies)) as [->|]; [intros _; left; simpl; set_solver|].
  destruct (decide (uri = URIDocsAPIs)) as [->|]; [intros _; left; simpl; set_solver|].
  destruct (decide (uri = URIAPIs)) as [->|]; [intros _; left; simpl; set_solver|].
  destruct (bundleFromReadmeURI uri) as [name|] eqn:E; [|done]. apply bundleFromReadmeURI_Some in E as (-> & _).
  destruct (readmes !! name) as [b|] eqn:Eb; [|done]. intros _. right. apply (list_elem_of_fmap_2 BundleReadmeURI).
  apply elem_of_names. by eexists.
Qed.

(** ** The registry *)

Module RegistryFacts.
Import Registry.

Lemma bySlug_fold (loaded : list LoadedService) (m : gmap string LoadedService) s :
fold_left (fun m l => <[slug l := l]> m) loaded m !! s =
match last (List.filter (fun l => bool_decide (slug l = s)) loaded) with Some l => Some l | None => m !! s end.
Proof.
revert m. induction loaded as [|l loaded IH]; intros m; [done|]. simpl. rewrite IH.
case_bool_decide as E; simpl.
- destruct (List.filter _ loaded) as [|x k]; simpl; [by rewrite <- E, lookup_insert_eq|].
  by destruct (last (x :: k)) eqn:El; [|apply last_None in El].
- destruct (last _); [done|]. by rewrite lookup_insert_ne.
Qed.

(** Of the services with a slug, the last one loaded answers. *)
Lemma bySlug_last loaded s : rg_bySlug (New loaded) !! s = last (List.filter (fun l => bool_decide (slug l = s)) loaded).
Proof. unfold New. simpl. rewrite bySlug_fold, lookup_empty. by destruct (last _). Qed.

Lemma bySlug_unique loaded l : NoDup (map slug loaded) -> rg_bySlug (New loaded) !! slug l = Some l <-> l ∈ loaded.
Proof.
intros Hn. rewrite bySlug_last. split.
- intros H. apply last_Some_elem_of in H.
  apply list_elem_of_In, filter_In in H as [H _]. by apply list_elem_of_In.
- intros Hl. apply list_elem_of_split in Hl as (l1 & l2 & ->). rewrite list_filter_app. simpl.
  rewrite bool_decide_eq_true_2 by done.
  rewrite map_app in Hn. simpl in Hn. apply NoDup_app in Hn as (_ & Hd & [Hl Hn]%NoDup_cons).
  replace (List.filter _ l2) with (@nil LoadedService); [by rewrite last_snoc|].
  symmetry. destruct (List.filter _ l2) as [|x k] eqn:E; [done|]. exfalso. apply Hl.
  assert (In x (List.filter (fun l0 => bool_decide (slug l0 = slug l)) l2)) as Hx by (rewrite E; by left).
  apply filter_In in Hx as [Hx Es%bool_decide_eq_true]. rewrite <- Es. apply list_elem_of_fmap_2. by apply list_elem_of_In.
Qed.

Lemma bySlug_slug loaded s l : rg_bySlug (New loaded) !! s = Some l -> slug l = s /\ l ∈ loaded.
Proof.
rewrite bySlug_last. intros H%last_Some_elem_of. apply list_elem_of_In, filter_In in H as [H E%bool_decide_eq_true].
split; [done|]. by apply list_elem_of_In.
Qed.
End RegistryFacts.

(** The registry serves what was loaded.  When no two services share a slug, a
    lookup answers exactly the one descriptor of the listing with that slug,
    and a token variant is found exactly when that service declares it. *)
Lemma registry_serves_loaded (loaded : list LoadedService) (s variant : string) (d : Descriptor) :
  NoDup (map Registry.slug loaded) ->
  let r := Registry.New loaded in
  (Registry.Get s r = Ok d <-> d ∈ Registry.List_ r /\ de_Slug d = s) /\
  (is_ok (Registry.Variant s variant r) = true <->
     exists l, l ∈ loaded /\ Registry.slug l = s /\ variant ∈ map tv_ID (ls_TokenVariants l)).
Proof.
  intros Hn. cbn zeta. split.
  - unfold Registry.Get, Registry.List_. split.
    + destruct (_ !! s) as [l|] eqn:E; [|done]. intros [= <-]. apply RegistryFacts.bySlug_slug in E as [<- Hl].
      split; [|done]. by apply (list_elem_of_fmap_2 describe).
    + intros [(l & -> & Hl)%list_elem_of_fmap <-]. simpl in Hl.
      change (de_Slug (describe l)) with (Registry.slug l). by rewrite (proj2 (RegistryFacts.bySlug_unique loaded l Hn) Hl).
  - unfold Registry.Variant. split.
    + destruct (_ !! s) as [l|] eqn:E; [|done]. apply RegistryFacts.bySlug_slug in E as [<- Hl].
      destruct (List.find _ _) as [v|] eqn:Ev; [|done]. intros _. exists l. split; [done|]. split; [done|].
      apply find_some in Ev as [Hv <-%bool_decide_eq_true]. apply list_elem_of_fmap_2. by apply list_elem_of_In.
    + intros (l & Hl & <- & (v & -> & Hv)%list_elem_of_fmap).
      rewrite (proj2 (RegistryFacts.bySlug_unique loaded l Hn) Hl). destruct (List.find _ _) eqn:Ev; [done|].
      apply list_elem_of_In in Hv. apply (find_none _ _ Ev) in Hv. by rewrite bool_decide_eq_true_2 in Hv.
Qed.

(** ** Properties *)

(** Every resource that is listed can be read.  For the READMEs of the
    loaded bundles, none of whose names has a slash, the URIs of the listing
    are distinct and are exactly those a read answers with a body; and the
    README of a bundle that ships one is read under the bundle's URI with the
    text the HTTP endpoint serves. *)
Theorem resources_listed_readable (docs : Docs) (rt : Runtime) (loaded : list LoadedAPI)
    (Hslash : Forall (fun l => has_byte slash (la_BundleName l) = false) loaded) :
  let readmes := Readmes loaded in
  let uris := map rd_URI (handleResourcesList readmes) in
  NoDup uris /\
  (forall uri, uri ∈ uris <-> exists body, handleResourcesRead docs rt readmes uri = inr body) /\
  (forall l, l ∈ loaded -> la_BundleName l <> "" -> la_Readme l <> "" ->
     exists text, readmeHandler readmes (la_BundleName l) = Some text /\
       handleResourcesRead docs rt readmes (BundleReadmeURI (la_BundleName l)) = inr (Markdown text)).
Proof.
  cbn zeta. rewrite Forall_forall in Hslash.
  assert (forall name body, Readmes loaded !! name = Some body ->
    handleResourcesRead docs rt (Readmes loaded) (BundleReadmeURI name) = inr (Markdown body) /\
    readmeHandler (Readmes loaded) name = Some body) as Hread.
  { intros name body Hb. destruct (Readmes_Some _ _ _ Hb) as (Hn & Hb' & l & Hl & <- & _).
    split; [by apply read_readme; [|..|apply Hslash]|]. unfold readmeHandler. rewrite Hb. by rewrite decide_False. }
  split; [|split].
  - unfold handleResourcesList. rewrite map_app, map_map. apply NoDup_app. split; [|split].
    + apply (bool_decide_eq_true (NoDup _)). vm_compute. reflexivity.
    + intros uri Hu (name & -> & _)%list_elem_of_fmap. by apply static_not_readme in Hu.
    + apply (NoDup_fmap_2 BundleReadmeURI). unfold sort_strings. rewrite string_sort_perm.
      apply NoDup_fst_map_to_list.
  - intros uri. split; [|intros [body H]; by eapply read_listed].
    unfold handleResourcesList. rewrite map_app, map_map. intros [H|(name & -> & [body Hb]%elem_of_names)%list_elem_of_fmap]%elem_of_app.
    + by apply read_static.
    + eexists. by apply Hread.
  - intros l Hl Hn Hr. destruct (Readmes_is_Some _ _ Hl Hn Hr) as [body Hb]. exists body. split; by apply Hread.
Qed.

Definition demo_readme_api (bundle readme : string) : LoadedAPI :=
  mkLoaded (mkAPI "slack" "https://slack.com" [] [] [] 0 "") "slack.yaml" "bundles/slack" bundle readme None [].

Definition demo_docs : Docs := mkDocs "agent" "policies" "apis".

Definition no_apis : Runtime := mkRuntime ∅ ∅ ∅ ∅ [].

Lemma resources_listed_readable_witness :
  let loaded := [demo_readme_api "slack" "# Slack"] in
  exists text, readmeHandler (Readmes loaded) "slack" = Some text /\
    handleResourcesRead demo_docs no_apis (Readmes loaded) "bouncer://bundles/slack/readme" = inr (Markdown text).
Proof.
  destruct (resources_listed_readable demo_docs no_apis [demo_readme_api "slack" "# Slack"]) as (_ & _ & H).
  - by repeat constructor.
  - apply (H (demo_readme_api "slack" "# Slack")); [left|discriminate|discriminate].
Defined.

(** A manifest name may contain a slash: then the README is listed and cannot
    be read. *)
Example slash_readme_unreadable :
  let readmes := Readmes [demo_readme_api "acme/slack" "# Slack"] in
  "bouncer://bundles/acme/slack/readme" ∈ map rd_URI (handleResourcesList readmes) /\
  handleResourcesRead demo_docs no_apis readmes "bouncer://bundles/acme/slack/readme" =
    inl "unknown resource uri: bouncer://bundles/acme/slack/readme".
Proof. split; [|vm_compute; reflexivity]. apply list_elem_of_In. vm_compute. auto 10. Qed.

(** The handshake's instructions point at [bouncer://docs/agent.md]. *)
Example instructed_uri_unreadable :
  handleResourcesRead demo_docs no_apis ∅ "bouncer://docs/agent.md" = inl "unknown resource uri: bouncer://docs/agent.md".
Proof. vm_compute. reflexivity. Qed.
