(* ===== verification/TokensPage.v ===== *)
(** * The tokens page: internal/server/admin/tokens_page.go

    POST /_api/tokens/issue and /_api/tokens/issue/refresh.  A body is either
    the form of the page, which names a service of the registry ([Catalogue])
    and one of its token variants, or a raw specification as the command line
    reads it ([OAuth]).  JSON decoding is the class [IssueJSON], [text/template]
    the class [TextTemplate].  The theorem: a token issued through the form is
    an access token of the submitted subject, never an admin's, carrying one
    header per filled field. *)

From S2P Require Import Prelude GoStd Models Z85 Auth OAuth Url Bundles Paths Disk BundleFetch BundleLoad Catalogue AdminGate AdminApi.

Record tokensIssueRequest := mkIssueRequest {
  iq_Subject : string;
  iq_Service : string;
  iq_Variant : string;
  iq_Fields : gmap string string
}.

Record IssueResponse := mkIssueResponse { ir_Token : string; ir_ExpiresAt : option Z }.

(** encoding/json on the request bodies: [probe] ignores errors and unknown
    fields, the strict decoders report both; an empty body is the zero value. *)
Class IssueJSON := {
  probe_service : string -> string;
  decode_spec : string -> option Spec;
  decode_refresh_spec : string -> option RefreshSpec;
  decode_request : string -> option tokensIssueRequest
}.

(** Parsing and executing a template on a string. *)
Class TextTemplate := renderTemplate : string -> string -> result string.

(** The two templates the code supplies itself. *)
Class TextTemplateLaws `{TextTemplate} := {
  render_bearer v : renderTemplate "Bearer {{.}}" v = Ok ("Bearer " +:+ v);
  render_dot v : renderTemplate "{{.}}" v = Ok v
}.

Definition defaultAccessTokenTTL : Z := 3600 * second.

(** [decodeStrict] *)
Definition decodeStrict {A} (o : option A) : result A :=
  match o with Some a => Ok a | None => Err decodeError end.

Definition respondTokensError (e : goerr) : Z :=
  writeMappedError e [("services.ErrUnknown", 404); ("tokens.ErrInvalidSpec", 400)]%Z.

Definition isVariantRequest `{IssueJSON} (raw : string) : bool := negb (bool_decide (probe_service raw = "")).

Definition decodeIssueRequest `{IssueJSON} (raw : string) : Z + tokensIssueRequest :=
  match decodeStrict (decode_request raw) with
  | Err e => inl (respondTokensError e)
  | Ok b => if blank (iq_Subject b) || blank (iq_Variant b) then inl 400%Z else inr b
  end.

Definition field_value (fields : gmap string string) (f : TokenField) : string := default "" (fields !! tf_Name f).

Definition resolveVariant (svc : option Registry.Registry) (b : tokensIssueRequest) : result TokenVariant :=
  match svc with
  | None => Err (EMsg "services registry not configured")
  | Some r =>
      v ← Registry.Variant (iq_Service b) (iq_Variant b) r;
      fail_if existsb (fun f => tf_Required f && blank (field_value (iq_Fields b) f)) (tv_Fields v)
        with EWrap "field is required" ErrInvalidSpec ;;
      Ok v
  end.

Section tokens_page.
Context `{Crypto} `{IssueJSON} `{TextTemplate}.

(** The name and the template of a field, defaults filled in. *)
Definition field_header (f : TokenField) : string := if decide (tf_Header f = "") then "Authorization" else tf_Header f.

Definition field_template (f : TokenField) : string :=
if decide (tf_Template f = "") then
  if decide (to_lower (field_header f) = "authorization") then "Bearer {{.}}" else "{{.}}"
else tf_Template f.

Fixpoint render_fields (fields : gmap string string) (l : list TokenField) : result (list Header) :=
match l with
| [] => Ok []
| f :: l =>
    let val := field_value fields f in
    if decide (val = "") then render_fields fields l
    else
      rendered ← wrap_err "field" (renderTemplate (field_template f) val);
      rest ← render_fields fields l;
      Ok (mkHeader (field_header f) rendered :: rest)
end.

Definition buildAccessCreds (v : TokenVariant) (fields : gmap string string) : result AccessCreds :=
headers ← render_fields fields (tv_Fields v);
if bool_decide (headers = []) then Err (EWrap "no field values supplied" ErrInvalidSpec)
else Ok (mkAccessCreds "" headers).

(** The clock is read by the signing ([now']) and around it ([now]). *)
Definition tokensIssueHandler (keys : ServerKeys) (svc : option Registry.Registry) (b : body string)
  (nonce : string) (now now' : Z) : Z + IssueResponse :=
match decodeJSONBody b with
| Err e => inl (respondTokensError e)
| Ok raw =>
    if negb (isVariantRequest raw) then
      match spec ← decodeStrict (decode_spec raw); Issue keys spec nonce now now' with
      | Err e => inl (respondTokensError e)
      | Ok res => inr (mkIssueResponse (is_Token res) (is_ExpiresAt res))
      end
    else
      match decodeIssueRequest raw with
      | inl st => inl st
      | inr req =>
          match resolveVariant svc req with
          | Err e => inl (respondTokensError e)
          | Ok v =>
              if is_some_b (tv_Refresh v) then inl 400%Z
              else
                match buildAccessCreds v (iq_Fields req) with
                | Err e => inl (respondTokensError e)
                | Ok creds =>
                    let tok := IssueAccessToken keys (iq_Subject req) creds defaultAccessTokenTTL false nonce now' in
                    inr (mkIssueResponse tok (Some (now + defaultAccessTokenTTL)%Z))
                end
          end
      end
end.

Definition tokensIssueRefreshHandler (keys : ServerKeys) (svc : option Registry.Registry) (b : body string)
  (nonce : string) (now now' : Z) : Z + IssueResponse :=
match decodeJSONBody b with
| Err e => inl (respondTokensError e)
| Ok raw =>
    if negb (isVariantRequest raw) then
      match spec ← decodeStrict (decode_refresh_spec raw); IssueRefresh keys spec nonce now now' with
      | Err e => inl (respondTokensError e)
      | Ok res => inr (mkIssueResponse (is_Token res) (is_ExpiresAt res))
      end
    else
      match decodeIssueRequest raw with
      | inl st => inl st
      | inr req =>
          match resolveVariant svc req with
          | Err e => inl (respondTokensError e)
          | Ok v =>
              match tv_Refresh v with
              | None => inl 400%Z
              | Some url =>
                  let refreshTok := default "" (iq_Fields req !! "refresh_token") in
                  if decide (refreshTok = "") then inl 400%Z
                  else inr (mkIssueResponse
                              (IssueRefreshToken keys (iq_Subject req) (mkRefreshCreds refreshTok url []) 0 false nonce now')
                              None)
              end
          end
      end
end.

(** ** What the form can ask for *)

(** A variant that a loaded service declares under the names of the form, all
    of whose required fields are filled. *)
Definition chosen (loaded : list LoadedService) (req : tokensIssueRequest) (v : TokenVariant) : Prop :=
(exists l, l ∈ loaded /\ Registry.slug l = iq_Service req /\ v ∈ ls_TokenVariants l) /\ tv_ID v = iq_Variant req /\
Forall (fun f => tf_Required f = true -> blank (field_value (iq_Fields req) f) = false) (tv_Fields v).

Lemma resolveVariant_chosen loaded req v :
resolveVariant (Some (Registry.New loaded)) req = Ok v -> chosen loaded req v.
Proof.
unfold resolveVariant. intros (v' & Hv & Hr)%bind_ok.
destruct (existsb _ _) eqn:E; [done|]. injection Hr as ->. unfold Registry.Variant in Hv.
destruct (_ !! iq_Service req) as [l|] eqn:El; [|done]. apply RegistryFacts.bySlug_slug in El as [Hs Hl].
destruct (List.find _ _) as [v'|] eqn:Ef; [|done]. injection Hv as ->.
apply find_some in Ef as [Hin Hid%bool_decide_eq_true]. split; [|split; [done|]].
- exists l. split; [done|]. split; [done|]. by apply list_elem_of_In.
- apply Forall_forall. intros f Hf Hreq. destruct (blank _) eqn:Eb; [|done]. exfalso.
  apply not_true_iff_false in E. apply E. apply existsb_exists. exists f. split; [by apply list_elem_of_In|].
  by rewrite Hreq, Eb.
Qed.

Lemma decodeIssueRequest_inv raw req :
decodeIssueRequest raw = inr req ->
decode_request raw = Some req /\ blank (iq_Subject req) = false /\ blank (iq_Variant req) = false.
Proof.
unfold decodeIssueRequest, decodeStrict. destruct (decode_request raw) as [b|]; [|done].
destruct (blank (iq_Subject b) || blank (iq_Variant b)) eqn:E; [done|]. intros [= <-].
by apply orb_false_iff in E as [? ?].
Qed.

(** The fields that are filled, in the order the variant declares them. *)
Definition filled (fields : gmap string string) (l : list TokenField) : list TokenField :=
List.filter (fun f => negb (bool_decide (field_value fields f = ""))) l.

Lemma render_fields_spec fields l hs :
render_fields fields l = Ok hs <->
mapM (fun f => v ← wrap_err "field" (renderTemplate (field_template f) (field_value fields f));
               Ok (mkHeader (field_header f) v)) (filled fields l) = Ok hs.
Proof.
revert hs. induction l as [|f l IH]; intros hs; [done|]. simpl. destruct (decide (field_value fields f = "")) as [E|E].
- rewrite (bool_decide_eq_true_2 _ E). simpl. apply IH.
- rewrite (bool_decide_eq_false_2 _ E). cbn [negb mapM].
  destruct (wrap_err _ (renderTemplate (field_template f) (field_value fields f))) as [v|e]; [|done]. simpl.
  rewrite !bind_ok. setoid_rewrite IH. done.
Qed.

Lemma buildAccessCreds_spec v fields creds :
buildAccessCreds v fields = Ok creds ->
ac_AccessToken creds = "" /\ ac_Headers creds <> [] /\
Forall2 (fun f h => h_Name h = field_header f /\ renderTemplate (field_template f) (field_value fields f) = Ok (h_Value h))
  (filled fields (tv_Fields v)) (ac_Headers creds).
Proof.
unfold buildAccessCreds. intros (hs & Hh & Hc)%bind_ok. case_bool_decide as E; [done|]. injection Hc as <-.
split; [done|]. split; [done|]. apply render_fields_spec, mapM_ok in Hh. simpl.
eapply Forall2_impl; [exact Hh|]. intros f h. cbn beta. intros (v' & Hv & [= <-])%bind_ok. split; [done|].
by apply wrap_err_ok in Hv.
Qed.
End tokens_page.

Lemma form_issue `{Crypto} `{IssueJSON} `{TextTemplate} keys loaded raw nonce now now' resp :
  tokensIssueHandler keys (Some (Registry.New loaded)) (BodyOk raw) nonce now now' = inr resp ->
  probe_service raw <> "" ->
  exists req v creds, decode_request raw = Some req /\ chosen loaded req v /\ tv_Refresh v = None /\
    buildAccessCreds v (iq_Fields req) = Ok creds /\ blank (iq_Subject req) = false /\
    resp = mkIssueResponse (IssueAccessToken keys (iq_Subject req) creds defaultAccessTokenTTL false nonce now')
             (Some (now + defaultAccessTokenTTL)%Z).
Proof.
  unfold tokensIssueHandler, isVariantRequest. cbn [decodeJSONBody]. intros Hi Hp. rewrite bool_decide_eq_false_2 in Hi by done.
  cbn [negb] in Hi. destruct (decodeIssueRequest raw) as [st|req] eqn:Er; [done|].
  apply decodeIssueRequest_inv in Er as (Er & Hs & _).
  destruct (resolveVariant _ req) as [v|e] eqn:Ev; [|done]. apply resolveVariant_chosen in Ev.
  destruct (tv_Refresh v) eqn:Et; [done|]. cbn [is_some_b] in Hi. destruct (buildAccessCreds v (iq_Fields req)) as [creds|e] eqn:Ec; [|done].
  injection Hi as <-. by exists req, v, creds.
Qed.

(** The tokens form issues what it shows and nothing more.  When the form
    is answered with a token, its service and variant are ones a loaded bundle
    declares, every required field was filled, and the token verifies, within
    its hour and as long as the leeway, as an access token of the submitted
    subject that is not an admin's, with no bearer of its own and with one
    header per filled field, in the order declared, rendered by that field's
    template. *)
Theorem tokens_form_issue `{CryptoLaws} `{IssueJSON} `{TextTemplate} (secret : string) (loaded : list LoadedService)
    (raw nonce : string) (now now' t : Z) (resp : IssueResponse) (tok : AccessToken)
    (Hnonce : String.length nonce = nonce_size)
    (Hutf8 : forall req v creds, decode_request raw = Some req -> chosen loaded req v -> buildAccessCreds v (iq_Fields req) = Ok creds ->
       valid_utf8 (iq_Subject req) = true /\ access_utf8 creds = true)
    (Hform : probe_service raw <> "")
    (Hissue : tokensIssueHandler (FromSecret secret) (Some (Registry.New loaded)) (BodyOk raw) nonce now now' = inr resp) :
  exists req v, decode_request raw = Some req /\ chosen loaded req v /\ tv_Refresh v = None /\
    (VerifyAccessToken (FromSecret secret) (ir_Token resp) t = Ok tok ->
       at_Subject tok = iq_Subject req /\ at_Admin tok = false /\ ac_AccessToken (at_Creds tok) = "" /\
       ac_Headers (at_Creds tok) <> [] /\
       Forall2 (fun f h => h_Name h = field_header f /\
                           renderTemplate (field_template f) (field_value (iq_Fields req) f) = Ok (h_Value h))
         (filled (iq_Fields req) (tv_Fields v)) (ac_Headers (at_Creds tok))) /\
    (is_ok (VerifyAccessToken (FromSecret secret) (ir_Token resp) t) = true <->
       (NumericDate now' - jwtLeeway <= t < NumericDate (now' + defaultAccessTokenTTL) + jwtLeeway)%Z).
Proof.
  destruct (form_issue _ _ _ _ _ _ _ Hissue Hform) as (req & v & creds & Hr & Hch & Hv & Hc & _ & ->). simpl.
  pose proof (verify_issued_access secret (iq_Subject req) nonce creds defaultAccessTokenTTL now' t false) as Hver.
  cbn zeta in Hver. destruct (Hutf8 _ _ _ Hr Hch Hc) as [Hus Huc]. exists req, v. split; [done|]. split; [done|]. split; [done|]. split.
  - intros [-> _]%(Hver tok Hnonce Hus Huc). simpl. split; [done|]. split; [done|]. by apply buildAccessCreds_spec.
  - split.
    + destruct (VerifyAccessToken _ _ t) as [tok'|]; [|done]. intros _. by apply (Hver tok' Hnonce Hus Huc).
    + intros Hw. by rewrite (proj2 (Hver _ Hnonce Hus Huc) (conj eq_refl Hw)).
Qed.

(** ** The token page of a Slack bundle *)

Definition demo_variant : TokenVariant :=
  mkTokenVariant "browser" "Browser session" "" None
    [ mkTokenField "token" "" "secret" "" "" true "" "";
      mkTokenField "cookie" "" "secret" "" "" false "Cookie" "d={{.}}" ].

Definition demo_service : LoadedService :=
  mkLoadedService (mkBundleService "slack" "Slack" "") [demo_variant] ["slack"] "slack".

(** Bodies for examples: one that is the form, everything else malformed. *)
#[export] Instance demo_issue_json : IssueJSON := {|
  probe_service raw := if decide (raw = "form") then "slack" else "";
  decode_spec _ := None;
  decode_refresh_spec _ := None;
  decode_request raw :=
    if decide (raw = "form")
    then Some (mkIssueRequest "ann" "slack" "browser" {[ "token" := "xoxc"; "cookie" := "xoxd" ]}) else None
|}.

(** A template with one hole at its end. *)
#[export] Instance demo_template : TextTemplate := fun t v =>
  match cut_suffix "{{.}}" t with Some pre => Ok (pre +:+ v) | None => Err (EMsg "template") end.

#[export] Instance demo_template_laws : TextTemplateLaws.
Proof. split; reflexivity. Qed.

Definition demo_form_issue : Z + IssueResponse :=
  tokensIssueHandler (FromSecret "s") (Some (Registry.New [demo_service])) (BodyOk "form") demo_nonce 0 0.

Example demo_form_headers :
  buildAccessCreds demo_variant {[ "token" := "xoxc"; "cookie" := "xoxd" ]} =
  Ok (mkAccessCreds "" [mkHeader "Authorization" "Bearer xoxc"; mkHeader "Cookie" "d=xoxd"]).
Proof. vm_compute. reflexivity. Qed.

Lemma demo_form_utf8 req v creds :
  decode_request "form" = Some req -> chosen [demo_service] req v -> buildAccessCreds v (iq_Fields req) = Ok creds ->
  valid_utf8 (iq_Subject req) = true /\ access_utf8 creds = true.
Proof.
  intros [= <-] ((l & Hl & _ & Hv) & _) Hc. split; [done|]. apply list_elem_of_singleton in Hl as ->.
  apply list_elem_of_singleton in Hv as ->. pose proof (eq_trans (eq_sym demo_form_headers) Hc) as E. by injection E as <-.
Qed.

Lemma tokens_form_issue_witness :
  exists resp tok, demo_form_issue = inr resp /\
    VerifyAccessToken (FromSecret "s") (ir_Token resp) (60 * second) = Ok tok /\ at_Admin tok = false.
Proof.
  assert (exists resp, demo_form_issue = inr resp) as [resp Hr] by (eexists; vm_compute; reflexivity).
  assert (is_ok (VerifyAccessToken (FromSecret "s") (ir_Token resp) (60 * second)) = true) as Hok.
  { destruct (tokens_form_issue "s" [demo_service] "form" demo_nonce 0 0 (60 * second) resp
      (mkAccessToken "" demo_creds false) eq_refl demo_form_utf8 ltac:(vm_compute; discriminate) Hr) as (req & v & _ & _ & _ & _ & Hw).
    apply Hw. vm_compute. split; [discriminate|reflexivity]. }
  destruct (VerifyAccessToken (FromSecret "s") (ir_Token resp) (60 * second)) as [tok|e] eqn:Hv; [|discriminate Hok].
  exists resp, tok. split; [exact Hr|]. split; [exact Hv|].
  destruct (tokens_form_issue "s" [demo_service] "form" demo_nonce 0 0 (60 * second) resp tok
    eq_refl demo_form_utf8 ltac:(vm_compute; discriminate) Hr) as (req & v & _ & _ & _ & Hx & _).
  apply (Hx Hv).
Defined.
