(* ===== verification/Mcp.v ===== *)
(** * The MCP endpoint: internal/server/admin/mcp mcp.go, initialize.go,
    tools.go, resources.go, prompts.go

    [ServeHTTP] decodes one JSON-RPC request, looks the method up in the
    registry and answers with a result, an error, or nothing for a notification
    that succeeds.  The tools are those of [AdminApi], [TrafficApi] and
    [Catalogue].  encoding/json on requests and parameters is the class
    [RpcJSON]; results are the values before encoding.  The theorem: an agent
    that is not an admin can do nothing through this endpoint but file one
    proposal under its own name, and is told nothing that redaction hides. *)

From S2P Require Import Prelude GoStd Models Interfaces PathTemplate Routes Messages Compiled Evaluator EvaluatorFacts PolicyStore ApiRuntime Runtime Stores PolicyService Proposals Traffic TrafficStore TrafficSql Url Auth AdminGate AdminApi TrafficApi Bundles Paths Disk BundleFetch BundleLoad Catalogue.

(** ** The wire *)

Definition codeParseError : Z := -32700.

(** [Request]; [rq_ID] and [rq_Params] are raw JSON, empty when absent. *)
Record Request := mkRpcRequest { rq_JSONRPC : string; rq_ID : string; rq_Method : string; rq_Params : string }.

(** encoding/json on the body and on each method's parameters: a value, or the
    error [Unmarshal] reports. *)
Class RpcJSON := {
  decode_rpc : string -> result Request;
  decode_initialize : string -> result unit;
  decode_call : string -> result (string * string);
  decode_uri : string -> result string;
  decode_prompt : string -> result string;
  decode_list_policies : string -> result string;
  decode_policy_key : string -> result (string * string);
  decode_policy : string -> result Policy;
  decode_list_traffic : string -> result listTrafficArgs;
  decode_traffic_id : string -> result string
}.

(** [Error]: the code, and the error whose text is the message. *)
Record Error := mkRpcError { er_Code : Z; er_Message : goerr }.

Definition invalidParams (ctx : string) (e : goerr) : Error := mkRpcError codeInvalidParams (EWrap ctx e).

(** ** Tools *)

Record schemaProp := mkProp { sp_Name : string; sp_Type : string; sp_Enum : list string }.
Record schemaObject := mkSchema { sc_Properties : list schemaProp; sc_Required : list string }.

(** What a tool gives back: one of the three families. *)
Inductive tool_outcome : Type :=
  | OutAPIs (l : list apiSummary)
  | OutPolicies (r : tool_result)
  | OutTraffic (r : traffic_result).

(** The tool reported an error. *)
Definition tool_failed (o : tool_outcome) : bool :=
  match o with
  | OutPolicies (ToolError _) | OutTraffic (TrafficFailed _ _) => true
  | _ => false
  end.

(** The identifier a new proposal gets and the time. *)
Record call_env := mkCallEnv { ce_id : string; ce_now : Z }.

Record toolDescriptor := mkToolDescriptor { td_Name : string; td_Title : string; td_InputSchema : schemaObject }.

Inductive rpc_result : Type :=
  | RInitialize (protocol name title version : string)
  | RTools (l : list toolDescriptor)
  | RCall (isError : bool) (o : tool_outcome)
  | RResources (l : list resourceDescriptor)
  | RContents (uri mimeType : string) (b : resource_body)
  | RPrompts (l : list string)
  | REmpty.

Definition ProtocolVersion : string := "2025-06-18".
Definition ServerName : string := "bouncer".
Definition ServerTitle : string := "Bouncer".
Definition ServerVersion : string := "0.1.0".

Definition ok_option {A} (r : result A) : option A := match r with Ok a => Some a | Err _ => None end.

Definition prop (n : string) : schemaProp := mkProp n "string" [].

Definition policyInputSchema : schemaObject :=
  mkSchema [prop "api"; prop "name"; prop "description"; prop "principal"; prop "action"; prop "condition";
            mkProp "result" "string" ["permit"; "deny"]]
    ["api"; "name"; "action"; "condition"; "result"].

(** The answer to a request. *)
Inductive rpc_reply : Type :=
  | Reply (id : string) (r : Error + rpc_result)
  | NoContent.

Section server.
Context `{PolicyRuntime R} `{Store St} `{TrafficBackend T} `{RpcJSON}.
Notation PService := (PService R St).

(** [Deps], and the state behind it.  Of the runtime only the specifications
    are read, which no policy operation changes. *)
Record Deps := mkDeps {
  dp_Runtime : Runtime;
  dp_Services : PService;
  dp_HasPolicies : bool;
  dp_HasProposals : bool;
  dp_TrafficStore : option T;
  dp_Bundles : BundleData;
  dp_Docs : Docs
}.

Definition with_services (v : PService) (d : Deps) : Deps :=
mkDeps (dp_Runtime d) v (dp_HasPolicies d) (dp_HasProposals d) (dp_TrafficStore d) (dp_Bundles d) (dp_Docs d).

Definition with_traffic (t : option T) (d : Deps) : Deps :=
mkDeps (dp_Runtime d) (dp_Services d) (dp_HasPolicies d) (dp_HasProposals d) t (dp_Bundles d) (dp_Docs d).

Record tool := mkTool {
  tl_Name : string;
  tl_Title : string;
  tl_InputSchema : schemaObject;
  tl_AdminOnly : bool;
  tl_Run : Caller -> call_env -> string -> Deps -> tool_outcome * Deps
}.

Definition apisTools : list tool :=
[ mkTool "list_apis" "List registered APIs" (mkSchema [] []) false
    (fun _ _ _ d => (OutAPIs (runListAPIs (dp_Runtime d) (dp_Bundles d)), d)) ].

Definition policiesTools : list tool :=
[ mkTool "list_policies" "List live policies" (mkSchema [prop "api"] []) false
    (fun _ _ raw d =>
       (OutPolicies (runListPolicies (dp_HasPolicies d) (ok_option (decode_list_policies raw)) (dp_Services d)), d));
  mkTool "get_policy" "Get a live policy" (mkSchema [prop "api"; prop "name"] ["api"; "name"]) false
    (fun _ _ raw d =>
       (OutPolicies (runGetPolicy (dp_HasPolicies d) (ok_option (decode_policy_key raw)) (dp_Services d)), d));
  mkTool "dry_run_policy" "Validate a draft policy" policyInputSchema false
    (fun _ _ raw d =>
       (OutPolicies (runDryRunPolicy (dp_HasPolicies d) (ok_option (decode_policy raw)) (dp_Services d)), d));
  mkTool "propose_policy" "Propose a new policy" policyInputSchema false
    (fun c m raw d =>
       let '(r, v) := runProposePolicy (dp_HasPolicies d) (dp_HasProposals d) c (ok_option (decode_policy raw))
                        (ce_id m) (ce_now m) (dp_Services d) in
       (OutPolicies r, with_services v d)) ].

Definition trafficTools : list tool :=
[ mkTool "list_traffic" "List recent requests"
    (mkSchema [prop "api"; prop "action"; prop "method"; mkProp "decision" "string" ["permit"; "deny"; "no_match"; "error"];
               prop "path_prefix"; mkProp "limit" "integer" []] []) false
    (fun _ _ raw d =>
       let '(r, t) := runListTraffic (decode_list_traffic raw) (dp_TrafficStore d) in (OutTraffic r, with_traffic t d));
  mkTool "get_traffic_event" "Get one traffic event" (mkSchema [prop "id"] ["id"]) false
    (fun c _ raw d =>
       let '(r, t) := runGetTrafficEvent c (decode_traffic_id raw) (dp_TrafficStore d) in (OutTraffic r, with_traffic t d)) ].

Definition allTools : list tool := apisTools ++ policiesTools ++ trafficTools.

Definition handleToolsList (c : Caller) : list toolDescriptor :=
map (fun t => mkToolDescriptor (tl_Name t) (tl_Title t) (tl_InputSchema t))
  (List.filter (fun t => negb (tl_AdminOnly t && negb (IsAdmin c))) allTools).

Definition handleToolsCall (c : Caller) (m : call_env) (params : string) (d : Deps) : (Error + rpc_result) * Deps :=
match decode_call params with
| Err e => (inl (invalidParams "could not decode params" e), d)
| Ok (name, arguments) =>
    if decide (name = "") then (inl (mkRpcError codeInvalidParams (EMsg "name is required")), d)
    else
      match List.find (fun t => bool_decide (tl_Name t = name)) allTools with
      | None => (inl (mkRpcError codeMethodNotFound (EWrap "tool not found" (EMsg name))), d)
      | Some t =>
          if tl_AdminOnly t && negb (bool_decide (cl_Role c = RoleAdmin))
          then (inl (mkRpcError codeInvalidRequest (EWrap "requires the admin role" (EMsg name))), d)
          else
            let args := if decide (arguments = "") then "{}" else arguments in
            let '(o, d) := tl_Run t c m args d in (inr (RCall (tool_failed o) o), d)
      end
end.

(** ** The other methods *)

Definition handleInitialize (params : string) : Error + rpc_result :=
let ok := inr (RInitialize ProtocolVersion ServerName ServerTitle ServerVersion) in
if decide (params = "") then ok
else match decode_initialize params with Err e => inl (invalidParams "could not decode params" e) | Ok _ => ok end.

Definition resources_read (params : string) (d : Deps) : Error + rpc_result :=
match decode_uri params with
| Err e => inl (invalidParams "could not decode params" e)
| Ok uri =>
    match handleResourcesRead (dp_Docs d) (dp_Runtime d) (bd_Readmes (dp_Bundles d)) uri with
    | inl msg => inl (mkRpcError codeInvalidParams (EMsg msg))
    | inr b => inr (RContents uri (match b with APIsJSON _ => "application/json" | Markdown _ => "text/markdown" end) b)
    end
end.

Definition handlePromptsGet (params : string) : Error + rpc_result :=
match decode_prompt params with
| Err e => inl (invalidParams "could not decode params" e)
| Ok name => inl (mkRpcError codeInvalidParams (EWrap "unknown prompt" (EMsg name)))
end.

(** A method handler, and the registry [New] fills. *)
Definition methodHandler : Type := Caller -> call_env -> string -> Deps -> (Error + rpc_result) * Deps.

Definition pure_handler (h : Caller -> string -> Deps -> Error + rpc_result) : methodHandler :=
fun c _ params d => (h c params d, d).

(** [None] is the panic on a duplicate. *)
Definition register (name : string) (h : methodHandler) (ms : gmap string methodHandler) : option (gmap string methodHandler) :=
match ms !! name with Some _ => None | None => Some (<[name := h]> ms) end.

Definition builtin_methods : list (string * methodHandler) :=
[ ("initialize", pure_handler (fun _ params _ => handleInitialize params));
  ("tools/list", pure_handler (fun c _ _ => inr (RTools (handleToolsList c))));
  ("tools/call", handleToolsCall);
  ("resources/list", pure_handler (fun _ _ d => inr (RResources (handleResourcesList (bd_Readmes (dp_Bundles d))))));
  ("resources/read", pure_handler (fun _ params d => resources_read params d));
  ("prompts/list", pure_handler (fun _ _ _ => inr (RPrompts [])));
  ("prompts/get", pure_handler (fun _ params _ => handlePromptsGet params));
  ("notifications/initialized", pure_handler (fun _ _ _ => inr REmpty));
  ("ping", pure_handler (fun _ _ _ => inr REmpty)) ].

Definition New : option (gmap string methodHandler) :=
foldl (fun ms nh => ms ← ms; register nh.1 nh.2 ms) (Some ∅) builtin_methods.

Definition MaxBodyBytes : Z := 2 ^ 20.

(** [ServeHTTP] *)
Definition ServeHTTP (ms : gmap string methodHandler) (c : Caller) (m : call_env) (b : body string) (d : Deps) : rpc_reply * Deps :=
let refuse id code e := (Reply id (inl (mkRpcError code e)), d) in
match b with
| BodyTooLarge => refuse "" codeInvalidRequest (EMsg "request body too large")
| BodyInvalid => refuse "" codeInvalidRequest (EMsg "could not read body")
| BodyOk raw =>
    match decode_rpc raw with
    | Err e => refuse "" codeParseError (EWrap "invalid JSON" e)
    | Ok req =>
        if negb (bool_decide (rq_JSONRPC req = "2.0")) then refuse (rq_ID req) codeInvalidRequest (EMsg "jsonrpc must be 2.0")
        else if decide (rq_Method req = "") then refuse (rq_ID req) codeInvalidRequest (EMsg "method is required")
        else
          match ms !! rq_Method req with
          | None => refuse (rq_ID req) codeMethodNotFound (EWrap "method not found" (EMsg (rq_Method req)))
          | Some h =>
              match h c m (rq_Params req) d with
              | (inl e, d) => (Reply (rq_ID req) (inl e), d)
              | (inr r, d) => (if decide (rq_ID req = "") then NoContent else Reply (rq_ID req) (inr r), d)
              end
          end
    end
end.
End server.

(** ** What a request can do and see *)

Section facts.
Context `{PolicyRuntime R} `{Store St} `{RedactedReads T} `{RpcJSON}.
Notation PService := (PService R St).
Implicit Types s : PService.

Definition methods : gmap string (methodHandler (R := R) (St := St) (T := T)) := list_to_map builtin_methods.

Lemma New_methods : New = Some methods.
Proof. reflexivity. Qed.

(** The draft a caller filed. *)
Definition filed (c : Caller) (id : string) (p : Proposal) : Prop :=
p_ID p = id /\ p_Author p = cl_Subject c /\ p_Status p = StatusProposed.

(** Nothing changed, or one draft was filed. *)
Definition files_at_most (c : Caller) (id : string) (s s' : PService) : Prop :=
pv_policies s' = pv_policies s /\
(db_rows (pv_store s') = db_rows (pv_store s) \/
 exists p, db_rows (pv_store s') = <[id := p]> (db_rows (pv_store s)) /\ filed c id p).

Lemma PCreate_files c i id now s r s' :
ci_Author i = cl_Subject c -> PCreate i id now s = (r, s') -> files_at_most c id s s'.
Proof.
intros Ha. unfold PCreate. destruct (mbind _ _); [|intros [= <- <-]; split; [done|by left]].
unfold store_proposal, db_put. destruct (pop _) as [[] fs]; intros [= <- <-]; (split; [done|]); [by left|].
right. eexists. split; [done|]. by repeat split.
Qed.

Lemma propose_files c hp hq arg id now s r s' :
IsAdmin c = false -> runProposePolicy hp hq c arg id now s = (r, s') -> files_at_most c id s s'.
Proof.
intros Hc. assert (files_at_most c id s s) as Hs by (split; [done|by left]).
unfold runProposePolicy. destruct hp; simpl; [|by intros [= <- <-]].
destruct arg as [p|]; [|by intros [= <- <-]]. destruct (Validate _ _); [|by intros [= <- <-]].
destruct (is_ok _); [by intros [= <- <-]|]. rewrite Hc. simpl. destruct hq; simpl; [|by intros [= <- <-]].
destruct (PCreate _ _ _ s) as [q s1] eqn:Hq. apply (PCreate_files c) in Hq; [|done].
destruct q; by intros [= <- <-].
Qed.

(** What an agent that is not an admin has in view: not the drafts of others,
    and of the recorded traffic what redaction leaves. *)
Record same_view (d d' : Deps (R := R) (St := St) (T := T)) : Prop := {
vw_runtime : dp_Runtime d = dp_Runtime d';
vw_policies : pv_policies (dp_Services d) = pv_policies (dp_Services d');
vw_faults : db_faults (pv_store (dp_Services d)) = db_faults (pv_store (dp_Services d'));
vw_has : dp_HasPolicies d = dp_HasPolicies d' /\ dp_HasProposals d = dp_HasProposals d';
vw_bundles : dp_Bundles d = dp_Bundles d';
vw_docs : dp_Docs d = dp_Docs d';
vw_traffic : option_Forall2 view_alike (dp_TrafficStore d) (dp_TrafficStore d')
}.

Lemma PCreate_view i id now s s2 :
pv_policies s = pv_policies s2 -> db_faults (pv_store s) = db_faults (pv_store s2) ->
(PCreate i id now s).1 = (PCreate i id now s2).1 /\
pv_policies (PCreate i id now s).2 = pv_policies (PCreate i id now s2).2 /\
db_faults (pv_store (PCreate i id now s).2) = db_faults (pv_store (PCreate i id now s2).2).
Proof.
intros Hp Hf. unfold PCreate. rewrite Hp. destruct (mbind _ _); [|done].
unfold store_proposal, db_put. rewrite Hf. by destruct (pop _) as [[] fs].
Qed.

Lemma propose_view c hp hq arg id now s s2 :
IsAdmin c = false ->
pv_policies s = pv_policies s2 -> db_faults (pv_store s) = db_faults (pv_store s2) ->
let x := runProposePolicy hp hq c arg id now s in
let y := runProposePolicy hp hq c arg id now s2 in
x.1 = y.1 /\ pv_policies x.2 = pv_policies y.2 /\ db_faults (pv_store x.2) = db_faults (pv_store y.2).
Proof.
intros Hc Hp Hf. cbn zeta. unfold runProposePolicy. rewrite Hp, Hc. destruct hp; simpl; [|done].
destruct arg as [p|]; [|done]. destruct (Validate _ _); [|done]. destruct (is_ok _); [done|].
destruct hq; simpl; [|done].
destruct (PCreate_view (mkCreateInput "" p (mkOrigin OriginAgent (cl_Subject c) "") (cl_Subject c) "") id now s s2 Hp Hf)
  as (E1 & E2 & E3).
destruct (PCreate _ id now s) as [q s'], (PCreate _ id now s2) as [q2 s2']. simpl in *. subst q2. by destruct q.
Qed.

Lemma runListTraffic_view args (t t2 : option T) :
option_Forall2 view_alike t t2 ->
(runListTraffic args t).1 = (runListTraffic args t2).1 /\
option_Forall2 view_alike (runListTraffic args t).2 (runListTraffic args t2).2.
Proof.
intros [s s2 Hs|]; simpl; [|by repeat constructor]. destruct args as [a|e]; simpl; [|by repeat constructor].
destruct (alike_List (tool_opts a) s s2 Hs) as [E1 E2].
destruct (tb_List _ s) as [r s'], (tb_List _ s2) as [r2 s2']. simpl in *. subst r2.
destruct r as [[rows next]|e]; by repeat constructor.
Qed.

Lemma runGetTrafficEvent_view c args (t t2 : option T) :
IsAdmin c = false -> option_Forall2 view_alike t t2 ->
(runGetTrafficEvent c args t).1 = (runGetTrafficEvent c args t2).1 /\
option_Forall2 view_alike (runGetTrafficEvent c args t).2 (runGetTrafficEvent c args t2).2.
Proof.
intros Hc [s s2 Hs|]; simpl; [|by repeat constructor]. destruct args as [id|e]; simpl; [|by repeat constructor].
destruct (decide (id = "")); [by repeat constructor|].
destruct (alike_Get id s s2 Hs) as [E1 E2].
destruct (tb_Get _ s) as [r s'], (tb_Get _ s2) as [r2 s2']. simpl in *. rewrite Hc.
assert (forall (a b : redactedEvent), @Ok redactedEvent a = Ok b -> a = b) as Hok by by intros a b [=].
destruct r as [ev|e], r2 as [ev2|e2]; try discriminate E1; simpl in *; (split; [|by constructor]).
- by rewrite (Hok _ _ E1).
- by injection E1 as ->.
Qed.

(** A step of an agent that is not an admin, in both respects. *)
Definition modest {A} (f : Deps -> A * Deps) (c : Caller) (id : string) : Prop :=
(forall d, files_at_most c id (dp_Services d) (dp_Services (f d).2)) /\
(forall d d', same_view d d' -> (f d).1 = (f d').1 /\ same_view (f d).2 (f d').2).

Lemma files_same c id s : files_at_most c id s s.
Proof. split; [done|by left]. Qed.

Lemma modest_read {A} (f : Deps -> A) c id :
(forall d d', same_view d d' -> f d = f d') -> modest (fun d => (f d, d)) c id.
Proof. intros Hf. split; [intros d; apply files_same|]. intros d d' Hv. split; [by apply Hf|done]. Qed.

Lemma modest_map {A B} (g : A -> B) f c id :
modest f c id -> modest (fun d => let '(a, d) := f d in (g a, d)) c id.
Proof.
intros [Ha Hb]. split.
- intros d. specialize (Ha d). by destruct (f d).
- intros d d' Hv. specialize (Hb d d' Hv). destruct (f d), (f d'). simpl in *. by destruct Hb as [-> ?].
Qed.

Lemma same_view_services d d' v v' :
same_view d d' -> pv_policies v = pv_policies v' -> db_faults (pv_store v) = db_faults (pv_store v') ->
same_view (with_services v d) (with_services v' d').
Proof. intros [] ? ?. by split. Qed.

Lemma same_view_traffic d d' t t' :
same_view d d' -> option_Forall2 view_alike t t' -> same_view (with_traffic t d) (with_traffic t' d').
Proof. intros [] ?. by split. Qed.

Lemma modest_propose c m raw :
IsAdmin c = false ->
modest (fun d => let '(r, v) := runProposePolicy (dp_HasPolicies d) (dp_HasProposals d) c (ok_option (decode_policy raw))
                                  (ce_id m) (ce_now m) (dp_Services d) in
                 (OutPolicies r, with_services v d)) c (ce_id m).
Proof.
intros Hc. split.
- intros d. destruct (runProposePolicy _ _ _ _ _ _ _) as [r v] eqn:Hr. simpl. by apply propose_files in Hr.
- intros d d' Hv. pose proof Hv as [_ Hp Hf [<- <-] _ _ _].
  pose proof (propose_view c (dp_HasPolicies d) (dp_HasProposals d) (ok_option (decode_policy raw)) (ce_id m) (ce_now m)
    (dp_Services d) (dp_Services d') Hc Hp Hf) as (E1 & E2 & E3).
  destruct (runProposePolicy _ _ _ _ _ _ (dp_Services d)) as [r v], (runProposePolicy _ _ _ _ _ _ (dp_Services d')) as [r' v'].
  simpl in *. subst r'. split; [done|]. by apply same_view_services.
Qed.

Lemma modest_traffic c m (f : option T -> traffic_result * option T) :
(forall t t', option_Forall2 view_alike t t' -> (f t).1 = (f t').1 /\ option_Forall2 view_alike (f t).2 (f t').2) ->
modest (fun d => let '(r, t) := f (dp_TrafficStore d) in (OutTraffic r, with_traffic t d)) c m.
Proof.
intros Hf. split.
- intros d. destruct (f _) as [r t]. apply files_same.
- intros d d' Hv. destruct (Hf _ _ (vw_traffic _ _ Hv)) as [E1 E2].
  destruct (f (dp_TrafficStore d)) as [r t], (f (dp_TrafficStore d')) as [r' t']. simpl in *. subst r'.
  split; [done|]. by apply same_view_traffic.
Qed.

Lemma tools_modest c m raw :
IsAdmin c = false -> Forall (fun t => modest (tl_Run t c m raw) c (ce_id m)) allTools.
Proof.
intros Hc. unfold allTools. simpl. repeat (apply Forall_cons; split); [..|apply Forall_nil; exact I]; cbn [tl_Run].
- apply modest_read. by intros d d' [-> _ _ _ -> _ _].
- apply modest_read. unfold runListPolicies. by intros d d' [_ -> _ [-> _] _ _ _].
- apply modest_read. unfold runGetPolicy. by intros d d' [_ -> _ [-> _] _ _ _].
- apply modest_read. unfold runDryRunPolicy. by intros d d' [_ -> _ [-> _] _ _ _].
- by apply modest_propose.
- apply modest_traffic. intros t t'. apply runListTraffic_view.
- apply modest_traffic. intros t t'. by apply runGetTrafficEvent_view.
Qed.

Lemma toolsCall_modest c m params :
IsAdmin c = false -> modest (handleToolsCall c m params) c (ce_id m).
Proof.
intros Hc. unfold handleToolsCall.
destruct (decode_call params) as [[name args]|e]; [|by apply modest_read].
destruct (decide (name = "")); [by apply modest_read|].
destruct (List.find _ allTools) as [t|] eqn:Et; [|by apply modest_read].
destruct (tl_AdminOnly t && _); [by apply modest_read|].
apply modest_map. apply find_some in Et as [Ht _].
pose proof (tools_modest c m (if decide (args = "") then "{}" else args) Hc) as Hall.
rewrite Forall_forall in Hall. apply Hall. by apply list_elem_of_In.
Qed.

Lemma methods_modest c m params name h :
IsAdmin c = false -> methods !! name = Some h ->
modest (h c m params) c (ce_id m).
Proof.
intros Hc Hh%elem_of_list_to_map_2. unfold builtin_methods in Hh.
rewrite !elem_of_cons, elem_of_nil in Hh.
destruct Hh as [[= _ ->]|[[= _ ->]|[[= _ ->]|[[= _ ->]|[[= _ ->]|[[= _ ->]|[[= _ ->]|[[= _ ->]|[[= _ ->]|[]]]]]]]]]].
2: { apply modest_read. done. }
2: { by apply toolsCall_modest. }
all: apply modest_read; try done; intros d d' [Hr _ _ _ Hb Hd _].
- by rewrite Hb.
- unfold resources_read. by rewrite Hr, Hb, Hd.
Qed.

Lemma serve_modest ms c m b :
IsAdmin c = false -> New = Some ms -> modest (ServeHTTP ms c m b) c (ce_id m).
Proof.
intros Hc. rewrite New_methods. intros [= <-]. unfold ServeHTTP.
destruct b as [| |raw]; [by apply modest_read..|]. destruct (decode_rpc raw) as [req|e]; [|by apply modest_read].
destruct (negb _); [by apply modest_read|]. destruct (decide _); [by apply modest_read|].
destruct (methods !! rq_Method req) as [h|] eqn:Eh; [|by apply modest_read].
pose proof (methods_modest c m (rq_Params req) _ h Hc Eh) as Hm. split.
- intros d. destruct Hm as [Hm _]. specialize (Hm d). by destruct (h _ _ _ d) as [[e|r] d'].
- intros d d' Hv. destruct Hm as [_ Hm]. specialize (Hm d d' Hv).
  destruct (h _ _ _ d) as [[e|r] d1], (h _ _ _ d') as [[e'|r'] d2]; simpl in *; destruct Hm as [E Hm]; simplify_eq; done.
Qed.
End facts.

(** C4. An agent is confined by the MCP endpoint.  Whatever bytes a caller who
    is not an admin posts, the enforced policies are the same afterwards and
    the proposals too, but for at most one new draft under the caller's own
    subject that awaits review; and the answer is the one the caller would get
    from any deployment that looks the same to it: with other drafts of other
    people, and with recorded requests that differ in headers, bodies, binds,
    fetches or policy traces. *)
Theorem mcp_agent_confined `{PolicyRuntime R} `{Store St} `{RedactedReads T} `{RpcJSON}
    (ms : gmap string (methodHandler (R := R) (St := St) (T := T))) (c : Caller) (m : call_env) (b : body string)
    (d d2 : Deps) (Hms : New = Some ms) (Hc : IsAdmin c = false) :
  let d' := (ServeHTTP ms c m b d).2 in
  pv_policies (dp_Services d') = pv_policies (dp_Services d) /\
  (db_rows (pv_store (dp_Services d')) = db_rows (pv_store (dp_Services d)) \/
   exists p, db_rows (pv_store (dp_Services d')) = <[ce_id m := p]> (db_rows (pv_store (dp_Services d))) /\
     p_ID p = ce_id m /\ p_Author p = cl_Subject c /\ p_Status p = StatusProposed) /\
  (same_view d d2 -> (ServeHTTP ms c m b d).1 = (ServeHTTP ms c m b d2).1).
Proof.
  cbn zeta. destruct (serve_modest ms c m b Hc Hms) as [Hf Hv]. destruct (Hf d) as [Hp Hr].
  split; [done|]. split; [done|]. intros Hd. by apply Hv.
Qed.

(** ** An agent that files a draft and looks at a recorded request *)

(** Every body is a call of the tool it names. *)
#[export] Instance demo_rpc : RpcJSON := {|
  decode_rpc raw := Ok (mkRpcRequest "2.0" "1" "tools/call" raw);
  decode_initialize _ := Ok tt;
  decode_call raw := Ok (raw, "");
  decode_uri raw := Ok raw;
  decode_prompt raw := Ok raw;
  decode_list_policies _ := Ok "";
  decode_policy_key _ := Ok ("a", "v");
  decode_policy _ := Ok (doc_policy "a" "v2" Permit);
  decode_list_traffic _ := Ok (mkListTrafficArgs "" "" "" "" "" 0);
  decode_traffic_id _ := Ok "a"
|}.

Definition event_with_body (body : string) : Event :=
  mkEvent "a" 3 "ann" "POST" "/" [] body "api" "" [] [] "permit" "" [] 200 [] "" 0 "" false.

Definition demo_deps (body : string) : Deps (R := Runtime) (St := sqliteStore) (T := memoryStore) :=
  mkDeps no_apis demo_created true true
    (Some (TrafficStore.Insert (event_with_body body) 10 (newMemoryStore (mkOptions 0 0))))
    (mkBundleData ∅ ∅ []) demo_docs.

#[local] Existing Instance demo_cel.

Definition demo_post (tool body : string) :=
  ServeHTTP methods bob (mkCallEnv "p2" 20) (BodyOk tool) (demo_deps body).

Lemma demo_same_view : same_view (demo_deps "secret") (demo_deps "nothing").
Proof.
  split; try done. constructor.
  assert (forall z, mem_inv (TrafficStore.Insert (event_with_body z) 10 (newMemoryStore (mkOptions 0 0)))) as Hi.
  { intros z. apply Insert_spec, newMemoryStore_inv. }
  split; [apply Hi|]. split; [apply Hi|]. intros id.
  set (s := TrafficStore.Insert _ _ _). set (t := TrafficStore.Insert _ _ _).
  assert (ms_byID s = {[ "a" := mkElem 0 (event_with_body "secret") 152 ]}) as -> by (vm_compute; reflexivity).
  assert (ms_byID t = {[ "a" := mkElem 0 (event_with_body "nothing") 153 ]}) as -> by (vm_compute; reflexivity).
  destruct (decide (id = "a")) as [->|Hne]; [reflexivity|]. by rewrite !lookup_singleton_ne.
Qed.

Lemma mcp_agent_confined_witness :
  (demo_post "get_traffic_event" "secret").1 = (demo_post "get_traffic_event" "nothing").1 /\
  exists p, Proposals.row (dp_Services (demo_post "propose_policy" "secret").2) "p2" = Some p /\ p_Author p = "bob".
Proof.
  split.
  - destruct (mcp_agent_confined methods bob (mkCallEnv "p2" 20) (BodyOk "get_traffic_event") (demo_deps "secret")
      (demo_deps "nothing") New_methods eq_refl) as (_ & _ & H). exact (H demo_same_view).
  - destruct (mcp_agent_confined methods bob (mkCallEnv "p2" 20) (BodyOk "propose_policy") (demo_deps "secret")
      (demo_deps "secret") New_methods eq_refl) as (_ & [H|(p & H & _ & Ha & _)] & _).
    + exfalso. apply (f_equal (fun m => is_some_b (m !! "p2"))) in H. vm_compute in H. discriminate H.
    + exists p. split; [|exact Ha]. etrans; [exact (f_equal (fun m => m !! "p2") H)|]. apply lookup_insert_eq.
Defined.

(** The redacted answer, in full. *)
Example demo_redacted :
  (demo_post "get_traffic_event" "secret").1 =
  Reply "1" (inr (RCall false (OutTraffic (TrafficRedacted (redactedTrafficEvent (event_with_body "")))))).
Proof. vm_compute. reflexivity. Qed.

(** Any agent is shown the requests of every subject. *)
Example demo_lists_everyone :
  (demo_post "list_traffic" "secret").1 =
  Reply "1" (inr (RCall false (OutTraffic (TrafficRows [summary (event_with_body "")])))).
Proof. vm_compute. reflexivity. Qed.
