(* ===== verification/Boot.v ===== *)
(** * Boot: internal/server load.go, server.go (NewServer), mount.go and the
    loading half of internal/server/admin internal_policy.go and internal_apis

    [Load] turns directories and stores into a server: the bundles are loaded
    ([BundleLoad]), their APIs compiled ([Runtime]), the stored policies replayed
    ([PolicyService]), and the embedded policies of the chosen set loaded into a
    second runtime that gates the control plane ([AdminGate]).  What the YAML
    decoder makes of the embedded files is a parameter; so is every class of the
    parts.  The theorem: a server that boots enforces exactly the policies of its
    store over exactly the APIs found, and a boot only reads. *)

From S2P Require Import Prelude GoStd GoTime Models Interfaces PathTemplate Routes Messages Compiled Evaluator EvaluatorFacts PolicyStore ApiRuntime Runtime Stores FileStore PolicyService Proposals Traffic TrafficStore TrafficSql Z85 Ids Auth Url Paths Disk Bundles BundleFetch BundleLoad DataDir Config TrafficApi Catalogue Mcp.

(** ** [internal_policy.go] *)

Definition InternalAPIName : string := "bouncer-internal".

Section internal.
Context `{CelEngine}.
Variable url_Parse_ok : string -> bool.

(** The embedded api.yaml as [yaml.Unmarshal] decodes it, and the documents of a
    policy file as [dec.Decode] gives them. *)
Variable embedded_api : result API.
Variable embedded_policies : string -> result (list (result Policy)).

(** [Policies] *)
Definition Policies (set : string) : result (list (result Policy)) :=
  _ ← set_Validate set; embedded_policies set.

(** The loop of [decodeInternalPolicies]: the first bad document ends it. *)
Fixpoint decodeInternalPolicies (docs : list (result Policy)) : result (list Policy) :=
  match docs with
  | [] => Ok []
  | d :: docs => p ← d; ps ← decodeInternalPolicies docs; Ok (p :: ps)
  end.

Fixpoint add_policies (ps : list Policy) (rt : Runtime) : result Runtime :=
  match ps with
  | [] => Ok rt
  | p :: ps => match AddPolicy p rt with (Err e, _) => Err (EWrap "add embedded policy" e) | (Ok _, rt) => add_policies ps rt end
  end.

Definition LoadInternalRuntime (set : string) : result Runtime :=
  _ ← set_Validate set;
  spec ← wrap_err "decode embedded api.yaml" embedded_api;
  if decide (api_Name spec <> InternalAPIName) then Err (EMsg "embedded api.yaml name")
  else
    match AddAPI spec NewBuilder with
    | (Err e, _) => Err (EWrap "register embedded api" e)
    | (Ok _, b) =>
        rt ← wrap_err "build embedded runtime" (Build url_Parse_ok b).1;
        docs ← Policies set;
        ps ← wrap_err "decode embedded policies" (decodeInternalPolicies docs);
        add_policies ps rt
    end.
End internal.

(** ** [server.go] *)

(** What of an [http.Client] the server depends on. *)
Record http_client := mkHttpClient {
  hc_Timeout : Z;
  hc_ResponseHeaderTimeout : Z;
  hc_FollowsRedirects : bool
}.

(** [http.DefaultClient] *)
Definition default_client : http_client := mkHttpClient 0 0 true.

Section server.
Context `{CelEngine} `{Store St} `{TrafficBackend T}.
Notation Services := (PService Runtime St).

(** [Dependencies]; the runtime is the one the policy service edits. *)
Record Dependencies := mkDependencies {
dn_Services : Services;
dn_HasPolicies : bool;
dn_HasProposals : bool;
dn_Keys : ServerKeys;
dn_HTTPClient : option http_client;
dn_ForwardClient : option http_client;
dn_StreamIdleTimeout : Z;
dn_RefreshTTL : Z;
dn_HasRecorder : bool;
dn_TrafficStore : option T;
dn_AdminPasswordHash : string;
dn_MITMCAPath : string;
dn_BundleData : BundleData;
dn_Registry : option Registry.Registry;
dn_InternalRuntime : option Runtime
}.

Record Server := mkServer {
srv_deps : Dependencies;
srv_httpClient : http_client;
srv_forwardClient : http_client
}.

Definition NewServer (d : Dependencies) : Server :=
  let http := default default_client (dn_HTTPClient d) in
  mkServer d http (default http (dn_ForwardClient d)).

Definition srv_policies (s : Server) : Service Runtime St := pv_policies (dn_Services (srv_deps s)).
Definition srv_runtime (s : Server) : Runtime := sv_rt (srv_policies s).

(** [Server.APINames] *)
Definition srv_APINames (s : Server) : list string := APINames (srv_runtime s).

(** [mountControlPlane]: the groups of routes that are mounted. *)
Definition mountControlPlane (s : Server) : list string :=
  let d := srv_deps s in
  ["static"; "admin"; "login"; "whoami"; "apis"; "docs"; "ca"; "settings"; "services"; "tokens"]
  ++ (if is_some_b (dn_TrafficStore d) then ["traffic"] else [])
  ++ (if dn_HasPolicies d then ["policies"] else [])
  ++ (if dn_HasProposals d then ["proposals"] else [])
  ++ ["mcp"; "well-known"; "oauth"].

(** The [mcp.Deps] it builds. *)
Definition mcp_deps (docs : Docs) (s : Server) : Mcp.Deps (R := Runtime) (St := St) (T := T) :=
  let d := srv_deps s in
  mkDeps (srv_runtime s) (dn_Services d) (dn_HasPolicies d) (dn_HasProposals d) (dn_TrafficStore d) (dn_BundleData d) docs.

(** ** [load.go] *)

Context `{BundleYaml}.
Variable url_Parse_ok : string -> bool.
Variable embedded_api : result API.
Variable embedded_policies : string -> result (list (result Policy)).

Record server_config := mkServerConfig {
sc_ApisDir : string;
sc_PolicyStore : option St;
sc_PolicyStoreReadOnly : bool;
sc_ProposalStore : option proposalDB;
sc_UpstreamCallTimeout : Z;
sc_StreamIdleTimeout : Z;
sc_RefreshTTL : Z;
sc_AdminPasswordHash : string;
sc_MITMCAPath : string;
sc_InternalPolicies : string;
sc_TrafficStore : option T;
sc_HasRecorder : bool
}.

(** The loop over what was loaded. *)
Fixpoint register_all (loaded : list LoadedAPI) (b : Builder) : result Builder :=
  match loaded with
  | [] => Ok b
  | l :: loaded =>
      match AddAPI (la_Spec l) b with
      | (Err e, _) => Err (EWrap "register api" e)
      | (Ok _, b) => register_all loaded b
      end
  end.

(** The runtime that the loaded APIs compile to. *)
Definition compile_loaded (loaded : list LoadedAPI) : result Runtime :=
  b ← register_all loaded NewBuilder; wrap_err "compile runtime" (Build url_Parse_ok b).1.

Definition internal_set (set : string) : string := if decide (set = "") then PolicySetSimple else set.

Definition Load (c : server_config) (keys : ServerKeys) : io Server :=
  do found <- io_try (LoadAll (sc_ApisDir c));
  do loaded <- io_lift (wrap_err "load apis" found);
  do rt <- io_lift (compile_loaded loaded);
  match sc_PolicyStore c, sc_ProposalStore c with
  | None, _ => io_fail (EMsg "Config.PolicyStore is required")
  | _, None => io_fail (EMsg "Config.ProposalStore is required")
  | Some store, Some proposals =>
      match LoadFromStore (PolicyService.New rt store) with
      | (Some e, _) => io_fail (EWrap "load policies" e)
      | (None, service) =>
          let service := SetReadOnly (sc_PolicyStoreReadOnly c) service in
          do internal <- io_lift (wrap_err "load internal-policies"
            (LoadInternalRuntime url_Parse_ok embedded_api embedded_policies (internal_set (sc_InternalPolicies c))));
          let services := BundleLoad.Services loaded in
          io_ret (NewServer (mkDependencies
            (mkPService proposals service) true true keys
            (Some (mkHttpClient (sc_UpstreamCallTimeout c) (sc_UpstreamCallTimeout c) false))
            (Some (mkHttpClient 0 (sc_UpstreamCallTimeout c) false))
            (sc_StreamIdleTimeout c) (sc_RefreshTTL c) (sc_HasRecorder c) (sc_TrafficStore c)
            (sc_AdminPasswordHash c) (sc_MITMCAPath c)
            (mkBundleData (Readmes loaded) (APIBundles loaded) services)
            (Some (Registry.New services)) (Some internal)))
      end
  end.
End server.

(** ** What a build holds *)

Section build_facts.
Context `{CelEngine}.
Variable url_Parse_ok : string -> bool.

(** An API runtime without policies, of the specification [a]. *)
Definition fresh_api (n : string) (a : API) (ar : APIRuntime) : Prop :=
  ar_name ar = n /\ ar_baseURL ar = api_BaseURL a /\ ar_store ar = newPolicyStore.

Lemma build_apis_holds reg metas ps apis specs apis' specs' :
  build_apis url_Parse_ok reg metas ps apis specs = Ok (apis', specs') ->
  (forall n s, specs' !! n = Some s -> specs !! n = Some s \/ exists p, p ∈ ps /\ pa_spec p = s /\ api_Name s = n) /\
  (forall n ar, apis' !! n = Some ar -> apis !! n = Some ar \/
     exists p, p ∈ ps /\ api_Name (pa_spec p) = n /\ fresh_api n (pa_spec p) ar) /\
  (forall n, is_Some (specs !! n) \/ (exists p, p ∈ ps /\ api_Name (pa_spec p) = n) -> is_Some (specs' !! n)).
Proof.
  revert apis specs. induction ps as [|p ps IH]; intros apis specs; cbn [build_apis].
  - intros [= <- <-]. split; [auto|]. split; [auto|]. intros n [?|(p & Hp & _)]; [done|by apply not_elem_of_nil in Hp].
  - intros E. apply bind_ok in E as (rt & Ert & E). apply IH in E as (H1 & H2 & H3). split; [|split].
    + intros n s Hs. destruct (H1 n s Hs) as [Hi|(q & Hq & ?)]; [|right; exists q; by split; [right|]].
      apply lookup_insert_Some in Hi as [[<- <-]|[_ Hi]]; [|by left]. right. exists p. by split; [left|].
    + intros n ar Ha. destruct (H2 n ar Ha) as [Hi|(q & Hq & ?)]; [|right; exists q; by split; [right|]].
      apply lookup_insert_Some in Hi as [[<- <-]|[_ Hi]]; [|by left]. right. exists p. split; [left|]. split; [done|].
      unfold compileAPIActions in Ert. apply bind_ok in Ert as (acts & _ & Ert).
      destruct (negb _); [done|]. apply bind_ok in Ert as (? & _ & Ert). apply bind_ok in Ert as (? & _ & [= <-]). done.
    + intros n Hn. apply H3. destruct Hn as [Hn|(q & [->|Hq]%elem_of_cons & Hn)].
      * left. destruct (decide (api_Name (pa_spec p) = n)) as [->|]; [by rewrite lookup_insert_eq|by rewrite lookup_insert_ne].
      * left. rewrite Hn, lookup_insert_eq. by eexists.
      * right. by exists q.
Qed.

Lemma register_all_pending loaded b b' :
  register_all loaded b = Ok b' -> b_built b' = b_built b /\
  forall n p, b_pending b' !! n = Some p ->
    b_pending b !! n = Some p \/ exists l, l ∈ loaded /\ la_Spec l = pa_spec p /\ api_Name (pa_spec p) = n.
Proof.
  revert b. induction loaded as [|l loaded IH]; intros b; cbn [register_all]; [intros [= <-]; auto|].
  destruct (AddAPI_cases (la_Spec l) b) as [[_ ->]|[_ [e ->]]]; [|done]. intros [Hb Hp]%IH. split; [done|].
  intros n p Hn. destruct (Hp n p Hn) as [Hi|(x & Hx & ?)]; [|right; exists x; by split; [right|]].
  simpl in Hi. apply lookup_insert_Some in Hi as [[<- <-]|[_ Hi]]; [|by left]. right. exists l. by split; [left|].
Qed.

Lemma register_all_keeps loaded b b' :
  register_all loaded b = Ok b' -> forall n p, b_pending b !! n = Some p -> b_pending b' !! n = Some p.
Proof.
  revert b. induction loaded as [|l loaded IH]; intros b; cbn [register_all]; [by intros [= <-]|].
  destruct (AddAPI_cases (la_Spec l) b) as [[Ha ->]|[_ [e ->]]]; [|done]. intros Hr n p Hn. eapply IH; [done|]. simpl.
  apply lookup_insert_Some. right. split; [|done]. intros E. pose proof (acc_new _ _ Ha). congruence.
Qed.

Lemma register_all_in loaded b b' :
  register_all loaded b = Ok b' -> forall l, l ∈ loaded ->
  exists p, b_pending b' !! api_Name (la_Spec l) = Some p /\ pa_spec p = la_Spec l.
Proof.
  revert b. induction loaded as [|x loaded IH]; intros b; cbn [register_all]; [intros _ l Hl; by apply not_elem_of_nil in Hl|].
  destruct (AddAPI_cases (la_Spec x) b) as [[Ha ->]|[_ [e ->]]]; [|done]. intros Hr l [->|Hl]%elem_of_cons; [|by eapply IH].
  eexists. split; [eapply register_all_keeps; [done|]; simpl; by rewrite lookup_insert_eq|done].
Qed.

(** A build has the specifications that were registered, and no policy. *)
Lemma compile_loaded_holds loaded rt :
  compile_loaded url_Parse_ok loaded = Ok rt ->
  (forall n s, r_specs rt !! n = Some s <-> exists l, l ∈ loaded /\ la_Spec l = s /\ api_Name s = n) /\
  (forall n ar, r_apis rt !! n = Some ar -> exists l, l ∈ loaded /\ fresh_api n (la_Spec l) ar).
Proof.
  unfold compile_loaded. intros E. apply bind_ok in E as (b & Eb & E).
  destruct (register_all_pending _ _ _ Eb) as [Hb Hp0]. pose proof (register_all_in _ _ _ Eb) as Hin.
  assert (forall n p, b_pending b !! n = Some p -> exists l, l ∈ loaded /\ la_Spec l = pa_spec p /\ api_Name (pa_spec p) = n) as Hp.
  { intros n p Hn. destruct (Hp0 n p Hn) as [Hx|Hx]; [|done]. simpl in Hx. by rewrite lookup_empty in Hx. }
  unfold Build in E. rewrite Hb in E. simpl in E. unfold build in E. cbn [b_pending b_registry sortedPending] in E.
  set (ps := sortedPending _) in E.
  assert (forall p, p ∈ ps <-> exists n, b_pending b !! n = Some p) as Hps.
  { intros p. unfold ps, sortedPending. rewrite merge_sort_Permutation, list_elem_of_fmap. simpl. split.
    - intros ([n q] & -> & Hq%elem_of_map_to_list). by exists n.
    - intros [n Hn]. exists (n, p). split; [done|]. by apply elem_of_map_to_list. }
  clearbody ps. destruct (build_metas _ _ _) as [metas|] eqn:Em; [|done]. simpl in E.
  destruct (build_apis _ _ _ _ _ _) as [[apis specs]|] eqn:Ea; [|done]. simpl in E.
  destruct (buildPrefixRoutes _) as [routes|] eqn:Er; [|done]. injection E as <-. simpl.
  destruct (build_apis_holds _ _ _ _ _ _ _ Ea) as (H1 & H2 & H3). split.
  - intros n s. split.
    + intros [Hs|(p & Hp' & <- & Hn)]%H1; [by rewrite lookup_empty in Hs|]. apply Hps in Hp' as [m Hm].
      destruct (Hp _ _ Hm) as (l & Hl & El & En). by exists l.
    + intros (l & Hl & <- & <-). destruct (Hin l Hl) as (p & Hm & Ep).
      destruct (H3 (api_Name (la_Spec l))) as [s Hs]; [right; exists p; split; [apply Hps; by eexists|by rewrite Ep]|].
      destruct (H1 _ _ Hs) as [Hx|(q & Hq & <- & Hn)]; [by rewrite lookup_empty in Hx|]. apply Hps in Hq as [m Hq].
      destruct (Hp _ _ Hq) as (l' & _ & _ & En).
      assert (m = api_Name (la_Spec l)) as -> by congruence. rewrite Hm in Hq. injection Hq as ->. congruence.
  - intros n ar [Ha|(p & Hp' & Hn & Hf)]%H2; [by rewrite lookup_empty in Ha|]. apply Hps in Hp' as [m Hm].
    destruct (Hp _ _ Hm) as (l & Hl & El & En). exists l. by rewrite El.
Qed.

Lemma compile_loaded_fresh loaded rt :
  compile_loaded url_Parse_ok loaded = Ok rt -> runtime_inv rt /\ forall k, pr_find rt k = None.
Proof.
  intros [_ Ha]%compile_loaded_holds.
  assert (runtime_inv rt) as Hinv.
  { intros n ar Hn. destruct (Ha n ar Hn) as (l & _ & H1 & _ & H3). split; [done|rewrite H3; apply newPolicyStore_wf|].
    rewrite H3. intros p Hp. by apply not_elem_of_nil in Hp. }
  split; [done|]. intros k. change (runtime_find rt k = None). destruct (runtime_find rt k) eqn:E; [|done].
  apply runtime_find_Some in E as (ar & cp & Hr & Hc & _); [|done]. destruct (Ha _ _ Hr) as (l & _ & _ & _ & H3).
  rewrite H3 in Hc. by apply not_elem_of_nil in Hc.
Qed.
End build_facts.

(** ** What loading policies keeps *)

Section policy_facts.
Context `{CelEngine}.

Lemma replay_specs l (rt : Runtime) e rt' : replay l rt = (e, rt') -> r_specs rt' = r_specs rt.
Proof.
  revert rt. induction l as [|p l IH]; intros rt; cbn [replay]; [by intros [= <- <-]|].
  assert (forall r rt1, pr_replace p rt = (r, rt1) -> r_specs rt1 = r_specs rt) as Hp.
  { intros r rt1. cbn [pr_replace runtime_ops]. unfold ReplacePolicy. destruct (r_apis rt !! _) as [a|]; [|by intros [= <- <-]].
    destruct (AR_Replace p a) as [? a']. by intros [= <- <-]. }
  destruct (pr_replace p rt) as [[b|e1] rt1] eqn:E; [|intros [= <- <-]; by eapply Hp].
  intros Hr. rewrite (IH _ Hr). by eapply Hp.
Qed.

Lemma AddPolicy_listed p rt u rt' q :
  AddPolicy p rt = (u, rt') -> q ∈ ListPolicies rt' -> q ∈ ListPolicies rt \/ q = p.
Proof.
  unfold AddPolicy. destruct (r_apis rt !! pol_API p) as [a|] eqn:Ha; [|intros [= <- <-]; by left].
  unfold AR_Add. destruct (compile a p) as [cp|e] eqn:Ec; intros [= <- <-]; rewrite !elem_of_ListPolicies;
    intros (n & a' & cq & Hn & Hc & Hq); simpl in Hn;
    (apply lookup_insert_Some in Hn as [[<- <-]|[_ Hn]]; [|left; by exists n, a', cq]).
  2: { left. by exists (pol_API p), a, cq. }
  assert (cq = cp \/ cq ∈ ps_all (ar_store a)) as [->|Hi].
  { revert Hc. simpl. unfold ps_add, appendLocked, ps_all. case_decide; simpl; rewrite !elem_of_app, list_elem_of_singleton; tauto. }
  - right. unfold compile in Ec. destruct (bool_decide _); [done|]. apply NewPolicy_shape in Ec as (_ & _ & Ec). congruence.
  - left. by exists (pol_API p), a, cq.
Qed.

Lemma add_policies_listed ps rt rt' q :
  add_policies ps rt = Ok rt' -> q ∈ ListPolicies rt' -> q ∈ ListPolicies rt \/ q ∈ ps.
Proof.
  revert rt. induction ps as [|p ps IH]; intros rt; cbn [add_policies]; [intros [= <-]; auto|].
  destruct (AddPolicy p rt) as [[u|e] rt1] eqn:E; [|done]. intros Ha Hq. destruct (IH _ Ha Hq) as [Hi|Hi].
  - destruct (AddPolicy_listed _ _ _ _ _ E Hi) as [?| ->]; [by left|right; left].
  - right. by right.
Qed.

(** The control plane's policies are documents of the embedded file. *)
Lemma LoadInternalRuntime_listed url_ok api docs_of set rt :
  LoadInternalRuntime url_ok api docs_of set = Ok rt ->
  set ∈ Sets /\ exists docs ps, docs_of set = Ok docs /\ decodeInternalPolicies docs = Ok ps /\
    forall p, p ∈ ListPolicies rt -> p ∈ ps.
Proof.
  unfold LoadInternalRuntime, Policies. intros E. apply bind_ok in E as (u & Hset & E).
  split; [by eapply set_Validate_ok|]. apply bind_ok in E as (spec & _ & E). case_decide; [done|].
  destruct (AddAPI spec NewBuilder) as [[[]|e] b] eqn:Ea; [|done].
  apply bind_ok in E as (rt0 & Eb & E). apply bind_ok in E as (docs & Ed & E). apply bind_ok in E as (ps & Ep & E).
  rewrite Hset in Ed. simpl in Ed. apply wrap_err_ok in Ep. exists docs, ps. split; [done|]. split; [done|].
  intros p Hp. destruct (add_policies_listed _ _ _ _ E Hp) as [Hi|]; [|done].
  assert (compile_loaded url_ok [mkLoaded spec "" "" "" "" None []] = Ok rt0) as Hc.
  { unfold compile_loaded. cbn [register_all]. simpl la_Spec. rewrite Ea. cbn [mbind]. apply wrap_err_ok in Eb.
    apply wrap_err_ok. exact Eb. }
  apply compile_loaded_holds in Hc as [_ Hc]. apply elem_of_ListPolicies in Hi as (n & a & cp & Hn & Hcp & _).
  destruct (Hc _ _ Hn) as (l & _ & _ & _ & H3). rewrite H3 in Hcp. by apply not_elem_of_nil in Hcp.
Qed.
End policy_facts.

(** C5. A server that boots enforces what its store holds.  The boot only reads
    the disk.  Afterwards the runtime has exactly the APIs that were found under
    the APIs directory and enforces exactly the policies of the store, each one
    valid; a server started read-only refuses every write of a policy and changes
    nothing; the control plane is gated, by policies of the chosen embedded set
    only; and neither HTTP client follows a redirect. *)
Theorem boot_enforces_store `{CelEngine} `{Store St} `{!StoreLaws St} {T : Type} `{BundleYaml}
    (url_ok : string -> bool) (api : result API) (docs_of : string -> result (list (result Policy)))
    (c : server_config (St := St) (T := T)) (keys : ServerKeys) (store : St) (w w' : world)
    (srv : Server (St := St) (T := T))
    (Hstore : st_inv store) (Hc : sc_PolicyStore c = Some store)
    (Hload : Load url_ok api docs_of c keys w = (Ok srv, w')) :
  same_disk w w' /\
  (exists loaded w1, LoadAll (sc_ApisDir c) w = (Ok loaded, w1) /\
     forall n spec, r_specs (srv_runtime srv) !! n = Some spec <-> exists l, l ∈ loaded /\ la_Spec l = spec /\ api_Name spec = n) /\
  in_sync (srv_policies srv) /\ (forall k, pr_find (srv_runtime srv) k = st_content store k) /\
  (sc_PolicyStoreReadOnly c = true -> forall o, service_step o (srv_policies srv) = (Some ErrReadOnly, srv_policies srv)) /\
  (exists irt docs ps, dn_InternalRuntime (srv_deps srv) = Some irt /\
     docs_of (internal_set (sc_InternalPolicies c)) = Ok docs /\ decodeInternalPolicies docs = Ok ps /\
     forall p, p ∈ ListPolicies irt -> p ∈ ps) /\
  hc_FollowsRedirects (srv_httpClient srv) = false /\ hc_FollowsRedirects (srv_forwardClient srv) = false.
Proof.
  unfold Load in Hload. apply io_bind_ok in Hload as (found & w1 & Ef & Hload).
  assert (LoadAll (sc_ApisDir c) w = (found, w1)) as El.
  { unfold io_try in Ef. destruct (LoadAll _ w) as [r1 w2]. by injection Ef as <- <-. }
  apply io_bind_ok in Hload as (loaded & w2 & [= Ew <-] & Hload). apply wrap_err_ok in Ew as ->.
  apply io_bind_ok in Hload as (rt & w2 & [= Hrt <-] & Hload). rewrite Hc in Hload.
  destruct (sc_ProposalStore c) as [props|]; [|done].
  destruct (LoadFromStore (PolicyService.New rt store)) as [[e|] service] eqn:Es; [done|].
  apply io_bind_ok in Hload as (irt & w2 & [= Hi <-] & [= <- <-]). apply wrap_err_ok in Hi.
  destruct (compile_loaded_fresh _ _ _ Hrt) as [Hinv Hnone].
  destruct (compile_loaded_holds _ _ _ Hrt) as [Hspecs _].
  destruct (@LoadFromStore_spec Runtime runtime_ops runtime_laws St _ _ (PolicyService.New rt store) service Hinv Hstore Hnone Es) as [Hsync Hst].
  assert (r_specs (sv_rt service) = r_specs rt) as Hs.
  { unfold LoadFromStore in Es. destruct (st_list _) as [all|]; [|done].
    destruct (replay all _) as [e rt1] eqn:Er. injection Es as -> <-. simpl. by apply replay_specs in Er. }
  split; [by eapply LoadAll_reads|]. split.
  { exists loaded, w1. split; [done|]. unfold srv_runtime, srv_policies. simpl. by rewrite Hs. }
  split; [destruct Hsync; by split|]. split.
  { intros k. pose proof (sy_same _ Hsync k) as Hk. rewrite Hst in Hk. simpl in Hk. by rewrite Hk. }
  split; [|split; [|done]].
  - intros Hro o. unfold srv_policies. simpl. unfold SetReadOnly. rewrite Hro. by destruct o.
  - destruct (LoadInternalRuntime_listed _ _ _ _ _ Hi) as (_ & docs & ps & ?). by exists irt, docs, ps.
Qed.

(** ** A boot *)

Definition demo_internal_api : API := mkAPI InternalAPIName "" ["/_admin"; "/_api"; "/install"] [] [] 0 "".

Definition demo_internal_docs (set : string) : result (list (result Policy)) :=
  Ok [Ok (mkPolicy InternalAPIName ("all-" +:+ set) "" "" "" "doc.title == 'x'" Permit)].

Definition demo_policy_store : sqliteStore :=
  mkSqlite {[ ("a", "p") := mkPolicy "a" "p" "" "" "" "doc.title == 'x'" Permit ]} [].

Definition demo_config (readOnly : bool) : server_config (St := sqliteStore) (T := memoryStore) :=
  mkServerConfig "/srv/apis" (Some demo_policy_store) readOnly (Some (mkDB ∅ [])) 30 60 0 "" "" "" None false.

Definition demo_boot (readOnly : bool) : result (Server (St := sqliteStore) (T := memoryStore)) * world :=
  @Load demo_cel sqliteStore _ memoryStore demo_yaml (fun _ => true) (Ok demo_internal_api) demo_internal_docs
    (demo_config readOnly) (FromSecret "s") (demo_install demo_github demo_yaml).2.

Lemma boot_enforces_store_witness :
  exists srv w', demo_boot true = (Ok srv, w') /\
    (forall k, runtime_find (srv_runtime srv) k = sq_rows demo_policy_store !! k) /\
    (forall o, @service_step Runtime (@runtime_ops demo_cel) sqliteStore _ o (srv_policies srv) = (Some ErrReadOnly, srv_policies srv)).
Proof.
  assert (is_ok (demo_boot true).1 = true) as Hok by (vm_compute; reflexivity).
  destruct (demo_boot true) as [[srv|e] w'] eqn:E; [clear Hok|discriminate Hok].
  exists srv, w'. split; [reflexivity|].
  destruct (@boot_enforces_store demo_cel sqliteStore _ _ memoryStore demo_yaml (fun _ => true) (Ok demo_internal_api) demo_internal_docs
    (demo_config true) (FromSecret "s") demo_policy_store (demo_install demo_github demo_yaml).2 w' srv) as (_ & _ & _ & H & Hro & _).
  - apply map_Forall_singleton. reflexivity.
  - reflexivity.
  - exact E.
  - split; [exact H|exact (Hro eq_refl)].
Defined.

(** A store with a policy for an API that is not there stops the boot. *)
Example orphan_policy_stops_boot :
  let store := mkSqlite {[ ("b", "p") := mkPolicy "b" "p" "" "" "" "doc.title == 'x'" Permit ]} [] in
  let c := mkServerConfig "/srv/apis" (Some store) false (Some (mkDB ∅ [])) 30 60 0 "" "" "" (None : option memoryStore) false in
  is_ok (@Load demo_cel sqliteStore _ memoryStore demo_yaml (fun _ => true) (Ok demo_internal_api) demo_internal_docs c
    (FromSecret "s") (demo_install demo_github demo_yaml).2).1 = false.
Proof. vm_compute. reflexivity. Qed.

(** The groups of routes of a boot without a traffic store. *)
Example demo_mounted :
  match (demo_boot false).1 with
  | Ok s => srv_APINames s = ["a"] /\ bool_decide ("traffic" ∈ mountControlPlane s) = false /\
      bool_decide ("policies" ∈ mountControlPlane s) = true
  | Err _ => False
  end.
Proof. vm_compute. done. Qed.
