(* ===== verification/Wiring.v ===== *)
(** * Wiring: internal/cli/servecmd run.go and the builders of stores.go

    [runServe] opens the stores that a configuration names, loads the server
    ([Boot]), listens, and releases everything again.  The machine is the disk,
    the database files, and a trace of what was opened, served and closed; what
    ends the listener is an argument.  The theorem: a database is opened at most
    once, whatever happens every database that was opened is closed exactly once,
    in reverse order and after the recorder has drained, and a boot that fails
    serves nothing. *)

From S2P Require Import Prelude GoStd GoTime Models Interfaces PathTemplate Routes Messages Compiled Evaluator EvaluatorFacts PolicyStore ApiRuntime Runtime Stores FileStore PolicyService Proposals Traffic TrafficStore TrafficSql Z85 Ids Auth Url Paths Disk Bundles BundleFetch BundleLoad Mitm DataDir Config TrafficApi Catalogue Mcp SqlBackend Boot.

(** A [*sql.DB], with the path it was opened for. *)
Record dbHandle := mkHandle { h_id : nat; h_path : string }.

(** What is built. *)
Inductive policy_store : Type :=
  | PolicyFiles (dir : string)
  | PolicyMemory
  | PolicySqlite (h : dbHandle)
  | PolicyLayered (h : dbHandle) (seed : string).

Inductive proposal_store : Type :=
  | ProposalMemory
  | ProposalSqlite (h : dbHandle).

Inductive traffic_store : Type :=
  | TrafficMemory (opts : TrafficStore.Options)
  | TrafficSqlite (h : dbHandle) (opts : TrafficStore.Options).

Record stores := mkStores { so_policies : policy_store; so_proposals : proposal_store; so_traffic : option traffic_store }.

(** [newHTTPServer] *)
Record http_server := mkHttpServer {
  hs_Addr : string; hs_ReadHeaderTimeout : Z; hs_ReadTimeout : Z; hs_WriteTimeout : Z; hs_IdleTimeout : Z
}.

Definition newHTTPServer (c : config) : http_server :=
  let g := cf_given c in
  mkHttpServer (gv_Addr g) (gv_InboundReadHeaderTimeout g) (gv_InboundReadTimeout g) (gv_InboundWriteTimeout g)
    (gv_InboundIdleTimeout g).

Inductive wire_event : Type :=
  | Opened (h : dbHandle)
  | Closed (h : dbHandle)
  | Listening (s : http_server) (st : stores)
  | HttpShutdown
  | RecorderClosed
  | DrainTimedOut.

Section wiring.
Context `{SqlEngine}.

(** The [backendCache] is [mc_sqlite] and [mc_open]. *)
Record machine := mkMachine {
mc_world : world;
mc_files : gmap string dbfile;
mc_faults : list bool;
mc_sqlite : gmap string dbHandle;
mc_open : list dbHandle;
mc_trace : list wire_event
}.

Definition boot (A : Type) : Type := machine -> result A * machine.

Definition b_ret {A} (a : A) : boot A := fun m => (Ok a, m).
Definition b_fail {A} (e : goerr) : boot A := fun m => (Err e, m).
Definition b_lift {A} (r : result A) : boot A := fun m => (r, m).
Definition b_bind {A B} (x : boot A) (f : A -> boot B) : boot B := fun m =>
  match x m with (Ok a, m) => f a m | (Err e, m) => (Err e, m) end.

Definition log_event (e : wire_event) : boot unit := fun m =>
  (Ok tt, mkMachine (mc_world m) (mc_files m) (mc_faults m) (mc_sqlite m) (mc_open m) (mc_trace m ++ [e])).

Definition on_disk {A} (x : io A) : boot A := fun m =>
  let '(r, w) := x (mc_world m) in
  (r, mkMachine w (mc_files m) (mc_faults m) (mc_sqlite m) (mc_open m) (mc_trace m)).

(** A call of the database behind a handle. *)
Definition on_db {A} (h : dbHandle) (x : call A) : boot A := fun m =>
  let '(r, (b, fs)) := x (default new_db (mc_files m !! h_path h)) (mc_faults m) in
  (r, mkMachine (mc_world m) (<[h_path h := b]> (mc_files m)) fs (mc_sqlite m) (mc_open m) (mc_trace m)).

(** An error gets a context. *)
Definition b_wrap {A} (what : string) (x : boot A) : boot A := fun m =>
  match x m with (Ok a, m) => (Ok a, m) | (Err e, m) => (Err (EWrap what e), m) end.

(** Whether one of the calls of [OpenSQLite], in order, fails. *)
Fixpoint some_fails (n : nat) (fs : list bool) : bool * list bool :=
  match n with
  | 0 => (false, fs)
  | S n => let '(b, fs) := pop fs in if b : bool then (true, fs) else some_fails n fs
  end.

(** [OpenSQLite]: open, ping, and the migrations table. *)
Definition OpenSQLite (path : string) : boot dbHandle := fun m =>
  let '(bad, fs) := some_fails 3 (mc_faults m) in
  let m := mkMachine (mc_world m) (mc_files m) fs (mc_sqlite m) (mc_open m) (mc_trace m) in
  if bad then (Err (EWrap "store/sqlite: open" disk_error), m)
  else
    let h := mkHandle (length (mc_open m)) path in
    let files := <[path := default new_db (mc_files m !! path)]> (mc_files m) in
    (Ok h, mkMachine (mc_world m) files fs (mc_sqlite m) (mc_open m) (mc_trace m ++ [Opened h])).

Definition remember (path : string) (h : dbHandle) : boot unit := fun m =>
  (Ok tt, mkMachine (mc_world m) (mc_files m) (mc_faults m) (<[path := h]> (mc_sqlite m)) (mc_open m ++ [h]) (mc_trace m)).

Definition sqliteAt (path : string) : boot dbHandle := fun m =>
  match mc_sqlite m !! path with
  | Some h => (Ok h, m)
  | None => b_bind (OpenSQLite path) (fun h => b_bind (remember path h) (fun _ => b_ret h)) m
  end.

(** [closeAll]: the last opened first; a close that fails is only logged. *)
Definition closeAll : boot unit := fun m =>
  (Ok tt, mkMachine (mc_world m) (mc_files m) (mc_faults m) (mc_sqlite m) (mc_open m)
            (mc_trace m ++ map Closed (rev (mc_open m)))).

#[local] Notation "'run' x <- m ; k" := (b_bind m (fun x => k)) (at level 10, x pattern, m at level 100, k at level 200).
#[local] Notation "'run!' m ; k" := (b_bind m (fun _ => k)) (at level 10, m at level 100, k at level 200).

(** [Open] of each domain on a sqlite backend. *)
Definition open_domain (what ns : string) (ladder : list string) (h : dbHandle) : boot unit :=
  b_wrap what (on_db h (Migrate ns ladder)).

Definition buildPolicyStore (c : config) : boot policy_store :=
  if decide (cf_PoliciesStore c = PoliciesStoreFile) then
    run dir <- on_disk (NewFileStore (cf_PoliciesDir c)); b_ret (PolicyFiles dir)
  else if decide (cf_PoliciesStore c = PoliciesStoreMemory) then b_ret PolicyMemory
  else if decide (cf_PoliciesStore c = PoliciesStoreSqlite) then
    run h <- b_wrap "open policies db" (sqliteAt (resolveDBPath (gv_PoliciesDB (cf_given c)) (cf_StoreDB c)));
    run! open_domain "policies: migrate" policiesNamespace policiesMigrations h;
    run there <- on_disk (Exists (cf_PoliciesDir c));
    if (there : bool) then
      run seed <- b_wrap "policies dir seed" (on_disk (NewFileStore (cf_PoliciesDir c))); b_ret (PolicyLayered h seed)
    else b_ret (PolicySqlite h)
  else b_fail (EMsg "unhandled policies store").

Definition buildProposalStore (c : config) : boot proposal_store :=
  if decide (cf_ProposalsStore c = ProposalsStoreMemory) then b_ret ProposalMemory
  else if decide (cf_ProposalsStore c = ProposalsStoreSqlite) then
    run h <- b_wrap "open proposals db" (sqliteAt (resolveDBPath (gv_ProposalsDB (cf_given c)) (cf_StoreDB c)));
    run! open_domain "proposals: migrate" proposalsNamespace proposalsMigrations h;
    b_ret (ProposalSqlite h)
  else b_fail (EMsg "unhandled proposals store").

(** A store comes with the recorder that feeds it. *)
Definition buildTraffic (c : config) : boot (option traffic_store) :=
  let opts := TrafficStore.mkOptions (gv_TrafficBudget (cf_given c)) (gv_TrafficMaxAge (cf_given c)) in
  if decide (cf_TrafficStore c = TrafficStoreNone) then b_ret None
  else if decide (cf_TrafficStore c = TrafficStoreMemory) then b_ret (Some (TrafficMemory (with_defaults opts)))
  else if decide (cf_TrafficStore c = TrafficStoreSqlite) then
    run h <- b_wrap "open traffic db" (sqliteAt (resolveDBPath (gv_TrafficDB (cf_given c)) (cf_StoreDB c)));
    run! b_wrap "traffic.Open" (open_domain "traffic: migrate" trafficNamespace trafficMigrations h);
    b_ret (Some (TrafficSqlite h (with_defaults opts)))
  else b_fail (EMsg "unhandled traffic store").

(** ** [run.go] *)

Definition caDownloadPath (c : config) : string := if cf_MITM c then cf_MITMCAPath c else "".

Definition warnOpenControlPlane (c : config) : bool := bool_decide (gv_InternalPolicies (cf_given c) = PolicySetDemo).

Definition listenerMode (c : config) : string := if cf_MITM c then "mitm" else "path-prefix".

(** What becomes of the listener: the error [ListenAndServe] ends with, whether
    a signal came first, and whether the recorder drains in time. *)
Record serve_end := mkServeEnd { se_error : option goerr; se_signal : bool; se_drains : bool }.

Definition closeAfterServe (recorder drains : bool) : boot unit :=
  if recorder then
    if drains then run! log_event RecorderClosed; closeAll else log_event DrainTimedOut
  else closeAll.

Definition runWithShutdown (s : http_server) (st : stores) (how : serve_end) : boot unit :=
  run! log_event (Listening s st);
  run! (if se_signal how then log_event HttpShutdown else b_ret tt);
  run! closeAfterServe (is_some_b (so_traffic st)) (se_drains how);
  match se_error how with Some e => b_fail (EWrap "serve" e) | None => b_ret tt end.

(** [closeAll] and the error, as every failing step after the first store does. *)
Definition or_close {A} (what : string) (x : boot A) : boot A := fun m =>
  match x m with
  | (Ok a, m) => (Ok a, m)
  | (Err e, m) => (Err (EWrap what e), (closeAll m).2)
  end.

Context `{CelEngine} `{Crypto} `{X509} `{BundleYaml} {St T : Type} `{Store St}.

(** [CAFromFiles] *)
Definition CAFromFiles (cert key : string) : io CA :=
  do c <- ReadFile cert; do k <- ReadFile key; io_lift (CAFromPEM c k).

(** [None]: the router itself. *)
Definition buildListenerHandler (c : config) : io (option CA) :=
  if cf_MITM c then do ca <- CAFromFiles (cf_MITMCAPath c) (cf_MITMCAKey c); io_ret (Some ca) else io_ret None.

Variable url_Parse_ok : string -> bool.
Variable embedded_api : result API.
Variable embedded_policies : string -> result (list (result Policy)).

(** The stores behind what was built, with the rows they hold. *)
Variable policies_of : policy_store -> gmap string dbfile -> St.
Variable proposals_of : proposal_store -> gmap string dbfile -> proposalDB.
Variable traffic_of : traffic_store -> gmap string dbfile -> T.

(** The [server.Config] that [runServe] passes. *)
Definition server_config_of (c : config) (st : stores) (files : gmap string dbfile) : server_config (St := St) (T := T) :=
  mkServerConfig (cf_ApisDir c) (Some (policies_of (so_policies st) files)) (gv_PoliciesReadOnly (cf_given c))
    (Some (proposals_of (so_proposals st) files)) (gv_UpstreamCallTimeout (cf_given c)) (gv_InboundWriteTimeout (cf_given c))
    (gv_RefreshTTL (cf_given c)) (cf_AdminPasswordHash c) (caDownloadPath c) (gv_InternalPolicies (cf_given c))
    ((fun t => traffic_of t files) <$> so_traffic st) (is_some_b (so_traffic st)).

Definition load_server (c : config) (st : stores) (keys : ServerKeys) : boot (Server (St := St) (T := T)) := fun m =>
  on_disk (Load url_Parse_ok embedded_api embedded_policies (server_config_of c st (mc_files m)) keys) m.

(** [runServe]; [observability] is what [setupObservability] returns. *)
Definition runServe (observability : result unit) (c : config) (how : serve_end) : boot unit :=
  run! b_lift (wrap_err "observability" observability);
  run secret <- b_lift (wrap_err "secret" (deriveSecret c));
  let keys := FromSecret (string_of_bytes secret) in
  run policyStore <- or_close "policy store" (buildPolicyStore c);
  run proposalStore <- or_close "proposal store" (buildProposalStore c);
  run trafficStore <- or_close "traffic store" (buildTraffic c);
  let st := mkStores policyStore proposalStore trafficStore in
  run srv <- or_close "server load" (load_server c st keys);
  run ca <- or_close "listener handler" (on_disk (buildListenerHandler c));
  runWithShutdown (newHTTPServer c) st how.
End wiring.

(** ** What the builders leave open *)

Section cache.
Context `{SqlEngine}.
Implicit Types m : machine.

(** The cache knows what is open, nothing twice, and nothing else happened yet. *)
Record cache_ok m : Prop := {
  co_ids : map h_id (mc_open m) = seq 0 (length (mc_open m));
  co_paths : NoDup (map h_path (mc_open m));
  co_sqlite : forall p h, mc_sqlite m !! p = Some h <-> h ∈ mc_open m /\ h_path h = p;
  co_trace : mc_trace m = map Opened (mc_open m)
}.

(** From a good cache, [x] leaves a good one that has all that was open. *)
Definition opening {A} (P : machine -> Prop) (x : boot A) (Q : A -> machine -> Prop) : Prop :=
  forall m r m', cache_ok m -> P m -> x m = (r, m') ->
    cache_ok m' /\ mc_open m `prefix_of` mc_open m' /\ forall a, r = Ok a -> Q a m'.

Lemma opening_bind {A B} P (x : boot A) (f : A -> boot B) Q R :
  opening P x Q -> (forall a, opening (Q a) (f a) R) -> opening P (b_bind x f) R.
Proof.
  intros Hx Hf m r m' Hm HP. unfold b_bind. destruct (x m) as [[a|e] m1] eqn:E.
  - intros Ef. apply Hx in E as (C1 & P1 & Q1); [|done..]. destruct (Hf a _ _ _ C1 (Q1 a eq_refl) Ef) as (C2 & P2 & R2).
    split; [done|]. split; [by etrans|done].
  - intros [= <- <-]. apply Hx in E as (C1 & P1 & _); [|done..]. by split.
Qed.

Lemma opening_pure {A} (P : machine -> Prop) (r : result A) (Q : A -> machine -> Prop) :
  (forall a m, r = Ok a -> P m -> Q a m) -> opening P (b_lift r) Q.
Proof. intros HQ m r' m' Hm HP [= <- <-]. split; [done|]. split; [done|]. intros a Ha. by apply HQ. Qed.

Lemma opening_ret {A} (P : machine -> Prop) (a : A) (Q : A -> machine -> Prop) :
  (forall m, P m -> Q a m) -> opening P (b_ret a) Q.
Proof. intros HQ. apply (opening_pure P (Ok a)). intros b m [= <-]. apply HQ. Qed.

Lemma opening_fail {A} (P : machine -> Prop) e (Q : A -> machine -> Prop) : opening P (b_fail e) Q.
Proof. by apply (opening_pure P (Err e)). Qed.

Lemma opening_wrap {A} P what (x : boot A) Q : opening P x Q -> opening P (b_wrap what x) Q.
Proof.
  intros Hx m r m' Hm HP. unfold b_wrap. destruct (x m) as [[a|e] m1] eqn:E; intros [= <- <-];
    apply Hx in E as (? & ? & HQ); [|done..| |done|done]; (split; [done|]); (split; [done|]); auto. intros a [=].
Qed.

(** A call that leaves cache and trace alone. *)
Definition aside {A} (x : boot A) : Prop := forall m r m', x m = (r, m') ->
  mc_open m' = mc_open m /\ mc_sqlite m' = mc_sqlite m /\ mc_trace m' = mc_trace m.

Lemma cache_ok_same m m' :
  mc_open m' = mc_open m -> mc_sqlite m' = mc_sqlite m -> mc_trace m' = mc_trace m -> cache_ok m -> cache_ok m'.
Proof. intros E1 E2 E3 []. split; rewrite ?E1, ?E2, ?E3; auto. Qed.

(** What only speaks of the open handles. *)
Definition of_open (P : machine -> Prop) : Prop := forall m1 m2, mc_open m1 = mc_open m2 -> P m2 -> P m1.

Lemma opening_aside {A} P (x : boot A) : aside x -> of_open P -> opening P x (fun _ => P).
Proof.
  intros Hx HP m r m' Hm Hp E. destruct (Hx _ _ _ E) as (E1 & E2 & E3).
  split; [by eapply cache_ok_same|]. split; [by rewrite E1|]. intros _ _. by eapply HP.
Qed.

Lemma aside_disk {A} (x : io A) : aside (on_disk x).
Proof. intros m r m'. unfold on_disk. destruct (x _). by intros [= <- <-]. Qed.

Lemma aside_domain what ns ladder h : aside (open_domain what ns ladder h).
Proof.
  intros m r m'. unfold open_domain, b_wrap, on_db. destruct (Migrate _ _ _ _) as [[u|e] [b fs]]; by intros [= <- <-].
Qed.

Lemma aside_wrap {A} what (x : boot A) : aside x -> aside (b_wrap what x).
Proof. intros Hx m r m'. unfold b_wrap. destruct (x m) as [[a|e] m1] eqn:E; intros [= <- <-]; by eapply Hx. Qed.

(** The handle of a path. *)
Definition held (p : string) (h : dbHandle) m : Prop := h ∈ mc_open m /\ h_path h = p.

Lemma held_opening p h m m' : mc_open m `prefix_of` mc_open m' -> held p h m -> held p h m'.
Proof. intros [l Hl] [Hh Hp]. split; [|done]. rewrite Hl. apply elem_of_app. by left. Qed.

Lemma sqliteAt_opening P p : opening P (sqliteAt p) (held p).
Proof.
  intros m r m' Hm _. unfold sqliteAt. destruct (mc_sqlite m !! p) as [h|] eqn:Eh.
  { intros [= <- <-]. split; [done|]. split; [done|]. intros a [= <-]. by apply (co_sqlite _ Hm). }
  unfold b_bind, OpenSQLite. destruct (some_fails 3 (mc_faults m)) as [[] fs].
  { intros [= <- <-]. split; [by eapply cache_ok_same; [..|exact Hm]|]. split; [done|]. by intros a [=]. }
  unfold remember, b_ret. cbn [mc_open mc_sqlite mc_trace mc_files mc_faults mc_world]. intros [= <- <-].
  destruct Hm as [C1 C2 C3 C4]. split; [split|split]; cbn [mc_open mc_sqlite mc_trace].
  - rewrite map_app, C1, length_app. simpl. by rewrite Nat.add_1_r, seq_S.
  - rewrite map_app. simpl. apply NoDup_app. split; [done|]. split; [|by apply NoDup_singleton].
    intros q Hq ->%list_elem_of_singleton. apply list_elem_of_fmap in Hq as (h & Hp & Hh).
    assert (mc_sqlite m !! p = Some h) as Hx by (by apply C3). congruence.
  - intros q h. rewrite elem_of_app, list_elem_of_singleton. destruct (decide (p = q)) as [<-|Hne].
    + rewrite lookup_insert_eq. split; [intros [= <-]; by split; [right|]|].
      intros [[Hh| ->] Hp]; [|done]. assert (mc_sqlite m !! p = Some h) as Hx by (by apply C3). congruence.
    + rewrite lookup_insert_ne, C3 by done. split; [intros [? ?]; by split; [left|]|].
      intros [[Hh| ->] Hp]; [done|]. by destruct Hne.
  - by rewrite C4, map_app.
  - by eexists.
  - intros a [= <-]. split; [|done]. apply elem_of_app. right. by left.
Qed.

Definition policies_built (c : config) (st : policy_store) m : Prop :=
  match st with
  | PolicyFiles dir => cf_PoliciesStore c = PoliciesStoreFile
  | PolicyMemory => cf_PoliciesStore c = PoliciesStoreMemory
  | PolicySqlite h | PolicyLayered h _ =>
      cf_PoliciesStore c = PoliciesStoreSqlite /\ held (resolveDBPath (gv_PoliciesDB (cf_given c)) (cf_StoreDB c)) h m
  end.

Definition proposals_built (c : config) (st : proposal_store) m : Prop :=
  match st with
  | ProposalMemory => cf_ProposalsStore c = ProposalsStoreMemory
  | ProposalSqlite h =>
      cf_ProposalsStore c = ProposalsStoreSqlite /\ held (resolveDBPath (gv_ProposalsDB (cf_given c)) (cf_StoreDB c)) h m
  end.

Definition traffic_built (c : config) (st : option traffic_store) m : Prop :=
  match st with
  | None => cf_TrafficStore c = TrafficStoreNone
  | Some (TrafficMemory _) => cf_TrafficStore c = TrafficStoreMemory
  | Some (TrafficSqlite h _) =>
      cf_TrafficStore c = TrafficStoreSqlite /\ held (resolveDBPath (gv_TrafficDB (cf_given c)) (cf_StoreDB c)) h m
  end.

Lemma held_of_open p h : of_open (held p h).
Proof. intros m1 m2 E. unfold held. by rewrite E. Qed.

Lemma open_domain_opening p what ns ladder h : opening (held p h) (open_domain what ns ladder h) (fun _ => held p h).
Proof. apply opening_aside; [apply aside_domain|apply held_of_open]. Qed.

Definition anyway (m : machine) : Prop := True.

Lemma buildPolicyStore_opening c : opening anyway (buildPolicyStore c) (policies_built c).
Proof.
  unfold buildPolicyStore. case_decide as E1.
  { eapply opening_bind; [by apply opening_aside; [apply aside_disk|]|]. intros dir. by apply opening_ret. }
  case_decide as E2; [by apply opening_ret|]. case_decide as E3; [|apply opening_fail].
  eapply opening_bind; [apply opening_wrap, sqliteAt_opening|]. intros h.
  eapply opening_bind; [apply open_domain_opening|]. intros [].
  eapply opening_bind; [apply opening_aside; [apply aside_disk|apply held_of_open]|]. intros [].
  - eapply opening_bind; [apply opening_wrap, opening_aside; [apply aside_disk|apply held_of_open]|]. intros seed. by apply opening_ret.
  - by apply opening_ret.
Qed.

Lemma buildProposalStore_opening c : opening anyway (buildProposalStore c) (proposals_built c).
Proof.
  unfold buildProposalStore. case_decide as E1; [by apply opening_ret|]. case_decide as E2; [|apply opening_fail].
  eapply opening_bind; [apply opening_wrap, sqliteAt_opening|]. intros h.
  eapply opening_bind; [apply open_domain_opening|]. intros []. by apply opening_ret.
Qed.

Lemma buildTraffic_opening c : opening anyway (buildTraffic c) (traffic_built c).
Proof.
  unfold buildTraffic. case_decide as E1; [by apply opening_ret|]. case_decide as E2; [by apply opening_ret|].
  case_decide as E3; [|apply opening_fail].
  eapply opening_bind; [apply opening_wrap, sqliteAt_opening|]. intros h.
  eapply opening_bind; [apply opening_wrap, open_domain_opening|]. intros []. by apply opening_ret.
Qed.

Lemma policies_built_opening c st m m' : mc_open m `prefix_of` mc_open m' -> policies_built c st m -> policies_built c st m'.
Proof. intros Hp. destruct st; simpl; try done; intros [? ?]; (split; [done|by eapply held_opening]). Qed.

Lemma proposals_built_opening c st m m' : mc_open m `prefix_of` mc_open m' -> proposals_built c st m -> proposals_built c st m'.
Proof. intros Hp. destruct st; simpl; try done. intros [? ?]; (split; [done|by eapply held_opening]). Qed.

Lemma traffic_built_opening c st m m' : mc_open m `prefix_of` mc_open m' -> traffic_built c st m -> traffic_built c st m'.
Proof. intros Hp. destruct st as [[]|]; simpl; try done. intros [? ?]; (split; [done|by eapply held_opening]). Qed.
End cache.

(** ** From the first store to the last close *)

(** The handles a server was given are open for the paths configured. *)
Definition stores_built (c : config) (st : stores) `{SqlEngine} (m : machine) : Prop :=
  policies_built c (so_policies st) m /\ proposals_built c (so_proposals st) m /\ traffic_built c (so_traffic st) m.

(** What follows the opens: the listener and its end, when it got that far. *)
Definition serving (s : http_server) (st : stores) (how : serve_end) : list wire_event :=
  [Listening s st] ++ (if se_signal how then [HttpShutdown] else [])
  ++ (if is_some_b (so_traffic st) then [if se_drains how then RecorderClosed else DrainTimedOut] else []).

(** The drain that does not end in time leaves the databases to the exit. *)
Definition left_open (st : stores) (how : serve_end) : bool := is_some_b (so_traffic st) && negb (se_drains how).

Section serve.
Context `{SqlEngine}.
Implicit Types m : machine.

(** A boot that failed: what was opened is closed, and nothing was served. *)
Definition failed_clean (r : result unit) m : Prop :=
  is_ok r = false /\ exists opened, map h_id opened = seq 0 (length opened) /\ NoDup (map h_path opened) /\
    mc_trace m = map Opened opened ++ map Closed (rev opened).

Lemma or_close_opening {A} P what (x : boot A) Q m r m' :
  opening P x Q -> cache_ok m -> P m -> or_close what x m = (r, m') ->
  match r with
  | Ok a => cache_ok m' /\ mc_open m `prefix_of` mc_open m' /\ Q a m'
  | Err e => failed_clean (Err e) m'
  end.
Proof.
  intros Hx Hm HP. unfold or_close. destruct (x m) as [[a|e] m1] eqn:E; intros [= <- <-];
    apply Hx in E as (C1 & P1 & Q1); try done; [by auto|]. destruct C1 as [C1 C2 C3 C4]. split; [done|].
  exists (mc_open m1). split; [done|]. split; [done|]. unfold closeAll. simpl. by rewrite C4.
Qed.

Lemma aside_load `{CelEngine} `{Crypto} `{BundleYaml} {St T : Type} `{Store St} url_ok api docs_of
    (policies_of : policy_store -> gmap string dbfile -> St) proposals_of (traffic_of : traffic_store -> gmap string dbfile -> T) c st keys :
  aside (load_server url_ok api docs_of policies_of proposals_of traffic_of c st keys).
Proof. intros m r m'. apply aside_disk. Qed.

Lemma b_bind_cases {A B} (x : boot A) (f : A -> boot B) m r m' :
  b_bind x f m = (r, m') ->
  (exists e, x m = (Err e, m') /\ r = Err e) \/ (exists a m1, x m = (Ok a, m1) /\ f a m1 = (r, m')).
Proof.
  unfold b_bind. destruct (x m) as [[a|e] m1] eqn:E; [right; by exists a, m1|]. intros [= <- <-]. left. by exists e.
Qed.

Lemma runWithShutdown_trace s st how m r m' :
  runWithShutdown s st how m = (r, m') ->
  mc_trace m' = mc_trace m ++ serving s st how ++ (if left_open st how then [] else map Closed (rev (mc_open m))) /\
  r = match se_error how with Some e => Err (EWrap "serve" e) | None => Ok tt end.
Proof.
  unfold runWithShutdown, closeAfterServe, serving, left_open, b_bind, log_event.
  destruct how as [err [] []], (is_some_b (so_traffic st)); simpl; destruct err as [e|]; intros [= <- <-]; simpl;
    (split; [|done]); by rewrite ?app_nil_r, <- ?app_assoc.
Qed.
End serve.

(** C31. Every database is released.  Whatever configuration is run, whatever
    fails on the way and however serving ends, the databases opened are opened
    once for each path, and then either nothing is served and each is closed
    exactly once, the last one first; or the listener runs with stores on handles
    that are open for the paths configured, so that domains with one path share one
    handle, and afterwards, the recorder drained, each is closed exactly once, the
    last one first.  Only a drain that runs out of time leaves them to the end of
    the process: [closeAfterServe] returns early there, although the comment
    above it says that the cache is closed on a timeout too. *)
Theorem backends_closed_once `{SqlEngine} `{CelEngine} `{Crypto} `{X509} `{BundleYaml} {St T : Type} `{Store St}
    (url_ok : string -> bool) (api : result API) (docs_of : string -> result (list (result Policy)))
    (policies_of : policy_store -> gmap string dbfile -> St) (proposals_of : proposal_store -> gmap string dbfile -> proposalDB)
    (traffic_of : traffic_store -> gmap string dbfile -> T)
    (observability : result unit) (c : config) (how : serve_end) (w : world) (files : gmap string dbfile) (faults : list bool)
    (r : result unit) (m' : machine)
    (Hrun : runServe url_ok api docs_of policies_of proposals_of traffic_of observability c how
              (mkMachine w files faults ∅ [] []) = (r, m')) :
  failed_clean r m' \/
  exists opened st, map h_id opened = seq 0 (length opened) /\ NoDup (map h_path opened) /\
    stores_built c st (mkMachine w files faults ∅ opened []) /\
    mc_trace m' = map Opened opened ++ serving (newHTTPServer c) st how
                  ++ (if left_open st how then [] else map Closed (rev opened)) /\
    r = match se_error how with Some e => Err (EWrap "serve" e) | None => Ok tt end.
Proof.
  set (m := mkMachine w files faults ∅ [] []) in *.
  assert (cache_ok m) as Hm.
  { split; simpl; [done|constructor| |done]. intros p h. rewrite lookup_empty. split; [done|]. by intros [?%not_elem_of_nil _]. }
  assert (forall e, failed_clean (Err e) m) as Hnone by (intros e; split; [done|]; exists []; repeat split; constructor).
  unfold runServe in Hrun.
  apply b_bind_cases in Hrun as [(e & [= _ <-] & ->)|([] & m0 & [= _ <-] & Hrun)]; [by left|].
  apply b_bind_cases in Hrun as [(e & [= _ <-] & ->)|(secret & m0 & [= _ <-] & Hrun)]; [by left|].
  apply b_bind_cases in Hrun as [(e & E & ->)|(ps & m1 & E1 & Hrun)].
  { left. by apply (or_close_opening _ _ _ _ _ _ _ (buildPolicyStore_opening c) Hm I) in E. }
  apply (or_close_opening _ _ _ _ _ _ _ (buildPolicyStore_opening c) Hm I) in E1 as (C1 & _ & B1).
  apply b_bind_cases in Hrun as [(e & E & ->)|(qs & m2 & E2 & Hrun)].
  { left. by apply (or_close_opening _ _ _ _ _ _ _ (buildProposalStore_opening c) C1 I) in E. }
  apply (or_close_opening _ _ _ _ _ _ _ (buildProposalStore_opening c) C1 I) in E2 as (C2 & P2 & B2).
  apply b_bind_cases in Hrun as [(e & E & ->)|(ts & m3 & E3 & Hrun)].
  { left. by apply (or_close_opening _ _ _ _ _ _ _ (buildTraffic_opening c) C2 I) in E. }
  apply (or_close_opening _ _ _ _ _ _ _ (buildTraffic_opening c) C2 I) in E3 as (C3 & P3 & B3).
  apply (policies_built_opening _ _ _ m3) in B1; [|by etrans]. apply (proposals_built_opening _ _ _ m3) in B2; [|done].
  set (st := mkStores ps qs ts) in *.
  set (P := fun n : machine => mc_open n = mc_open m3). assert (of_open P) as HP by (intros n1 n2 En; unfold P; congruence).
  apply b_bind_cases in Hrun as [(e & E & ->)|(srv & m4 & E4 & Hrun)].
  { left. by apply (or_close_opening _ _ _ _ _ _ _ (opening_aside P _ (aside_load _ _ _ _ _ _ c st _) HP) C3 eq_refl) in E. }
  apply (or_close_opening _ _ _ _ _ _ _ (opening_aside P _ (aside_load _ _ _ _ _ _ c st _) HP) C3 eq_refl) in E4 as (C4 & _ & P4).
  apply b_bind_cases in Hrun as [(e & E & ->)|(ca & m5 & E5 & Hrun)].
  { left. by apply (or_close_opening _ _ _ _ _ _ _ (opening_aside P _ (aside_disk _) HP) C4 P4) in E. }
  apply (or_close_opening _ _ _ _ _ _ _ (opening_aside P _ (aside_disk _) HP) C4 P4) in E5 as (C5 & _ & P5).
  apply runWithShutdown_trace in Hrun as [Ht ->]. destruct C5 as [I1 I2 _ I4]. right. exists (mc_open m5), st.
  split; [done|]. split; [done|]. split; [|by rewrite Ht, I4].
  split; [|split]; [eapply policies_built_opening|eapply proposals_built_opening|eapply traffic_built_opening]; try done;
    simpl; by rewrite P5.
Qed.

(** ** A directory that [init] made, serving *)

Definition plain_config : config := with_MITM false demo_dir_config.

Definition demo_wired (how : serve_end) (faults : list bool) : result unit * @machine (log_engine "") :=
  @runServe (log_engine "") demo_cel symbolic_crypto demo_x509 demo_yaml sqliteStore memoryStore _ (fun _ => true)
    (Ok demo_internal_api) demo_internal_docs (fun _ _ => mkSqlite ∅ []) (fun _ _ => mkDB ∅ []) (fun _ _ => newMemoryStore (TrafficStore.mkOptions 0 0))
    (Ok tt) plain_config how (@mkMachine (log_engine "") initialised ∅ faults ∅ [] []).

Definition data_db : dbHandle := mkHandle 0 "data/store/store.db".

Definition demo_stores : stores :=
  mkStores (PolicyLayered data_db "data/policies") (ProposalSqlite data_db)
    (Some (TrafficSqlite data_db (TrafficStore.mkOptions 16777216 86400))).

(** One database for the three domains. *)
Example demo_trace :
  @mc_trace (log_engine "") (demo_wired (mkServeEnd None true true) []).2 =
  [Opened data_db; Listening (newHTTPServer plain_config) demo_stores; HttpShutdown; RecorderClosed; Closed data_db].
Proof. vm_compute. reflexivity. Qed.

(** A migration that fails while the second domain opens. *)
Example demo_trace_failed :
  let r := demo_wired (mkServeEnd None true true) (replicate 9 false ++ [true]) in
  is_ok r.1 = false /\ @mc_trace (log_engine "") r.2 = [Opened data_db; Closed data_db].
Proof. vm_compute. done. Qed.

Lemma backends_closed_once_witness :
  exists opened st, map h_id opened = seq 0 (length opened) /\ NoDup (map h_path opened) /\
    @mc_trace (log_engine "") (demo_wired (mkServeEnd None true true) []).2 =
      map Opened opened ++ serving (newHTTPServer plain_config) st (mkServeEnd None true true)
      ++ (if left_open st (mkServeEnd None true true) then [] else map Closed (rev opened)).
Proof.
  destruct (demo_wired (mkServeEnd None true true) []) as [r m'] eqn:E.
  destruct (@backends_closed_once (log_engine "") demo_cel symbolic_crypto demo_x509 demo_yaml sqliteStore memoryStore _
    (fun _ => true) (Ok demo_internal_api) demo_internal_docs (fun _ _ => mkSqlite ∅ []) (fun _ _ => mkDB ∅ [])
    (fun _ _ => newMemoryStore (TrafficStore.mkOptions 0 0)) (Ok tt) plain_config (mkServeEnd None true true) initialised ∅ [] r m' E)
    as [[Hr _]|(opened & st & H1 & H2 & _ & H3 & _)].
  - exfalso. assert (r = Ok tt) as -> by (replace r with (demo_wired (mkServeEnd None true true) []).1 by (by rewrite E); vm_compute; reflexivity).
    discriminate Hr.
  - exists opened, st. split; [exact H1|]. split; [exact H2|exact H3].
Defined.
