(* ===== verification/Walk.v ===== *)
(** * Walking a directory tree: filepath.Rel and filepath.Walk

    [Walk] is the standard library's, with the state its callback closes over
    made explicit.  [tree] lists what a walk of an unchanging tree visits, in
    order; the theorems of this file say that a walk whose callback leaves the
    tree alone makes exactly those visits and, when no call fails, finishes. *)

From S2P Require Import Prelude GoStd Models Url Paths Disk Bundles BundleFetch BundleLoad DataDir.

(** ** Relative paths *)

Fixpoint drop_common (a b : list string) : list string * list string :=
  match a, b with
  | x :: a', y :: b' => if decide (x = y) then drop_common a' b' else (a, b)
  | _, _ => (a, b)
  end.

(** [filepath.Rel] *)
Definition Rel (basepath targpath : string) : result string :=
  if decide (Clean targpath = Clean basepath) then Ok "."
  else if negb (Bool.eqb (rooted basepath) (rooted targpath)) then Err (EMsg "Rel: can't make relative")
  else
    let '(up, down) := drop_common (rev (clean_stack basepath)) (rev (clean_stack targpath)) in
    if decide (head up = Some "..") then Err (EMsg "Rel: can't make relative")
    else Ok (join "/" (map (fun _ => "..") up ++ down)).

(** ** The walk *)

(** What a callback that does not fail asks for. *)
Inductive walk_next : Type := Onward | SkipDir.

#[export] Instance walk_next_eq_dec : EqDecision walk_next.
Proof. solve_decision. Defined.

Definition is_dir (i : inode) : bool := match i with IDir => true | IFile _ => false end.

(** The names of a directory, sorted. *)
Definition readDirNames (p : string) : io (list string) := do es <- ReadDir p; io_ret es.*1.

(** There are no links to follow. *)
Definition Lstat : string -> io inode := Stat.

Definition ENAMETOOLONG : goerr := EMsg "file name too long".

Section walk.
Context {St : Type}.
Variable fn : string -> option inode -> option goerr -> St -> io (St * walk_next).

(** The entries of one directory; [rec] walks an entry. *)
Fixpoint walk_each (rec : string -> inode -> St -> io (St * walk_next)) (p : string) (names : list string) (st : St)
    : io (St * walk_next) :=
  match names with
  | [] => io_ret (st, Onward)
  | n :: names =>
      let filename := Join p n in
      do fileInfo <- io_try (Lstat filename);
      match fileInfo with
      | Err e => do (st, _) <- fn filename None (Some e) st; walk_each rec p names st
      | Ok info =>
          do (st, next) <- rec filename info st;
          if negb (is_dir info) && bool_decide (next = SkipDir) then io_ret (st, SkipDir)
          else walk_each rec p names st
      end
  end.

(** One level of [fuel] for each level of directories; a path that runs out of
    levels is longer than the system allows. *)
Fixpoint walk_at (fuel : nat) (p : string) (info : inode) (st : St) : io (St * walk_next) :=
  match fuel with
  | 0 => io_fail ENAMETOOLONG
  | S fuel =>
      match info with
      | IFile _ => fn p (Some info) None st
      | IDir =>
          do names <- io_try (readDirNames p);
          match names with
          | Err e => fn p (Some info) (Some e) st
          | Ok names =>
              do (st, next) <- fn p (Some info) None st;
              match next with
              | SkipDir => io_ret (st, SkipDir)
              | Onward => walk_each (walk_at fuel) p names st
              end
          end
      end
  end.

(** The number of levels a disk has. *)
Definition disk_depth (d : disk) : nat := list_max (map length (map_to_list d).*1).

(** Enough for a tree that stays as it is, and for a copy of it below itself
    that comes to an end. *)
Definition walk_fuel (d : disk) : nat := 2 * S (disk_depth d).

Definition Walk (root : string) (st : St) : io St :=
  do info <- io_try (Lstat root);
  match info with
  | Err e => do (st, _) <- fn root None (Some e) st; io_ret st
  | Ok info => do (st, _) <- (fun w => walk_at (walk_fuel (w_disk w)) root info st w); io_ret st
  end.
End walk.

(** ** What is visited *)

Definition dir_names (p : path) (d : disk) : list string := sort_strings (children p d).

(** The tree at [k] below [S0], a directory before its entries, without the
    directories that [skip] names. *)
Fixpoint tree (fuel : nat) (skip : path -> bool) (S0 : path) (d : disk) (k : path) : list (path * inode) :=
  match fuel with
  | 0 => []
  | S fuel =>
      match stat (k ++ S0) d with
      | None => []
      | Some (IFile b) => [(k, IFile b)]
      | Some IDir =>
          if skip k then []
          else (k, IDir) :: flat_map (fun n => tree fuel skip S0 d (n :: k)) (dir_names (k ++ S0) d)
      end
  end.

(** ** Relative paths of a tree *)

Lemma drop_common_app a b : drop_common a (a ++ b) = ([], b).
Proof. induction a as [|x a IH]; [by destruct b|]. simpl. by rewrite decide_True. Qed.

(** [p] is the way to [k] below [root] that a walk builds. *)
Record at_node (cwd : path) (root p : string) (k : path) : Prop := {
  an_resolve : resolve cwd p = k ++ resolve cwd root;
  an_stack : clean_stack p = k ++ clean_stack root;
  an_rooted : rooted p = rooted root
}.

Lemma at_root cwd root : at_node cwd root root [].
Proof. done. Qed.

Lemma at_child cwd root p k n : plain n -> slashless n -> at_node cwd root p k -> at_node cwd root (Join p n) (n :: k).
Proof.
  intros Hp Hs [H1 H2 H3]. destruct (Join_child cwd p n Hp Hs) as [E _]. split; [by rewrite E, H1| |].
  - rewrite Join_child_clean, clean_stack_Clean by done. rewrite <- app_comm_cons, <- H2. case_decide as Ha.
    + subst. unfold clean_stack. rewrite rooted_plain, split_byte_free by done. simpl. by rewrite plain_push.
    + unfold clean_stack. rewrite rooted_app, split_app_slash, foldl_app by done. simpl. by rewrite plain_push.
  - rewrite Join_child_clean, rooted_Clean, <- H3 by done. case_decide; [subst; by apply rooted_plain|by apply rooted_app].
Qed.

Definition rel_of (k : path) : string := if decide (k = []) then "." else join "/" (rev k).

Lemma Rel_node cwd root p k : at_node cwd root p k -> Rel root p = Ok (rel_of k).
Proof.
  intros [_ H2 H3]. unfold Rel, rel_of. rewrite H3, Bool.eqb_reflx. cbn [negb]. destruct (decide (k = [])) as [->|Hk].
  - rewrite decide_True; [done|]. unfold Clean. by rewrite H2, H3.
  - rewrite decide_False; [by rewrite H2, rev_app_distr, drop_common_app|].
    intros E. apply (f_equal clean_stack) in E. rewrite !clean_stack_Clean, H2 in E.
    apply Hk. rewrite <- (app_nil_l (clean_stack root)) in E at 2. by apply app_inv_tail in E.
Qed.

(** ** The entries of a tree *)

Lemma sort_strings_ext l1 l2 : NoDup l1 -> NoDup l2 -> (forall x, x ∈ l1 <-> x ∈ l2) -> sort_strings l1 = sort_strings l2.
Proof.
  intros H1 H2 Hx. rewrite <- (filter_true (sort_strings l1)), <- (filter_true (sort_strings l2)).
  apply sort_filter_ext; [done..|]. intros x. by rewrite Hx.
Qed.

Lemma elem_of_dir_names n p d : n ∈ dir_names p d <-> is_Some (stat (n :: p) d).
Proof. unfold dir_names, sort_strings. by rewrite merge_sort_Permutation, elem_of_children_stat. Qed.

Lemma dir_names_NoDup p d : NoDup (dir_names p d).
Proof. unfold dir_names, sort_strings. rewrite merge_sort_Permutation. apply children_NoDup. Qed.

Lemma dir_names_ext p d d' : (forall n, stat (n :: p) d = stat (n :: p) d') -> dir_names p d = dir_names p d'.
Proof.
  intros E. apply sort_strings_ext; [apply children_NoDup..|]. intros n. by rewrite !elem_of_children_stat, E.
Qed.

Lemma dir_entries_names p d : (dir_entries p d).*1 = dir_names p d.
Proof. unfold dir_entries. rewrite <- list_fmap_compose. apply list_fmap_id. Qed.

Lemma under_whole (k m x : path) : k = m ++ x -> under k x -> m = [].
Proof.
  intros E [y Ex]. apply (f_equal length) in E, Ex. rewrite length_app in E. rewrite length_app in Ex.
  destruct m; [done|]. simpl in E. lia.
Qed.

Section trees.
Context (skip : path -> bool) (S0 : path) (d : disk).

(** [j] is in the tree at [k]: the directories on the way are there and are
    not skipped, the last one included when it is a directory. *)
Definition listed (k j : path) (i : inode) : Prop :=
  stat (j ++ S0) d = Some i /\ (i = IDir -> skip j = false) /\
  forall m x, j = m ++ x -> under k x -> m <> [] -> stat (x ++ S0) d = Some IDir /\ skip x = false.

Lemma elem_of_tree f k j i :
  (j, i) ∈ tree f skip S0 d k <-> (exists m, j = m ++ k /\ length m < f) /\ listed k j i.
Proof.
  revert k. induction f as [|f IH]; intros k; cbn [tree]; [split; [set_solver|by intros [(m & _ & ?) _]; lia]|].
  destruct (stat (k ++ S0) d) as [[b|]|] eqn:Ek.
  - rewrite list_elem_of_singleton. split.
    + intros [= -> ->]. split; [exists []; split; [done|simpl; lia]|]. split; [done|]. split; [done|].
      intros m x E Hu Hm. by apply (under_whole _ _ _ E) in Hu.
    + intros [(m & -> & _) (Hi & _ & Hd)]. destruct (decide (m = [])) as [->|Hm]; [by simplify_eq/=|].
      destruct (Hd m k eq_refl (under_refl k) Hm). congruence.
  - destruct (skip k) eqn:Es.
    { split; [set_solver|]. intros [(m & -> & _) (Hi & Hn & Hd)]. destruct (decide (m = [])) as [->|Hm].
      - simpl in *. rewrite Ek in Hi. injection Hi as <-. by rewrite Hn in Es.
      - destruct (Hd m k eq_refl (under_refl k) Hm). congruence. }
    rewrite elem_of_cons, list_elem_of_In, in_flat_map. setoid_rewrite <- list_elem_of_In. setoid_rewrite IH. split.
    + intros [[= -> ->]|(n & Hn & (m & -> & Hm) & Hi & Hs & Hd)].
      { split; [exists []; split; [done|simpl; lia]|]. split; [done|]. split; [done|].
        intros m x E Hu Hm. by apply (under_whole _ _ _ E) in Hu. }
      split; [exists (m ++ [n]); rewrite length_app; simpl; split; [by rewrite <- app_assoc|lia]|].
      split; [done|]. split; [done|]. intros m' x E [y ->] Hm'. destruct y as [|z y _] using rev_ind; [done|].
      assert ((y ++ [z]) ++ k = y ++ z :: k) as Ey by (by rewrite <- app_assoc). rewrite Ey in E |- *.
      assert (m = m' ++ y /\ n = z) as [-> ->].
      { rewrite app_assoc in E. change (n :: k) with ([n] ++ k) in E. change (z :: k) with ([z] ++ k) in E. rewrite !app_assoc in E.
        apply app_inv_tail in E. by apply app_inj_tail in E. }
      apply (Hd m'); [by rewrite app_assoc|by exists y|done].
    + intros [(m & -> & Hm) (Hi & Hs & Hd)]. destruct m as [|n m _] using rev_ind.
      { left. simpl in Hi. rewrite Ek in Hi. by injection Hi as <-. }
      assert ((m ++ [n]) ++ k = m ++ n :: k) as Ey by (by rewrite <- app_assoc). rewrite Ey in *.
      right. rewrite length_app in Hm. simpl in Hm. exists n.
      split; [apply elem_of_dir_names|].
      { destruct m as [|z m]; [by exists i|]. destruct (Hd (z :: m) (n :: k)) as [H1 _]; [done|by exists [n]|done|by exists IDir]. }
      split; [exists m; split; [done|lia]|]. split; [done|]. split; [done|].
      intros m' x E Hu Hm'. apply (Hd m'); [done| |done]. eapply under_trans; [|exact Hu]. by exists [n].
  - split; [set_solver|]. intros [(m & -> & _) (Hi & _ & Hd)]. destruct (decide (m = [])) as [->|Hm]; [by simplify_eq/=|].
    destruct (Hd m k eq_refl (under_refl k) Hm). congruence.
Qed.

Lemma listed_up k j i m x : listed k j i -> j = m ++ x -> m <> [] -> under k x -> listed k x IDir.
Proof.
  intros (_ & _ & Hd) -> Hm Hu. destruct (Hd m x eq_refl Hu Hm) as [Hs Hk]. split; [done|]. split; [done|].
  intros m' y -> Hy Hm'. apply (Hd (m ++ m')); [by rewrite app_assoc|done|]. by destruct m.
Qed.

Lemma listed_root i : stat S0 d = Some i -> (i = IDir -> skip [] = false) -> listed [] [] i.
Proof. intros Hs Hk. split; [done|]. split; [done|]. intros [|? ?] x E; by destruct x. Qed.

Lemma listed_child k n i : listed [] k IDir -> stat (n :: k ++ S0) d = Some i -> (i = IDir -> skip (n :: k) = false) ->
  listed [] (n :: k) i.
Proof.
  intros (Hs & Hk & Hd) Hn Hi. split; [done|]. split; [done|]. intros [|y m] x E Hu Hm; [done|]. injection E as <- ->.
  destruct (decide (m = [])) as [->|Hm']; [by split; [|apply Hk]|by apply (Hd m)].
Qed.

Lemma tree_under f k j i : (j, i) ∈ tree f skip S0 d k -> under k j.
Proof. intros [(m & -> & _) _]%elem_of_tree. by exists m. Qed.

Lemma NoDup_flat_map {A B} (g : A -> list B) l :
  NoDup l -> (forall x, NoDup (g x)) -> (forall x y b, b ∈ g x -> b ∈ g y -> x = y) -> NoDup (flat_map g l).
Proof.
  intros Hl Hg Hd. induction Hl as [|x l Hx Hl IH]; simpl; [constructor|]. apply NoDup_app. split; [apply Hg|].
  split; [|done]. intros b Hb (y & Hy & Hb')%list_elem_of_In%in_flat_map. rewrite <- list_elem_of_In in Hy. rewrite <- list_elem_of_In in Hb'.
  by rewrite (Hd _ _ _ Hb Hb') in Hx.
Qed.

Lemma under_child_inj (k j : path) x y : under (x :: k) j -> under (y :: k) j -> x = y.
Proof.
  intros [a ->] [b E]. change (x :: k) with ([x] ++ k) in E. change (y :: k) with ([y] ++ k) in E.
  rewrite !app_assoc in E. apply app_inv_tail in E. by apply app_inj_tail in E as [_ ->].
Qed.

Lemma tree_NoDup f k : NoDup (tree f skip S0 d k).*1.
Proof.
  revert k. induction f as [|f IH]; intros k; cbn [tree]; [constructor|].
  destruct (stat (k ++ S0) d) as [[b|]|]; [apply NoDup_singleton| |constructor]. destruct (skip k); [constructor|].
  rewrite fmap_cons. cbn [fst].
  assert (forall n j, j ∈ (tree f skip S0 d (n :: k)).*1 -> under (n :: k) j) as Hu.
  { intros n j ([j' i] & -> & Hin)%list_elem_of_fmap. by eapply tree_under. }
  assert (forall g : string -> list (path * inode), forall l, (flat_map g l).*1 = flat_map (fun n => (g n).*1) l) as Ef.
  { intros g l. induction l as [|n l IHl]; [done|]. simpl. by rewrite fmap_app, IHl. }
  rewrite Ef. constructor.
  - intros (n & _ & Hin)%list_elem_of_In%in_flat_map. apply list_elem_of_In, Hu in Hin as [m E].
    apply (f_equal length) in E. rewrite length_app in E. simpl in E. lia.
  - apply NoDup_flat_map; [apply dir_names_NoDup|done|]. intros x y j Hx Hy. eapply under_child_inj; by apply Hu.
Qed.
End trees.

(** ** A walk is its visits *)

(** Below [S0] names are path components. *)
Definition tree_named (S0 : path) (d : disk) : Prop :=
  forall k i, stat (k ++ S0) d = Some i -> Forall (fun x => plain x /\ slashless x) k.

Lemma names_ok_tree S0 d : names_ok d -> tree_named S0 d.
Proof.
  intros Hn k i Hi. destruct (decide (k = [])) as [->|Hk]; [constructor|]. unfold stat in Hi.
  rewrite decide_False in Hi by (by destruct k). apply Hn in Hi. by apply Forall_app in Hi as [? _].
Qed.

Section walking.
Context {St : Type} (fn : string -> option inode -> option goerr -> St -> io (St * walk_next)).
Context (cwd : path) (root : string) (skip : path -> bool) (d0 : disk).
Notation S0 := (resolve cwd root).

(** The tree is as it was. *)
Definition src_same (w : world) : Prop := w_cwd w = cwd /\ forall k, stat (k ++ S0) (w_disk w) = stat (k ++ S0) d0.

(** A callback that stops at errors, leaves the tree alone, and skips what
    [skip] says without doing anything. *)
Record keeps_source : Prop := {
  ks_err : forall p info e st w st' next w', fn p info (Some e) st w <> (Ok (st', next), w');
  ks_node : forall k p i st w st' next w',
    at_node cwd root p k -> stat (k ++ S0) d0 = Some i -> src_same w ->
    fn p (Some i) None st w = (Ok (st', next), w') ->
    src_same w' /\ if is_dir i && skip k then next = SkipDir /\ st' = st /\ w_disk w' = w_disk w else next = Onward
}.

(** One visit, from a world with disk [d] to one with disk [d']. *)
Definition visit (k : path) (i : inode) (st : St) (d : disk) (st' : St) (d' : disk) : Prop :=
  exists p w w', at_node cwd root p k /\ src_same w /\ w_disk w = d /\ w_disk w' = d' /\
    fn p (Some i) None st w = (Ok (st', Onward), w').

Inductive visits : list (path * inode) -> St -> disk -> St -> disk -> Prop :=
  | visits_nil st d : visits [] st d st d
  | visits_cons k i l st d st1 d1 st' d' :
      visit k i st d st1 d1 -> visits l st1 d1 st' d' -> visits ((k, i) :: l) st d st' d'.

Lemma visits_app l1 l2 st d st1 d1 st' d' :
  visits l1 st d st1 d1 -> visits l2 st1 d1 st' d' -> visits (l1 ++ l2) st d st' d'.
Proof. induction 1; intros H2; simpl; [done|]. econstructor; eauto. Qed.

Context (Hks : keeps_source) (Hnames : tree_named S0 d0).

Lemma src_same_disk w w' : same_disk w w' -> src_same w -> src_same w'.
Proof. intros (E1 & E2 & _) [Hc Hs]. split; [congruence|]. by rewrite E1. Qed.

Lemma src_names w k : src_same w -> dir_names (k ++ S0) (w_disk w) = dir_names (k ++ S0) d0.
Proof. intros [_ Hs]. apply dir_names_ext. intros n. apply (Hs (n :: k)). Qed.

Lemma child_name k n : is_Some (stat (n :: k ++ S0) d0) -> plain n /\ slashless n.
Proof. intros [i Hi]. apply (Hnames (n :: k)) in Hi. by apply Forall_cons in Hi as [? _]. Qed.

Lemma readDirNames_ok p w names w' :
  readDirNames p w = (Ok names, w') -> same_disk w w' /\ names = dir_names (resolve (w_cwd w) p) (w_disk w).
Proof.
  unfold readDirNames. intros (es & w1 & E & [= <- <-])%io_bind_ok. split; [exact (ReadDir_reads p _ _ _ E)|].
  unfold ReadDir, at_path in E. apply sys_read_ok in E as [_ E]. destruct (stat _ _) as [[]|]; try done.
  injection E as <-. apply dir_entries_names.
Qed.

Lemma Lstat_ok p w i w' : Lstat p w = (Ok i, w') -> same_disk w w' /\ stat (resolve (w_cwd w) p) (w_disk w) = Some i.
Proof.
  intros E. split; [by eapply Stat_reads|]. unfold Lstat, Stat, at_path in E. apply sys_read_ok in E as [_ E].
  by destruct (stat _ _); simplify_eq.
Qed.

Lemma io_try_ok {A} (m : io A) w r w' : io_try m w = (r, w') -> exists r0, r = Ok r0 /\ m w = (r0, w').
Proof. unfold io_try. destruct (m w) as [r0 w0]. intros [= <- <-]. by exists r0. Qed.

Lemma walk_each_visits f k p names st w st' next w' :
  (forall k p i st w st' next w', at_node cwd root p k -> stat (k ++ S0) d0 = Some i -> src_same w ->
    walk_at fn f p i st w = (Ok (st', next), w') ->
    src_same w' /\ visits (tree f skip S0 d0 k) st (w_disk w) st' (w_disk w') /\ (next = SkipDir -> i = IDir)) ->
  at_node cwd root p k -> (forall n, n ∈ names -> is_Some (stat (n :: k ++ S0) d0)) -> src_same w ->
  walk_each fn (walk_at fn f) p names st w = (Ok (st', next), w') ->
  src_same w' /\ visits (flat_map (fun n => tree f skip S0 d0 (n :: k)) names) st (w_disk w) st' (w_disk w') /\ next = Onward.
Proof.
  intros Hrec Hp. revert st w. induction names as [|n names IH]; intros st w Hn Hw; cbn [walk_each flat_map].
  { intros [= <- <- <-]. split; [done|]. split; [constructor|done]. }
  intros (r & w1 & E1 & E)%io_bind_ok. apply io_try_ok in E1 as (r0 & [= ->] & E1).
  destruct r0 as [info|e]; [|by apply io_bind_ok in E as ([st1 nx] & w2 & E2%(ks_err Hks) & _)].
  apply io_bind_ok in E as ([st1 nx] & w2 & E2 & E).
  destruct (child_name k n) as [Hpl Hsl]; [apply Hn; set_solver|]. pose proof (at_child _ _ _ _ _ Hpl Hsl Hp) as Hc.
  apply Lstat_ok in E1 as [Hd1 Hs1]. pose proof (src_same_disk _ _ Hd1 Hw) as Hw1.
  assert (stat ((n :: k) ++ S0) d0 = Some info) as Hi.
  { destruct Hw as [Hcw Hs]. rewrite <- Hs, <- Hs1, Hcw. by rewrite (an_resolve _ _ _ _ Hc). }
  destruct (Hrec _ _ _ _ _ _ _ _ Hc Hi Hw1 E2) as (Hw2 & Hv & Hnx).
  destruct (negb (is_dir info) && bool_decide (nx = SkipDir)) eqn:Eb.
  { apply andb_true_iff in Eb as [Eb ->%bool_decide_eq_true]. by rewrite (Hnx eq_refl) in Eb. }
  destruct (IH st1 w2) as (Hw' & Hvs & ->); [set_solver|done|done|]. split; [done|]. split; [|done].
  destruct Hd1 as (Ed1 & _). rewrite Ed1 in Hv. by eapply visits_app.
Qed.

Lemma walk_at_visits f k p i st w st' next w' :
  at_node cwd root p k -> stat (k ++ S0) d0 = Some i -> src_same w -> walk_at fn f p i st w = (Ok (st', next), w') ->
  src_same w' /\ visits (tree f skip S0 d0 k) st (w_disk w) st' (w_disk w') /\ (next = SkipDir -> i = IDir).
Proof.
  revert k p i st w st' next w'. induction f as [|f IH]; intros k p i st w st' next w' Hp Hi Hw; [done|].
  cbn [walk_at tree]. rewrite Hi. destruct i as [b|].
  - intros E. destruct (ks_node Hks _ _ _ _ _ _ _ _ Hp Hi Hw E) as [Hw' ->]. split; [done|]. split; [|done].
    econstructor; [|constructor]. by exists p, w, w'.
  - intros (r & w1 & E1 & E)%io_bind_ok. apply io_try_ok in E1 as (r0 & [= ->] & E1).
    destruct r0 as [names|e]; [|by apply (ks_err Hks) in E].
    apply readDirNames_ok in E1 as [Hd1 ->]. pose proof (src_same_disk _ _ Hd1 Hw) as Hw1.
    apply io_bind_ok in E as ([st1 nx] & w2 & E2 & E).
    destruct (ks_node Hks _ _ _ _ _ _ _ _ Hp Hi Hw1 E2) as [Hw2 Hs]. destruct Hd1 as (Ed1 & _).
    cbn [is_dir andb] in Hs. destruct (skip k).
    + destruct Hs as (-> & -> & Ed2). injection E as <- <- <-. split; [done|]. split; [|done].
      rewrite Ed2, Ed1. constructor.
    + subst nx. rewrite (proj1 Hw), (an_resolve _ _ _ _ Hp), (src_names _ _ Hw) in E.
      destruct (walk_each_visits f k p (dir_names (k ++ S0) d0) st1 w2 st' next w') as (Hw' & Hv & ->);
        [exact IH|done|intros n Hn; by apply elem_of_dir_names|done|done|].
      split; [done|]. split; [|done]. econstructor; [|exact Hv]. exists p, w1, w2. by rewrite Ed1.
Qed.

(** ** What a walk passes through *)

Section passing.
Context (P : disk -> Prop).

(** Each visit passes through [P] only, and so does the end of a failing one. *)
Definition visits_pass : Prop :=
  (forall p info e st w r w', fn p info (Some e) st w = (r, w') -> same_disk w w') /\
  forall k p i st w r w', at_node cwd root p k -> stat (k ++ S0) d0 = Some i -> src_same w -> P (w_disk w) ->
    fn p (Some i) None st w = (r, w') -> passed P w w'.

Context (Hvp : visits_pass).

Lemma walk_each_passes f k p names st w r w' :
  (forall k p i st w r w', at_node cwd root p k -> stat (k ++ S0) d0 = Some i -> src_same w -> P (w_disk w) ->
    walk_at fn f p i st w = (r, w') -> passed P w w') ->
  at_node cwd root p k -> (forall n, n ∈ names -> is_Some (stat (n :: k ++ S0) d0)) -> src_same w -> P (w_disk w) ->
  walk_each fn (walk_at fn f) p names st w = (r, w') -> passed P w w'.
Proof.
  intros Hrec Hp. revert st w. induction names as [|n names IH]; intros st w Hn Hw HP; cbn [walk_each].
  { intros [= <- <-]. by apply passed_refl. }
  intros Hrun. unfold io_bind at 1 in Hrun. destruct (io_try _ w) as [r1 w1] eqn:E1.
  apply io_try_ok in E1 as (r0 & -> & E1). pose proof (Stat_reads _ _ _ _ E1) as Hd1.
  pose proof (src_same_disk _ _ Hd1 Hw) as Hw1. assert (P (w_disk w1)) as HP1 by (by destruct Hd1 as [-> _]).
  assert (forall w2, passed P w1 w2 -> passed P w w2) as Hback
    by (intros w2; apply passed_trans; by apply passed_refl).
  destruct r0 as [info|e].
  - destruct (child_name k n) as [Hpl Hsl]; [apply Hn; set_solver|]. pose proof (at_child _ _ _ _ _ Hpl Hsl Hp) as Hc.
    apply Lstat_ok in E1 as [_ Hs1].
    assert (stat ((n :: k) ++ S0) d0 = Some info) as Hi.
    { destruct Hw as [Hcw Hs]. rewrite <- Hs, <- Hs1, Hcw. by rewrite (an_resolve _ _ _ _ Hc). }
    unfold io_bind in Hrun. destruct (walk_at _ _ _ _ _ w1) as [r2 w2] eqn:E2.
    pose proof (Hrec _ _ _ _ _ _ _ Hc Hi Hw1 HP1 E2) as HP2. destruct r2 as [[st1 nx]|e]; [|injection Hrun as _ <-; by apply Hback].
    destruct (walk_at_visits _ _ _ _ _ _ _ _ _ Hc Hi Hw1 E2) as (Hw2 & _).
    destruct (negb (is_dir info) && _); [injection Hrun as _ <-; by apply Hback|].
    apply Hback. eapply passed_trans; [exact HP2|]. eapply IH; [set_solver|done| |exact Hrun]. apply HP2.
  - unfold io_bind in Hrun. destruct (fn _ _ _ _ w1) as [r2 w2] eqn:E2.
    destruct r2 as [[st1 nx]|e']; [by apply (ks_err Hks) in E2|]. injection Hrun as _ <-. apply Hback, passed_refl; [done|].
    destruct Hvp as [He _]. by eapply He.
Qed.

Lemma walk_at_passes f k p i st w r w' :
  at_node cwd root p k -> stat (k ++ S0) d0 = Some i -> src_same w -> P (w_disk w) ->
  walk_at fn f p i st w = (r, w') -> passed P w w'.
Proof.
  revert k p i st w r w'. induction f as [|f IH]; intros k p i st w r w' Hp Hi Hw HP.
  { intros [= <- <-]. by apply passed_refl. }
  cbn [walk_at]. destruct Hvp as [He Hn]. destruct i as [b|]; [by eapply Hn|]. intros Hrun. unfold io_bind at 1 in Hrun.
  destruct (io_try _ w) as [r1 w1] eqn:E1. apply io_try_ok in E1 as (r0 & -> & E1).
  assert (same_disk w w1) as Hd1.
  { eapply reads_bind; [apply ReadDir_reads| |exact E1]. intros es. apply reads_ret. }
  pose proof (src_same_disk _ _ Hd1 Hw) as Hw1. assert (P (w_disk w1)) as HP1 by (by destruct Hd1 as [-> _]).
  assert (forall w2, passed P w1 w2 -> passed P w w2) as Hback
    by (intros w2; apply passed_trans; by apply passed_refl).
  destruct r0 as [names|e]; [|apply Hback, passed_refl; [done|by eapply He]].
  apply readDirNames_ok in E1 as [_ ->]. unfold io_bind in Hrun. destruct (fn _ _ _ _ w1) as [r2 w2] eqn:E2.
  pose proof (Hn _ _ _ _ _ _ _ Hp Hi Hw1 HP1 E2) as HP2.
  destruct r2 as [[st1 nx]|e]; [|injection Hrun as _ <-; by apply Hback].
  destruct (ks_node Hks _ _ _ _ _ _ _ _ Hp Hi Hw1 E2) as [Hw2 _].
  destruct nx; [|injection Hrun as _ <-; by apply Hback]. apply Hback. eapply passed_trans; [exact HP2|].
  eapply (walk_each_passes f k); [exact IH|done| |done|apply HP2|exact Hrun].
  intros n. by rewrite (proj1 Hw), (an_resolve _ _ _ _ Hp), (src_names _ _ Hw), elem_of_dir_names.
Qed.
End passing.

(** ** A walk finishes *)

(** Without faults, a callback that succeeds where it is [ready] and gets the
    entries of a directory ready.  [inv] is what it keeps. *)
Definition makes_progress (inv : St -> world -> Prop) (ready : path -> world -> Prop) : Prop :=
  forall k p i st w,
    at_node cwd root p k -> stat (k ++ S0) d0 = Some i -> src_same w -> w_faults w = [] -> inv st w -> ready k w ->
    exists st' next w', fn p (Some i) None st w = (Ok (st', next), w') /\ w_faults w' = [] /\ inv st' w' /\
      (next = Onward -> i = IDir -> forall n, ready (n :: k) w') /\ (forall k', ready k' w -> ready k' w').

Definition tall (f : nat) (k : path) : Prop := disk_depth d0 < f + length (k ++ S0).

Lemma tall_child f k n : tall (S f) k -> tall f (n :: k).
Proof. unfold tall. rewrite <- app_comm_cons. simpl. lia. Qed.

Lemma present_depth k i : stat k d0 = Some i -> length k <= disk_depth d0.
Proof.
  unfold stat. case_decide; [subst; simpl; lia|]. intros Hi. unfold disk_depth.
  assert (length k ∈ map length (map_to_list d0).*1) as Hin.
  { apply list_elem_of_fmap_2, list_elem_of_fmap. exists (k, i). split; [done|]. by apply elem_of_map_to_list. }
  pose proof (proj1 (list_max_le (map length (map_to_list d0).*1) _) (le_n _)) as Hm.
  rewrite Forall_forall in Hm. by apply Hm.
Qed.

Context (inv : St -> world -> Prop) (ready : path -> world -> Prop) (Hmp : makes_progress inv ready).

Lemma quiet_read {A} (f : disk -> result A) w : w_faults w = [] -> sys_read f w = (f (w_disk w), w).
Proof. destruct w as [d c fs past]. simpl. by intros ->. Qed.

Lemma walk_each_total f k p names st w :
  (forall k p i st w, at_node cwd root p k -> stat (k ++ S0) d0 = Some i -> tall f k -> src_same w -> w_faults w = [] ->
    inv st w -> ready k w ->
    exists st' next w', walk_at fn f p i st w = (Ok (st', next), w') /\ w_faults w' = [] /\ inv st' w' /\
      forall k', ready k' w -> ready k' w') ->
  at_node cwd root p k -> (forall n, n ∈ names -> is_Some (stat (n :: k ++ S0) d0)) -> tall (S f) k -> src_same w ->
  w_faults w = [] -> inv st w -> (forall n, ready (n :: k) w) ->
  exists st' w', walk_each fn (walk_at fn f) p names st w = (Ok (st', Onward), w') /\ w_faults w' = [] /\ inv st' w' /\
    forall k', ready k' w -> ready k' w'.
Proof.
  intros Hrec Hp. revert st w. induction names as [|n names IH]; intros st w Hn Hf Hw Hq Hi Hr; cbn [walk_each].
  { by exists st, w. }
  destruct (Hn n) as [i Hs]; [set_solver|]. destruct (child_name k n) as [Hpl Hsl]; [by exists i|].
  pose proof (at_child _ _ _ _ _ Hpl Hsl Hp) as Hc.
  assert (io_try (Lstat (Join p n)) w = (Ok (Ok i), w)) as El.
  { unfold io_try, Lstat, Stat, at_path. rewrite (quiet_read _ _ Hq), (proj1 Hw), (an_resolve _ _ _ _ Hc).
    rewrite (proj2 Hw (n :: k)). simpl. by rewrite Hs. }
  destruct (Hrec (n :: k) (Join p n) i st w) as (st1 & nx & w1 & E & Hq1 & Hi1 & Hr1);
    [done|done|by apply tall_child|done|done|done|apply Hr|].
  destruct (walk_at_visits f (n :: k) (Join p n) i st w st1 nx w1 Hc Hs Hw E) as (Hw1 & _ & Hnx).
  destruct (IH st1 w1) as (st' & w' & E' & Hq' & Hi' & Hr'); [set_solver|done|done|done|done|by intros m; apply Hr1, Hr|].
  exists st', w'. split; [|split; [done|split; [done|by intros k' Hk; apply Hr', Hr1]]].
  unfold io_bind at 1. rewrite El. unfold io_bind at 1. rewrite E.
  destruct (negb (is_dir i) && bool_decide (nx = SkipDir)) eqn:Eb; [|done].
  apply andb_true_iff in Eb as [Eb ->%bool_decide_eq_true]. by rewrite (Hnx eq_refl) in Eb.
Qed.

Lemma walk_at_total f k p i st w :
  at_node cwd root p k -> stat (k ++ S0) d0 = Some i -> tall f k -> src_same w -> w_faults w = [] ->
  inv st w -> ready k w ->
  exists st' next w', walk_at fn f p i st w = (Ok (st', next), w') /\ w_faults w' = [] /\ inv st' w' /\
    forall k', ready k' w -> ready k' w'.
Proof.
  revert k p i st w. induction f as [|f IH]; intros k p i st w Hp Hs Hf Hw Hq Hi Hr.
  { apply present_depth in Hs. unfold tall in Hf. lia. }
  destruct (Hmp k p i st w) as (st1 & nx & w1 & E & Hq1 & Hi1 & Hr1 & Hm1); [done..|]. cbn [walk_at].
  destruct i as [b|]; [by exists st1, nx, w1|].
  assert (io_try (readDirNames p) w = (Ok (Ok (dir_names (k ++ S0) d0)), w)) as El.
  { unfold io_try, readDirNames, ReadDir, at_path, io_bind.
    rewrite (quiet_read _ _ Hq), (proj1 Hw), (an_resolve _ _ _ _ Hp), (proj2 Hw k), Hs. unfold io_ret.
    by rewrite dir_entries_names, (src_names _ _ Hw). }
  destruct (ks_node Hks _ _ _ _ _ _ _ _ Hp Hs Hw E) as [Hw1 Hsk]. cbn [is_dir andb] in Hsk.
  destruct nx.
  - destruct (walk_each_total f k p (dir_names (k ++ S0) d0) st1 w1) as (st' & w' & E' & Hq' & Hi' & Hm');
      [exact IH|done|intros n Hn; by apply elem_of_dir_names|done|done|done|done|by apply Hr1|].
    exists st', Onward, w'. split; [|split; [done|split; [done|by intros k' Hk; apply Hm', Hm1]]].
    unfold io_bind at 1. rewrite El. unfold io_bind at 1. by rewrite E.
  - exists st1, SkipDir, w1. split; [|done]. unfold io_bind at 1. rewrite El. unfold io_bind at 1. by rewrite E.
Qed.
End walking.

Section walks.
Context {St : Type} (fn : string -> option inode -> option goerr -> St -> io (St * walk_next)).
Context (root : string) (skip : path -> bool) (w : world).
Notation S0 := (resolve (w_cwd w) root).
Notation listing := (tree (walk_fuel (w_disk w)) skip S0 (w_disk w) []).
Context (Hks : keeps_source fn (w_cwd w) root skip (w_disk w)) (Hnames : tree_named S0 (w_disk w)).

Lemma src_same_self w1 : same_disk w w1 -> src_same (w_cwd w) root (w_disk w) w1.
Proof. intros (E1 & E2 & _). split; [done|]. by rewrite E1. Qed.

Lemma Walk_visits st st' w' :
  Walk fn root st w = (Ok st', w') ->
  src_same (w_cwd w) root (w_disk w) w' /\
  visits fn (w_cwd w) root (w_disk w) listing st (w_disk w) st' (w_disk w').
Proof.
  unfold Walk. intros (r & w1 & E1 & E)%io_bind_ok. apply io_try_ok in E1 as (r0 & [= ->] & E1).
  destruct r0 as [i|e]; [|by apply io_bind_ok in E as ([st1 nx] & w2 & E2%(ks_err _ _ _ _ _ Hks) & _)].
  apply io_bind_ok in E as ([st1 nx] & w2 & E & [= <- <-]). apply Lstat_ok in E1 as [Hd Hs].
  pose proof Hd as (Ed & _). rewrite Ed in E.
  destruct (walk_at_visits fn _ _ _ _ Hks Hnames (walk_fuel (w_disk w)) [] root i st w1 st1 nx w2) as (H1 & H2 & _);
    [apply at_root|done|by apply src_same_self|done|]. by rewrite Ed in H2.
Qed.

Lemma Walk_total (inv : St -> world -> Prop) (ready : path -> world -> Prop) st i :
  makes_progress fn (w_cwd w) root (w_disk w) inv ready ->
  stat S0 (w_disk w) = Some i -> w_faults w = [] -> inv st w -> ready [] w ->
  exists st' w', Walk fn root st w = (Ok st', w') /\ w_faults w' = [] /\ inv st' w'.
Proof.
  intros Hmp Hs Hq Hi Hr. unfold Walk.
  assert (io_try (Lstat root) w = (Ok (Ok i), w)) as El.
  { unfold io_try, Lstat, Stat, at_path. by rewrite (quiet_read _ _ Hq), Hs. }
  destruct (walk_at_total fn _ _ _ _ Hks Hnames inv ready Hmp (walk_fuel (w_disk w)) [] root i st w)
    as (st' & nx & w' & E & Hq' & Hi' & _); [apply at_root|done|unfold tall, walk_fuel; simpl; lia|by apply src_same_self|done..|].
  exists st', w'. split; [|done]. unfold io_bind at 1. rewrite El. unfold io_bind at 1. by rewrite E.
Qed.

Lemma Walk_passes (P : disk -> Prop) st r w' :
  visits_pass fn (w_cwd w) root (w_disk w) P -> P (w_disk w) -> Walk fn root st w = (r, w') -> passed P w w'.
Proof.
  intros Hvp HP. unfold Walk. unfold io_bind at 1. destruct (io_try _ w) as [r1 w1] eqn:E1.
  apply io_try_ok in E1 as (r0 & -> & E1). pose proof (Stat_reads _ _ _ _ E1) as Hd1.
  assert (P (w_disk w1)) as HP1 by (by destruct Hd1 as [-> _]).
  assert (forall w2, passed P w1 w2 -> passed P w w2) as Hback
    by (intros w2; apply passed_trans; by apply passed_refl).
  destruct r0 as [i|e]; unfold io_bind.
  - apply Lstat_ok in E1 as [_ Hs]. destruct (walk_at fn _ root i st w1) as [r2 w2] eqn:E2.
    pose proof (walk_at_passes fn _ _ _ _ Hks Hnames P Hvp _ [] root i st w1 r2 w2 (at_root _ _) Hs (src_same_self _ Hd1) HP1 E2).
    destruct r2 as [[st1 nx]|e]; intros [= _ <-]; by apply Hback.
  - destruct (fn root None (Some e) st w1) as [r2 w2] eqn:E2.
    destruct r2 as [[st1 nx]|e']; [by apply (ks_err _ _ _ _ _ Hks) in E2|]. intros [= _ <-].
    apply Hback, passed_refl; [done|]. destruct Hvp as [He _]. by eapply He.
Qed.

(** The listing has every entry of the tree. *)
Lemma elem_of_listing j i :
  (j, i) ∈ listing <-> listed skip S0 (w_disk w) [] j i.
Proof.
  rewrite elem_of_tree. split; [by intros [_ ?]|]. intros Hl. split; [|done]. exists j. rewrite app_nil_r. split; [done|].
  destruct Hl as [Hs _]. apply present_depth in Hs. rewrite length_app in Hs. unfold walk_fuel. lia.
Qed.
End walks.
