(* ===== verification/Pack.v ===== *)
(** * Copying, hashing and packing a bundle: internal/cli/apiscmd copy.go and
    internal/control/bundles pack.go

    Three walks of a directory: [copyTree] mirrors it, [ContentSHA] digests its
    files, [WriteTarball] packs it.  SHA-256 and the tar and gzip writers are
    parameters.  The disk has no symbolic links or special files, so the
    refusals of those are never taken.  The theorems: a copy has exactly the
    entries of its source but what is below a .git directory, a digest depends
    on the tree alone, and unpacking a packed directory gives it back. *)

From S2P Require Import Prelude GoStd Models Url Paths Disk Bundles BundleFetch BundleLoad DataDir Walk.

(** ** copy.go *)

(** [os.Open], and the creation of a file that is written later. *)
Definition Open (p : string) : io unit := do! Stat p; io_ret tt.
Definition Create (p : string) : io unit := at_path p (fun p => sys_write (create p)).

Definition put_data (p data : string) : io unit := at_path p (fun p =>
  sys_write (fun d => match stat p d with Some (IFile _) => Ok (<[p := IFile data]> d) | _ => Err (EMsg "no such file") end)).

(** [io.Copy] from an open file to another. *)
Definition io_Copy (dst src : string) : io unit := do data <- ReadFile src; put_data dst data.

(** The callback of [copyTree]; [Walk] gives an error or the file's info. *)
Definition copy_visit (srcDir dstDir p : string) (info : option inode) (err : option goerr) (_ : unit)
    : io (unit * walk_next) :=
  match err, info with
  | Some e, _ => io_fail e
  | None, None => io_fail (EMsg "no file info")
  | None, Some info =>
      do rel <- io_lift (Rel srcDir p);
      if is_dir info && bool_decide (Base p = ".git") then io_ret (tt, SkipDir)
      else
        let dst := Join dstDir rel in
        if is_dir info then (do! MkdirAll dst; io_ret (tt, Onward))
        else (do! Open p; do! Create dst; do! io_Copy dst p; io_ret (tt, Onward))
  end.

Definition copyTree (srcDir dstDir : string) : io unit := Walk (copy_visit srcDir dstDir) srcDir tt.

(** ** pack.go *)

Class Sha256 := sha256_hex : string -> string.

(** The tar and gzip writers over a whole archive. *)
Class TarWriter := {
  tar_bytes : list tar_event -> string;
  gzip_bytes : string -> string
}.

(** The file that [WriteTarball] writes. *)
Definition tar_gz `{TarWriter} (evs : list tar_event) : string := gzip_bytes (tar_bytes evs).

Section pack.
Context `{Sha256} `{TarWriter}.

Definition entry_visit (root p : string) (info : option inode) (err : option goerr) (entries : list (string * string))
    : io (list (string * string) * walk_next) :=
  match err, info with
  | Some e, _ => io_fail e
  | None, Some (IFile _) =>
      do rel <- io_lift (Rel root p);
      if decide (rel = SourceFile) then io_ret (entries, Onward)
      else do body <- ReadFile p; io_ret (entries ++ [(rel, body)], Onward)
  | None, _ => io_ret (entries, Onward)
  end.

Definition rel_le (a b : string * string) : Prop := String.le a.1 b.1.

#[export] Instance rel_le_dec : RelDecision rel_le.
Proof. intros a b. unfold rel_le. apply _. Defined.

Definition nul : string := String "000" "".

(** What is hashed. *)
Definition preimage (entries : list (string * string)) : string :=
  foldr (fun e s => e.1 +:+ nul +:+ e.2 +:+ nul +:+ s) "" entries.

Definition ContentSHA (root : string) : io string :=
  do entries <- Walk (entry_visit root) root [];
  io_ret (String.substring 0 40 (sha256_hex (preimage (merge_sort rel_le entries)))).

Definition tar_dir (name : string) : tar_event := TarEntry (mkEntry name TypeDir 0 "" false).
Definition tar_file (name : string) (size : Z) (body : string) : tar_event :=
  TarEntry (mkEntry name TypeReg size body false).

Definition tar_visit (srcDir prefix p : string) (info : option inode) (err : option goerr) (evs : list tar_event)
    : io (list tar_event * walk_next) :=
  match err, info with
  | Some e, _ => io_fail e
  | None, None => io_fail (EMsg "no file info")
  | None, Some info =>
      do rel <- io_lift (Rel srcDir p);
      if decide (rel = ".") then io_ret (evs ++ [tar_dir (prefix +:+ "/")], Onward)
      else
        match info with
        | IDir => io_ret (evs ++ [tar_dir (prefix +:+ "/" +:+ rel +:+ "/")], Onward)
        | IFile b =>
            do! Open p;
            do data <- ReadFile p;
            if decide (length_z data = length_z b)
            then io_ret (evs ++ [tar_file (prefix +:+ "/" +:+ rel) (length_z b) data], Onward)
            else io_fail (EMsg "archive/tar: size")
        end
  end.

Definition WriteTarball (out srcDir prefix : string) : io unit :=
  let tmp := out +:+ ".tmp" in
  do! Create tmp;
  unless_committed
    (do evs <- Walk (tar_visit srcDir prefix) srcDir [];
     do! put_data tmp (tar_gz evs);
     Rename tmp out)
    (Remove tmp).
End pack.

(** ** Filling a directory *)

(** [L] lists a tree; below [D] there is nothing that is not in it. *)
Section fill.
Context (L : path -> inode -> Prop) (D : path).
Context (L_up : forall k i m x, L k i -> k = m ++ x -> m <> [] -> L x IDir).
Context (L_fun : forall k i j, L k i -> L k j -> i = j).

Definition sound (d : disk) : Prop := forall j i, j <> [] -> d !! (j ++ D : path) = Some i -> L j i.

(** The step that puts [i] at [k]. *)
Definition puts (k : path) (i : inode) (d d' : disk) : Prop :=
  dirs_to D d -> sound d ->
  dirs_to D d' /\ sound d' /\ stat (k ++ D) d' = Some i /\
  (forall p, ~ (under D p /\ p <> D) -> d' !! p = d !! p) /\
  forall j i', L j i' -> stat (j ++ D) d = Some i' -> stat (j ++ D) d' = Some i'.

Lemma strictly_below k : under D (k ++ D) /\ k ++ D <> D <-> k <> [].
Proof.
  split.
  - intros [_ Hne] ->. by apply Hne.
  - intros Hk. split; [by exists k|]. intros E. rewrite <- (app_nil_l D) in E at 2. by apply app_inv_tail in E.
Qed.

Lemma stat_below k d : k <> [] -> stat (k ++ D) d = d !! (k ++ D : path).
Proof. intros Hk. unfold stat. rewrite decide_False; [done|]. by destruct k. Qed.

(** A directory that is made with its parents. *)
Lemma mkdir_all_puts k w w' :
  L k IDir -> mkdir_all (k ++ D) w = (Ok tt, w') -> puts k IDir (w_disk w) (w_disk w').
Proof.
  intros HL E Hd Hs. pose proof (mkdir_all_ok _ _ _ E) as Hk.
  destruct (mkdir_all_below (w_cwd w) D (k ++ D) (or_introl (ex_intro _ k eq_refl)) w _ w' eq_refl E) as (_ & Hb & _).
  destruct (mkdir_all_adds (w_cwd w) _ _ (under_refl (k ++ D)) w _ w' eq_refl E) as (_ & [Ha _] & _).
  destruct (Hb Hd) as [Hd' Hout]. split; [done|]. split; [|split; [done|split; [done|]]].
  - intros j i Hj Hi. destruct (Ha (j ++ D)) as [Eq|([m Em] & _ & Eq)]; [apply Hs; [done|by rewrite <- Eq]|].
    rewrite Eq in Hi. injection Hi as <-. rewrite app_assoc in Em. apply app_inv_tail in Em as ->.
    destruct m as [|y m]; [done|]. by apply (L_up _ _ (y :: m) j HL).
  - intros j i _ Hi. destruct (Ha (j ++ D)) as [Eq|(_ & En & Eq)]; unfold stat in Hi |- *; case_decide; congruence.
Qed.

(** A file that is created and written. *)
Lemma insert_file_puts k b d : k <> [] -> L k (IFile b) -> puts k (IFile b) d (<[(k ++ D : path) := IFile b]> d).
Proof.
  intros Hk HL Hd Hs. apply strictly_below in Hk as Hb. destruct Hb as [Hu Hne].
  destruct (below_only_insert D (k ++ D) (IFile b) d Hu Hne Hd) as [Hd' Hout]. split; [done|]. split; [|split; [|split; [done|]]].
  - intros j i Hj. destruct (decide (j = k)) as [->|Hjk].
    + rewrite lookup_insert_eq. by intros [= <-].
    + rewrite lookup_insert_ne; [by apply Hs|]. intros E%app_inv_tail. congruence.
  - rewrite stat_below by done. apply lookup_insert_eq.
  - intros j i HLj Hi. destruct (decide (j = k)) as [->|Hjk].
    + rewrite stat_below by done. rewrite lookup_insert_eq. f_equal. by eapply L_fun.
    + unfold stat in Hi |- *. case_decide; [done|]. rewrite lookup_insert_ne; [done|]. intros E%app_inv_tail. congruence.
Qed.

Lemma puts_trans_dir k x i d d1 d2 : L k i -> puts x IDir d d1 -> puts k i d1 d2 -> puts k i d d2.
Proof.
  intros HL H1 H2 Hd Hs. destruct (H1 Hd Hs) as (Hd1 & Hs1 & _ & Ho1 & Hk1).
  destruct (H2 Hd1 Hs1) as (Hd2 & Hs2 & E & Ho2 & Hk2). split; [done|]. split; [done|]. split; [done|].
  split; [intros p Hp; by rewrite Ho2, Ho1|]. intros j i' HLj Hi. by apply Hk2, Hk1.
Qed.

(** Everything was put. *)
Definition filled (l : list (path * inode)) (d d' : disk) : Prop :=
  dirs_to D d' /\ sound d' /\ (forall p, ~ (under D p /\ p <> D) -> d' !! p = d !! p) /\
  forall k i, (k, i) ∈ l -> stat (k ++ D) d' = Some i.

Lemma filled_nil d : dirs_to D d -> sound d -> filled [] d d.
Proof. intros Hd Hs. split; [done|]. split; [done|]. split; [done|]. set_solver. Qed.

Lemma filled_cons k i l d d1 d2 :
  L k i -> dirs_to D d -> sound d -> puts k i d d1 -> filled l d1 d2 ->
  (forall j i', L j i' -> stat (j ++ D) d1 = Some i' -> stat (j ++ D) d2 = Some i') -> filled ((k, i) :: l) d d2.
Proof.
  intros HL Hd Hs Hp (Hd2 & Hs2 & Ho & Hl) Hk. destruct (Hp Hd Hs) as (Hd1 & Hs1 & E & Ho1 & _).
  split; [done|]. split; [done|]. split; [intros p Hn; by rewrite Ho, Ho1|].
  intros j i' [[= -> ->]|Hin]%elem_of_cons; [by apply Hk|by apply Hl].
Qed.

(** Where the list is the whole of [L], the directory holds just that. *)
Lemma filled_exact l d d' : filled l d d' -> (forall k i, L k i -> (k, i) ∈ l) ->
  forall k i, k <> [] -> d' !! (k ++ D : path) = Some i <-> L k i.
Proof.
  intros (_ & Hs & _ & Hl) HL k i Hk. split; [by apply Hs|]. intros H%HL%Hl. by rewrite stat_below in H.
Qed.

Inductive put_all : list (path * inode) -> disk -> disk -> Prop :=
  | put_nil d : put_all [] d d
  | put_cons k i l d d1 d2 : L k i -> puts k i d d1 -> put_all l d1 d2 -> put_all ((k, i) :: l) d d2.

Lemma put_all_filled l d d' : put_all l d d' -> dirs_to D d -> sound d ->
  filled l d d' /\ forall j i, L j i -> stat (j ++ D) d = Some i -> stat (j ++ D) d' = Some i.
Proof.
  induction 1 as [d|k i l d d1 d2 HL Hp _ IH]; intros Hd Hs; [by split; [apply filled_nil|]|].
  destruct (Hp Hd Hs) as (Hd1 & Hs1 & _ & _ & Hk1). destruct (IH Hd1 Hs1) as [Hf Hk2].
  split; [by eapply filled_cons|]. intros j i' HLj Hi. by apply Hk2, Hk1.
Qed.

(** Nothing is in the way of a new directory. *)
Lemma way_clear k d x b : L k IDir -> dirs_to D d -> sound d -> under x (k ++ D) -> stat x d <> Some (IFile b).
Proof.
  intros HL Hd Hs [m E] Hx. destruct (decide (length m <= length k)) as [Hl|Hl].
  - assert (exists y, x = y ++ D /\ k = m ++ y) as (y & -> & ->).
    { exists (drop (length m) k). rewrite <- (take_drop (length m) k), <- app_assoc in E.
      apply app_inj_1 in E as [E1 E2]; [|rewrite length_take; lia]. split; [done|].
      rewrite <- (take_drop (length m) k) at 1. by rewrite E1. }
    destruct (decide (y = [])) as [->|Hy]; [by pose proof (Hd D (under_refl D)); simplify_eq/=|].
    rewrite stat_below in Hx by done. apply Hs in Hx; [|done].
    destruct m as [|z m]; [by pose proof (L_fun _ _ _ HL Hx)|].
    by pose proof (L_fun _ _ _ (L_up _ _ (z :: m) y HL eq_refl ltac:(done)) Hx).
  - assert (under x D) as Hu.
    { exists (drop (length k) m). rewrite <- (take_drop (length k) m), <- app_assoc in E.
      apply app_inj_1 in E as [_ E]; [done|]. rewrite length_take. lia. }
    by rewrite (Hd x Hu) in Hx.
Qed.
End fill.

(** ** Calls that cannot fail *)

Lemma quiet_write f d' w : w_faults w = [] -> f (w_disk w) = Ok d' ->
  exists w', sys_write f w = (Ok tt, w') /\ w_disk w' = d' /\ w_faults w' = [].
Proof. destruct w as [d c fs past]. simpl. intros -> E. unfold sys_write. simpl. rewrite E. by eexists. Qed.

Lemma mkdir_all_quiet p w :
  w_faults w = [] -> (forall x b, under x p -> stat x (w_disk w) <> Some (IFile b)) ->
  exists w', mkdir_all p w = (Ok tt, w') /\ w_faults w' = [].
Proof.
  intros Hq. induction p as [|n p IH]; intros Hp; cbn [mkdir_all]; unfold io_bind at 1; rewrite (quiet_read _ _ Hq).
  { by exists w. }
  destruct (stat (n :: p) (w_disk w)) as [[b|]|] eqn:Es; [by apply Hp in Es; [|apply under_refl]|by exists w|].
  destruct IH as (w1 & E1 & Hq1). { intros x b Hu. apply Hp. by apply under_cons. }
  unfold io_bind. rewrite E1.
  destruct (quiet_write (mkdir (n :: p)) (<[n :: p := IDir]> (w_disk w1)) w1 Hq1) as (w' & E' & _ & Hq'); [|by exists w'].
  unfold mkdir. rewrite (mkdir_all_ok _ _ _ E1 : stat (tail (n :: p)) (w_disk w1) = Some IDir).
  destruct (mkdir_all_adds (w_cwd w) _ _ (under_refl p) w _ w1 eq_refl E1) as (_ & [Ha _] & _).
  destruct (Ha (n :: p)) as [Eq|([k E] & _)].
  - unfold stat in Es |- *. rewrite decide_False in Es |- * by done. by rewrite Eq, Es.
  - apply (f_equal length) in E. rewrite length_app in E. simpl in E. lia.
Qed.

(** ** Where the entries go *)

Definition names_plain (k : path) : Prop := Forall (fun x => plain x /\ slashless x) k.

Lemma split_rel k : names_plain k -> k <> [] -> split_byte "/" (rel_of k) = rev k.
Proof.
  intros Hk Hne. unfold rel_of. rewrite decide_False by done. apply split_join; [by rewrite rev_nil_iff|].
  apply Forall_rev. eapply Forall_impl; [exact Hk|]. by intros x [_ ?].
Qed.

Lemma rel_nonempty k : names_plain k -> rel_of k <> "".
Proof.
  intros Hk E. destruct (decide (k = [])) as [->|Hne]; [done|]. pose proof (split_rel k Hk Hne) as Hs. rewrite E in Hs.
  simpl in Hs. apply (f_equal (fun l => rev l)) in Hs. rewrite rev_involutive in Hs. simpl in Hs. subst.
  apply Forall_cons in Hk as [[(? & _) _] _]. done.
Qed.

Lemma rel_dot k : names_plain k -> rel_of k = "." <-> k = [].
Proof.
  intros Hk. split; [|by intros ->]. intros E. destruct (decide (k = [])) as [|Hne]; [done|].
  pose proof (split_rel k Hk Hne) as Hs. rewrite E in Hs. simpl in Hs.
  apply (f_equal (fun l => rev l)) in Hs. rewrite rev_involutive in Hs. simpl in Hs. subst.
  apply Forall_cons in Hk as [[(_ & ? & _) _] _]. done.
Qed.

Lemma names_plain_rev k b : names_plain k -> foldl os_step b (rev k) = k ++ b.
Proof. intros Hk. rewrite fold_plain by (by apply Forall_rev). by rewrite rev_involutive. Qed.

Lemma fold_push_plain r k st : names_plain k -> foldl (seg_push r) st (rev k) = k ++ st.
Proof.
  induction k as [|x k IH]; intros Hk; [done|]. apply Forall_cons in Hk as [[Hx _] Hk]. simpl.
  rewrite foldl_app, IH by done. simpl. by apply plain_push.
Qed.

(** The place of an entry below a directory. *)
Lemma Join_rel cwd dst k : dst <> "" -> names_plain k -> at_node cwd dst (Join dst (rel_of k)) k.
Proof.
  intros Hd Hk. pose proof (rel_nonempty k Hk) as Hr.
  assert (Join dst (rel_of k) = Clean (dst +:+ "/" +:+ rel_of k)) as ->.
  { unfold Join. simpl. by rewrite !bool_decide_eq_false_2. }
  split; [rewrite resolve_Clean|rewrite clean_stack_Clean|by rewrite rooted_Clean, rooted_app].
  - unfold resolve, base. rewrite rooted_app, split_slash_app, foldl_app by done.
    destruct (decide (k = [])) as [->|Hne]; [done|]. by rewrite split_rel, names_plain_rev.
  - unfold clean_stack. rewrite rooted_app, split_slash_app, foldl_app by done.
    destruct (decide (k = [])) as [->|Hne]; [done|]. by rewrite split_rel, fold_push_plain.
Qed.

Lemma node_clean cwd root p q k : at_node cwd root p k -> at_node cwd root q k -> Clean p = Clean q.
Proof. intros [_ H1 H2] [_ H3 H4]. unfold Clean. by rewrite H1, H2, H3, H4. Qed.

Lemma Clean_Join a b : a <> "" -> Clean (Join a b) = Join a b.
Proof. intros [p ->]%(Join_Clean a b). apply Clean_Clean. Qed.

Lemma Dir_rel cwd dst x k : dst <> "" -> names_plain (x :: k) ->
  resolve cwd (Dir (Join dst (rel_of (x :: k)))) = k ++ resolve cwd dst.
Proof.
  intros Hd Hk. apply Forall_cons in Hk as Hk'. destruct Hk' as [[Hx Hs] Hk'].
  pose proof (Join_rel cwd dst k Hd Hk') as Hn. pose proof (at_child _ _ _ _ _ Hx Hs Hn) as Hc.
  assert (Join dst (rel_of k) <> "") as Hne.
  { destruct (Join_Clean dst (rel_of k) Hd) as [p ->]. apply Clean_nonempty. }
  rewrite <- (Clean_Join dst (rel_of (x :: k))) by done.
  rewrite (node_clean _ _ _ _ _ (Join_rel cwd dst (x :: k) Hd Hk) Hc), (Clean_Join _ _ Hne).
  rewrite Dir_Join_child by done. by rewrite (an_resolve _ _ _ _ Hn).
Qed.

(** ** What the calls do *)

Lemma put_data_ok p data w w' :
  put_data p data w = (Ok tt, w') ->
  w_cwd w' = w_cwd w /\ w_disk w' = <[resolve (w_cwd w) p := IFile data]> (w_disk w) /\
  exists b, stat (resolve (w_cwd w) p) (w_disk w) = Some (IFile b).
Proof.
  unfold put_data, at_path. intros (E & Hc & _)%sys_write_ok. destruct (stat _ _) as [[b|]|]; try done.
  injection E as <-. by eauto.
Qed.

Lemma create_ok p d d' : create p d = Ok d' -> d' = <[p := IFile ""]> d.
Proof. unfold create. by destruct (stat p d) as [[]|], (stat (tail p) d) as [[]|]; intros; simplify_eq. Qed.

Lemma Create_ok p w w' :
  Create p w = (Ok tt, w') -> w_cwd w' = w_cwd w /\ w_disk w' = <[resolve (w_cwd w) p := IFile ""]> (w_disk w).
Proof.
  unfold Create, at_path. intros (E & Hc & _)%sys_write_ok. split; [done|]. by apply create_ok.
Qed.

Lemma write_file_disk data p w w' :
  write_file data p w = (Ok tt, w') -> w_cwd w' = w_cwd w /\ w_disk w' = <[p := IFile data]> (w_disk w).
Proof.
  unfold write_file. intros ([] & w1 & (E1 & Hc1 & _)%sys_write_ok & (E2 & Hc2 & _)%sys_write_ok)%io_bind_ok.
  split; [congruence|]. apply create_ok in E1 as Ed.
  destruct (stat p (w_disk w1)) as [[b|]|]; try done. injection E2 as <-. rewrite Ed. apply insert_insert_eq.
Qed.

(** ** A copy is a copy *)

Lemma under_comparable (a b c : path) : under a c -> under b c -> under a b \/ under b a.
Proof.
  intros [x ->] [y E]. destruct (decide (length x <= length y)) as [Hl|Hl].
  - right. exists (drop (length x) y). rewrite <- (take_drop (length x) y), <- app_assoc in E.
    apply app_inj_1 in E as [_ E]; [done|]. rewrite length_take. lia.
  - left. exists (drop (length y) x). rewrite <- (take_drop (length y) x), <- app_assoc in E.
    apply app_inj_1 in E as [_ E]; [done|]. rewrite length_take. lia.
Qed.

Definition apart (a b : path) : Prop := ~ under a b /\ ~ under b a.

Lemma apart_below a b j k : apart a b -> ~ under (j ++ a) (k ++ b).
Proof.
  intros [H1 H2] Hu. destruct (under_comparable a b (k ++ b)); [|by exists k|done..].
  eapply under_trans; [|exact Hu]. by exists j.
Qed.

Lemma apart_ne a b j k : apart a b -> j ++ a <> k ++ b.
Proof. intros Hab E. apply (apart_below a b j k Hab). rewrite E. apply under_refl. Qed.

(** The directories a copy leaves out. *)
Definition git_dir (src : string) (k : path) : bool := bool_decide (default "." (head (k ++ clean_stack src)) = ".git").

Section copying.
Context (src dst : string) (cwd : path) (d0 : disk).
Notation S0 := (resolve cwd src).
Notation D := (resolve cwd dst).
Notation L := (listed (git_dir src) S0 d0 []).
Context (Hdst : dst <> "") (Hap : apart S0 D) (Hnames : tree_named S0 d0) (Hdir : stat S0 d0 = Some IDir).

Lemma L_up k i m x : L k i -> k = m ++ x -> m <> [] -> L x IDir.
Proof. intros HL E Hm. apply (listed_up _ _ _ _ _ _ _ _ HL E Hm). exists x. by rewrite app_nil_r. Qed.

Lemma L_fun k i j : L k i -> L k j -> i = j.
Proof. intros (H1 & _) (H2 & _). congruence. Qed.

(** What a visit that goes on did. *)
Lemma copy_visit_ok p k i st w st' next w' :
  at_node cwd src p k -> stat (k ++ S0) d0 = Some i -> src_same cwd src d0 w ->
  copy_visit src dst p (Some i) None st w = (Ok (st', next), w') ->
  if is_dir i && git_dir src k then next = SkipDir /\ w' = w
  else next = Onward /\
    match i with
    | IDir => mkdir_all (k ++ D) w = (Ok tt, w')
    | IFile b => w_cwd w' = cwd /\ w_disk w' = <[(k ++ D : path) := IFile b]> (w_disk w)
    end.
Proof.
  intros Hp Hi [Hc Hs]. unfold copy_visit. rewrite (Rel_node _ _ _ _ Hp). unfold io_bind at 1. cbn [io_lift].
  replace (bool_decide (Base p = ".git")) with (git_dir src k)
    by (unfold Base, git_dir; by rewrite (an_stack _ _ _ _ Hp)).
  pose proof (an_resolve _ _ _ _ (Join_rel cwd dst k Hdst (Hnames _ _ Hi))) as Hj.
  destruct (is_dir i && git_dir src k) eqn:Eg; [by intros [= <- <- <-]|]. destruct i as [b|]; cbn [is_dir].
  - intros ([] & w1 & E1 & E)%io_bind_ok. apply io_bind_ok in E as ([] & w2 & E2 & E).
    apply io_bind_ok in E as ([] & w3 & E3 & [= <- <- <-]). split; [done|].
    assert (same_disk w w1) as (Ed1 & Ec1 & _).
    { unfold Open in E1. apply io_bind_ok in E1 as (i1 & w1' & E1 & [= <-]). by eapply Stat_reads. }
    apply Create_ok in E2 as [Hc2 Ed2]. rewrite Ec1, Hc, Hj, Ed1 in Ed2.
    unfold io_Copy in E3. apply io_bind_ok in E3 as (data & w2' & Er & Ew).
    pose proof (ReadFile_reads p _ _ _ Er) as (Ed2' & Ec2' & _).
    apply put_data_ok in Ew as (Hc3 & Ed3 & _). rewrite Ec2', Hc2, Ec1, Hc, Hj, Ed2', Ed2 in Ed3.
    unfold ReadFile, at_path in Er. apply sys_read_ok in Er as [_ Er].
    rewrite Hc2, Ec1, Hc, (an_resolve _ _ _ _ Hp), Ed2 in Er.
    assert (stat (k ++ S0) (<[(k ++ D : path) := IFile ""]> (w_disk w)) = Some (IFile b)) as Eb.
    { rewrite stat_insert_ne by (by apply apart_ne). by rewrite Hs. }
    rewrite Eb in Er. injection Er as <-. split; [congruence|]. by rewrite Ed3, insert_insert_eq.
  - intros ([] & w1 & E1 & [= <- <- <-])%io_bind_ok. split; [done|]. unfold MkdirAll, at_path in E1.
    by rewrite Hc, Hj in E1.
Qed.

Lemma src_kept w w' : src_same cwd src d0 w -> w_cwd w' = cwd ->
  (forall k, stat (k ++ S0) (w_disk w') = stat (k ++ S0) (w_disk w)) -> src_same cwd src d0 w'.
Proof. intros [_ Hs] Hc Hk. split; [done|]. intros k. by rewrite Hk. Qed.

Lemma copy_keeps_source : keeps_source (copy_visit src dst) cwd src (git_dir src) d0.
Proof.
  split; [done|]. intros k p i st w st' next w' Hp Hi Hw E.
  pose proof (copy_visit_ok _ _ _ _ _ _ _ _ Hp Hi Hw E) as Hv. destruct (is_dir i && git_dir src k).
  - destruct Hv as [-> ->]. split; [done|]. split; [done|]. by destruct st, st'.
  - destruct Hv as [-> Hv]. split; [|done]. destruct i as [b|].
    + destruct Hv as [Hc Ed]. apply (src_kept w); [done|done|]. intros j. rewrite Ed. by apply stat_insert_ne, apart_ne.
    + assert (forall j, w_cwd w' = w_cwd w /\ stat (j ++ S0) (w_disk w') = stat (j ++ S0) (w_disk w)) as Hk.
      { intros j. destruct (mkdir_all_kept (w_cwd w) (j ++ S0) (k ++ D) (apart_below _ _ _ _ Hap) w _ w' eq_refl Hv)
          as (? & ? & _). done. }
      apply (src_kept w); [done|by rewrite (proj1 (Hk [])), (proj1 Hw)|]. intros j. apply (Hk j).
Qed.

Lemma copy_visits_put l st d st' d' :
  visits (copy_visit src dst) cwd src d0 l st d st' d' -> (forall k i, (k, i) ∈ l -> L k i) -> put_all L D l d d'.
Proof.
  induction 1 as [|k i l st d st1 d1 st' d' (p & w & w' & Hp & Hw & <- & <- & E) _ IH]; intros HL; [constructor|].
  assert (L k i) as Hk by (apply HL; set_solver).
  econstructor; [exact Hk| |apply IH; intros; apply HL; set_solver].
  pose proof (copy_visit_ok _ _ _ _ _ _ _ _ Hp (proj1 Hk) Hw E) as Hv.
  destruct i as [b|]; cbn [is_dir andb] in Hv.
  - destruct Hv as (_ & _ & ->). apply insert_file_puts; [exact L_fun| |done]. intros ->. destruct Hk as [Hk _].
    simpl in Hk. congruence.
  - rewrite (proj1 (proj2 Hk) eq_refl) in Hv. destruct Hv as [_ Hv]. apply mkdir_all_puts; [exact L_up|done|done].
Qed.

(** Whatever comes of a visit, it works below the destination. *)
Lemma put_data_below c B p data : under B (resolve c p) -> steps_in c (below_only B) (put_data p data).
Proof.
  intros Hu. apply steps_in_at, steps_in_write; [apply _|]. intros d d'. destruct (stat (resolve c p) d) as [[]|] eqn:E; try done.
  intros [= <-] Hd. assert (resolve c p <> B) as Hne by (intros Eq; rewrite Eq, (Hd B (under_refl B)) in E; done).
  by apply below_only_insert.
Qed.

Lemma copy_visit_below p k i st : at_node cwd src p k -> names_plain k ->
  steps_in cwd (below_only D) (copy_visit src dst p (Some i) None st).
Proof.
  intros Hp Hk. unfold copy_visit. rewrite (Rel_node _ _ _ _ Hp).
  change (steps_in cwd (below_only D) (if is_dir i && bool_decide (Base p = ".git") then io_ret (tt, SkipDir)
    else if is_dir i then (do! MkdirAll (Join dst (rel_of k)); io_ret (tt, Onward))
    else (do! Open p; do! Create (Join dst (rel_of k)); do! io_Copy (Join dst (rel_of k)) p; io_ret (tt, Onward)))).
  pose proof (an_resolve _ _ _ _ (Join_rel cwd dst k Hdst Hk)) as Hj.
  assert (under D (resolve cwd (Join dst (rel_of k)))) as Hu by (rewrite Hj; by exists k).
  assert (forall A (m : io A), reads m -> steps_in cwd (below_only D) m) as Hreads.
  { intros A m Hm w r w' Hc E. destruct (Hm _ _ _ E) as (Ed & Ec & Ep). split; [congruence|]. rewrite Ed.
    split; [done|]. exists []. by rewrite Ep. }
  destruct (is_dir i && _); [apply Hreads, reads_ret|]. destruct (is_dir i).
  - apply steps_in_bind; [apply _|by apply steps_in_at, mkdir_all_below; left|]. intros _. apply Hreads, reads_ret.
  - apply steps_in_bind; [apply _|apply Hreads; unfold Open; reading|]. intros _.
    apply steps_in_bind; [apply _|apply steps_in_at, steps_in_write; [apply _|]; intros d d'; by apply create_below|]. intros _.
    apply steps_in_bind; [apply _| |intros _; apply Hreads, reads_ret].
    apply steps_in_bind; [apply _|apply Hreads, ReadFile_reads|]. intros data. by apply put_data_below.
Qed.

(** A visited directory is ready for its entries. *)
Definition copy_ready (k : path) (w : world) : Prop :=
  match k with [] => True | _ :: k => L k IDir /\ stat (k ++ D) (w_disk w) = Some IDir end.

Definition copy_inv (_ : unit) (w : world) : Prop := dirs_to D (w_disk w) /\ sound L D (w_disk w).

Lemma create_quiet p w : w_faults w = [] -> stat (resolve (w_cwd w) p) (w_disk w) <> Some IDir ->
  stat (tail (resolve (w_cwd w) p)) (w_disk w) = Some IDir ->
  exists w', Create p w = (Ok tt, w') /\ w_faults w' = [].
Proof.
  intros Hq Hi Ht. unfold Create, at_path.
  destruct (quiet_write (create (resolve (w_cwd w) p)) (<[resolve (w_cwd w) p := IFile ""]> (w_disk w)) w Hq)
    as (w' & E & _ & Hq'); [|by exists w'].
  unfold create. rewrite Ht. by destruct (stat (resolve (w_cwd w) p) (w_disk w)) as [[]|].
Qed.

Lemma put_data_quiet p data w b : w_faults w = [] -> stat (resolve (w_cwd w) p) (w_disk w) = Some (IFile b) ->
  exists w', put_data p data w = (Ok tt, w') /\ w_faults w' = [].
Proof.
  intros Hq Hs. unfold put_data, at_path.
  edestruct (quiet_write (fun d => match stat (resolve (w_cwd w) p) d with
    | Some (IFile _) => Ok (<[resolve (w_cwd w) p := IFile data]> d) | _ => Err (EMsg "no such file") end))
    as (w' & E & _ & Hq'); [exact Hq|by rewrite Hs|by exists w'].
Qed.

Lemma copy_file_quiet p k b w :
  at_node cwd src p k -> k <> [] -> stat (k ++ S0) d0 = Some (IFile b) -> src_same cwd src d0 w -> w_faults w = [] ->
  L k (IFile b) -> copy_inv tt w -> copy_ready k w ->
  exists w', copy_visit src dst p (Some (IFile b)) None tt w = (Ok (tt, Onward), w') /\ w_faults w' = [].
Proof.
  intros Hp Hk Hi [Hc Hs] Hq HL [Hd Hsnd] Hr. unfold copy_visit. rewrite (Rel_node _ _ _ _ Hp). unfold io_bind at 1. cbn [io_lift is_dir andb].
  pose proof (an_resolve _ _ _ _ (Join_rel cwd dst k Hdst (Hnames _ _ Hi))) as Hj.
  assert (Open p w = (Ok tt, w)) as Eo.
  { unfold Open, Stat, at_path, io_bind. by rewrite (quiet_read _ _ Hq), Hc, (an_resolve _ _ _ _ Hp), Hs, Hi. }
  unfold io_bind at 1. rewrite Eo. destruct k as [|x k]; [done|]. destruct Hr as [_ Hr].
  destruct (create_quiet (Join dst (rel_of (x :: k))) w Hq) as (w2 & E2 & Hq2).
  { rewrite Hc, Hj. rewrite stat_below by done. intros E. apply Hsnd in E; [|done]. by pose proof (L_fun _ _ _ HL E). }
  { by rewrite Hc, Hj. }
  unfold io_bind at 1. rewrite E2. apply Create_ok in E2 as [Hc2 Ed2]. rewrite Hc, Hj in Ed2.
  assert (ReadFile p w2 = (Ok b, w2)) as Er.
  { unfold ReadFile, at_path. rewrite (quiet_read _ _ Hq2), Hc2, Hc, (an_resolve _ _ _ _ Hp), Ed2.
    rewrite stat_insert_ne by (by apply apart_ne). by rewrite Hs, Hi. }
  unfold io_Copy, io_bind at 1. unfold io_bind at 1. rewrite Er.
  destruct (put_data_quiet (Join dst (rel_of (x :: k))) b w2 "" Hq2) as (w3 & E3 & Hq3).
  { rewrite Hc2, Hc, Hj, Ed2. rewrite stat_below by done. apply lookup_insert_eq. }
  rewrite E3. by exists w3.
Qed.

Lemma copy_progress : git_dir src [] = false ->
  makes_progress (copy_visit src dst) cwd src d0 copy_inv copy_ready.
Proof.
  intros Hroot k p i [] w Hp Hi Hw Hq Hinv Hr.
  destruct (is_dir i && git_dir src k) eqn:Eg.
  { exists tt, SkipDir, w. split; [|done]. unfold copy_visit. rewrite (Rel_node _ _ _ _ Hp). unfold io_bind. cbn [io_lift].
    unfold Base. rewrite (an_stack _ _ _ _ Hp). fold (git_dir src k). by rewrite Eg. }
  assert (L k i) as HL.
  { assert (i = IDir -> git_dir src k = false) as Hg by (intros ->; by destruct (git_dir src k)).
    destruct k as [|x k]; [by apply listed_root|]. by apply listed_child; [apply Hr| |]. }
  assert (exists w', copy_visit src dst p (Some i) None tt w = (Ok (tt, Onward), w') /\ w_faults w' = []) as (w' & E & Hq').
  { destruct i as [b|].
    - eapply copy_file_quiet; [done| |done..]. intros ->. simpl in Hi. congruence.
    - unfold copy_visit. rewrite (Rel_node _ _ _ _ Hp). unfold io_bind at 1. cbn [io_lift is_dir andb].
      unfold Base. rewrite (an_stack _ _ _ _ Hp). fold (git_dir src k). cbn [is_dir andb] in Eg. rewrite Eg.
      destruct (mkdir_all_quiet (k ++ D) w Hq) as (w' & E & Hq').
      { intros x b Hu. destruct Hinv. by apply (way_clear L D L_up L_fun k (w_disk w) x b HL). }
      exists w'. split; [|done]. unfold MkdirAll, at_path, io_bind.
      by rewrite (proj1 Hw), (an_resolve _ _ _ _ (Join_rel cwd dst k Hdst (Hnames _ _ Hi))), E. }
  exists tt, Onward, w'. split; [done|]. split; [done|].
  assert (put_all L D [(k, i)] (w_disk w) (w_disk w')) as Hput.
  { apply (copy_visits_put _ tt _ tt); [|by intros k' i' [= -> ->]%list_elem_of_singleton].
    econstructor; [|constructor]. by exists p, w, w'. }
  destruct Hinv as [Hd Hs]. destruct (put_all_filled L D L_up L_fun _ _ _ Hput Hd Hs) as [(Hd' & Hs' & _ & Hl) Hk].
  split; [done|]. split.
  - intros _ -> n. split; [done|]. apply Hl. set_solver.
  - intros [|x k'] Hr'; [done|]. destruct Hr' as [HL' Hr']. split; [done|]. by apply Hk.
Qed.
End copying.

(** A copy, also one that fails, works below its destination. *)
Lemma copy_passes src dst w r w' :
  dst <> "" -> apart (resolve (w_cwd w) src) (resolve (w_cwd w) dst) -> tree_named (resolve (w_cwd w) src) (w_disk w) ->
  copyTree src dst w = (r, w') -> passed (below_only (resolve (w_cwd w) dst) (w_disk w)) w w'.
Proof.
  intros Hdst Hap Hn. apply (Walk_passes (copy_visit src dst) src (git_dir src) w); [by apply copy_keeps_source|done| |done].
  split.
  - intros p info e st w1 r1 w1' [= <- <-]. done.
  - intros k p i st w1 r1 w1' Hp Hi [Hc1 _] HP E.
    eapply passed_impl; [|exact (steps_in_passed _ _ _ _ _ _
      (copy_visit_below src dst _ Hdst p k i st Hp (Hn _ _ Hi)) Hc1 E)].
    intros d. by apply transitivity.
Qed.

(** Below a .git directory of the tree at [S0]. *)
Definition in_git (d : disk) (S0 k : path) : Prop :=
  exists x, x <> [] /\ under x k /\ stat (x ++ S0) d = Some IDir /\ head x = Some ".git".

(** On a real disk what is there is in directories. *)
Lemma wf_ancestor (d : disk) (m x : path) (i : inode) : disk_wf d -> stat (m ++ x) d = Some i -> m <> [] -> stat x d = Some IDir.
Proof.
  intros Hwf. revert i. induction m as [|y m IH]; intros i Hs Hm; [done|].
  change (d !! (y :: m ++ x) = Some i) in Hs. apply Hwf in Hs as [_ Ht]. simpl in Ht.
  destruct m as [|z m]; [done|]. by apply (IH IDir).
Qed.

Lemma listed_wf (skip : path -> bool) (d : disk) (S0 k : path) (i : inode) :
  disk_wf d -> listed skip S0 d [] k i <->
  stat (k ++ S0) d = Some i /\ forall x, under x k -> stat (x ++ S0) d = Some IDir -> skip x = false.
Proof.
  intros Hwf. split.
  - intros (Hs & Hk & Hd). split; [done|]. intros x [m ->] Hx. destruct (decide (m = [])) as [->|Hm].
    + apply Hk. simpl in Hs. congruence.
    + destruct (Hd m x eq_refl) as [_ ?]; [exists x; by rewrite app_nil_r|done|done].
  - intros [Hs Hx]. split; [done|]. split; [intros ->; apply Hx; [apply under_refl|done]|].
    intros m x -> _ Hm. assert (stat (x ++ S0) d = Some IDir) as Hd.
    { rewrite <- app_assoc in Hs. by apply (wf_ancestor _ _ _ _ Hwf Hs). }
    split; [done|]. apply Hx; [by exists m|done].
Qed.

Lemma empty_dir (d : disk) (D k : path) : disk_wf d -> children D d = [] -> k <> [] -> d !! (k ++ D : path) = None.
Proof.
  intros Hwf He Hk. destruct k as [|x k _] using rev_ind; [done|]. apply eq_None_not_Some. intros [i Hi].
  rewrite <- app_assoc in Hi. assert (is_Some (stat (x :: D) d)) as Hx.
  { destruct (decide (k = [])) as [->|Hne]; [by exists i|]. exists IDir. apply (wf_ancestor d k _ i); [done| |done].
    apply stat_lookup; [done|]. by destruct k. }
  apply elem_of_children_stat in Hx. rewrite He in Hx. by apply elem_of_nil in Hx.
Qed.

Lemma git_dir_cons src x k : git_dir src (x :: k) = bool_decide (x = ".git").
Proof. done. Qed.

(** What a copy of the tree at [S0] to [D] leaves. *)
Definition copied (d0 : disk) (S0 D : path) (d : disk) : Prop :=
  (forall k i, k <> [] -> d !! (k ++ D : path) = Some i <-> stat (k ++ S0) d0 = Some i /\ ~ in_git d0 S0 k) /\
  (forall p, ~ (under D p /\ p <> D) -> d !! p = d0 !! p).

Lemma listed_git (src : string) (d0 : disk) (k : path) (i : inode) :
  disk_wf d0 -> git_dir src [] = false -> forall S0, listed (git_dir src) S0 d0 [] k i <-> stat (k ++ S0) d0 = Some i /\ ~ in_git d0 S0 k.
Proof.
  intros Hwf Hroot S0. rewrite listed_wf by done. split; intros [Hs Hx]; (split; [done|]).
  - intros ([|y x] & Hne & Hu & Hd & Hh); [done|]. injection Hh as ->. specialize (Hx _ Hu Hd).
    rewrite git_dir_cons in Hx. by apply bool_decide_eq_false in Hx.
  - intros [|y x] Hu Hd; [done|]. rewrite git_dir_cons. apply bool_decide_eq_false. intros ->. apply Hx.
    by exists (".git" :: x).
Qed.

(** A copy into an empty directory is the source without its .git directories
    and changes nothing else.  It succeeds when no call fails. *)
Theorem copyTree_copies (src dst : string) (w w' : world) (r : result unit)
    (Hdst : dst <> "") (Hap : apart (resolve (w_cwd w) src) (resolve (w_cwd w) dst))
    (Hwf : disk_wf (w_disk w)) (Hnames : tree_named (resolve (w_cwd w) src) (w_disk w))
    (Hsrc : stat (resolve (w_cwd w) src) (w_disk w) = Some IDir) (Hgit : Base src <> ".git")
    (Hd : dirs_to (resolve (w_cwd w) dst) (w_disk w)) (He : children (resolve (w_cwd w) dst) (w_disk w) = [])
    (Hrun : copyTree src dst w = (r, w')) :
  (w_faults w = [] -> r = Ok tt) /\
  (r = Ok tt -> copied (w_disk w) (resolve (w_cwd w) src) (resolve (w_cwd w) dst) (w_disk w')).
Proof.
  set (S0 := resolve (w_cwd w) src) in *. set (D := resolve (w_cwd w) dst) in *.
  assert (git_dir src [] = false) as Hroot by (apply bool_decide_eq_false; exact Hgit).
  pose proof (copy_keeps_source src dst (w_cwd w) (w_disk w) Hdst Hap Hnames) as Hks.
  assert (sound (listed (git_dir src) S0 (w_disk w) []) D (w_disk w)) as Hs.
  { intros k i Hk. by rewrite empty_dir. }
  unfold copyTree in Hrun. split.
  - intros Hq. destruct (Walk_total (copy_visit src dst) src (git_dir src) w Hks Hnames
      (copy_inv src dst (w_cwd w) (w_disk w)) (copy_ready src dst (w_cwd w) (w_disk w)) tt IDir) as ([] & w1 & E & _);
      [by apply copy_progress|done|done|by split|done|]. rewrite E in Hrun. by injection Hrun.
  - intros ->. apply (Walk_visits _ _ _ _ Hks Hnames) in Hrun as [_ Hv].
    apply (copy_visits_put src dst (w_cwd w) (w_disk w)) in Hv; [|done..|by intros; eapply elem_of_listing].
    destruct (put_all_filled _ D (L_up src (w_cwd w) (w_disk w)) (L_fun src (w_cwd w) (w_disk w)) _ _ _ Hv Hd Hs)
      as [Hf _]. split; [|apply Hf]. intros k i Hk. rewrite <- (listed_git src) by done.
    eapply filled_exact; [exact Hf| |done]. intros k' i' HL. by apply elem_of_listing.
Qed.

(** A working tree with a repository in it. *)
Definition work_tree : world := mkWorld
  {[ ["w"] := IDir; ["t"] := IDir; ["bouncer.yaml"; "w"] := IFile "manifest"; [".git"; "w"] := IDir;
     ["HEAD"; ".git"; "w"] := IFile "ref"; ["apis"; "w"] := IDir; ["a.yaml"; "apis"; "w"] := IFile "a" ]} [] [] [].

Lemma copyTree_copies_witness :
  (copyTree "/w" "/t" work_tree).1 = Ok tt /\
  w_disk (copyTree "/w" "/t" work_tree).2 !! ["a.yaml"; "apis"; "t"] = Some (IFile "a") /\
  w_disk (copyTree "/w" "/t" work_tree).2 !! ["HEAD"; ".git"; "t"] <> Some (IFile "ref").
Proof.
  destruct (copyTree_copies "/w" "/t" work_tree (copyTree "/w" "/t" work_tree).2 (copyTree "/w" "/t" work_tree).1)
    as [Hok Hcp].
  - discriminate.
  - split; intros Hu; apply below_under in Hu; vm_compute in Hu; discriminate.
  - apply (bool_decide_unpack _). vm_compute. exact I.
  - apply names_ok_tree, (bool_decide_unpack _). vm_compute. exact I.
  - vm_compute. reflexivity.
  - vm_compute. discriminate.
  - change (resolve (w_cwd work_tree) "/t") with ["t"]. apply wf_dirs; [|reflexivity].
    apply (bool_decide_unpack _). vm_compute. exact I.
  - vm_compute. reflexivity.
  - apply surjective_pairing.
  - specialize (Hok eq_refl). split; [exact Hok|]. destruct (Hcp Hok) as [Hk _]. split.
    + apply (Hk ["a.yaml"; "apis"]); [discriminate|]. split; [vm_compute; reflexivity|].
      intros (x & _ & [m Em] & _ & Hh). clear -Em Hh. destruct x as [|y x]; [discriminate|]. injection Hh as ->.
      destruct m as [|? [|? [|? m]]]; discriminate.
    + intros H%(Hk ["HEAD"; ".git"]); [|discriminate]. destruct H as [_ H]. apply H. exists [".git"].
      split; [discriminate|]. split; [by exists ["HEAD"]|]. split; [vm_compute; reflexivity|reflexivity].
Defined.

(** A destination two levels inside the source is copied into itself until its
    path is too long. *)
Example copy_into_itself :
  (copyTree "/w" "/w/apis/t" (mkWorld (<[["t"; "apis"; "w"] := IDir]> (w_disk work_tree)) [] [] [])).1 = Err ENAMETOOLONG.
Proof. vm_compute. reflexivity. Qed.
