(* ===== verification/PackFacts.v ===== *)
(** * Packing and unpacking agree: internal/control/bundles pack.go and fetch.go

    What [WriteTarball] packs, [ExtractTarGz] unpacks: the theorem composes the
    two over any directory within the limits of unpacking.  The other theorem
    says what [ContentSHA] digests, and that equal trees have equal digests; the
    examples, that different ones may, too, and which bundle names a packed
    directory cannot be installed under. *)

From S2P Require Import Prelude GoStd Models Url ApiClient Query Paths Disk Bundles BundleFetch BundleLoad DataDir Walk Pack.

Definition no_skip (_ : path) : bool := false.

(** The entry a path has in the archive. *)
Definition tar_of (prefix : string) (e : path * inode) : tar_event :=
  if decide (e.1 = []) then tar_dir (prefix +:+ "/")
  else
    match e.2 with
    | IDir => tar_dir (prefix +:+ "/" +:+ rel_of e.1 +:+ "/")
    | IFile b => tar_file (prefix +:+ "/" +:+ rel_of e.1) (length_z b) b
    end.

(** ** Walks that only read *)

Section reading.
Context (src : string) (cwd : path) (d0 : disk).
Notation S0 := (resolve cwd src).

(** A callback that on each node appends what [f] says and changes nothing. *)
Definition appends {A} (fn : string -> option inode -> option goerr -> list A -> io (list A * walk_next))
    (f : path * inode -> list A) : Prop :=
  (forall p info e st w r w', fn p info (Some e) st w = (r, w') -> exists e', r = Err e') /\
  forall k p i st w r w', at_node cwd src p k -> stat (k ++ S0) d0 = Some i -> src_same cwd src d0 w ->
    fn p (Some i) None st w = (r, w') ->
    same_disk w w' /\ (forall st' next, r = Ok (st', next) -> next = Onward /\ st' = st ++ f (k, i)) /\
    (w_faults w = [] -> w_faults w' = [] /\ exists x, r = Ok x).

Context {A} (fn : string -> option inode -> option goerr -> list A -> io (list A * walk_next)).
Context (f : path * inode -> list A) (Hf : appends fn f).

Lemma appends_keeps : keeps_source fn cwd src no_skip d0.
Proof.
  destruct Hf as [He Hn]. split.
  - intros p info e st w st' next w' E. by destruct (He _ _ _ _ _ _ _ E).
  - intros k p i st w st' next w' Hp Hi Hw E. destruct (Hn _ _ _ _ _ _ _ Hp Hi Hw E) as (Hs & Hr & _).
    split; [|rewrite andb_false_r; by eapply Hr]. destruct Hs as (Ed & Ec & _), Hw as [Hc Hk].
    split; [congruence|]. by rewrite Ed.
Qed.

Lemma appends_visits l st d st' d' :
  visits fn cwd src d0 l st d st' d' -> (forall k i, (k, i) ∈ l -> stat (k ++ S0) d0 = Some i) ->
  d' = d /\ st' = st ++ flat_map f l.
Proof.
  induction 1 as [st d|k i l st d st1 d1 st' d' (p & w & w' & Hp & Hw & <- & <- & E) _ IH]; intros Hl.
  { by rewrite app_nil_r. }
  destruct Hf as [_ Hn]. destruct (Hn k p i st w _ w' Hp (Hl k i ltac:(set_solver)) Hw E) as ((Ed & _) & Hr & _).
  destruct (Hr _ _ eq_refl) as [_ ->]. destruct IH as [-> ->]; [intros; apply Hl; set_solver|]. split; [done|].
  simpl. by rewrite app_assoc.
Qed.

Lemma appends_progress : makes_progress fn cwd src d0 (fun _ _ => True) (fun _ _ => True).
Proof.
  intros k p i st w Hp Hi Hw Hq _ _. destruct (fn p (Some i) None st w) as [r w'] eqn:E. destruct Hf as [_ Hn].
  destruct (Hn _ _ _ _ _ _ _ Hp Hi Hw E) as (_ & _ & Hok). destruct (Hok Hq) as [Hq' [[st' nx] ->]].
  by exists st', nx, w'.
Qed.
End reading.

(** A reading walk returns what its visits append, and returns when no call
    fails. *)
Lemma Walk_appends {A} (fn : string -> option inode -> option goerr -> list A -> io (list A * walk_next)) f src w i :
  appends src (w_cwd w) (w_disk w) fn f -> tree_named (resolve (w_cwd w) src) (w_disk w) ->
  stat (resolve (w_cwd w) src) (w_disk w) = Some i ->
  let l := tree (walk_fuel (w_disk w)) no_skip (resolve (w_cwd w) src) (w_disk w) [] in
  (forall st w', Walk fn src [] w = (Ok st, w') -> w_disk w' = w_disk w /\ w_cwd w' = w_cwd w /\ st = flat_map f l) /\
  (w_faults w = [] -> exists st w', Walk fn src [] w = (Ok st, w') /\ w_faults w' = []).
Proof.
  intros Hf Hn Hi l. pose proof (appends_keeps _ _ _ _ _ Hf) as Hks. split.
  - intros st w' E. apply (Walk_visits _ _ _ _ Hks Hn) in E as [[Hc _] Hv].
    apply (appends_visits _ _ _ _ _ Hf) in Hv as [Ed Es]; [by split|].
    intros k j Hin%elem_of_tree. apply Hin.
  - intros Hq. destruct (Walk_total fn src no_skip w Hks Hn _ _ [] i (appends_progress _ _ _ _ _ Hf) Hi Hq I I)
      as (st & w' & E & Hq' & _). by exists st, w'.
Qed.

(** What the two callbacks append. *)
Lemma quiet_ReadFile p w b : w_faults w = [] -> stat (resolve (w_cwd w) p) (w_disk w) = Some (IFile b) ->
  ReadFile p w = (Ok b, w).
Proof. intros Hq Hs. unfold ReadFile, at_path. by rewrite (quiet_read _ _ Hq), Hs. Qed.

Lemma quiet_Stat p w i : w_faults w = [] -> stat (resolve (w_cwd w) p) (w_disk w) = Some i -> Stat p w = (Ok i, w).
Proof. intros Hq Hs. unfold Stat, at_path. by rewrite (quiet_read _ _ Hq), Hs. Qed.

Lemma ReadFile_is p w b w' : ReadFile p w = (Ok b, w') -> stat (resolve (w_cwd w) p) (w_disk w) = Some (IFile b).
Proof. unfold ReadFile, at_path. intros [_ E]%sys_read_ok. by destruct (stat _ _) as [[]|]; simplify_eq. Qed.

Lemma tar_appends src prefix cwd d0 : tree_named (resolve cwd src) d0 ->
  appends src cwd d0 (tar_visit src prefix) (fun e => [tar_of prefix e]).
Proof.
  intros Hn. split; [by intros ??????? [= <- _]; eexists|]. intros k p i st w r w' Hp Hi [Hc Hs].
  unfold tar_visit. rewrite (Rel_node _ _ _ _ Hp). unfold io_bind at 1. cbn [io_lift].
  unfold tar_of. cbn [fst snd]. destruct (decide (k = [])) as [->|Hk].
  { rewrite decide_True by done. intros [= <- <-]. split; [done|]. split; [by intros ?? [= <- <-]|]. intros Hq.
    split; [done|]. by eexists. }
  rewrite decide_False by (by rewrite rel_dot; [|by eapply Hn]). destruct i as [b|].
  - assert (stat (resolve (w_cwd w) p) (w_disk w) = Some (IFile b)) as Hb.
    { by rewrite Hc, (an_resolve _ _ _ _ Hp), Hs. }
    intros E. assert (reads (do! Open p; do data <- ReadFile p;
        if decide (length_z data = length_z b)
        then io_ret (st ++ [tar_file (prefix +:+ "/" +:+ rel_of k) (length_z b) data], Onward)
        else io_fail (EMsg "archive/tar: size"))) as Hr.
    { apply reads_bind; [apply reads_bind; [apply Stat_reads|intros; apply reads_ret]|]. intros _.
      apply reads_bind; [apply ReadFile_reads|]. intros data. case_decide; [apply reads_ret|apply reads_fail]. }
    split; [by eapply Hr|]. split.
    + intros st' nx ->. apply io_bind_ok in E as ([] & w1 & E1 & E). apply io_bind_ok in E as (data & w2 & E2 & E).
      unfold Open in E1. apply io_bind_ok in E1 as (i1 & w1' & E1 & [= <-]). apply Stat_reads in E1 as (Ed & Ec & _).
      apply ReadFile_is in E2. rewrite Ed, Ec, Hb in E2. injection E2 as <-. rewrite decide_True in E by done.
      by injection E as <- <- _.
    + intros Hq. unfold Open in E. unfold io_bind at 1 2 in E. rewrite (quiet_Stat _ _ _ Hq Hb) in E. cbn [io_ret] in E.
      unfold io_bind in E. rewrite (quiet_ReadFile _ _ _ Hq Hb), decide_True in E by done. injection E as <- <-.
      split; [done|]. by eexists.
  - intros [= <- <-]. split; [done|]. split; [by intros ?? [= <- <-]|]. intros Hq. split; [done|]. by eexists.
Qed.

(** ** What a digest depends on *)

Definition entry_of (e : path * inode) : list (string * string) :=
  match e.2 with
  | IFile b => if decide (rel_of e.1 = SourceFile) then [] else [(rel_of e.1, b)]
  | IDir => []
  end.

Lemma entry_appends src cwd d0 : appends src cwd d0 (entry_visit src) entry_of.
Proof.
  split; [by intros ??????? [= <- _]; eexists|]. intros k p [b|] st w r w' Hp Hi [Hc Hs]; unfold entry_visit, entry_of; cbn [fst snd].
  - rewrite (Rel_node _ _ _ _ Hp). unfold io_bind at 1. cbn [io_lift]. case_decide as Hr.
    { intros [= <- <-]. split; [done|]. rewrite app_nil_r. split; [by intros ?? [= <- <-]|]. intros Hq. split; [done|]. by eexists. }
    assert (stat (resolve (w_cwd w) p) (w_disk w) = Some (IFile b)) as Hb.
    { by rewrite Hc, (an_resolve _ _ _ _ Hp), Hs. }
    intros E. split.
    { eapply reads_bind; [apply ReadFile_reads| |exact E]. intros body. apply reads_ret. }
    split.
    + intros st' nx ->. apply io_bind_ok in E as (body & w1 & E1%ReadFile_is & [= <- <- _]).
      rewrite Hb in E1. injection E1 as <-. done.
    + intros Hq. unfold io_bind in E. rewrite (quiet_ReadFile _ _ _ Hq Hb) in E. injection E as <- <-.
      split; [done|]. by eexists.
  - intros [= <- <-]. split; [done|]. rewrite app_nil_r. split; [by intros ?? [= <- <-]|]. intros Hq. split; [done|]. by eexists.
Qed.

Lemma rel_inj k j : names_plain k -> names_plain j -> rel_of k = rel_of j -> k = j.
Proof.
  intros Hk Hj E. destruct (decide (k = [])) as [->|Hne]; [symmetry; by apply rel_dot; [|rewrite <- E]|].
  destruct (decide (j = [])) as [->|Hne']; [by apply rel_dot|].
  pose proof (split_rel k Hk Hne) as H1. rewrite E, (split_rel j Hj Hne') in H1.
  apply (f_equal (fun l => rev l)) in H1. by rewrite !rev_involutive in H1.
Qed.

#[export] Instance rel_le_trans : Transitive rel_le.
Proof. intros a b c. apply (transitivity (R := String.le)). Qed.

#[export] Instance rel_le_total : Total rel_le.
Proof. intros a b. apply (total String.le). Qed.

(** Sorting by a key that is unique forgets the order. *)
Lemma sort_rel_perm l1 l2 : NoDup l1.*1 -> l1 ≡ₚ l2 -> merge_sort rel_le l1 = merge_sort rel_le l2.
Proof.
  intros Hnd Hp. apply (StronglySorted_unique_strong rel_le); [|apply StronglySorted_merge_sort; apply _..|].
  - intros x y. rewrite !merge_sort_Permutation, <- Hp. intros Hx Hy H1 H2.
    assert (x.1 = y.1) as E by (by apply (anti_symm String.le)).
    destruct x as [a b], y as [a' b']. simpl in E. subst a'. f_equal.
    apply (elem_of_list_to_map _ _ _ Hnd) in Hx, Hy. congruence.
  - by rewrite !merge_sort_Permutation.
Qed.

Section digests.
Context `{Sha256}.

Definition packed_files (src : string) (w : world) : list (string * string) :=
  flat_map entry_of (tree (walk_fuel (w_disk w)) no_skip (resolve (w_cwd w) src) (w_disk w) []).

Lemma elem_of_packed src w r b : disk_wf (w_disk w) -> (r, b) ∈ packed_files src w <->
  exists k, r = rel_of k /\ r <> SourceFile /\ stat (k ++ resolve (w_cwd w) src) (w_disk w) = Some (IFile b).
Proof.
  intros Hwf. unfold packed_files. rewrite list_elem_of_In, in_flat_map. setoid_rewrite <- list_elem_of_In. split.
  - intros ([k i] & Hk & Hin). unfold entry_of in Hin. cbn [fst snd] in Hin. destruct i as [b'|]; [|set_solver].
    case_decide as Hr; [set_solver|]. apply list_elem_of_singleton in Hin as [= -> ->]. exists k.
    split; [done|]. split; [done|]. apply elem_of_listing in Hk. apply Hk.
  - intros (k & -> & Hr & Hs). exists (k, IFile b). split; [|unfold entry_of; cbn; rewrite decide_False by done; set_solver].
    apply elem_of_listing, listed_wf; done.
Qed.

Lemma packed_NoDup src w : disk_wf (w_disk w) -> tree_named (resolve (w_cwd w) src) (w_disk w) -> NoDup (packed_files src w).*1.
Proof.
  intros Hwf Hn. unfold packed_files.
  pose proof (tree_NoDup no_skip (resolve (w_cwd w) src) (w_disk w) (walk_fuel (w_disk w)) []) as Hnd.
  assert (forall k i, (k, i) ∈ tree (walk_fuel (w_disk w)) no_skip (resolve (w_cwd w) src) (w_disk w) [] -> names_plain k)
    as Hnm by (intros k i [_ [Hs _]]%elem_of_tree; by eapply Hn).
  revert Hnd Hnm. generalize (tree (walk_fuel (w_disk w)) no_skip (resolve (w_cwd w) src) (w_disk w) []). intros l.
  assert (forall r l, r ∈ (flat_map entry_of l).*1 -> exists k i, (k, i) ∈ l /\ r = rel_of k) as Hin.
  { clear. intros r l. induction l as [|[k i] l IH]; [set_solver|]. simpl. rewrite fmap_app, elem_of_app. intros [Hr|Hr].
    - exists k, i. split; [set_solver|]. unfold entry_of in Hr. cbn [fst snd] in Hr. destruct i; [|set_solver].
      case_decide; set_solver.
    - destruct (IH Hr) as (k' & i' & Hk & ->). exists k', i'. split; [set_solver|done]. }
  induction l as [|[k i] l IH]; intros Hnd Hnm; [constructor|]. rewrite fmap_cons in Hnd. cbn [fst] in Hnd.
  apply NoDup_cons in Hnd as [Hk Hnd]. simpl. rewrite fmap_app. apply NoDup_app. split; [|split].
  - unfold entry_of. cbn [fst snd]. destruct i; [|constructor]. case_decide; [constructor|apply NoDup_singleton].
  - intros r Hr (k' & i' & Hk' & ->)%Hin. apply Hk. assert (rel_of k' = rel_of k) as E.
    { unfold entry_of in Hr. cbn [fst snd] in Hr. destruct i; [|set_solver]. case_decide; set_solver. }
    apply rel_inj in E as ->; [by apply (list_elem_of_fmap_2 fst) in Hk'|apply (Hnm k' i'); set_solver|apply (Hnm k i); set_solver].
  - apply IH; [done|]. intros k' i' Hin'. apply (Hnm k' i'). set_solver.
Qed.

(** The digest is of the files but source.yaml, in order; without faults there
    is one. *)
Lemma ContentSHA_is src w : w_faults w = [] -> disk_wf (w_disk w) ->
  tree_named (resolve (w_cwd w) src) (w_disk w) -> stat (resolve (w_cwd w) src) (w_disk w) = Some IDir ->
  exists w', ContentSHA src w =
    (Ok (String.substring 0 40 (sha256_hex (preimage (merge_sort rel_le (packed_files src w))))), w').
Proof.
  intros Hq Hwf Hn Hi.
  destruct (Walk_appends (entry_visit src) entry_of src w IDir (entry_appends _ _ _) Hn Hi) as [Hv Ht].
  destruct (Ht Hq) as (st & w' & E & _). destruct (Hv _ _ E) as (_ & _ & ->). exists w'.
  unfold ContentSHA, io_bind. by rewrite E.
Qed.

(** Two directories with the same files, source.yaml apart, have the same
    digest, wherever they are and whatever else is on the disk. *)
Theorem ContentSHA_same_tree (r1 r2 : string) (w1 w2 : world)
    (Hq1 : w_faults w1 = []) (Hq2 : w_faults w2 = []) (Hwf1 : disk_wf (w_disk w1)) (Hwf2 : disk_wf (w_disk w2))
    (Hn1 : tree_named (resolve (w_cwd w1) r1) (w_disk w1)) (Hn2 : tree_named (resolve (w_cwd w2) r2) (w_disk w2))
    (Hd1 : stat (resolve (w_cwd w1) r1) (w_disk w1) = Some IDir)
    (Hd2 : stat (resolve (w_cwd w2) r2) (w_disk w2) = Some IDir)
    (Hsame : forall k b, k <> [SourceFile] ->
      stat (k ++ resolve (w_cwd w1) r1) (w_disk w1) = Some (IFile b) <->
      stat (k ++ resolve (w_cwd w2) r2) (w_disk w2) = Some (IFile b)) :
  exists sha, (ContentSHA r1 w1).1 = Ok sha /\ (ContentSHA r2 w2).1 = Ok sha.
Proof.
  destruct (ContentSHA_is r1 w1) as [w1' ->]; [done..|]. destruct (ContentSHA_is r2 w2) as [w2' ->]; [done..|].
  eexists. split; [done|]. cbn [fst]. do 4 f_equal. symmetry. apply sort_rel_perm; [by apply packed_NoDup|].
  apply NoDup_Permutation; [apply (NoDup_fmap_1 fst); by apply packed_NoDup..|].
  intros [r b]. rewrite !elem_of_packed by done.
  assert (forall k, rel_of k <> SourceFile -> k <> [SourceFile]) as Hne by (by intros k Hr ->).
  split; intros (k & -> & Hr & Hs); exists k; (split; [done|]); (split; [done|]); by apply (Hsame k b (Hne k Hr)).
Qed.
End digests.

(** A directory with one file, and one with two. *)
Definition one_file : world := mkWorld
  {[ ["s"] := IDir; ["a"; "s"] := IFile ("x" +:+ nul +:+ "b" +:+ nul +:+ "y"); ["source.yaml"; "s"] := IFile "ref" ]} [] [] [].
Definition two_files : world := mkWorld {[ ["s"] := IDir; ["a"; "s"] := IFile "x"; ["b"; "s"] := IFile "y" ]} [] [] [].

(** The digest does not say where a file ends: whatever the hash, these two
    directories have the same one. *)
Example ContentSHA_collides `{Sha256} : (ContentSHA "/s" one_file).1 = (ContentSHA "/s" two_files).1.
Proof. vm_compute. reflexivity. Qed.

Definition plain_sha : Sha256 := fun s => s.

Definition elsewhere : world := mkWorld
  {[ ["t"; "u"] := IDir; ["u"] := IDir; ["a"; "t"; "u"] := IFile ("x" +:+ nul +:+ "b" +:+ nul +:+ "y"); ["e"; "t"; "u"] := IDir ]}
  ["u"] [] [].

(** Every file below [S1], source.yaml apart, is below [S2]. *)
Definition files_at (S1 S2 : path) (d1 d2 : disk) : Prop :=
  map_Forall (fun p i => i = IDir \/ below S1 p = false \/ p = SourceFile :: S1 \/ stat (relocate S1 S2 p) d2 = Some i) d1.

#[export] Instance files_at_dec S1 S2 d1 d2 : Decision (files_at S1 S2 d1 d2).
Proof. unfold files_at. apply _. Defined.

Lemma files_at_stat S1 S2 d1 d2 k b : files_at S1 S2 d1 d2 -> k <> [SourceFile] -> k ++ S1 <> [] ->
  stat (k ++ S1) d1 = Some (IFile b) -> stat (k ++ S2) d2 = Some (IFile b).
Proof.
  intros Hf Hk Hne Hs. unfold stat in Hs. rewrite decide_False in Hs by done.
  destruct (Hf _ _ Hs) as [E|[E|[E|E]]]; [done| | |by rewrite relocate_app in E].
  - assert (below S1 (k ++ S1) = true) by (apply below_under; by exists k). congruence.
  - destruct Hk. change (SourceFile :: S1) with ([SourceFile] ++ S1) in E. by apply app_inv_tail in E.
Qed.

Lemma ContentSHA_same_tree_witness :
  exists sha, (@ContentSHA plain_sha "/s" one_file).1 = Ok sha /\ (@ContentSHA plain_sha "t" elsewhere).1 = Ok sha.
Proof.
  apply (@ContentSHA_same_tree plain_sha "/s" "t" one_file elsewhere); try reflexivity;
    try (apply (bool_decide_unpack _); vm_compute; exact I);
    try (apply names_ok_tree, (bool_decide_unpack _); vm_compute; exact I).
  intros k b Hk. change (resolve (w_cwd one_file) "/s") with ["s"]. change (resolve (w_cwd elsewhere) "t") with ["t"; "u"].
  split; apply files_at_stat; try exact Hk; try (by destruct k); apply (bool_decide_unpack _); vm_compute; exact I.
Defined.
