(* ===== verification/Unpack.v ===== *)
(** * What is packed can be unpacked: internal/control/bundles pack.go and fetch.go

    [WriteTarball] of a directory and [ExtractTarGz] of what it wrote give the
    directory back, below any prefix that is one path component and within the
    limits of unpacking.  A bundle whose name has a slash packs into an archive
    that unpacks to something else. *)

From S2P Require Import Prelude GoStd Models Url ApiClient Query Paths Disk Bundles BundleFetch BundleLoad DataDir Walk Pack PackFacts.

(** ** The names in an archive *)

Section names.
Context (prefix : string) (Hpp : plain prefix) (Hps : slashless prefix).

Definition entry_path (k : path) : string := prefix +:+ "/" +:+ rel_of k.

Lemma split_entry k : names_plain k -> k <> [] -> split_byte "/" (entry_path k) = prefix :: rev k.
Proof.
  intros Hk Hne. unfold entry_path. rewrite split_slash_app, split_byte_free by done. by rewrite split_rel.
Qed.

Lemma prefix_rooted s : rooted (prefix +:+ s) = false.
Proof.
  destruct Hpp as (Hne & _). rewrite rooted_app by done. by apply rooted_plain.
Qed.

Lemma join_entry k : k <> [] -> join "/" (prefix :: rev k) = entry_path k.
Proof. intros Hne. rewrite join_cons by (by rewrite rev_nil_iff). unfold entry_path, rel_of. by rewrite decide_False. Qed.

Lemma Clean_from p st : rooted p = false -> foldl (seg_push false) [] (split_byte "/" p) = st -> st <> [] ->
  Clean p = join "/" (rev st).
Proof.
  intros Hr Hf Hst. unfold Clean, clean_stack. rewrite Hr, Hf. by rewrite decide_False by (by rewrite rev_nil_iff).
Qed.

(** Cleaning a name takes a final slash away. *)
Lemma Clean_entry k s : names_plain k -> k <> [] -> s = "" \/ s = "/" -> Clean (entry_path k +:+ s) = entry_path k.
Proof.
  intros Hk Hne Hs. assert (foldl (seg_push false) [] (split_byte "/" (entry_path k +:+ s)) = k ++ [prefix]) as Ef.
  { assert (foldl (seg_push false) [] (split_byte "/" (entry_path k +:+ s)) = foldl (seg_push false) [] (prefix :: rev k)) as ->.
    { destruct Hs as [->| ->]; [by rewrite string_app_nil_r, split_entry|].
      change "/" with ("/" +:+ ""). rewrite split_slash_app, split_entry by done. rewrite foldl_app. done. }
    simpl. rewrite plain_push by done. by apply fold_push_plain. }
  rewrite (Clean_from _ (k ++ [prefix])); [by rewrite rev_app_distr; apply join_entry| |exact Ef|by destruct k].
  unfold entry_path. rewrite string_app_assoc. apply prefix_rooted.
Qed.

Lemma Clean_top : Clean (prefix +:+ "/") = prefix.
Proof.
  rewrite (Clean_from _ [prefix]); [done|apply prefix_rooted| |done].
  change (prefix +:+ "/") with (prefix +:+ "/" +:+ ""). rewrite split_slash_app, split_byte_free by done. simpl.
  by rewrite (plain_push false [] prefix Hpp).
Qed.

(** The names of one archive have one top-level directory. *)
Lemma capture_entry p0 k : p0 = "" \/ p0 = prefix -> capture_prefix p0 (entry_path k) = prefix.
Proof.
  unfold capture_prefix. destruct Hpp as (Hne & _). intros [->| ->].
  - rewrite decide_True by done. unfold entry_path. change ("/" +:+ rel_of k) with (String "/" (rel_of k)).
    by rewrite cut_byte_app.
  - by rewrite decide_False.
Qed.

Lemma capture_top p0 : p0 = "" \/ p0 = prefix -> capture_prefix p0 prefix = prefix.
Proof.
  unfold capture_prefix. destruct Hpp as (Hne & _). intros [->| ->].
  - rewrite decide_True by done. by rewrite cut_byte_free.
  - by rewrite decide_False.
Qed.

Lemma trim_prefix_app p s : trim_prefix p (p +:+ s) = s.
Proof. unfold trim_prefix. by rewrite (proj2 (cut_prefix_Some p (p +:+ s) s) eq_refl). Qed.

Lemma trim_dot s x l : split_byte "/" s = x :: l -> x <> "." -> trim_prefix "./" s = s.
Proof.
  intros Hs Hx. unfold trim_prefix. destruct (cut_prefix "./" s) as [r|] eqn:E; [|done].
  apply cut_prefix_Some in E as ->. change ("./" +:+ r) with ("." +:+ "/" +:+ r) in Hs. rewrite split_slash_app in Hs.
  injection Hs as <- _. done.
Qed.

Lemma entry_rel_of k : entry_rel prefix (entry_path k) = rel_of k.
Proof. unfold entry_rel, entry_path. by rewrite !trim_prefix_app. Qed.

Lemma entry_rel_top : entry_rel prefix prefix = "".
Proof. unfold entry_rel. rewrite <- (string_app_nil_r prefix) at 2. by rewrite trim_prefix_app. Qed.

End names.

Lemma str_contains_spec sub s : str_contains sub s = true -> exists a b, s = a +:+ sub +:+ b.
Proof.
  induction s as [|c s IH]; cbn [str_contains]; intros [H|H]%orb_true_iff; try done.
  - apply has_prefix_spec in H as [b ->]. by exists "", b.
  - apply has_prefix_spec in H as [b E]. exists "", b. by rewrite E.
  - destruct (IH H) as (a & b & ->). by exists (String c a), b.
Qed.

Lemma no_escape k : names_plain k -> k <> [] -> lexical_escape (rel_of k) = false.
Proof.
  intros Hk Hne. pose proof (split_rel k Hk Hne) as Hs. apply Forall_rev in Hk.
  assert (".." ∉ rev k /\ "" ∉ rev k) as [Hd He].
  { rewrite Forall_forall in Hk. by split; intros [(? & ? & ?) _]%Hk. }
  unfold lexical_escape. rewrite <- Hs in Hd, He. repeat (apply orb_false_iff; split).
  - apply bool_decide_eq_false. intros E. rewrite E in Hd. apply Hd. set_solver.
  - apply not_true_iff_false. intros [r E]%has_prefix_spec. rewrite E in Hd. apply Hd.
    change ("../" +:+ r) with (".." +:+ "/" +:+ r). rewrite split_slash_app. set_solver.
  - apply not_true_iff_false. intros (a & b & E)%str_contains_spec. rewrite E in Hd. apply Hd.
    change ("/../" +:+ b) with ("/" +:+ ".." +:+ "/" +:+ b). rewrite !split_slash_app. set_solver.
  - apply not_true_iff_false. intros [r E]%has_prefix_spec. rewrite E in He. apply He.
    change ("/" +:+ r) with ("" +:+ "/" +:+ r). rewrite split_slash_app. set_solver.
Qed.
(** A target below a directory that has a name is inside it. *)
Lemma inside_rel (cwd : path) (dest : string) (k : path) : dest <> "" -> clean_stack dest <> [] -> names_plain k ->
  inside (Clean dest) (Join dest (rel_of k)) = true.
Proof.
  intros Hd Hst Hk. pose proof (Join_rel cwd dest k Hd Hk) as [_ Hs Hr]. unfold inside.
  destruct (decide (k = [])) as [->|Hne].
  { rewrite bool_decide_eq_true_2; [done|]. unfold Clean. by rewrite Hs, Hr. }
  apply orb_true_iff. right. apply has_prefix_spec. exists (join "/" (rev k)).
  unfold Clean. rewrite Hs, Hr, rev_app_distr.
  assert (rev (clean_stack dest) <> [] /\ rev k <> []) as [H1 H2] by (by rewrite !rev_nil_iff).
  rewrite join_app by done. rewrite !decide_False by (by destruct (rev (clean_stack dest))).
  destruct (rooted dest); by rewrite !string_app_assoc.
Qed.

(** ** Unpacking an archive of a tree *)

Lemma write_file_quiet data p w : w_faults w = [] -> stat p (w_disk w) <> Some IDir -> stat (tail p) (w_disk w) = Some IDir ->
  p <> [] -> exists w', write_file data p w = (Ok tt, w') /\ w_faults w' = [].
Proof.
  intros Hq Hi Ht Hp. unfold write_file.
  destruct (quiet_write (create p) (<[p := IFile ""]> (w_disk w)) w Hq) as (w1 & E1 & Ed1 & Hq1).
  { unfold create. rewrite Ht. by destruct (stat p (w_disk w)) as [[]|]. }
  unfold io_bind. rewrite E1.
  edestruct (quiet_write (fun d => match stat p d with
    | Some (IFile _) => Ok (<[p := IFile data]> d) | _ => Err (EMsg "no such file") end)) as (w' & E & _ & Hq');
    [exact Hq1| |by exists w'].
  assert (stat p (w_disk w1) = Some (IFile "")) as ->; [|done]. rewrite Ed1. unfold stat. rewrite decide_False by done.
  apply lookup_insert_eq.
Qed.

Section extraction.
Context (prefix dest : string) (cwd S0 : path) (d0 : disk).
Notation D := (resolve cwd dest).
Notation L := (listed no_skip S0 d0 []).
Context (Hpp : plain prefix) (Hps : slashless prefix) (Hdest : dest <> "") (Hst : clean_stack dest <> []).
Context (Hnames : tree_named S0 d0) (Hdir : stat S0 d0 = Some IDir).

Lemma tree_up k i m x : L k i -> k = m ++ x -> m <> [] -> L x IDir.
Proof. intros HL E Hm. apply (listed_up _ _ _ _ _ _ _ _ HL E Hm). exists x. by rewrite app_nil_r. Qed.

Lemma tree_fun k i j : L k i -> L k j -> i = j.
Proof. intros (H1 & _) (H2 & _). congruence. Qed.

Lemma limited_whole b : (length_z b <= maxFileBytes)%Z -> limited b = b.
Proof. intros Hb. unfold limited. rewrite (proj2 (Z.leb_le _ _)); [done|lia]. Qed.

(** One file. *)
Lemma extract_file k b name w :
  L k (IFile b) -> (length_z b <= maxFileBytes)%Z -> w_cwd w = cwd -> w_faults w = [] ->
  dirs_to D (w_disk w) -> sound L D (w_disk w) ->
  exists w', writeRegular (Join dest (rel_of k)) (mkEntry name TypeReg (length_z b) b false) w = (Ok (length_z b), w') /\
    w_faults w' = [] /\ w_cwd w' = cwd /\ puts L D k (IFile b) (w_disk w) (w_disk w').
Proof.
  intros HL Hb Hc Hq Hd Hs. pose proof (Hnames _ _ (proj1 HL)) as Hk.
  destruct k as [|x k]; [by pose proof (tree_fun _ _ _ HL (listed_root _ _ _ _ Hdir (fun _ => eq_refl)))|].
  pose proof (tree_up _ _ [x] k HL eq_refl ltac:(done)) as HLk.
  destruct (mkdir_all_quiet (k ++ D) w Hq) as (w1 & E1 & Hq1).
  { intros y b' Hu. by apply (way_clear L D tree_up tree_fun k (w_disk w) y b' HLk). }
  pose proof (mkdir_all_puts L D tree_up k w w1 HLk E1) as Hp1. destruct (Hp1 Hd Hs) as (Hd1 & Hs1 & Hk1 & _).
  assert (w_cwd w1 = cwd) as Hc1.
  { rewrite <- Hc. by destruct (mkdir_all_adds (w_cwd w) _ _ (under_refl (k ++ D)) w _ w1 eq_refl E1). }
  assert (resolve cwd (Join dest (rel_of (x :: k))) = (x :: k) ++ D) as Hj by (apply (Join_rel cwd dest (x :: k)); done).
  destruct (write_file_quiet (limited b) ((x :: k) ++ D) w1 Hq1) as (w2 & E2 & Hq2); [|exact Hk1|done|].
  { rewrite stat_below by done. intros E. apply Hs1 in E; [|done]. by pose proof (tree_fun _ _ _ HL E). }
  exists w2. split; [|split; [done|]].
  - unfold writeRegular. unfold MkdirAll, at_path, io_bind. rewrite Hc, (Dir_rel cwd dest x k Hdest Hk), E1, Hc1, Hj. cbn [te_Body te_Cut].
    rewrite E2, (limited_whole b Hb). by rewrite (proj2 (Z.ltb_ge _ _)).
  - apply write_file_disk in E2 as [Hc2 Ed2]. split; [congruence|].
    apply (puts_trans_dir L D _ k _ _ (w_disk w1)); [done|done|]. rewrite Ed2, (limited_whole b Hb).
    apply insert_file_puts; [exact tree_fun|done|done].
Qed.

Definition entry_size (i : inode) : Z := match i with IFile b => length_z b | IDir => 0 end.

(** One entry below the top. *)
Lemma extract_one k i e :
  k <> [] -> tar_of prefix (k, i) = TarEntry e -> L k i -> (entry_size i <= maxFileBytes)%Z ->
  forall w, w_cwd w = cwd -> w_faults w = [] -> dirs_to D (w_disk w) -> sound L D (w_disk w) ->
  exists w', extract_entry dest (rel_of k) e w = (Ok (entry_size i), w') /\
    w_faults w' = [] /\ w_cwd w' = cwd /\ puts L D k i (w_disk w) (w_disk w').
Proof.
  intros Hne He HL Hb w Hc Hq Hd Hs. pose proof (Hnames _ _ (proj1 HL)) as Hk. unfold extract_entry.
  rewrite no_escape by done. cbn zeta. rewrite (inside_rel cwd) by done. cbn [negb].
  unfold tar_of in He. cbn [fst snd] in He. rewrite decide_False in He by done. destruct i as [b|]; injection He as <-; cbn [te_Typeflag te_Size].
  - rewrite (proj2 (Z.ltb_ge _ _)) by done. by apply extract_file.
  - destruct (mkdir_all_quiet (k ++ D) w Hq) as (w1 & E1 & Hq1).
    { intros y b' Hu. by apply (way_clear L D tree_up tree_fun k (w_disk w) y b' HL). }
    exists w1. split.
    + unfold MkdirAll, at_path, io_bind. by rewrite Hc, (an_resolve _ _ _ _ (Join_rel cwd dest k Hdest Hk)), E1.
    + split; [done|]. split; [|by apply mkdir_all_puts; [exact tree_up|..]].
      rewrite <- Hc. by destruct (mkdir_all_adds (w_cwd w) _ _ (under_refl (k ++ D)) w _ w1 eq_refl E1).
Qed.

Definition total_size (l : list (path * inode)) : Z := foldr (fun e n => entry_size e.2 + n)%Z 0%Z l.

Lemma entry_size_nonneg i : (0 <= entry_size i)%Z.
Proof. destruct i; simpl; [unfold length_z; lia|done]. Qed.

Lemma total_size_nonneg l : (0 <= total_size l)%Z.
Proof. induction l as [|e l IH]; simpl; [done|]. pose proof (entry_size_nonneg e.2). lia. Qed.

Lemma extract_tree l p0 written w :
  (forall k i, (k, i) ∈ l -> L k i /\ (entry_size i <= maxFileBytes)%Z) -> (written + total_size l <= maxBundleBytes)%Z ->
  p0 = "" \/ p0 = prefix -> w_cwd w = cwd -> w_faults w = [] -> dirs_to D (w_disk w) -> sound L D (w_disk w) ->
  exists w', extract_all dest p0 written (map (tar_of prefix) l) w = (Ok tt, w') /\ w_faults w' = [] /\
    put_all L D (List.filter (fun e => negb (bool_decide (e.1 = []))) l) (w_disk w) (w_disk w').
Proof.
  revert p0 written w. induction l as [|[k i] l IH]; intros p0 written w Hl Hsz Hp0 Hc Hq Hd Hs.
  { exists w. split; [done|]. split; [done|constructor]. }
  destruct (Hl k i) as [HL Hb]; [set_solver|]. pose proof (Hnames _ _ (proj1 HL)) as Hk. simpl in Hsz.
  pose proof (total_size_nonneg l). pose proof (entry_size_nonneg i).
  destruct (tar_of prefix (k, i)) as [e|] eqn:Ee; [|unfold tar_of in Ee; cbn [fst snd] in Ee; by destruct (decide _), i].
  cbn [map]. rewrite Ee. cbn [extract_all].
  assert (te_Typeflag e = TypeDir \/ te_Typeflag e = TypeReg) as Ht.
  { unfold tar_of in Ee. cbn [fst snd] in Ee. destruct (decide _), i; injection Ee as <-; auto. }
  assert (forall A (x y : A), match te_Typeflag e with TypeXGlobalHeader | TypeXHeader => x | _ => y end = y) as Hm
    by (intros; destruct Ht as [-> | ->]; done). rewrite Hm. clear Hm Ht. cbn zeta.
  destruct (decide (k = [])) as [->|Hne].
  - assert (te_Name e = prefix +:+ "/") as -> by (unfold tar_of in Ee; by injection Ee as <-).
    rewrite Clean_top, (trim_dot prefix prefix []) by (try apply split_byte_free; try apply Hpp; done).
    rewrite capture_top, entry_rel_top by done. rewrite decide_True by done.
    destruct (IH prefix written w) as (w' & E & Hq' & Hput); [intros; apply Hl; set_solver|lia|by right|done..|].
    by exists w'.
  - assert (exists s, te_Name e = entry_path prefix k +:+ s /\ (s = "" \/ s = "/")) as (s & -> & Hsl).
    { unfold tar_of in Ee. cbn [fst snd] in Ee. rewrite decide_False in Ee by done.
      destruct i; injection Ee as <-; [exists ""; rewrite string_app_nil_r|exists "/"]; (split; [|by auto]); [done|].
      unfold entry_path. by rewrite !string_app_assoc. }
    rewrite Clean_entry, (trim_dot _ prefix (rev k)) by (try apply split_entry; try apply Hpp; done).
    rewrite capture_entry, entry_rel_of by done. rewrite decide_False by (by apply rel_nonempty).
    destruct (extract_one k i e Hne Ee HL Hb w Hc Hq Hd Hs) as (w1 & E1 & Hq1 & Hc1 & Hp1).
    destruct (Hp1 Hd Hs) as (Hd1 & Hs1 & _). unfold io_bind at 1. rewrite E1. rewrite (proj2 (Z.ltb_ge _ _)) by lia.
    destruct (IH prefix (written + entry_size i)%Z w1) as (w' & E & Hq' & Hput); [intros; apply Hl; set_solver|lia|by right|done..|].
    exists w'. split; [done|]. split; [done|]. cbn [List.filter fst]. rewrite bool_decide_eq_false_2 by done. cbn [negb].
    by econstructor.
Qed.
End extraction.

(** ** There and back *)

Lemma create_wf p d d' : disk_wf d -> create p d = Ok d' -> disk_wf d'.
Proof.
  intros Hwf E. assert (stat (tail p) d = Some IDir /\ stat p d <> Some IDir) as [Ht Hn]
    by (unfold create in E; by destruct (stat p d) as [[]|], (stat (tail p) d) as [[]|]).
  apply create_ok in E as ->. apply insert_wf; [done| |done|by intros]. intros ->. by apply Hn.
Qed.

Lemma total_size_perm l1 l2 : l1 ≡ₚ l2 -> total_size l1 = total_size l2.
Proof. induction 1; simpl; lia. Qed.

Lemma listed_stat (S0 : path) (d : disk) (k : path) (i : inode) :
  disk_wf d -> listed no_skip S0 d [] k i <-> stat (k ++ S0) d = Some i.
Proof. intros Hwf. rewrite listed_wf by done. split; [by intros []|]. intros H. by split. Qed.

(** The whole tree of a directory. *)
Definition whole (src : string) (w : world) : list (path * inode) :=
  tree (walk_fuel (w_disk w)) no_skip (resolve (w_cwd w) src) (w_disk w) [].

Lemma elem_of_whole src w k i : disk_wf (w_disk w) -> (k, i) ∈ whole src w <->
  stat (k ++ resolve (w_cwd w) src) (w_disk w) = Some i.
Proof. intros Hwf. unfold whole. rewrite elem_of_listing. by apply listed_stat. Qed.

Lemma whole_same src w1 w2 : disk_wf (w_disk w1) -> disk_wf (w_disk w2) -> w_cwd w2 = w_cwd w1 ->
  (forall k, stat (k ++ resolve (w_cwd w1) src) (w_disk w2) = stat (k ++ resolve (w_cwd w1) src) (w_disk w1)) ->
  whole src w2 ≡ₚ whole src w1.
Proof.
  intros H1 H2 Hc Hs. apply NoDup_Permutation; [apply (NoDup_fmap_1 fst), tree_NoDup..|].
  intros [k i]. rewrite !elem_of_whole by done. by rewrite Hc, Hs.
Qed.

Lemma rename_file_root src b d d' : stat src d = Some (IFile b) -> rename src [] d <> Ok d'.
Proof. intros Hs. unfold rename. rewrite Hs. simpl. by destruct (below src [] && _). Qed.

(** ** What the writers accept and the readers give back *)

Definition nul_free (s : string) : Prop := has_byte "000" s = false.

(** A header that [archive/tar] writes and reads back as it is: no NUL in its
    name, the size of its body, and the name of a directory alone ends in a
    slash. *)
Definition writable (ev : tar_event) : Prop :=
  match ev with
  | TarErr => False
  | TarEntry e =>
      te_Cut e = false /\ te_Size e = length_z (te_Body e) /\ nul_free (te_Name e) /\
      match te_Typeflag e with
      | TypeDir => te_Body e = "" /\ has_suffix "/" (te_Name e) = true
      | TypeReg => has_suffix "/" (te_Name e) = false
      | _ => False
      end
  end.

Class ArchiveLaws `{GitHub} `{TarWriter} := {
  gunzip_gzip s : gunzip (gzip_bytes s) = Ok (mkStream s true);
  tar_read_back evs : Forall writable evs -> tar_read (mkStream (tar_bytes evs) true) = evs
}.

Lemma has_byte_rev c s : has_byte c (string_rev s) = has_byte c s.
Proof.
  induction s as [|a s IH]; [done|]. rewrite string_rev_cons, has_byte_app, IH. simpl. rewrite orb_false_r. apply orb_comm.
Qed.

Lemma no_slash_end a x : x <> "" -> slashless x -> has_suffix "/" (a +:+ x) = false.
Proof.
  intros Hx Hs. apply not_true_iff_false. unfold has_suffix. rewrite string_rev_append.
  unfold slashless in Hs. rewrite <- has_byte_rev in Hs. destruct (string_rev x) as [|c t] eqn:E.
  - apply (f_equal string_rev) in E. by rewrite string_rev_involutive in E.
  - rewrite string_app_cons. simpl in Hs |- *. apply orb_false_iff in Hs as [Hc%bool_decide_eq_false _]. 
    by rewrite bool_decide_eq_false_2 by congruence.
Qed.

Lemma slash_end a : has_suffix "/" (a +:+ "/") = true.
Proof. apply has_suffix_spec. by exists a. Qed.

Lemma nul_free_app a b : nul_free a -> nul_free b -> nul_free (a +:+ b).
Proof. unfold nul_free. intros Ha Hb. by rewrite has_byte_app, Ha, Hb. Qed.

Lemma nul_free_join l : Forall nul_free l -> nul_free (join "/" l).
Proof.
  induction l as [|x l IH]; [done|]. intros [Hx Hl]%Forall_cons. destruct l as [|y l]; [done|].
  rewrite join_cons by done. apply nul_free_app; [done|]. apply nul_free_app; [done|by apply IH].
Qed.

Lemma tar_of_writable prefix k i :
  nul_free prefix -> Forall nul_free k -> Forall (fun x => plain x /\ slashless x) k -> writable (tar_of prefix (k, i)).
Proof.
  intros Hp Hk Hn. assert (nul_free (prefix +:+ "/")) as Hp' by (by apply nul_free_app).
  unfold tar_of. cbn [fst snd]. case_decide as Ek.
  { split; [done|]. split; [done|]. split; [done|]. split; [done|apply slash_end]. }
  assert (nul_free (rel_of k)) as Hr.
  { unfold rel_of. rewrite decide_False by done. apply nul_free_join. rewrite Forall_forall in *. intros x Hx.
    apply Hk. apply list_elem_of_In. rewrite in_rev. by apply list_elem_of_In. }
  rewrite <- !string_app_assoc. destruct i as [b|].
  - split; [done|]. split; [done|]. split; [by apply nul_free_app|]. cbn [te_Typeflag te_Name].
    destruct k as [|x k]; [done|]. apply Forall_cons in Hn as [[(Hne & _) Hs] _]. unfold rel_of. simpl rev.
    destruct k as [|y k]; [by apply no_slash_end|]. rewrite decide_False by done.
    rewrite join_snoc by (by rewrite rev_nil_iff).
    rewrite <- !string_app_assoc. by apply no_slash_end.
  - split; [done|]. split; [done|]. split; [by repeat apply nul_free_app|]. split; [done|apply slash_end].
Qed.

Section archives.
Context `{GitHub} `{TarWriter}.

(** What a packed directory is. *)
Lemma WriteTarball_ok out src prefix w w1 :
  disk_wf (w_disk w) -> tree_named (resolve (w_cwd w) src) (w_disk w) ->
  stat (resolve (w_cwd w) src) (w_disk w) = Some IDir ->
  ~ under (resolve (w_cwd w) src) (resolve (w_cwd w) (out +:+ ".tmp")) ->
  WriteTarball out src prefix w = (Ok tt, w1) ->
  exists l, l ≡ₚ whole src w /\
    stat (resolve (w_cwd w) out) (w_disk w1) = Some (IFile (tar_gz (map (tar_of prefix) l))).
Proof.
  intros Hwf Hn Hdir Hout Hrun. unfold WriteTarball in Hrun. apply io_bind_ok in Hrun as ([] & w0 & E0 & Hrun).
  assert (disk_wf (w_disk w0)) as Hwf0.
  { unfold Create, at_path in E0. apply sys_write_ok in E0 as (E0 & _). by eapply create_wf. }
  apply Create_ok in E0 as [Hc0 Ed0].
  assert (forall k, stat (k ++ resolve (w_cwd w) src) (w_disk w0) = stat (k ++ resolve (w_cwd w) src) (w_disk w)) as Hs0.
  { intros k. rewrite Ed0. apply stat_insert_ne. intros E. apply Hout. rewrite <- E. by exists k. }
  unfold unless_committed in Hrun. destruct (io_bind _ _ w0) as [[[]|e] w4] eqn:E; [|done]. injection Hrun as <-.
  apply io_bind_ok in E as (evs & w2 & E2 & E). apply io_bind_ok in E as ([] & w3 & E3 & E4).
  assert (tree_named (resolve (w_cwd w0) src) (w_disk w0)) as Hn0.
  { intros k i Hi. rewrite Hc0, Hs0 in Hi. by eapply Hn. }
  destruct (Walk_appends (tar_visit src prefix) (fun e => [tar_of prefix e]) src w0 IDir) as [Hv _];
    [by apply tar_appends|done|rewrite Hc0; exact (eq_trans (Hs0 []) Hdir)|].
  destruct (Hv _ _ E2) as (Ed2 & Hc2 & ->). fold (whole src w0) in *. exists (whole src w0). split; [by apply whole_same|].
  apply put_data_ok in E3 as (Hc3 & Ed3 & b & Hb). unfold Rename, at_path in E4. apply sys_write_ok in E4 as (Hren & _).
  pose proof Hren as (_ & _ & Hk & _)%rename_ok.
  assert (forall l, flat_map (fun e => [tar_of prefix e]) l = map (tar_of prefix) l) as Em
    by (intros l; induction l as [|e l IH]; [done|]; simpl; by rewrite IH).
  specialize (Hk []). simpl in Hk. rewrite Hc3, Hc2, Hc0 in Hk. rewrite Hc2, Hc0 in Ed3. rewrite Ed3, lookup_insert_eq in Hk.
  rewrite Em in Hk. apply stat_lookup; [exact Hk|]. intros En. rewrite Hc3, Hc2, Hc0, En, Ed3 in Hren.
  rewrite Hc2, Hc0 in Hb. revert Hren. apply (rename_file_root _ (tar_gz (flat_map (fun e => [tar_of prefix e]) (whole src w0)))).
  unfold stat. rewrite decide_False; [by rewrite lookup_insert_eq|]. intros Et. by rewrite Et in Hb.
Qed.

(** Unpacking such an archive into an empty directory. *)
Lemma extract_whole raw l src dest prefix w w2 :
  untar raw = Ok (map (tar_of prefix) l) -> l ≡ₚ whole src w ->
  plain prefix -> slashless prefix -> disk_wf (w_disk w) -> tree_named (resolve (w_cwd w) src) (w_disk w) ->
  stat (resolve (w_cwd w) src) (w_disk w) = Some IDir ->
  (forall k i, (k, i) ∈ whole src w -> (entry_size i <= maxFileBytes)%Z) -> (total_size (whole src w) <= maxBundleBytes)%Z ->
  w_faults w2 = [] -> dest <> "" -> clean_stack dest <> [] -> disk_wf (w_disk w2) ->
  dirs_to (resolve (w_cwd w2) dest) (w_disk w2) -> children (resolve (w_cwd w2) dest) (w_disk w2) = [] ->
  exists w3, ExtractTarGz raw dest w2 = (Ok tt, w3) /\
    (forall k i, k <> [] -> w_disk w3 !! (k ++ resolve (w_cwd w2) dest : path) = Some i <->
      stat (k ++ resolve (w_cwd w) src) (w_disk w) = Some i) /\
    forall p, ~ (under (resolve (w_cwd w2) dest) p /\ p <> resolve (w_cwd w2) dest) -> w_disk w3 !! p = w_disk w2 !! p.
Proof.
  intros Hraw Hl Hpp Hps Hwf Hn Hdir Hf Ht Hq Hd Hst Hwf2 Hdirs He.
  set (S0 := resolve (w_cwd w) src) in *. set (D := resolve (w_cwd w2) dest) in *.
  assert (sound (listed no_skip S0 (w_disk w) []) D (w_disk w2)) as Hs.
  { intros k i Hk. by rewrite empty_dir. }
  destruct (extract_tree prefix dest (w_cwd w2) S0 (w_disk w) Hpp Hps Hd Hst Hn Hdir l "" 0%Z w2) as (w3 & E & _ & Hput);
    [|rewrite (total_size_perm _ _ Hl); lia|by left|done..|].
  { intros k i Hin. rewrite Hl in Hin. split; [|by eapply Hf]. by apply elem_of_listing in Hin. }
  exists w3. split.
  - unfold ExtractTarGz, MkdirAll, at_path.
    assert (mkdir_all D w2 = (Ok tt, w2)) as Em.
    { destruct D as [|x D'] eqn:ED; cbn [mkdir_all]; unfold io_bind at 1; rewrite (quiet_read _ _ Hq); [done|].
      by rewrite (Hdirs _ (under_refl _)). }
    unfold io_bind at 1. cbv beta. fold D. rewrite Em. unfold io_bind. cbn [io_lift]. by rewrite Hraw.
  - destruct (put_all_filled _ D (tree_up S0 (w_disk w)) (tree_fun S0 (w_disk w)) _ _ _ Hput Hdirs Hs) as [Hfl _].
    split; [|apply Hfl]. intros k i Hk. rewrite <- (listed_stat S0) by done. destruct Hfl as (_ & Hs' & _ & Hin).
    split; [by apply Hs'|]. intros HL. rewrite <- stat_below by done. apply Hin. rewrite list_elem_of_In, filter_In, <- list_elem_of_In.
    rewrite Hl. unfold whole. rewrite elem_of_listing. split; [exact HL|]. cbn [fst]. by rewrite bool_decide_eq_false_2.
Qed.

(** C27. A directory that was packed, and whose archive is unpacked into an empty
    directory of any machine, is there again: the same files and directories,
    and nothing else is touched.  The conditions: the prefix is one path
    component, no name holds a NUL, the output is outside the source, each file
    and their sum are within the limits of unpacking, and so is the stream of the
    archive, headers included, which is all the reader looks at. *)
Theorem pack_then_unpack `{!ArchiveLaws} (out src dest prefix : string) (w w1 w2 : world)
    (Hpp : plain prefix) (Hps : slashless prefix) (Hnul : nul_free prefix)
    (Hnuls : forall k i, (k, i) ∈ whole src w -> Forall nul_free k)
    (Hwf : disk_wf (w_disk w)) (Hn : tree_named (resolve (w_cwd w) src) (w_disk w))
    (Hdir : stat (resolve (w_cwd w) src) (w_disk w) = Some IDir)
    (Hout : ~ under (resolve (w_cwd w) src) (resolve (w_cwd w) (out +:+ ".tmp")))
    (Hfiles : forall k i, (k, i) ∈ whole src w -> (entry_size i <= maxFileBytes)%Z)
    (Htotal : (total_size (whole src w) <= maxBundleBytes)%Z)
    (Hpack : WriteTarball out src prefix w = (Ok tt, w1))
    (Hstream : forall raw s, stat (resolve (w_cwd w) out) (w_disk w1) = Some (IFile raw) -> gunzip raw = Ok s ->
       (length_z (sm_Bytes s) <= maxBundleBytes)%Z)
    (Hq : w_faults w2 = []) (Hd : dest <> "") (Hst : clean_stack dest <> []) (Hwf2 : disk_wf (w_disk w2))
    (Hdirs : dirs_to (resolve (w_cwd w2) dest) (w_disk w2))
    (He : children (resolve (w_cwd w2) dest) (w_disk w2) = []) :
  exists raw w3, stat (resolve (w_cwd w) out) (w_disk w1) = Some (IFile raw) /\
    ExtractTarGz raw dest w2 = (Ok tt, w3) /\
    (forall k i, k <> [] -> w_disk w3 !! (k ++ resolve (w_cwd w2) dest : path) = Some i <->
      stat (k ++ resolve (w_cwd w) src) (w_disk w) = Some i) /\
    forall p, ~ (under (resolve (w_cwd w2) dest) p /\ p <> resolve (w_cwd w2) dest) -> w_disk w3 !! p = w_disk w2 !! p.
Proof.
  destruct (WriteTarball_ok out src prefix w w1) as (l & Hl & Hraw); [done..|].
  assert (untar (tar_gz (map (tar_of prefix) l)) = Ok (map (tar_of prefix) l)) as Htar.
  { pose proof (Hstream _ _ Hraw (gunzip_gzip _)) as Hlen. cbn [sm_Bytes] in Hlen.
    unfold untar, tar_gz. rewrite gunzip_gzip. unfold LimitReader. cbn [mbind result_bind sm_Bytes].
    rewrite (proj2 (Z.ltb_lt _ _)) by lia.
    f_equal. apply tar_read_back, Forall_map, Forall_forall. intros [k i] Hin. rewrite Hl in Hin.
    apply tar_of_writable; [done|by eapply Hnuls|]. apply elem_of_whole in Hin; [|done]. by eapply Hn. }
  destruct (extract_whole _ l src dest prefix w w2 Htar Hl) as (w3 & E & Hk); [done..|].
  by exists (tar_gz (map (tar_of prefix) l)), w3.
Qed.
End archives.

(** ** Small directories *)

#[export] Instance typeflag_countable : Countable typeflag.
Proof.
  refine (inj_countable'
    (fun t => match t with TypeReg => 0 | TypeDir => 1 | TypeXGlobalHeader => 2 | TypeXHeader => 3 | TypeOther => 4 end)
    (fun n => match n with 0 => TypeReg | 1 => TypeDir | 2 => TypeXGlobalHeader | 3 => TypeXHeader | _ => TypeOther end) _).
  by intros [].
Defined.

#[export] Instance tar_event_eq_dec : EqDecision tar_event.
Proof. intros [[]|] [[]|]; unfold Decision; first [decide equality; repeat decide equality | right; done | left; done]. Defined.

#[export] Instance tar_event_countable : Countable tar_event.
Proof.
  refine (inj_countable'
    (fun e => match e with TarEntry e => Some (te_Name e, te_Typeflag e, te_Size e, te_Body e, te_Cut e) | TarErr => None end)
    (fun o => match o with Some (n, t, z, b, c) => TarEntry (mkEntry n t z b c) | None => TarErr end) _).
  by intros [[]|].
Defined.

Definition plain_tar : TarWriter := {| tar_bytes evs := bits (encode evs); gzip_bytes s := s |}.

Definition plain_untar : GitHub := {|
  http_do := @http_do demo_github;
  gunzip raw := Ok (mkStream raw true);
  tar_read s := match decode (unbits (sm_Bytes s)) with Some evs => evs | None => [TarErr] end
|}.

Lemma plain_tar_laws : @ArchiveLaws plain_untar plain_tar.
Proof. split; [done|]. intros evs _. simpl. by rewrite unbits_bits, decode_encode. Qed.

Definition pack_world : world := mkWorld
  {[ ["src"] := IDir; ["dst"] := IDir; ["bouncer.yaml"; "src"] := IFile "manifest"; ["apis"; "src"] := IDir;
     ["a.yaml"; "apis"; "src"] := IFile "a"; [".git"; "src"] := IDir; ["HEAD"; ".git"; "src"] := IFile "ref" ]} [] [] [].

Definition demo_pack (prefix : string) : result unit * world :=
  @WriteTarball plain_tar "/out.tar.gz" "/src" prefix pack_world.

Definition unpack_world : world := mkWorld {[ ["dst"] := IDir ]} [] [] [].

Lemma demo_pack_fits :
  match stat (resolve (w_cwd pack_world) "/out.tar.gz") (w_disk (demo_pack "acme-1").2) with
  | Some (IFile raw) => bool_decide (length_z raw <= maxBundleBytes)%Z
  | _ => false
  end = true.
Proof. vm_compute. reflexivity. Qed.

Lemma pack_then_unpack_witness : exists raw w3,
  stat ["out.tar.gz"] (w_disk (demo_pack "acme-1").2) = Some (IFile raw) /\
  @ExtractTarGz plain_untar raw "/dst" unpack_world = (Ok tt, w3) /\
  w_disk w3 !! ["a.yaml"; "apis"; "dst"] = Some (IFile "a").
Proof.
  assert ((demo_pack "acme-1").1 = Ok tt) as H1 by (vm_compute; reflexivity).
  destruct (demo_pack "acme-1") as [r w1] eqn:E. cbn [fst] in H1. subst r. cbn [snd].
  destruct (@pack_then_unpack plain_untar plain_tar plain_tar_laws "/out.tar.gz" "/src" "/dst" "acme-1" pack_world w1 unpack_world)
    as (raw & w3 & Hraw & Hx & Hk & _).
  - apply (bool_decide_unpack _). vm_compute. exact I.
  - reflexivity.
  - reflexivity.
  - assert (Forall (fun e : path * inode => Forall (fun x => has_byte "000" x = false) e.1) (whole "/src" pack_world)) as Hf
      by (apply (bool_decide_unpack _); vm_compute; exact I).
    intros k i Hin. exact (proj1 (Forall_forall _ _) Hf _ Hin).
  - apply (bool_decide_unpack _). vm_compute. exact I.
  - apply names_ok_tree. apply (bool_decide_unpack _). vm_compute. exact I.
  - vm_compute. reflexivity.
  - intros Hu. apply below_under in Hu. vm_compute in Hu. discriminate.
  - assert (Forall (fun e => (entry_size e.2 <= maxFileBytes)%Z) (whole "/src" pack_world)) as Hf
      by (apply (bool_decide_unpack _); vm_compute; exact I).
    intros k i Hin. exact (proj1 (Forall_forall _ _) Hf _ Hin).
  - vm_compute. discriminate.
  - exact E.
  - intros raw s Hs [= <-]. pose proof demo_pack_fits as Hfit. rewrite E in Hfit. cbn [snd] in Hfit.
    rewrite Hs in Hfit. by apply bool_decide_eq_true in Hfit.
  - reflexivity.
  - discriminate.
  - vm_compute. discriminate.
  - apply (bool_decide_unpack _). vm_compute. exact I.
  - change (resolve (w_cwd unpack_world) "/dst") with ["dst"]. apply wf_dirs; [|reflexivity]. apply (bool_decide_unpack _). vm_compute. exact I.
  - vm_compute. reflexivity.
  - exists raw, w3. split; [exact Hraw|]. split; [exact Hx|].
    apply (Hk ["a.yaml"; "apis"] (IFile "a")); [discriminate|]. vm_compute. reflexivity.
Defined.

(** Packing under a prefix and unpacking: the result and where the manifest is. *)
Definition manifest_lands (prefix : string) : option (result unit * option inode * option inode) :=
  match stat ["out.tar.gz"] (w_disk (demo_pack prefix).2) with
  | Some (IFile raw) =>
      let '(r, w) := @ExtractTarGz plain_untar raw "/dst" unpack_world in
      Some (r, stat [ManifestFile; "dst"] (w_disk w), stat [ManifestFile; "apis-1"; "dst"] (w_disk w))
  | _ => None
  end.

(** A bundle's name may have a slash (nothing checks it); [apis pack] uses the
    name as the prefix, and what it packs unpacks one level too deep. *)
Example slash_prefix_unpacks_elsewhere :
  manifest_lands "acme-1" = Some (Ok tt, Some (IFile "manifest"), None) /\
  manifest_lands "acme/apis-1" = Some (Ok tt, None, Some (IFile "manifest")).
Proof. vm_compute. done. Qed.
