(* ===== verification/ApisCmd.v ===== *)
(** * The apis commands: internal/cli/apiscmd

    Managing bundles from the command line: add, fetch, pack, remove, list,
    upgrade and verify, over the disk, with the environment, the flags, random
    names and the clock as arguments.  What is printed is not modelled.
    ApisGuards and ApisInstall prove what the commands promise. *)

From S2P Require Import Prelude GoStd Models Url ApiClient Query Paths Disk Bundles BundleFetch BundleLoad BundleUpgrade DataDir Walk Pack PackFacts.

(** ** Flags and directories: apiscmd.go, flags.go, helpers.go *)

(** What [cliconfig.Load] makes of a string flag with an empty default: the
    flag when it is given, else its BOUNCER_ variable. *)
Definition loaded (flag : option string) (env : string) : string := default env flag.

(** BOUNCER_APIS_DIR and BOUNCER_DATA_DIR. *)
Record environ := mkEnviron { ev_APIsDir : string; ev_DataDir : string }.

Record apisDirFlags := mkDirs { ad_ApisDir : string; ad_DataDir : string }.

Definition load_dirs (apis_dir data_dir : option string) (e : environ) : apisDirFlags :=
  mkDirs (loaded apis_dir (ev_APIsDir e)) (loaded data_dir (ev_DataDir e)).

Definition resolveAPIsDir (flagVal dataDir : string) (e : environ) : io string :=
  if decide (flagVal <> "") then io_ret flagVal
  else if decide (dataDir <> "") then io_ret (APIs dataDir)
  else if decide (trim_space (ev_APIsDir e) <> "") then io_ret (trim_space (ev_APIsDir e))
  else
    do here <- IsInitialized ".";
    if (here : bool) then io_ret (APIs ".")
    else if decide (trim_space (ev_DataDir e) <> "") then io_ret (APIs (trim_space (ev_DataDir e)))
    else io_ret "".

Definition errMissingAPIsDir : goerr := EMsg "missing destination".

Definition resolve_dirs (f : apisDirFlags) (e : environ) : io string :=
  do root <- resolveAPIsDir (ad_ApisDir f) (ad_DataDir f) e;
  if decide (root = "") then io_fail errMissingAPIsDir else io_ret root.

(** ** allowlist.go *)

Definition allowlistFile : string := "bouncer.yaml".

(** The [apis.allowlist] of a YAML file. *)
Class AllowlistYaml := yaml_allowlist : string -> result (list string).

(** A directory that is copied or unpacked into goes away in the end. *)
Definition finally {A} (m : io A) (cleanup : io unit) : io A := fun w =>
  let '(r, w) := m w in (r, (cleanup w).2).

Definition matches (slug pat : string) : bool :=
  let pat := trim_space pat in
  negb (bool_decide (pat = "")) &&
  (bool_decide (pat = slug) || (has_suffix "/*" pat && has_prefix (trim_suffix "/*" pat +:+ "/") slug)).

Definition matchAllowlist (allowlist : list string) (r : Ref) : bool :=
  match allowlist with [] => true | _ => existsb (matches (Slug r)) allowlist end.

Section apiscmd.
Context `{GitHub} `{BundleYaml} `{AllowlistYaml} `{Sha256} `{TarWriter}.
Variables apiBase codeloadBase token : string.

Definition loadAllowlist (dataDir : string) : io (list string) :=
  if decide (dataDir = "") then io_ret []
  else
    do raw <- io_try (ReadFile (Join dataDir allowlistFile));
    match raw with
    | Err e => if errors_is e "ErrNotExist" then io_ret [] else io_fail (EWrap "read" e)
    | Ok raw => io_lift (wrap_err "parse" (yaml_allowlist raw))
    end.

Definition not_allowed : goerr := EMsg "not in the apis.allowlist".

Definition enforceAllowlist (dataDir : string) (r : Ref) (skip : bool) : io unit :=
  if skip then io_ret tt
  else
    do allow <- loadAllowlist dataDir;
    if matchAllowlist allow r then io_ret tt else io_fail not_allowed.

(** ** install.go *)

(** [stage] fills the hidden directory; [tmp] is its name. *)
Definition stageInstall (apisDir bundleName tmp : string) (stage : string -> io unit) (src : SourceRecord) (srnd : string)
    : io string :=
  let finalDir := BundleDir apisDir bundleName in
  do st <- io_try (Stat finalDir);
  match st with
  | Ok _ => io_fail EEXIST
  | Err _ =>
      do! MkdirAll apisDir;
      do tmpFinal <- MkdirTemp apisDir tmp;
      unless_committed
        (do! stage tmpFinal;
         do! WriteSource (Join tmpFinal SourceFile) src srnd;
         do! Rename tmpFinal finalDir;
         io_ret finalDir)
        (RemoveAll tmpFinal)
  end.

(** ** add.go, from_dir.go, from_tarball.go *)

Fixpoint parse_renames (out : gmap string string) (flags : list string) : result (gmap string string) :=
  match flags with
  | [] => Ok out
  | raw :: flags =>
      match cut_byte "=" raw with
      | None => Err (EMsg "--rename: must be <upstream>=<local>")
      | Some (from, to) =>
          let from := trim_space from in
          let to := trim_space to in
          fail_if bool_decide (from = "") || bool_decide (to = "") with EMsg "--rename: empty side" ;;
          match out !! from with
          | Some _ => Err (EMsg "--rename: already mapped")
          | None => parse_renames (<[from := to]> out) flags
          end
      end
  end.

Definition parseRenames (flags : list string) : result (gmap string string) := parse_renames ∅ flags.

Definition mergeRenames (base extra : gmap string string) : gmap string string := extra ∪ base.

Record addOpts := mkAddOpts {
  ao_Dirs : apisDirFlags;
  ao_Renames : list string;
  ao_FromTarball : string;
  ao_FromDir : string;
  ao_RefOverride : string;
  ao_SkipAllowlist : bool
}.

(** Random names, the clock, and where temporary directories are made. *)
Record entropy := mkEntropy { en_tmp : string; en_src : string; en_work : string; en_now : Z; en_TempDir : string }.

Definition require_dir (p : string) : io unit :=
  do i <- Stat p;
  match i with IDir => io_ret tt | IFile _ => io_fail (EMsg "not a directory") end.

Definition version_required (r : Ref) : io unit :=
  io_lift (fail_if bool_decide (ref_Version r = "") with EMsg "a version is required" ;; Ok tt).

Definition runAddFromDir (o : addOpts) (apisDir : string) (renames : gmap string string) (n : entropy) : io string :=
  if decide (ao_RefOverride o = "") then io_fail (EMsg "--from-dir requires --ref")
  else
    let srcDir := Clean (ao_FromDir o) in
    do! require_dir srcDir;
    do manifest <- LoadManifest (Join srcDir ManifestFile);
    do ref <- io_lift (ParseRef (ao_RefOverride o));
    do! version_required ref;
    do! enforceAllowlist (ad_DataDir (ao_Dirs o)) ref (ao_SkipAllowlist o);
    stageInstall apisDir (mf_Name manifest) (".tmp.from-dir." +:+ en_tmp n) (copyTree srcDir)
      (mkSource (Ref_String ref) (ref_Version ref) (en_now n) renames) (en_src n).

Definition install_tarball (o : addOpts) (apisDir work raw : string) (renames : gmap string string) (n : entropy) : io string :=
  do! ExtractTarGz raw work;
  do manifest <- LoadManifest (Join work ManifestFile);
  do embedded <- LoadSource (Join work SourceFile);
  let refStr := if decide (trim_space (ao_RefOverride o) <> "") then ao_RefOverride o else src_Ref embedded in
  do ref <- io_lift (ParseRef refStr);
  do! enforceAllowlist (ad_DataDir (ao_Dirs o)) ref (ao_SkipAllowlist o);
  do! io_lift (fail_if negb (IsFullSHA (src_ResolvedSHA embedded)) with EMsg "resolved_sha is not a 40-char SHA" ;; Ok tt);
  stageInstall apisDir (mf_Name manifest) (".tmp.tarball." +:+ en_tmp n) (copyTree work)
    (mkSource (Ref_String ref) (src_ResolvedSHA embedded) (en_now n) (mergeRenames (src_APIRenames embedded) renames)) (en_src n).

Definition runAddFromTarball (o : addOpts) (apisDir : string) (renames : gmap string string) (n : entropy) : io string :=
  do! Open (ao_FromTarball o);
  do work <- MkdirTemp (en_TempDir n) ("apis-from-tarball-" +:+ en_work n);
  finally (do raw <- ReadFile (ao_FromTarball o); install_tarball o apisDir work raw renames n) (RemoveAll work).

Definition no_positional (args : list string) : io unit :=
  io_lift (fail_if negb (bool_decide (args = [])) with EMsg "does not accept a positional ref" ;; Ok tt).

Definition one_argument (args : list string) : io string :=
  match args with [a] => io_ret a | _ => io_fail (EMsg "expected one argument") end.

(** The directory of the new bundle. *)
Definition runAdd (args : list string) (o : addOpts) (e : environ) (n : entropy) : io string :=
  if negb (bool_decide (ao_FromTarball o = "")) && negb (bool_decide (ao_FromDir o = ""))
  then io_fail (EMsg "--from-tarball and --from-dir are mutually exclusive")
  else
    do root <- resolve_dirs (ao_Dirs o) e;
    do renameMap <- io_lift (parseRenames (ao_Renames o));
    if decide (ao_FromTarball o <> "") then (do! no_positional args; runAddFromTarball o root renameMap n)
    else if decide (ao_FromDir o <> "") then (do! no_positional args; runAddFromDir o root renameMap n)
    else
      do arg <- one_argument args;
      do ref <- io_lift (ParseRef arg);
      let ref := with_default_branch ref in
      do! enforceAllowlist (ad_DataDir (ao_Dirs o)) ref (ao_SkipAllowlist o);
      Install apiBase codeloadBase token root ref renameMap (en_tmp n) (en_src n) (en_now n).

(** ** fetch.go, pack.go: the tarball that was written *)

Record fetchOpts := mkFetchOpts { fo_Output : string; fo_DataDir : string; fo_SkipAllowlist : bool }.

Definition runFetch (args : list string) (o : fetchOpts) (n : entropy) : io string :=
  do arg <- one_argument args;
  if decide (fo_Output o = "") then io_fail (EMsg "--output is required")
  else
    do ref <- io_lift (ParseRef arg);
    do! version_required ref;
    do! enforceAllowlist (fo_DataDir o) ref (fo_SkipAllowlist o);
    do work <- MkdirTemp (en_TempDir n) ("apis-fetch-" +:+ en_work n);
    finally
      (do sha <- Stage apiBase codeloadBase token ref work ∅ (en_src n) (en_now n);
       do! WriteTarball (fo_Output o) work (ref_Repo ref +:+ "-" +:+ sha);
       io_ret sha)
      (RemoveAll work).

Record packOpts := mkPackOpts { po_Output : string; po_RefStr : string }.

(** Every entry of the manifest is there. *)
Fixpoint check_entries (srcDir : string) (apis : list string) : io unit :=
  match apis with
  | [] => io_ret tt
  | rel :: apis => do _ <- ResolveManifestEntry srcDir rel; check_entries srcDir apis
  end.

Definition runPackImpl (args : list string) (o : packOpts) (n : entropy) : io string :=
  do arg <- one_argument args;
  if decide (po_Output o = "") then io_fail (EMsg "--output is required")
  else if decide (po_RefStr o = "") then io_fail (EMsg "--ref is required")
  else
    do ref <- io_lift (ParseRef (po_RefStr o));
    let srcDir := Clean arg in
    do! require_dir srcDir;
    do mf <- LoadManifest (Join srcDir ManifestFile);
    do! check_entries srcDir (mf_APIs mf);
    do stage <- MkdirTemp (en_TempDir n) ("apis-pack-" +:+ en_work n);
    finally
      (do! copyTree srcDir stage;
       do sha <- ContentSHA stage;
       do! WriteSource (Join stage SourceFile) (mkSource (Ref_String ref) sha (en_now n) ∅) (en_src n);
       do! WriteTarball (po_Output o) stage (mf_Name mf +:+ "-" +:+ mf_Version mf);
       io_ret sha)
      (RemoveAll stage).

(** ** remove.go *)

(** [os.RemoveAll] refuses a path that ends in a dot. *)
Definition endsWithDot (p : string) : bool := bool_decide (List.last (split_byte "/" p) "" = ".").

Definition os_RemoveAll (p : string) : io unit :=
  if endsWithDot p then io_fail (EMsg "invalid argument") else RemoveAll p.

Definition runRemoveImpl (args : list string) (dirs : apisDirFlags) (e : environ) : io string :=
  do name <- one_argument args;
  do root <- resolve_dirs dirs e;
  let target := BundleDir root name in
  if negb (bool_decide (Clean target = target)) || negb (bool_decide (Dir target = Clean root))
  then io_fail (EMsg "bundle name contains path separators")
  else
    do st <- io_try (Stat (Join target ManifestFile));
    match st with
    | Err _ => io_fail (EMsg "no bundle of that name")
    | Ok _ => do! os_RemoveAll target; io_ret target
    end.

(** ** list.go *)

(** The directories that carry a manifest. *)
Fixpoint bundle_dirs (root : string) (es : list (string * bool)) : io (list string) :=
  match es with
  | [] => io_ret []
  | (n, is_directory) :: es =>
      if negb is_directory || hidden n then bundle_dirs root es
      else
        let dir := Join root n in
        do st <- io_try (Stat (Join dir ManifestFile));
        do dirs <- bundle_dirs root es;
        io_ret (match st with Ok _ => dir :: dirs | Err _ => dirs end)
  end.

Definition installed_row (dir : string) : io (list installedBundle) :=
  do manifest <- LoadManifest (Join dir ManifestFile);
  do source <- LoadSource (Join dir SourceFile);
  io_ret [mkInstalled (mf_Name manifest) (src_Ref source) (mf_Version manifest) (src_ResolvedSHA source)
            (src_FetchedAt source) (length (mf_APIs manifest)) (size (src_APIRenames source)) dir].

Definition scanInstalledBundles (root : string) : io (list installedBundle) :=
  do st <- io_try (Stat root);
  match st with
  | Err e => if errors_is e "ErrNotExist" then io_ret [] else io_fail e
  | Ok _ =>
      do es <- ReadDir root;
      do dirs <- bundle_dirs root es;
      io_each installed_row (sort_strings dirs)
  end.

Definition runList (dirs : apisDirFlags) (e : environ) : io (list installedBundle) :=
  do root <- resolve_dirs dirs e; scanInstalledBundles root.

Definition shortSHA (s : string) : string := to_lower (String.substring 0 7 s).

(** ** upgrade.go *)

(** Names that only the second has, and that only the first has. *)
Definition diffStringSlices (oldS newS : list string) : list string * list string :=
  let o := list_to_set oldS : gset string in
  let n := list_to_set newS : gset string in
  (sort_strings (elements (n ∖ o)), sort_strings (elements (o ∖ n))).

Definition summariseManifestDiff (oldM newM : Manifest) : string :=
  let '(added, removed) := diffStringSlices (mf_APIs oldM) (mf_APIs newM) in
  join (String "010" "")
    ((if decide (mf_Version oldM = mf_Version newM) then []
      else ["version: " +:+ mf_Version oldM +:+ " -> " +:+ mf_Version newM]) ++
     (if decide (added = []) then [] else ["added apis: " +:+ join ", " added]) ++
     (if decide (removed = []) then [] else ["removed apis: " +:+ join ", " removed])).

Definition dryRunManifestDiff (r : Ref) (sha oldDir : string) (n : entropy) : io string :=
  do raw <- io_lift (Download codeloadBase token r sha);
  do tmp <- MkdirTemp (en_TempDir n) ("apis-dryrun-" +:+ en_work n);
  finally
    (do! ExtractTarGz raw tmp;
     do newM <- LoadManifest (Join tmp ManifestFile);
     do oldM <- LoadManifest (Join oldDir ManifestFile);
     io_ret (summariseManifestDiff oldM newM))
    (RemoveAll tmp).

(** [upgradeOne] with [dryRun]: a difference that cannot be told is no error. *)
Definition dry_run (r : Ref) (row : installedBundle) (n : entropy) : io bool :=
  do! io_lift (fail_if bool_decide (ref_Version r = "") with EMsg "lacks a version" ;; Ok tt);
  do newSHA <- io_lift (ResolveSHA apiBase token r);
  if decide (to_lower newSHA = to_lower (ib_ResolvedSHA row)) then io_ret false
  else do _ <- io_try (dryRunManifestDiff r newSHA (ib_Path row) n); io_ret false.

(** The loop of [runUpgrade], an [entropy] for each row: the bundles that were
    upgraded, and whether the wanted one is there. *)
Fixpoint upgrade_rows (want : string) (dry : bool) (rows : list (installedBundle * (string * entropy))) (matched : bool)
    : io (list string * bool) :=
  match rows with
  | [] => io_ret ([], matched)
  | (row, (ornd, n)) :: rows =>
      do ref <- io_lift (wrap_err "source ref" (ParseRef (ib_Ref row)));
      if negb (bool_decide (want = "")) && negb (bool_decide (ib_Name row = want))
      then upgrade_rows want dry rows matched
      else
        do up <- (if dry then dry_run ref row n
                  else upgradeOne apiBase codeloadBase token ref row (en_tmp n) (en_src n) ornd (en_now n));
        do (ups, matched) <- upgrade_rows want dry rows true;
        io_ret ((if (up : bool) then ib_Name row :: ups else ups), matched)
  end.

Definition runUpgrade (args : list string) (dirs : apisDirFlags) (dry : bool) (e : environ)
    (rnds : nat -> string * entropy) : io (list string) :=
  do root <- resolve_dirs dirs e;
  do rows <- scanInstalledBundles root;
  if decide (rows = []) then io_ret []
  else
    let want := default "" (head args) in
    do (ups, matched) <- upgrade_rows want dry (imap (fun i row => (row, rnds i)) rows) false;
    if negb (bool_decide (want = "")) && negb matched then io_fail (EMsg "no installed bundle of that name")
    else io_ret ups.
End apiscmd.
