(* ===== verification/ApisGuards.v ===== *)
(** * What the apis commands refuse: internal/cli/apiscmd allowlist.go and remove.go

    The theorems: a ref that no pattern of the allowlist names is not installed
    and nothing is written, and removing a bundle stays inside the bundles, for a
    directory whose path ends in a name.  The examples show the data directories
    for which the allowlist is not looked for, and the directory for which
    removing climbs out. *)

From S2P Require Import Prelude GoStd Models Url ApiClient Query Paths Disk Bundles BundleFetch BundleLoad BundleUpgrade DataDir Walk Pack PackFacts ApisCmd.

(** ** Removing stays inside *)

Lemma clean_stack_Dir p : clean_stack (Dir p) = foldl (seg_push (rooted p)) [] (removelast (split_byte "/" p)).
Proof.
  destruct (exists_last (split_byte_nonempty "/" p)) as (l & x & E). unfold Dir. rewrite E, removelast_last.
  pose proof (split_byte_elems_free "/" p) as Hs. rewrite E in Hs. apply Forall_app in Hs as [Hl _].
  destruct l as [|y l]; [done|]. rewrite clean_stack_Clean.
  assert (split_byte "/" (join "/" (y :: l) +:+ "/") = (y :: l) ++ [""]) as Hj.
  { assert (join "/" (y :: l) +:+ "/" = join "/" ((y :: l) ++ [""])) as -> by by rewrite join_snoc.
    apply split_join; [by destruct l|]. apply Forall_app. split; [done|]. by repeat constructor. }
  assert (rooted p = rooted (join "/" (y :: l) +:+ "/")) as Hr.
  { apply eq_true_iff_eq. rewrite !rooted_split, Hj, E. split; intros (a & b & Eq).
    - injection Eq as -> Eq. destruct l as [|z l]; [by exists "", []|]. by exists z, (l ++ [""]).
    - injection Eq as -> Eq. destruct l as [|z l]; [by exists x, []|]. by exists z, (l ++ [x]). }
  unfold clean_stack. by rewrite Hj, <- Hr, foldl_app.
Qed.

Lemma rev_replicate {A} n (x : A) : rev (replicate n x) = replicate n x.
Proof. induction n as [|n IH]; [done|]. cbn [replicate rev]. by rewrite IH, <- replicate_S_end. Qed.

(** A cleaned path is one name below its directory, when that has a name. *)
Lemma named_child cwd target root x :
  Clean target = target -> Dir target = Clean root -> head (clean_stack root) = Some x -> x <> ".." ->
  exists n, plain n /\ slashless n /\ resolve cwd target = n :: resolve cwd root.
Proof.
  intros Hc Hd Hx Hne. pose proof (clean_stack_shape target) as (names & k & Est & Hnames & Hk).
  assert (clean_stack (Dir target) = clean_stack root) as Hs by (by rewrite Hd, clean_stack_Clean).
  rewrite clean_stack_Dir in Hs. pose proof (split_Clean target) as Hsp. rewrite Hc in Hsp.
  pose proof (resolve_Dir cwd target) as Hr. rewrite Hd, resolve_Clean in Hr.
  destruct names as [|n names].
  - exfalso. simpl in Est. unfold clean_split in Hsp. rewrite Hsp, Est in Hs. destruct (rooted target).
    + rewrite (Hk eq_refl) in Hs. cbn in Hs. by rewrite <- Hs in Hx.
    + cbn [app] in Hs. assert (clean_shape false (replicate (pred k) "..")) as Hsh by (by exists [], (pred k)).
      destruct k as [|k]; [cbn in Hs; by rewrite <- Hs in Hx|]. rewrite decide_False in Hs by done. cbn [pred] in Hsh.
      rewrite rev_replicate, replicate_S_end, removelast_last, <- rev_replicate in Hs.
      rewrite push_shape in Hs by done. rewrite <- Hs in Hx. destruct k; cbn in Hx; [done|]. by injection Hx as <-.
  - apply Forall_cons in Hnames as [Hn _]. exists n. split; [done|].
    assert (slashless n) as Hsl.
    { pose proof (clean_stack_slashless target) as Hf. rewrite Est in Hf. by apply Forall_cons in Hf as [? _]. }
    split; [done|]. rewrite Hr. destruct (clean_split_last target) as [a Ha]. rewrite Hsp, Ha, last_last, Est.
    simpl. by rewrite plain_step.
Qed.

Section facts.
Context `{GitHub} `{BundleYaml} `{AllowlistYaml} `{Sha256} `{TarWriter}.

Lemma resolve_dirs_reads dirs e : reads (resolve_dirs dirs e).
Proof. unfold resolve_dirs, resolveAPIsDir. pose proof (IsInitialized_reads "."). reading. Qed.

(** Removing a bundle removes one directory among the bundles, one that has a
    manifest, whatever the name: as long as the path of the bundles ends in a
    name, no name climbs out of it or removes it whole. *)
Theorem remove_confined (args : list string) (dirs : apisDirFlags) (e : environ) (root x : string) (w w1 w' : world)
    (r : result string)
    (Hroot : resolve_dirs dirs e w = (Ok root, w1)) (Hx : head (clean_stack root) = Some x) (Hup : x <> "..")
    (Hrun : runRemoveImpl args dirs e w = (r, w')) :
  match r with
  | Err _ => same_disk w w'
  | Ok target => exists n i, plain n /\ slashless n /\ target = BundleDir root (default "" (head args)) /\
      resolve (w_cwd w) target = n :: resolve (w_cwd w) root /\
      stat (ManifestFile :: n :: resolve (w_cwd w) root) (w_disk w) = Some i /\
      w_disk w' = outside (n :: resolve (w_cwd w) root) (w_disk w) /\ w_past w' = w_disk w :: w_past w
  end.
Proof.
  unfold runRemoveImpl in Hrun. apply io_bind_split in Hrun as [(er & E & ->)|(name & w0 & E & Hrun)].
  { unfold one_argument in E. by destruct args as [|a [|b l]]; injection E as _ <-. }
  assert (w0 = w /\ args = [name]) as [-> ->] by (destruct args as [|a [|b l]]; [discriminate|by injection E as <- <-|discriminate]). clear E.
  unfold io_bind at 1 in Hrun. rewrite Hroot in Hrun. apply resolve_dirs_reads in Hroot as Hs1. cbn zeta in Hrun.
  destruct (negb (bool_decide (Clean _ = _)) || _) eqn:Eg; [by injection Hrun as <- <-|].
  apply orb_false_iff in Eg as [Hc Hd]. apply negb_false_iff, bool_decide_eq_true in Hc, Hd.
  destruct (named_child (w_cwd w) _ _ _ Hc Hd Hx Hup) as (n & Hn & Hsl & Hr).
  apply io_bind_split in Hrun as [(er & E & ->)|(st & w2 & E & Hrun)]; [by apply io_try_ok in E as (? & [=] & _)|].
  pose proof (reads_try _ (Stat_reads _) _ _ _ E) as Hs2. apply io_try_ok in E as (st0 & [= ->] & E).
  pose proof (same_disk_trans _ _ _ Hs1 Hs2) as Hs. destruct st0 as [i|er]; [|by injection Hrun as <- <-].
  unfold os_RemoveAll in Hrun. destruct (endsWithDot _); [by injection Hrun as <- <-|].
  apply Lstat_ok in E as [_ Hi]. destruct Hs1 as (Ed1 & Ec1 & _).
  destruct (Join_child (w_cwd w) (BundleDir root name) ManifestFile) as [Ej _]; [done|done|].
  rewrite Ed1, Ec1, Ej, Hr in Hi. destruct Hs as (Ed & Ec & Ep).
  apply io_bind_split in Hrun as [(er & E & ->)|([] & w3 & E & [= <- <-])].
  - unfold RemoveAll, at_path, sys_write in E. destruct (pop _) as [[] fs]; [by injection E as _ <-|done].
  - exists n, i. split; [done|]. split; [done|]. split; [done|]. split; [done|]. split; [done|].
    unfold RemoveAll, at_path in E. rewrite Ec, Hr in E. apply sys_write_ok in E as (Ew & _ & Epast).
    injection Ew as Ew. by rewrite <- Ew, Ed, Epast, Ed, Ep.
Qed.
End facts.

(** ** The allowlist *)

(** The patterns that name a repository: its slug, its owner's and, for a slug
    with that host, every owner's. *)
Definition named_by (r : Ref) : list string :=
  [Slug r; ref_Host r +:+ "/" +:+ ref_Owner r +:+ "/*"; ref_Host r +:+ "/*"].

(** The prefixes of a slug that end before a slash. *)
Lemma slug_prefix r o : slashless (ref_Host r) -> slashless (ref_Owner r) -> slashless (ref_Repo r) ->
  has_prefix (o +:+ "/") (Slug r) = true -> o = ref_Host r \/ o = ref_Host r +:+ "/" +:+ ref_Owner r.
Proof.
  intros Hh Ho Hp [x E]%has_prefix_spec.
  assert (split_byte "/" (Slug r) = split_byte "/" o ++ split_byte "/" x) as Es.
  { assert (Slug r = join "/" (split_byte "/" o ++ split_byte "/" x)) as ->
      by (by rewrite join_app, !join_split, E, string_app_assoc by apply split_byte_nonempty).
    apply split_join; [|apply Forall_app; split; apply split_byte_elems_free].
    pose proof (split_byte_nonempty "/" o). by destruct (split_byte "/" o). }
  assert (split_byte "/" (Slug r) = [ref_Host r; ref_Owner r; ref_Repo r]) as E3
    by (apply (split_join "/" [_; _; _]); [done|by repeat constructor]).
  rewrite E3 in Es. pose proof (join_split "/" o) as Hj. pose proof (split_byte_nonempty "/" x) as Hx.
  destruct (split_byte "/" o) as [|a [|b [|c l]]] eqn:Eo; [by apply split_byte_nonempty in Eo|..].
  - left. injection Es as -> _. done.
  - right. injection Es as -> -> _. done.
  - destruct l; [|done]. injection Es as _ _ _ Es. done.
Qed.

Lemma matches_named r pat : slashless (ref_Host r) -> slashless (ref_Owner r) -> slashless (ref_Repo r) ->
  matches (Slug r) pat = true -> trim_space pat ∈ named_by r.
Proof.
  intros Hh Ho Hp. unfold matches. intros [_ Hm]%andb_true_iff. unfold named_by.
  apply orb_true_iff in Hm as [->%bool_decide_eq_true|[Hs Hm]%andb_true_iff]; [set_solver|].
  apply has_suffix_spec in Hs as [o E]. rewrite E in Hm |- *. unfold trim_suffix in Hm.
  rewrite (proj2 (cut_suffix_Some "/*" (o +:+ "/*") o) eq_refl) in Hm. cbn [default from_option id] in Hm.
  apply slug_prefix in Hm as [-> | ->]; [set_solver| |done..]. rewrite !string_app_assoc. set_solver.
Qed.

Section allowlist.
Context `{GitHub} `{BundleYaml} `{AllowlistYaml} `{Sha256} `{TarWriter}.
Variables apiBase codeloadBase token : string.

(** The data directory's allowlist. *)
Definition allowlist_is (dataDir : string) (allow : list string) (w : world) : Prop :=
  dataDir <> "" /\ exists raw, stat (allowlistFile :: resolve (w_cwd w) dataDir) (w_disk w) = Some (IFile raw) /\
    yaml_allowlist raw = Ok allow.

Lemma enforceAllowlist_reads dataDir r skip : reads (enforceAllowlist dataDir r skip).
Proof. unfold enforceAllowlist, loadAllowlist. reading. Qed.

Lemma one_argument_is args w r w' : one_argument args w = (r, w') -> w' = w /\ forall a, r = Ok a -> args = [a].
Proof. unfold one_argument. by destruct args as [|a [|b l]]; intros [= <- <-]; split; [|naive_solver..| |naive_solver]. Qed.

Lemma require_dir_reads p : reads (require_dir p).
Proof. unfold require_dir. apply reads_bind; [apply Stat_reads|]. intros []; [apply reads_fail|apply reads_ret]. Qed.

Lemma allowlist_same dataDir allow w w' : same_disk w w' -> allowlist_is dataDir allow w -> allowlist_is dataDir allow w'.
Proof. intros (Ed & Ec & _) [Hne Hraw]. split; [done|]. by rewrite Ed, Ec. Qed.

Lemma loadAllowlist_is dataDir allow w l w' :
  allowlist_is dataDir allow w -> loadAllowlist dataDir w = (Ok l, w') -> l = allow.
Proof.
  intros [Hne (raw & Hs & Hy)]. unfold loadAllowlist. rewrite decide_False by done.
  intros (rr & w1 & E1 & E2)%io_bind_ok. apply io_try_ok in E1 as (x & [= ->] & E1).
  destruct (Join_child (w_cwd w) dataDir allowlistFile) as [Ej _]; [done|done|].
  destruct x as [raw'|e].
  - apply ReadFile_is in E1. rewrite Ej in E1. pose proof (eq_trans (eq_sym E1) Hs) as [= ->]. cbv [io_lift] in E2. rewrite Hy in E2.
    by injection E2 as ->.
  - unfold ReadFile, at_path, sys_read in E1. rewrite Ej in E1. cbn [w_disk] in E1. rewrite Hs in E1.
    destruct (pop _) as [[] fs]; [injection E1 as <- <-; discriminate E2|discriminate E1].
Qed.

(** An unlisted ref does not pass. *)
Lemma enforce_unlisted dataDir allow r w res w' :
  ref_ok r -> allowlist_is dataDir allow w -> allow <> [] -> (forall pat, pat ∈ allow -> trim_space pat ∉ named_by r) ->
  enforceAllowlist dataDir r false w = (res, w') -> exists e, res = Err e.
Proof.
  intros Hr Ha Hne Hun. unfold enforceAllowlist. intros [(e & _ & ->)|(l & w1 & E1 & E2)]%io_bind_split; [by exists e|].
  apply (loadAllowlist_is _ allow) in E1 as ->; [|done]. destruct (matchAllowlist allow r) eqn:Em; [|injection E2 as <- _; by eexists].
  exfalso. unfold matchAllowlist in Em. destruct allow as [|x l]; [done|]. apply existsb_exists in Em as (pat & Hin & Hm).
  rewrite <- list_elem_of_In in Hin. destruct (validRefSegment_plain _ (rk_owner r Hr)) as [_ Ho].
  destruct (validRefSegment_plain _ (rk_repo r Hr)) as [_ Hp].
  apply matches_named in Hm; [by eapply Hun|by rewrite (rk_host r Hr)|done..].
Qed.

Lemma unlisted_then {B} dataDir allow r (k : io B) w res w' :
  ref_ok r -> allowlist_is dataDir allow w -> allow <> [] -> (forall pat, pat ∈ allow -> trim_space pat ∉ named_by r) ->
  io_bind (enforceAllowlist dataDir r false) (fun _ => k) w = (res, w') -> exists e, res = Err e /\ same_disk w w'.
Proof.
  intros Hr Ha Hne Hun [(e & E & ->)|([] & w1 & E & _)]%io_bind_split.
  - exists e. split; [done|]. by eapply enforceAllowlist_reads.
  - by apply (enforce_unlisted _ allow) in E as [e [=]].
Qed.

(** The ref a command line names, unless it installs from a tarball. *)
Definition given_ref (args : list string) (o : addOpts) : option string :=
  if decide (ao_FromDir o = "") then head args else Some (ao_RefOverride o).

(** C24. A ref that no pattern of the allowlist names is refused, and nothing is
    written, when [apis add] is run without --from-tarball and
    --skip-allowlist and the directory of --data-dir holds a non-empty
    allowlist.  A pattern names the slug, its owner's slugs or its host's.  The
    allowlist of a data directory found in any other way is not consulted. *)
Theorem unlisted_ref_refused (args : list string) (o : addOpts) (e : environ) (n : entropy) (given : string) (r : Ref)
    (allow : list string) (w w' : world) (res : result string)
    (Hmode : ao_FromTarball o = "") (Hskip : ao_SkipAllowlist o = false) (Hgiven : given_ref args o = Some given)
    (Hr : ParseRef given = Ok r) (Hallow : allowlist_is (ad_DataDir (ao_Dirs o)) allow w) (Hne : allow <> [])
    (Hun : forall pat, pat ∈ allow -> trim_space pat ∉ named_by r)
    (Hrun : runAdd apiBase codeloadBase token args o e n w = (res, w')) :
  exists err, res = Err err /\ same_disk w w'.
Proof.
  pose proof (ParseRef_ok _ _ Hr) as [Hok _]. unfold runAdd in Hrun. rewrite Hmode, Hskip in Hrun. cbn [negb andb] in Hrun.
  rewrite bool_decide_eq_true_2 in Hrun by done. cbn [negb andb] in Hrun.
  apply io_bind_split in Hrun as [(er & E & ->)|(root & w1 & E & Hrun)];
    [exists er; split; [done|by eapply resolve_dirs_reads]|]. apply resolve_dirs_reads in E as Hs1.
  apply io_bind_split in Hrun as [(er & [= _ <-] & ->)|(renames & w2 & [= _ <-] & Hrun)]; [by exists er|].
  assert (forall w2, same_disk w w2 -> forall B (k : io B) res2 r2, ref_ok r2 -> named_by r2 = named_by r ->
    io_bind (enforceAllowlist (ad_DataDir (ao_Dirs o)) r2 false) (fun _ => k) w2 = (res2, w') ->
    exists err, res2 = Err err /\ same_disk w w') as Hstop.
  { intros w2 Hs2 B k res2 r2 Hr2 Hn2 E2. apply (unlisted_then _ allow) in E2 as (err & -> & Hs3);
      [|done|by eapply allowlist_same|done|by rewrite Hn2]. exists err. split; [done|by eapply same_disk_trans]. }
  rewrite decide_False in Hrun by auto. unfold given_ref in Hgiven. destruct (decide (ao_FromDir o = "")) as [Hd|Hd].
  - rewrite decide_False in Hrun by auto.
    apply io_bind_split in Hrun as [(er & [-> _]%one_argument_is & ->)|(a & w2 & [-> Ha]%one_argument_is & Hrun)]; [by exists er|].
    rewrite (Ha a eq_refl) in Hgiven. injection Hgiven as ->.
    unfold io_bind at 1 in Hrun. cbv [io_lift] in Hrun. rewrite Hr in Hrun. cbn beta iota in Hrun.
    eapply Hstop; [exact Hs1| | |exact Hrun]; unfold with_default_branch; case_decide; try done.
    destruct Hok. by constructor.
  - rewrite decide_True in Hrun by done. injection Hgiven as Hgiven.
    apply io_bind_split in Hrun as [(er & [= _ <-] & ->)|([] & w2 & [= _ <-] & Hrun)]; [by exists er|].
    unfold runAddFromDir in Hrun. rewrite Hgiven in Hrun. destruct (decide (given = "")); [injection Hrun as <- <-; by eexists|].
    apply io_bind_split in Hrun as [(er & E2 & ->)|([] & w2 & E2 & Hrun)].
    { exists er. split; [done|]. eapply same_disk_trans; [exact Hs1|]. eapply require_dir_reads; exact E2. }
    pose proof (same_disk_trans _ _ _ Hs1 (require_dir_reads _ _ _ _ E2)) as Hs2.
    apply io_bind_split in Hrun as [(er & E3 & ->)|(m & w3 & E3 & Hrun)].
    { exists er. split; [done|]. eapply same_disk_trans; [exact Hs2|]. by eapply LoadManifest_reads. }
    pose proof (same_disk_trans _ _ _ Hs2 (LoadManifest_reads _ _ _ _ E3)) as Hs3.
    unfold io_bind at 1 in Hrun. cbv [io_lift] in Hrun. rewrite Hr in Hrun. cbn beta iota in Hrun.
    apply io_bind_split in Hrun as [(er & [= _ <-] & ->)|([] & w4 & [= _ <-] & Hrun)]; [by exists er|].
    rewrite Hskip in Hrun. by eapply Hstop.
Qed.
End allowlist.

(** ** Concrete runs *)

(** A data directory with an allowlist and an installed bundle. *)
Definition guarded : world := mkWorld
  {[ ["data"] := IDir; ["bouncer.yaml"; "data"] := IFile "github.com/corp/*"; ["secret.hex"; "data"] := IFile "00";
     ["admin-password.hash"; "data"] := IFile "h"; ["apis"; "data"] := IDir; ["acme"; "apis"; "data"] := IDir;
     ["bouncer.yaml"; "acme"; "apis"; "data"] := IFile "manifest" ]} ["data"] [] [].

Definition comma_allowlist : AllowlistYaml := fun raw => Ok (split_byte "," raw).

Definition no_hash : Sha256 := fun _ => "".
Definition no_tar : TarWriter := {| tar_bytes _ := ""; gzip_bytes s := s |}.

Definition no_env : environ := mkEnviron "" "".
Definition demo_entropy : entropy := mkEntropy "1" "2" "3" 0 "/tmp".

Definition demo_add (dirs : apisDirFlags) (ref : string) : result string * world :=
  @runAdd demo_github demo_yaml comma_allowlist "https://api" "https://dl" "" [ref]
    (mkAddOpts dirs [] "" "" "" false) no_env demo_entropy guarded.

Lemma remove_confined_witness :
  (runRemoveImpl ["acme"] (mkDirs "/data/apis" "") no_env guarded).1 = Ok "/data/apis/acme" /\
  w_disk (runRemoveImpl ["acme"] (mkDirs "/data/apis" "") no_env guarded).2 = outside ["acme"; "apis"; "data"] (w_disk guarded).
Proof.
  assert ((runRemoveImpl ["acme"] (mkDirs "/data/apis" "") no_env guarded).1 = Ok "/data/apis/acme") as H1
    by (vm_compute; reflexivity).
  split; [exact H1|]. destruct (runRemoveImpl _ _ _ _) as [r w'] eqn:E. cbn [fst] in H1. rewrite H1 in E.
  destruct (remove_confined ["acme"] (mkDirs "/data/apis" "") no_env "/data/apis" "apis" guarded guarded w' (Ok "/data/apis/acme")
    eq_refl eq_refl ltac:(discriminate) E) as (n & i & _ & _ & _ & Hn & _ & Hd & _).
  assert (n = "acme") as -> by (revert Hn; vm_compute; congruence). exact Hd.
Defined.

(** With a directory that is only dots, [..] removes the data directory, as its
    allowlist file passes for a manifest. *)
Example remove_escapes :
  let w := mkWorld (w_disk guarded) ["apis"; "data"] [] [] in
  (runRemoveImpl [".."] (mkDirs "." "") no_env w).1 = Ok ".." /\
  stat ["secret.hex"; "data"] (w_disk w) = Some (IFile "00") /\
  stat ["secret.hex"; "data"] (w_disk (runRemoveImpl [".."] (mkDirs "." "") no_env w).2) = None.
Proof. vm_compute. done. Qed.

Lemma unlisted_ref_refused_witness : exists err,
  (demo_add (mkDirs "" "/data") "github.com/acme/apis").1 = Err err /\
  same_disk guarded (demo_add (mkDirs "" "/data") "github.com/acme/apis").2.
Proof.
  destruct (@unlisted_ref_refused demo_github demo_yaml comma_allowlist "https://api" "https://dl" "" ["github.com/acme/apis"]
    (mkAddOpts (mkDirs "" "/data") [] "" "" "" false) no_env demo_entropy "github.com/acme/apis"
    (mkRef "github.com" "acme" "apis" "") ["github.com/corp/*"] guarded
    (demo_add (mkDirs "" "/data") "github.com/acme/apis").2 (demo_add (mkDirs "" "/data") "github.com/acme/apis").1
    eq_refl eq_refl eq_refl ltac:(vm_compute; reflexivity)) as (err & He & Hs).
  - split; [discriminate|]. exists "github.com/corp/*". split; vm_compute; reflexivity.
  - discriminate.
  - intros pat Hpat. rewrite list_elem_of_singleton in Hpat. subst pat. apply (bool_decide_unpack _). vm_compute. exact I.
  - apply surjective_pairing.
  - exists err. split; [exact He|exact Hs].
Defined.

(** The allowlist of a data directory that is found by other means than
    --data-dir is not looked for: by --apis-dir, or because it is the current
    directory. *)
Example allowlist_bypassed :
  (demo_add (mkDirs "" "/data") "github.com/acme/apis").1 = Err not_allowed /\
  (demo_add (mkDirs "/data/apis2" "") "github.com/acme/apis").1 = Ok "/data/apis2/acme" /\
  (@runAdd demo_github demo_yaml comma_allowlist "https://api" "https://dl" "" ["github.com/acme/apis"]
    (mkAddOpts (mkDirs "" "") [] "" "" "" false) no_env demo_entropy
    (mkWorld (delete ["bouncer.yaml"; "acme"; "apis"; "data"] (delete ["acme"; "apis"; "data"] (w_disk guarded))) ["data"] [] [])).1
    = Ok "apis/acme".
Proof. vm_compute. done. Qed.

(** A pattern for the host lets every owner in. *)
Example host_pattern_matches : matches "github.com/evil/apis" "github.com/*" = true.
Proof. reflexivity. Qed.
