(* ===== verification/ApisInstall.v ===== *)
(** * Installing from a directory: internal/cli/apiscmd install.go and from_dir.go

    The theorem: [apis add --from-dir] is all or nothing, at every point where
    it can be killed and whatever call fails, and the bundle it installs is the
    working tree without its .git directories, with a fresh install record. *)

From S2P Require Import Prelude GoStd Models Url ApiClient Query Paths Disk Bundles BundleFetch BundleLoad BundleUpgrade DataDir Walk Pack PackFacts ApisCmd ApisGuards.

(** ** A fresh hidden directory *)

Lemma fresh_tmp apisDir n w t w' :
  plain n -> slashless n -> disk_wf (w_disk w) ->
  (do! MkdirAll apisDir; MkdirTemp apisDir n) w = (Ok t, w') ->
  disk_wf (w_disk w') /\ children (n :: resolve (w_cwd w) apisDir) (w_disk w') = [].
Proof.
  intros Hp Hs Hwf. set (A := resolve (w_cwd w) apisDir). intros ([] & w1 & E1 & E2)%io_bind_ok.
  destruct (steps_in_at (w_cwd w) (adds_dirs A) apisDir mkdir_all (mkdir_all_adds _ _ _ (under_refl A)) w _ w1 eq_refl E1)
    as (Hc & [_ Hwf1] & _). specialize (Hwf1 Hwf).
  unfold MkdirTemp in E2. apply io_bind_ok in E2 as ([] & w2 & E2 & [= <- <-]). unfold at_path in E2.
  destruct (Join_child (w_cwd w) apisDir n Hp Hs) as [Ej _]. rewrite Hc, Ej in E2. fold A in E2.
  apply sys_write_ok in E2 as (Em & _). apply mkdir_ok in Em as (Hne & Hnone & Hpar & Ed). rewrite Ed. split; [by apply insert_wf|].
  apply elem_of_nil_inv. intros x [i Hx]%elem_of_children. rewrite lookup_insert_ne in Hx.
  - apply Hwf1 in Hx as [_ Hx]. unfold stat in Hx. rewrite decide_False in Hx by done. simpl in Hx. congruence.
  - intros E. apply (f_equal length) in E. simpl in E. lia.
Qed.

(** A tree apart from [A] is as it was before the directories of an install. *)
Lemma pending_apart (A T S0 : path) (d0 d : disk) : under A T -> apart S0 A -> pending A T d0 d ->
  forall k, stat (k ++ S0) d = stat (k ++ S0) d0.
Proof.
  intros Hu Hap [Hp _] k. unfold stat. case_decide; [done|]. destruct (Hp (k ++ S0)) as [E|(Ha & _)]; [|done|].
  - intros HT. destruct Hap as [H1 H2]. destruct (under_comparable S0 A (k ++ S0)); [by exists k| |done..].
    by eapply under_trans.
  - destruct Hap as [[] _]. eapply under_trans; [|exact Ha]. by exists k.
Qed.

Section staging.
Context `{BundleYaml}.

(** What [stage] is given: a fresh directory, the rest of the disk but for the
    directories of the install as it was. *)
Definition stage_ready (A T : path) (d0 : disk) (cwd : path) (w : world) : Prop :=
  w_cwd w = cwd /\ disk_wf (w_disk w) /\ pending A T d0 (w_disk w) /\ dirs_to T (w_disk w) /\ children T (w_disk w) = [].

(** The part that is undone when it fails. *)
Definition stage_body (name apisDir tmp : string) (stage : string -> io unit) (src : SourceRecord) (srnd : string) : io string :=
  do! stage tmp;
  do! WriteSource (Join tmp SourceFile) src srnd;
  do! Rename tmp (BundleDir apisDir name);
  io_ret (BundleDir apisDir name).

(** Ready to be moved: staged, with its record. *)
Definition staged_tree (T : path) (tmp : string) (stage : string -> io unit) (src : SourceRecord) (srnd : string)
    (w1 w3 : world) : Prop :=
  exists w2, stage tmp w1 = (Ok tt, w2) /\ WriteSource (Join tmp SourceFile) src srnd w2 = (Ok tt, w3).

Lemma stage_body_states apisDir name tmp stage src srnd A T d0 cwd w1 r w4 :
  slashless srnd -> resolve cwd tmp = T -> stage_ready A T d0 cwd w1 ->
  (forall r1 w2, stage tmp w1 = (r1, w2) -> passed (below_only T (w_disk w1)) w1 w2) ->
  stage_body name apisDir tmp stage src srnd w1 = (r, w4) ->
  match r with
  | Err _ => passed (pending A T d0) w1 w4
  | Ok dir => exists w3, staged_tree T tmp stage src srnd w1 w3 /\ passed (pending A T d0) w1 w3 /\
      w_past w4 = w_disk w3 :: w_past w3 /\ dir = BundleDir apisDir name /\
      rename T (resolve cwd dir) (w_disk w3) = Ok (w_disk w4)
  end.
Proof.
  intros Hsr HT (Hc1 & Hwf & Hp & Hd & He) Hst E2. set (Q := fun d => pending A T d0 d /\ dirs_to T d).
  assert (forall w2, passed Q w1 w2 -> passed (pending A T d0) w1 w2) as Hweak
    by (intros w2 H2; eapply passed_impl; [|exact H2]; by intros d []).
  assert (forall w2 w3, passed Q w1 w2 -> passed (below_only T (w_disk w2)) w2 w3 -> passed Q w1 w3) as Hstep.
  { intros w2 w3 P2 P3. eapply passed_trans; [exact P2|]. eapply passed_impl; [|exact P3]. intros d Hb.
    destruct P2 as (_ & [Hp2 Hd2] & _). by eapply pending_below. }
  assert (passed Q w1 w1) as P11 by (by apply passed_refl).
  apply io_bind_split in E2 as [(e & E2 & ->)|([] & w2 & E2 & E3)]; [by apply Hst in E2; apply Hweak, (Hstep w1)|].
  pose proof (Hstep w1 w2 P11 (Hst _ _ E2)) as P2. pose proof P2 as (Hc2 & _).
  assert (resolve (w_cwd w2) tmp = T) as HT2 by (by rewrite Hc2, Hc1).
  assert (forall r3 w3, WriteSource (Join tmp SourceFile) src srnd w2 = (r3, w3) -> passed Q w1 w3) as Hws.
  { intros r3 w3 E. apply (Hstep w2 w3 P2). rewrite <- HT2.
    by apply (steps_in_passed _ _ _ _ _ _ (WriteSource_below (w_cwd w2) tmp src srnd Hsr) eq_refl E). }
  apply io_bind_split in E3 as [(e & E3 & ->)|([] & w3 & E3 & E4)]; [by eapply Hweak, Hws|].
  pose proof (Hws _ _ E3) as P3. pose proof P3 as (Hc3 & _).
  apply io_bind_split in E4 as [(e & E4 & ->)|([] & w5 & E4 & [= <- <-])]; apply Rename_cases in E4 as [Hc4 E4].
  - apply Hweak. eapply passed_trans; [exact P3|]. apply passed_refl; [apply P3|done].
  - rewrite Hc3, Hc1, HT in E4. destruct E4 as [Hpast Hren]. exists w3. split; [by exists w2|].
    split; [by apply Hweak|]. done.
Qed.

Lemma stageInstall_states apisDir name rnd stage src srnd w r w' :
  let A := resolve (w_cwd w) apisDir in
  let T := (".tmp." +:+ rnd) :: A in
  let tmp := Join apisDir (".tmp." +:+ rnd) in
  slashless rnd -> slashless srnd -> disk_wf (w_disk w) ->
  (forall w1 r1 w2, stage_ready A T (w_disk w) (w_cwd w) w1 -> stage tmp w1 = (r1, w2) ->
    passed (below_only T (w_disk w1)) w1 w2) ->
  stageInstall apisDir name (".tmp." +:+ rnd) stage src srnd w = (r, w') ->
  match r with
  | Err _ => passed (pending A T (w_disk w)) w w'
  | Ok dir => exists w1 w3,
      stage_ready A T (w_disk w) (w_cwd w) w1 /\ staged_tree T tmp stage src srnd w1 w3 /\
      passed (pending A T (w_disk w)) w w3 /\ w_past w' = w_disk w3 :: w_past w3 /\
      dir = BundleDir apisDir name /\ rename T (resolve (w_cwd w) dir) (w_disk w3) = Ok (w_disk w')
  end.
Proof.
  intros A T tmp Hr Hsr Hwf Hst. unfold stageInstall. cbn zeta. intros Hrun.
  assert (forall w1, same_disk w w1 -> passed (pending A T (w_disk w)) w w1) as Hself
    by (intros; apply passed_refl; [apply pending_refl|done]).
  unfold io_bind at 1 in Hrun. destruct (io_try _ w) as [r0 w0] eqn:E0. apply io_try_ok in E0 as (rs & -> & E0).
  apply Stat_reads in E0 as Hd0. destruct rs as [i|er]; [injection Hrun as <- <-; by apply Hself|].
  rewrite io_bind_assoc in Hrun. unfold io_bind at 1 in Hrun.
  destruct (io_bind (MkdirAll apisDir) _ w0) as [r1 w1] eqn:E1. destruct Hd0 as (Ed0 & Ec0 & Ep0).
  assert (disk_wf (w_disk w0)) as Hwf0 by (by rewrite Ed0).
  destruct (tmp_states _ _ _ _ _ Hr Hwf0 E1) as (P1 & HT & Hhead & Hok). rewrite Ec0, Ed0 in P1. rewrite Ec0 in HT, Hok.
  fold A T in P1, HT, Hok.
  assert (passed (pending A T (w_disk w)) w w1) as P1' by (eapply passed_trans; [apply Hself; done|exact P1]).
  destruct r1 as [t|er1]; [|by injection Hrun as <- <-].
  destruct (Hok t eq_refl) as [-> Hdirs]. fold tmp in Hrun, HT, Hhead.
  destruct (plain_prefixed ".tmp." rnd) as [Hpl Hsl]; [done|done|done|simpl; lia|].
  assert (stage_ready A T (w_disk w) (w_cwd w) w1) as Hready.
  { destruct (fresh_tmp _ _ _ _ _ Hpl Hsl Hwf0 E1) as [Hwf1 Hch]. rewrite Ec0 in Hch.
    split; [apply P1'|]. split; [done|]. split; [apply P1'|done]. }
  change (unless_committed (stage_body name apisDir tmp stage src srnd) (RemoveAll tmp) w1 = (r, w')) in Hrun.
  unfold unless_committed in Hrun. destruct (stage_body _ _ _ _ _ _ w1) as [r2 w4] eqn:E2.
  eapply stage_body_states in E2; [|done|exact HT|exact Hready|intros r3 w2; by apply Hst]. destruct r2 as [dir|e].
  - injection Hrun as <- <-. destruct E2 as (w3 & Hs & P3 & Hrest). exists w1, w3. split; [done|]. split; [done|].
    split; [by eapply passed_trans|done].
  - destruct (RemoveAll tmp w4) as [r5 w5] eqn:E5. injection Hrun as <- <-. cbn [snd].
    assert (passed (pending A T (w_disk w)) w w4) as P4 by (by eapply passed_trans).
    eapply passed_trans; [exact P4|]. destruct P4 as (Hc4 & HP4 & _). unfold RemoveAll, at_path in E5. rewrite Hc4, HT in E5.
    eapply passed_write; [exact HP4| |exact E5]. intros d [= <-]. by apply pending_outside.
Qed.
End staging.

(** ** Installing a working tree *)

Section from_dir.
Context `{GitHub} `{BundleYaml} `{AllowlistYaml} `{Sha256} `{TarWriter}.

(** What of a copied tree the install record replaces. *)
Definition of_record (srnd : string) (k : path) : Prop :=
  under [SourceFile] k \/ under [".source-" +:+ srnd +:+ ".yaml.tmp"] k.

(** Staging a copy of [S0] leaves the tree in [T]. *)
Lemma staged_copy srcDir src srnd A T d0 cwd tmp w1 w3 :
  tmp <> "" -> slashless srnd -> resolve cwd tmp = T -> under A T -> stage_ready A T d0 cwd w1 ->
  apart (resolve cwd srcDir) A -> apart (resolve cwd srcDir) T -> tree_named (resolve cwd srcDir) d0 ->
  stat (resolve cwd srcDir) d0 = Some IDir -> Base srcDir <> ".git" ->
  staged_tree T tmp (copyTree srcDir) src srnd w1 w3 ->
  (exists raw, yaml_marshal_source src = Ok raw /\ stat (SourceFile :: T) (w_disk w3) = Some (IFile raw)) /\
  forall k i, k <> [] -> ~ of_record srnd k ->
    w_disk w3 !! (k ++ T : path) = Some i <-> stat (k ++ resolve cwd srcDir) d0 = Some i /\ ~ in_git d0 (resolve cwd srcDir) k.
Proof.
  intros Htmp Hsr HT Hu (Hc1 & Hwf & Hp & Hd & He) HA HAT Hn Hdir Hgit (w2 & E2 & E3).
  assert (forall k, stat (k ++ resolve cwd srcDir) (w_disk w1) = stat (k ++ resolve cwd srcDir) d0) as Hs
    by (intros k; by apply (pending_apart A T _ d0)).
  assert (tree_named (resolve cwd srcDir) (w_disk w1)) as Hn1 by (intros k i Hi; rewrite Hs in Hi; by eapply Hn).
  pose proof E2 as Hrun. apply copy_passes in Hrun as (Hc2 & _); rewrite ?Hc1, ?HT; try done.
  apply copyTree_copies in E2 as [_ Hcp]; rewrite ?Hc1, ?HT; try done; [|exact (eq_trans (Hs []) Hdir)].
  destruct (Hcp eq_refl) as [Hk _]. rewrite Hc1, HT in Hk. split.
  - destruct (WriteSource_ok _ _ _ _ _ Hsr E3) as (raw & Hy & Hraw). exists raw. split; [done|].
    by rewrite Hc2, Hc1, HT in Hraw.
  - intros k i Hne Hrec.
    assert (w_disk w3 !! (k ++ T : path) = w_disk w2 !! (k ++ T : path)) as Eq.
    { destruct (WriteSource_outside (w_cwd w2) tmp src srnd (k ++ T) Hsr) with (w := w2) (r := Ok tt) (w' := w3) as (_ & Eq & _);
        [..|done|done|exact Eq]; rewrite Hc2, Hc1, HT; intros [m E]; apply Hrec; [left|right];
        match type of E with context [?x :: T] => change (x :: T) with ([x] ++ T) in E end;
        rewrite app_assoc in E; apply app_inv_tail in E; by exists m. }
    rewrite Eq, (Hk k i Hne), Hs. unfold in_git. by setoid_rewrite Hs.
Qed.

Lemma apart_child (S0 A : path) n : ~ under S0 A -> ~ under A S0 -> apart S0 (n :: A).
Proof.
  intros HS HA. split.
  - intros [[|x k] E]; [|injection E as _ ->; apply HS; by exists k]. apply HA. simpl in E. rewrite <- E. by exists [n].
  - intros Hu. apply HA. eapply under_trans; [|exact Hu]. by exists [n].
Qed.

(** Up to the staging an install only reads. *)
Lemma from_dir_checks (o : addOpts) (apisDir : string) (renames : gmap string string) (n : entropy) (w w' : world)
    (r : result string) :
  runAddFromDir o apisDir renames n w = (r, w') ->
  (exists e, r = Err e /\ same_disk w w') \/
  exists m ref w3, same_disk w w3 /\ manifest_ok m /\ ParseRef (ao_RefOverride o) = Ok ref /\
    stat (resolve (w_cwd w) (ao_FromDir o)) (w_disk w) = Some IDir /\
    stageInstall apisDir (mf_Name m) (".tmp." +:+ ("from-dir." +:+ en_tmp n)) (copyTree (Clean (ao_FromDir o)))
      (mkSource (Ref_String ref) (ref_Version ref) (en_now n) renames) (en_src n) w3 = (r, w').
Proof.
  unfold runAddFromDir. intros Hrun. destruct (decide (ao_RefOverride o = "")); [injection Hrun as <- <-; left; by eexists|].
  apply io_bind_split in Hrun as [(e & E & ->)|([] & w1 & E1 & Hrun)].
  { left. exists e. split; [done|]. eapply reads_bind; [apply Stat_reads| |exact E]. intros []; [apply reads_fail|apply reads_ret]. }
  assert (same_disk w w1 /\ stat (resolve (w_cwd w) (ao_FromDir o)) (w_disk w) = Some IDir) as [Hs1 Hdir].
  { unfold require_dir in E1. apply io_bind_ok in E1 as (i & w1' & Ei & E1). apply Lstat_ok in Ei as [Hs Hi].
    destruct i; [done|]. injection E1 as <-. by rewrite resolve_Clean in Hi. }
  apply io_bind_split in Hrun as [(e & E & ->)|(m & w2 & E2 & Hrun)].
  { left. exists e. split; [done|]. eapply same_disk_trans; [exact Hs1|by eapply LoadManifest_reads]. }
  pose proof (same_disk_trans _ _ _ Hs1 (LoadManifest_reads _ _ _ _ E2)) as Hs2. apply LoadManifest_ok in E2 as (_ & Hm & _).
  apply io_bind_split in Hrun as [(e & [= _ <-] & ->)|(ref & w3 & [= Href <-] & Hrun)]; [left; by eexists|].
  apply io_bind_split in Hrun as [(e & [= _ <-] & ->)|([] & w3 & [= Hver <-] & Hrun)]; [left; by eexists|].
  apply io_bind_split in Hrun as [(e & E & ->)|([] & w3 & E3 & Hrun)].
  { left. exists e. split; [done|]. eapply same_disk_trans; [exact Hs2|by eapply enforceAllowlist_reads]. }
  right. exists m, ref, w3. split; [eapply same_disk_trans; [exact Hs2|by eapply enforceAllowlist_reads]|]. done.
Qed.

(** C23. Installing from a working tree is all or nothing.  Every state an install
    passes through before its last call differs from the first only inside one
    fresh hidden directory and by missing directories on the way to the
    bundles, and so does the final state when it fails, at whatever call.  When
    it succeeds, the bundle is the working tree without its .git directories,
    with a record of the given ref, and nothing else changed. *)
Theorem from_dir_all_or_nothing (o : addOpts) (apisDir : string) (renames : gmap string string) (n : entropy)
    (w w' : world) (r : result string)
    (Hrnd : slashless (en_tmp n)) (Hsrnd : slashless (en_src n)) (Hwf : disk_wf (w_disk w))
    (Hap : apart (resolve (w_cwd w) (ao_FromDir o)) (resolve (w_cwd w) apisDir))
    (Hn : tree_named (resolve (w_cwd w) (ao_FromDir o)) (w_disk w)) (Hgit : Base (ao_FromDir o) <> ".git")
    (Hrun : runAddFromDir o apisDir renames n w = (r, w')) :
  let A := resolve (w_cwd w) apisDir in
  let T := (".tmp.from-dir." +:+ en_tmp n) :: A in
  let S0 := resolve (w_cwd w) (ao_FromDir o) in
  match r with
  | Err _ => passed (pending A T (w_disk w)) w w'
  | Ok dir => exists m ref raw w3, manifest_ok m /\ ParseRef (ao_RefOverride o) = Ok ref /\
      passed (pending A T (w_disk w)) w w3 /\ w_past w' = w_disk w3 :: w_past w3 /\ dir = BundleDir apisDir (mf_Name m) /\
      yaml_marshal_source (mkSource (Ref_String ref) (ref_Version ref) (en_now n) renames) = Ok raw /\
      let F := resolve (w_cwd w) dir in
      w_disk w' !! (SourceFile :: F : path) = Some (IFile raw) /\
      (forall k i, k <> [] -> ~ of_record (en_src n) k ->
        w_disk w' !! (k ++ F : path) = Some i <-> stat (k ++ S0) (w_disk w) = Some i /\ ~ in_git (w_disk w) S0 k) /\
      (forall p, ~ under F p -> ~ under T p -> w_disk w' !! p = w_disk w3 !! p)
  end.
Proof.
  intros A T S0. assert (forall w1, same_disk w w1 -> passed (pending A T (w_disk w)) w w1) as Hself
    by (intros; apply passed_refl; [apply pending_refl|done]).
  apply from_dir_checks in Hrun as [(e & -> & Hs)|(m & ref & w3 & Hs3 & Hm & Href & Hdir & Hrun)]; [by apply Hself|].
  set (srcDir := Clean (ao_FromDir o)) in *. assert (resolve (w_cwd w) srcDir = S0) as HS0 by apply resolve_Clean.
  destruct Hap as [HA1 HA2]. pose proof (apart_child S0 A (".tmp.from-dir." +:+ en_tmp n) HA1 HA2) as HAT. fold T in HAT.
  destruct (plain_prefixed ".tmp." ("from-dir." +:+ en_tmp n)) as [Hpl Hsl]; [done|done|exact Hrnd|simpl; lia|].
  destruct (Join_child (w_cwd w) apisDir (".tmp." +:+ ("from-dir." +:+ en_tmp n)) Hpl Hsl) as [HT _].
  assert (Join apisDir (".tmp." +:+ ("from-dir." +:+ en_tmp n)) <> "") as Hne.
  { rewrite Join_child_clean by done. apply Clean_nonempty. }
  assert (Base srcDir <> ".git") as Hgit' by (unfold Base, srcDir; by rewrite clean_stack_Clean).
  assert (under A T) as HAu by apply under_cons, under_refl.
  assert (forall w4, passed (pending A T (w_disk w)) w3 w4 -> passed (pending A T (w_disk w)) w w4) as Hback
    by (intros w4; apply passed_trans; by apply Hself).
  destruct Hs3 as (Ed & Ec & Ep). assert (disk_wf (w_disk w3)) as Hwf3 by (by rewrite Ed).
  apply stageInstall_states in Hrun; [|exact Hrnd|done|done|].
  - rewrite Ec, Ed in Hrun. fold A in Hrun. destruct r as [dir|e]; [|by apply Hback].
    destruct Hrun as (w4 & w5 & Hready & Hstaged & P5 & Hpast & -> & Hren).
    eapply staged_copy in Hstaged as [(raw & Hy & Hraw) Hk];
      [|exact Hne|exact Hsrnd|exact HT|exact HAu|exact Hready|rewrite ?HS0; done..].
    exists m, ref, raw, w5. apply rename_ok in Hren as (_ & _ & Hmv & Hout & _).
    split; [done|]. split; [done|]. split; [by apply Hback|]. split; [done|]. split; [done|]. split; [done|]. cbn zeta.
    split; [exact (eq_trans (Hmv [SourceFile]) Hraw)|]. split; [|exact Hout]. intros k i Hk0 Hrec.
    rewrite (Hmv k : w_disk w' !! (k ++ _ : path) = _). rewrite <- HS0. by apply Hk.
  - rewrite Ec, Ed. fold A. intros w4 r4 w5 (Hc4 & _ & Hp4 & _) E4. fold A in HT. rewrite <- HT, <- Hc4.
    apply (copy_passes srcDir _ w4 r4); [done| | |exact E4].
    + by rewrite Hc4, HS0, HT.
    + intros k i. rewrite Hc4, HS0, (pending_apart A T S0 _ _ HAu (conj HA1 HA2) Hp4). apply Hn.
Qed.
End from_dir.

(** ** A concrete install *)

Definition demo_from_dir : result string * world :=
  @runAddFromDir demo_yaml comma_allowlist
    (mkAddOpts (mkDirs "" "") [] "" "/w" "github.com/acme/apis@main" false) "/srv/apis" ∅ demo_entropy work_tree.

Lemma from_dir_all_or_nothing_witness :
  demo_from_dir.1 = Ok "/srv/apis/acme" /\
  w_disk demo_from_dir.2 !! ["a.yaml"; "apis"; "acme"; "apis"; "srv"] = Some (IFile "a").
Proof.
  assert (demo_from_dir.1 = Ok "/srv/apis/acme") as H1 by (vm_compute; reflexivity). split; [exact H1|].
  destruct demo_from_dir as [r w'] eqn:E. cbn [fst] in H1. rewrite H1 in E. unfold demo_from_dir in E. cbn [snd].
  destruct (@from_dir_all_or_nothing demo_yaml comma_allowlist
    (mkAddOpts (mkDirs "" "") [] "" "/w" "github.com/acme/apis@main" false) "/srv/apis" ∅ demo_entropy work_tree w'
    (Ok "/srv/apis/acme") eq_refl eq_refl) as (m & ref & raw & w3 & _ & _ & _ & _ & _ & _ & _ & Hk & _).
  - apply (bool_decide_unpack _). vm_compute. exact I.
  - split; intros Hu; apply below_under in Hu; vm_compute in Hu; discriminate.
  - apply names_ok_tree, (bool_decide_unpack _). vm_compute. exact I.
  - vm_compute. discriminate.
  - exact E.
  - apply (Hk ["a.yaml"; "apis"] (IFile "a")).
    + discriminate.
    + intros [[[|x [|y [|z k]]] Ek]|[[|x [|y [|z k]]] Ek]]; discriminate.
    + split; [vm_compute; reflexivity|]. intros (x & _ & [k Ek] & _ & Hh). clear -Ek Hh.
      destruct x as [|y x]; [discriminate|]. injection Hh as ->. destruct k as [|? [|? [|? k]]]; discriminate.
Defined.
