(* ===== verification/Verify.v ===== *)
(** * Verifying bundles: internal/cli/apiscmd verify.go and
    internal/runtime/models loader.go

    [apis verify] promises that a verify-clean bundle is one a proxy accepts.
    The theorem: on a disk that does not fail, such a bundle with a readable
    install record without renames loads, its names are distinct, and it
    compiles.  The example shows a record with renames for which it does not. *)

From S2P Require Import Prelude GoStd GoTime Models Interfaces PathTemplate Routes Messages Compiled Evaluator EvaluatorFacts PolicyStore ApiRuntime Runtime Url Paths Disk Bundles BundleFetch BundleLoad BundleUpgrade PackFacts Boot ApiClient Query DataDir Walk Pack ApisCmd ApisGuards.

(** ** [loader.go] *)

Section loader.
Context `{BundleYaml}.

Definition decodeMulti (p : string) : io (list API) := do raw <- ReadFile p; io_lift (yaml_apis raw).

Definition FromYAMLFile (p : string) : io (list API) := decodeMulti p.

Definition FromYAMLDir (dir : string) : io (list API) :=
  do es <- ReadDir dir;
  io_each (fun e => if e.2 || negb (isYAMLFile e.1) then io_ret [] else decodeMulti (Join dir e.1)) es.
End loader.

(** ** [verify.go] *)

Section verify.
Context `{CelEngine} `{BundleYaml}.
Variable url_Parse_ok : string -> bool.

Fixpoint add_apis (apis : list API) (b : Builder) : result Builder :=
  match apis with
  | [] => Ok b
  | a :: apis => match AddAPI a b with (Err e, _) => Err (EWrap "compile" e) | (Ok _, b) => add_apis apis b end
  end.

Definition buildRuntime (apis : list API) : result unit :=
  b ← add_apis apis NewBuilder; _ ← wrap_err "build runtime" (Build url_Parse_ok b).1; Ok tt.

Definition entry_apis (dir rel : string) : io (list API) :=
  do paths <- ResolveManifestEntry dir rel; io_each FromYAMLFile paths.

Definition verifyBundle (dir : string) : io unit :=
  do mf <- LoadManifest (Join dir ManifestFile);
  do apis <- io_each (entry_apis dir) (mf_APIs mf);
  if decide (apis = []) then io_fail (EMsg "resolves to no API specs") else io_lift (buildRuntime apis).

Definition verifyApisDir (dir : string) : io unit :=
  do apis <- FromYAMLDir dir;
  if decide (apis = []) then io_fail (EMsg "contains no api YAML files") else io_lift (buildRuntime apis).

Definition runVerifyImpl (args : list string) : io unit :=
  do arg <- one_argument args;
  let dir := Clean arg in
  do! require_dir dir;
  do st <- io_try (Stat (Join dir ManifestFile));
  if is_ok st then verifyBundle dir else verifyApisDir dir.
End verify.

(** ** Reading a disk that does not fail *)

Definition unchanged {A} (m : io A) : Prop := forall w, w_faults w = [] -> (m w).2 = w.

Lemma unchanged_run {A} (m : io A) w r w' : unchanged m -> w_faults w = [] -> m w = (r, w') -> w' = w.
Proof. intros Hm Hq E. specialize (Hm w Hq). by rewrite E in Hm. Qed.

Lemma unchanged_lift {A} (r : result A) : unchanged (io_lift r).
Proof. done. Qed.

Lemma unchanged_bind {A B} (m : io A) (f : A -> io B) : unchanged m -> (forall a, unchanged (f a)) -> unchanged (io_bind m f).
Proof.
  intros Hm Hf w Hq. unfold io_bind. specialize (Hm w Hq). destruct (m w) as [[a|e] w1]; simpl in Hm; subst; [|done]. by apply Hf.
Qed.

Lemma unchanged_try {A} (m : io A) : unchanged m -> unchanged (io_try m).
Proof. intros Hm w Hq. specialize (Hm w Hq). unfold io_try. by destruct (m w). Qed.

Lemma unchanged_each {A B} (f : A -> io (list B)) l : (forall x, unchanged (f x)) -> unchanged (io_each f l).
Proof.
  intros Hf. induction l as [|x l IH]; cbn [io_each]; [apply unchanged_lift|].
  apply unchanged_bind; [done|]. intros ys. apply unchanged_bind; [done|]. intros zs. apply unchanged_lift.
Qed.

Lemma unchanged_read {A} (f : path -> disk -> result A) p : unchanged (at_path p (fun q => sys_read (f q))).
Proof. intros w Hq. unfold at_path. by rewrite (quiet_read _ _ Hq). Qed.

Lemma unchanged_ReadFile p : unchanged (ReadFile p).
Proof. apply (unchanged_read (fun q d => _)). Qed.

Lemma unchanged_ReadDir p : unchanged (ReadDir p).
Proof. apply (unchanged_read (fun q d => _)). Qed.

Lemma unchanged_Stat p : unchanged (Stat p).
Proof. apply (unchanged_read (fun q d => _)). Qed.

Create HintDb quiet.
#[export] Hint Resolve unchanged_lift unchanged_ReadFile unchanged_ReadDir unchanged_Stat : quiet.
#[export] Hint Extern 1 (unchanged (io_ret _)) => apply unchanged_lift : quiet.
#[export] Hint Extern 1 (unchanged (io_fail _)) => apply unchanged_lift : quiet.

Ltac staying := repeat first
  [ solve [auto 2 with quiet] | apply unchanged_each; intros ? | apply unchanged_try | apply unchanged_bind; [|intros ?]
  | case_match | case_decide ].

Section verify_quiet.
Context `{BundleYaml}.

Lemma unchanged_LoadManifest p : unchanged (LoadManifest p).
Proof. unfold LoadManifest. staying. Qed.

Lemma unchanged_ResolveManifestEntry root rel : unchanged (ResolveManifestEntry root rel).
Proof. unfold ResolveManifestEntry. cbn zeta. staying. Qed.

Lemma unchanged_decodeMulti p : unchanged (decodeMulti p).
Proof. unfold decodeMulti. staying. Qed.

#[local] Hint Resolve unchanged_LoadManifest unchanged_ResolveManifestEntry unchanged_decodeMulti : quiet.

Lemma unchanged_entry_apis dir rel : unchanged (entry_apis dir rel).
Proof. unfold entry_apis, FromYAMLFile. staying. Qed.

Lemma LoadManifest_at p q w : resolve (w_cwd w) p = resolve (w_cwd w) q -> LoadManifest p w = LoadManifest q w.
Proof. intros E. unfold LoadManifest, ReadFile, at_path, io_bind. by rewrite E. Qed.

(** Two passes over a list that agree on every element agree. *)
Lemma io_each_map {A B C} (f : A -> io (list B)) (g : A -> io (list C)) (h : C -> B) (l : list A) ys w :
  w_faults w = [] -> (forall x, unchanged (f x)) ->
  (forall x ys, f x w = (Ok ys, w) -> exists zs, g x w = (Ok zs, w) /\ map h zs = ys) ->
  io_each f l w = (Ok ys, w) -> exists zs, io_each g l w = (Ok zs, w) /\ map h zs = ys.
Proof.
  intros Hq Hf Hfg. revert ys. induction l as [|x l IH]; intros ys; cbn [io_each]; [intros [= <-]; by exists []|].
  intros (y1 & w1 & E1 & (y2 & w2 & E2 & [= <- ->])%io_bind_ok)%io_bind_ok.
  pose proof (unchanged_run _ _ _ _ (Hf x) Hq E1) as ->.
  destruct (Hfg _ _ E1) as (z1 & G1 & <-). destruct (IH _ E2) as (z2 & G2 & <-). exists (z1 ++ z2).
  unfold io_bind. rewrite G1, G2. split; [done|]. apply map_app.
Qed.

(** A file, then an entry, loads with the specifications that were verified. *)
Lemma file_loads dir readme m src full apis w :
  src_APIRenames src = ∅ -> FromYAMLFile full w = (Ok apis, w) ->
  exists loaded, load_file dir readme m src full w = (Ok loaded, w) /\ map la_Spec loaded = apis.
Proof.
  intros Hr E. unfold load_file, io_bind. unfold FromYAMLFile in E. change (decodeAPIDocs full w) with (decodeMulti full w).
  rewrite E. eexists. split; [done|]. rewrite map_map. etrans; [|apply map_id]. apply map_ext. intros a. cbn [la_Spec].
  unfold rename_api. by rewrite Hr, lookup_empty.
Qed.

Lemma entry_loads dir root readme m src rel apis w :
  w_faults w = [] -> src_APIRenames src = ∅ -> entry_apis root rel w = (Ok apis, w) ->
  exists loaded, (do paths <- ResolveManifestEntry root rel; io_each (load_file dir readme m src) paths) w = (Ok loaded, w) /\
    map la_Spec loaded = apis.
Proof.
  intros Hq Hr (paths & w1 & E1 & E2)%io_bind_ok. pose proof (unchanged_run _ _ _ _ (unchanged_ResolveManifestEntry _ _) Hq E1) as ->.
  unfold io_bind. rewrite E1. eapply io_each_map; [done| |intros x ys; by apply file_loads|exact E2].
  intros x. apply unchanged_decodeMulti.
Qed.
End verify_quiet.

(** ** Registering *)

Lemma register_all_specs loaded b b' :
  add_apis (map la_Spec loaded) b = Ok b' -> register_all loaded b = Ok b'.
Proof.
  revert b. induction loaded as [|l loaded IH]; intros b; cbn [map add_apis register_all]; [done|].
  destruct (AddAPI (la_Spec l) b) as [[[]|e] b1]; [apply IH|done].
Qed.

Lemma register_all_unique loaded b b' seen :
  register_all loaded b = Ok b' -> (forall n, n ∈ seen -> is_Some (b_pending b !! n)) -> assertUniqueNames seen loaded = Ok tt.
Proof.
  revert b seen. induction loaded as [|l loaded IH]; intros b seen; cbn [register_all assertUniqueNames]; [done|].
  destruct (AddAPI_cases (la_Spec l) b) as [[Ha ->]|[_ [e ->]]]; [|done]. intros Hr Hs.
  apply fail_if_ok. split.
  - apply bool_decide_eq_false. intros [p Hp]%Hs. pose proof (acc_new _ _ Ha). congruence.
  - eapply IH; [done|]. intros n [->|Hn]%elem_of_cons; simpl; [rewrite lookup_insert_eq; by eexists|].
    destruct (decide (api_Name (la_Spec l) = n)) as [->|]; [rewrite lookup_insert_eq; by eexists|rewrite lookup_insert_ne by done; auto].
Qed.

Section verified.
Context `{CelEngine} `{BundleYaml}.
Variable url_Parse_ok : string -> bool.

Lemma buildRuntime_compiles loaded :
  buildRuntime url_Parse_ok (map la_Spec loaded) = Ok tt ->
  assertUniqueNames [] loaded = Ok tt /\ exists rt, compile_loaded url_Parse_ok loaded = Ok rt.
Proof.
  unfold buildRuntime, compile_loaded. intros (b & Eb & (rt & Er & _)%bind_ok)%bind_ok. apply register_all_specs in Eb. split.
  - eapply register_all_unique; [done|]. intros n Hn. by apply not_elem_of_nil in Hn.
  - exists rt. rewrite Eb. cbn [mbind result_bind]. unfold wrap_err in *. by destruct (Build _ _).1.
Qed.

(** C25. A verify-clean bundle is one a proxy accepts: on a disk that does not fail,
    a bundle that verifies and whose install record is readable and renames
    nothing loads, with at least one API and distinct names, and compiles; an
    APIs directory that holds nothing else loads as that. *)
Theorem verified_bundle_boots (dir : string) (src : SourceRecord) (w w' : world)
    (Hq : w_faults w = []) (Hne : dir <> "")
    (Hman : is_Some (stat (ManifestFile :: resolve (w_cwd w) dir) (w_disk w)))
    (Hsrc : LoadSource (Join dir SourceFile) w = (Ok src, w)) (Hren : src_APIRenames src = ∅)
    (Hok : runVerifyImpl url_Parse_ok [dir] w = (Ok tt, w')) :
  exists loaded rt, loadOneBundle dir w = (Ok loaded, w) /\ loaded <> [] /\
    assertUniqueNames [] loaded = Ok tt /\ compile_loaded url_Parse_ok loaded = Ok rt /\
    forall apisDir es, apisDir <> "" -> readDirOrEmpty apisDir w = (Ok es, w) -> scan_dir apisDir es w = (Ok ([], [dir]), w) ->
      LoadAll apisDir w = (Ok loaded, w).
Proof.
  unfold runVerifyImpl in Hok. apply io_bind_ok in Hok as (a & w1 & [= <- <-] & Hok). cbn zeta in Hok.
  destruct (Join_child (w_cwd w) (Clean dir) ManifestFile) as [Ej _]; [done|done|]. rewrite resolve_Clean in Ej.
  apply io_bind_ok in Hok as ([] & w1 & E1 & Hok). apply unchanged_run in E1 as ->; [|unfold require_dir; staying|done].
  apply io_bind_ok in Hok as (st & w1 & E1 & Hok). destruct Hman as [i Hi].
  unfold io_try in E1. rewrite (quiet_Stat _ w i) in E1; [|done|by rewrite Ej]. injection E1 as <- <-. cbn [is_ok] in Hok.
  unfold verifyBundle in Hok. apply io_bind_ok in Hok as (m & w1 & Em & Hok).
  apply unchanged_run in Em as Ew; [|apply unchanged_LoadManifest|done]. subst w1.
  apply io_bind_ok in Hok as (apis & w1 & Ea & Hok).
  apply unchanged_run in Ea as Ew; [|apply unchanged_each, unchanged_entry_apis|done]. subst w1.
  case_decide as Hna; [done|]. injection Hok as Hb Hw. clear Hw.
  rewrite (LoadManifest_at _ (Join dir ManifestFile)) in Em.
  2: { rewrite Ej. symmetry. apply Join_child; done. }
  set (readme := match (ReadFile (Join (Clean dir) ReadmeFile) w).1 with Ok b => b | Err _ => "" end).
  destruct (io_each_map (entry_apis (Clean dir))
    (fun rel => do paths <- ResolveManifestEntry (Clean dir) rel; io_each (load_file dir readme m src) paths) la_Spec
    (mf_APIs m) apis w Hq (unchanged_entry_apis _)) as (loaded & El & Es); [|exact Ea|].
  { intros x ys. by apply entry_loads. }
  subst apis. destruct (buildRuntime_compiles _ Hb) as [Hu [rt Hrt]].
  assert (loadOneBundle dir w = (Ok loaded, w)) as Hload.
  { unfold loadOneBundle. unfold io_bind at 1. rewrite Em. unfold io_bind at 1. rewrite Hsrc. cbn zeta.
    unfold io_bind at 1. rewrite (surjective_pairing (io_try _ w)), unchanged_try by (done || staying).
    unfold io_try. destruct (ReadFile _ w) as [rr w1] eqn:Er. exact El. }
  exists loaded, rt. split; [done|]. split; [by intros ->|]. split; [done|]. split; [done|].
  intros apisDir es Had Hes Hscan. unfold LoadAll. rewrite decide_False by done. unfold io_bind at 1. rewrite Hes.
  unfold io_bind at 1. rewrite Hscan. cbn [fst snd io_each]. unfold io_bind. cbn. rewrite Hload. cbn.
  rewrite app_nil_r. by rewrite Hu.
Qed.
End verified.

(** ** A bundle of two APIs *)

Definition two_apis : world := mkWorld
  {[ ["b"] := IDir; ["bouncer.yaml"; "b"] := IFile "manifest"; ["source.yaml"; "b"] := IFile "github.com/acme/apis";
     ["apis"; "b"] := IDir; ["a.yaml"; "apis"; "b"] := IFile "a"; ["c.yaml"; "apis"; "b"] := IFile "c" ]} [] [] [].

(** The record as an install with --rename a=c writes it. *)
Definition renaming_yaml : BundleYaml := {|
  yaml_manifest := @yaml_manifest demo_yaml; yaml_apis := @yaml_apis demo_yaml; yaml_marshal_source := @yaml_marshal_source demo_yaml;
  yaml_source raw := Ok (mkSource raw "sha" 0 {[ "a" := "c" ]})
|}.

Lemma verified_bundle_boots_witness : exists loaded,
  @loadOneBundle demo_yaml "/b" two_apis = (Ok loaded, two_apis) /\ map (fun a => api_Name (la_Spec a)) loaded = ["a"; "c"] /\
  @LoadAll demo_yaml "/" two_apis = (Ok loaded, two_apis).
Proof.
  destruct (@verified_bundle_boots demo_cel demo_yaml (fun _ => true) "/b" (mkSource "github.com/acme/apis" "sha" 0 ∅)
    two_apis (@runVerifyImpl demo_cel demo_yaml (fun _ => true) ["/b"] two_apis).2)
    as (loaded & rt & Hl & _ & _ & _ & Hall).
  - reflexivity.
  - discriminate.
  - vm_compute. by eexists.
  - vm_compute. reflexivity.
  - reflexivity.
  - vm_compute. reflexivity.
  - exists loaded. split; [exact Hl|]. split.
    + assert ((fun l => map (fun a => api_Name (la_Spec a)) l) <$> (@loadOneBundle demo_yaml "/b" two_apis).1 = Ok ["a"; "c"]) as E
        by (vm_compute; reflexivity).
      rewrite Hl in E. injection E as E. exact E.
    + eapply Hall; [discriminate|vm_compute; reflexivity|vm_compute; reflexivity].
Defined.

(** A rename onto a name of the same bundle verifies, installs, and keeps the
    proxy from starting. *)
Example verified_but_renamed :
  (@runVerifyImpl demo_cel renaming_yaml (fun _ => true) ["/b"] two_apis).1 = Ok tt /\
  (@LoadAll renaming_yaml "/" two_apis).1 = Err (EMsg "declared twice").
Proof. vm_compute. done. Qed.

(** The directory of the bundles, with no loose file in it, does not verify. *)
Example bundles_only_not_verified :
  (@runVerifyImpl demo_cel demo_yaml (fun _ => true) ["/"] two_apis).1 = Err (EMsg "contains no api YAML files").
Proof. vm_compute. done. Qed.
