(* ===== verification/IssueToken.v ===== *)
(** * Issuing tokens from the command line: internal/cli/issuetokencmd

    [bouncer issue-token] prints an access token, or writes a credentials file
    that holds a refresh token for the proxy.  What viper reads from flags and
    environment is an argument ([config]), as are the clock, the nonces, url.Parse
    and the JSON of the two files.  The theorem: what a run issues, the proxy of
    the same secret accepts exactly within its lifetime, for the subject, the
    credentials and the headers the operator gave. *)

From S2P Require Import Prelude GoStd Url Paths Disk Z85 Ids Bundles BundleFetch BundleLoad BundleUpgrade DataDir Walk Pack PackFacts Auth OAuth.

(** [url.Parse] *)
Class OriginParser := url_Parse : string -> result Url.URL.

Record issue_config := mkIssueConfig {
  ic_Subject : string;
  ic_SecretHex : string;
  ic_AccessToken : string;
  ic_TTL : Z;
  ic_Headers : list string;
  ic_OutPath : string;
  ic_CredentialsFile : string;
  ic_ProxyURL : string;
  ic_TokenURL : string;
  ic_RefreshTTL : Z;
  ic_Admin : bool
}.

Inductive issue_mode : Type := modeAccess | modeCredentials.

Definition mode (c : issue_config) : issue_mode := if decide (ic_OutPath c <> "") then modeCredentials else modeAccess.

Definition with_SecretHex (h : string) (c : issue_config) : issue_config :=
  mkIssueConfig (ic_Subject c) h (ic_AccessToken c) (ic_TTL c) (ic_Headers c) (ic_OutPath c) (ic_CredentialsFile c)
    (ic_ProxyURL c) (ic_TokenURL c) (ic_RefreshTTL c) (ic_Admin c).

Definition with_ProxyURL (u : string) (c : issue_config) : issue_config :=
  mkIssueConfig (ic_Subject c) (ic_SecretHex c) (ic_AccessToken c) (ic_TTL c) (ic_Headers c) (ic_OutPath c)
    (ic_CredentialsFile c) u (ic_TokenURL c) (ic_RefreshTTL c) (ic_Admin c).

(** [changed] is whether --secret-hex was given, [dataDir] and [env] are the flag
    and the variable of the data directory. *)
Definition defaultSecretFromDataDir (changed : bool) (dataDir env : string) (c : issue_config) : io issue_config :=
  if negb (bool_decide (ic_SecretHex c = "")) || changed then io_ret c
  else
    do dir <- Resolve dataDir env;
    if decide (dir = "") then io_ret c
    else
      do r <- io_try (ReadSecret dir);
      match r with
      | Ok hex => io_ret (with_SecretHex hex c)
      | Err e => if errors_is e "ErrNotExist" then io_ret c else io_fail (EWrap "read secret.hex" e)
      end.

(** [strings.Trim(path, "/")] is not empty. *)
Definition has_path (p : string) : bool := negb (all_bytes (fun a => bool_decide (a = "/"%char)) p).

(** The scheme and the host of an absolute URL that has no more. *)
Definition normalizeOrigin `{OriginParser} (raw : string) : result string :=
  u ← wrap_err "not a URL" (url_Parse raw);
  fail_if negb (bool_decide (url_Scheme u = "http")) && negb (bool_decide (url_Scheme u = "https"))
    with EMsg "must be an absolute http(s) URL" ;;
  fail_if bool_decide (url_Host u = "") with EMsg "missing host" ;;
  fail_if has_path (url_Path u) with EMsg "must be the proxy origin (no path)" ;;
  fail_if negb (bool_decide (url_RawQuery u = "")) || negb (bool_decide (url_Fragment u = ""))
    with EMsg "must be the proxy origin (no query/fragment)" ;;
  Ok (url_Scheme u +:+ "://" +:+ url_Host u).

Definition issue_validate `{OriginParser} (c : issue_config) : result issue_config :=
  fail_if bool_decide (ic_SecretHex c = "") with EMsg "must set --secret-hex" ;;
  fail_if bool_decide (ic_Subject c = "") with EMsg "--subject is required" ;;
  match mode c with
  | modeAccess =>
      fail_if bool_decide (ic_AccessToken c = "") && bool_decide (ic_Headers c = [])
        with EMsg "at least one of --access-token or --header is required" ;;
      fail_if bool_decide (ic_TTL c <= 0)%Z with EMsg "--ttl must be positive" ;;
      Ok c
  | modeCredentials =>
      fail_if bool_decide (ic_CredentialsFile c = "") with EMsg "--credentials-file is required" ;;
      fail_if bool_decide (ic_ProxyURL c = "") with EMsg "--proxy-url is required" ;;
      normalized ← wrap_err "--proxy-url" (normalizeOrigin (ic_ProxyURL c));
      let c := with_ProxyURL normalized c in
      fail_if bool_decide (ic_TokenURL c = "") with EMsg "--token-url is required" ;;
      Ok c
  end.

Definition configFromFlags `{OriginParser} (loaded : result issue_config) (changed : bool) (dataDir env : string) : io issue_config :=
  do c <- io_lift loaded;
  do c <- defaultSecretFromDataDir changed dataDir env c;
  io_lift (issue_validate c).

(** ** The two modes *)

Record credentialsFile := mkCredentialsFile { cr_ClientID : string; cr_ClientSecret : string; cr_RefreshToken : string }.

Record credentialsDoc := mkCredentialsDoc {
  cd_Type : string; cd_ClientID : string; cd_ClientSecret : string; cd_RefreshToken : string; cd_TokenURI : string
}.

(** The decoder of the one and the encoder of the other. *)
Class CredentialsJson := {
  credentials_unmarshal : string -> result credentialsFile;
  credentials_marshal : credentialsDoc -> result string
}.

Definition credentialsType : string := "authorized_user".

Definition header_of_pair (s : string) : result Header :=
  match cut_byte "=" s with
  | None => Err (EMsg "expected Name=Value")
  | Some (k, v) =>
      let k := trim_space k in
      let v := trim_space v in
      fail_if bool_decide (k = "") || bool_decide (v = "") with EMsg "name and value are required" ;;
      Ok (mkHeader k v)
  end.

Fixpoint parseHeaderPairs (raw : list string) : result (list Header) :=
  match raw with
  | [] => Ok []
  | s :: raw => h ← header_of_pair s; hs ← parseHeaderPairs raw; Ok (h :: hs)
  end.

(** The fields that are missing. *)
Definition missing_fields (d : credentialsFile) : list string :=
  (if decide (cr_ClientID d = "") then ["client_id"] else []) ++
  (if decide (cr_ClientSecret d = "") then ["client_secret"] else []) ++
  (if decide (cr_RefreshToken d = "") then ["refresh_token"] else []).

Definition writeOutput (p raw : string) : io unit := do abs <- Abs p; WriteFile abs (raw +:+ newline).

Section issue.
Context `{Crypto} `{OriginParser} `{CredentialsJson}.

(** A duration is nanoseconds; [now] is read by [Issue], [now'] by the signing. *)
Definition runAccessMode (c : issue_config) (keys : ServerKeys) (nonce : string) (now now' : Z) : result string :=
  headers ← wrap_err "--header" (parseHeaderPairs (ic_Headers c));
  res ← wrap_err "issue" (Issue keys
    (mkSpec (ic_Subject c) (ic_AccessToken c) headers (Z.quot (ic_TTL c) second) (ic_Admin c)) nonce now now');
  Ok (is_Token res).

Definition loadCredentialsFile (p : string) : io credentialsFile :=
  do raw <- ReadFile p;
  do doc <- io_lift (wrap_err "parse" (credentials_unmarshal raw));
  if decide (missing_fields doc = []) then io_ret doc else io_fail (EMsg ("missing " +:+ join ", " (missing_fields doc))).

Definition runCredentialsMode (c : issue_config) (keys : ServerKeys) (nonce : string) (now : Z) : io unit :=
  do creds <- loadCredentialsFile (ic_CredentialsFile c);
  do headers <- io_lift (wrap_err "--header" (parseHeaderPairs (ic_Headers c)));
  let refreshJWT := IssueRefreshToken keys (ic_Subject c)
    (mkRefreshCreds (cr_RefreshToken creds) (ic_TokenURL c) headers) (ic_RefreshTTL c) (ic_Admin c) nonce now in
  let doc := mkCredentialsDoc credentialsType (cr_ClientID creds) (cr_ClientSecret creds) refreshJWT
    (ic_ProxyURL c +:+ "/token") in
  do raw <- io_lift (wrap_err "marshal" (credentials_marshal doc));
  writeOutput (ic_OutPath c) raw.

Definition issue_secret (c : issue_config) : result (list Z) := SecretFromHex (ic_SecretHex c).

(** What is printed on the standard output, if anything. *)
Definition runIssueToken (c : issue_config) (nonce : string) (now now' : Z) : io (option string) :=
  do secret <- io_lift (wrap_err "secret" (issue_secret c));
  let keys := FromSecret (string_of_bytes secret) in
  match mode c with
  | modeAccess => do tok <- io_lift (runAccessMode c keys nonce now now'); io_ret (Some tok)
  | modeCredentials => do! runCredentialsMode c keys nonce now'; io_ret None
  end.

(** [Command]: the configuration, then the run. *)
Definition issue_token (loaded : result issue_config) (changed : bool) (dataDir env nonce : string) (now now' : Z)
    : io (option string) :=
  do c <- configFromFlags loaded changed dataDir env; runIssueToken c nonce now now'.
End issue.

(** ** What is issued *)

(** The secret a run uses: the one that was given, else the data directory's. *)
Definition effective_secret (dataDir env : string) (c : issue_config) (w : world) (secret : list Z) : Prop :=
  SecretFromHex (ic_SecretHex c) = Ok secret \/
  ic_SecretHex c = "" /\ exists dir w1 raw, Resolve dataDir env w = (Ok dir, w1) /\
    stat (SecretFile :: resolve (w_cwd w) dir) (w_disk w) = Some (IFile raw) /\
    SecretFromHex (trim_space raw) = Ok secret.

(** The data directory only changes the secret, and only a missing one. *)
Lemma defaultSecret_ok changed dataDir env c w c1 w1 :
  defaultSecretFromDataDir changed dataDir env c w = (Ok c1, w1) ->
  same_disk w w1 /\ exists h, c1 = with_SecretHex h c /\
    (h = ic_SecretHex c \/ ic_SecretHex c = "" /\ exists dir w2 raw,
      Resolve dataDir env w = (Ok dir, w2) /\ stat (SecretFile :: resolve (w_cwd w) dir) (w_disk w) = Some (IFile raw) /\ h = trim_space raw).
Proof.
  assert (exists h, c = with_SecretHex h c /\ (h = ic_SecretHex c \/ ic_SecretHex c = "" /\ exists dir w2 raw,
      Resolve dataDir env w = (Ok dir, w2) /\ stat (SecretFile :: resolve (w_cwd w) dir) (w_disk w) = Some (IFile raw) /\ h = trim_space raw)) as Hsame
    by (exists (ic_SecretHex c); split; [by destruct c|by left]).
  unfold defaultSecretFromDataDir. destruct (negb _ || changed) eqn:Eg; [by intros [= <- <-]|].
  apply orb_false_iff in Eg as [Hs _]. apply negb_false_iff, bool_decide_eq_true in Hs.
  intros (dir & w2 & E2 & Hrun)%io_bind_ok.
  pose proof (Resolve_reads _ _ _ _ _ E2) as Hd2.
  case_decide; [by injection Hrun as <- <-|].
  apply io_bind_ok in Hrun as (r & w3 & E3 & Hrun). apply io_try_ok in E3 as (x & [= ->] & E3).
  pose proof (same_disk_trans _ _ _ Hd2 (ReadSecret_reads _ _ _ _ E3)) as Hd3.
  destruct x as [hex|e].
  - injection Hrun as <- <-. split; [done|]. exists hex. split; [done|]. right. split; [done|].
    unfold ReadSecret, readTrimmed in E3. apply io_bind_ok in E3 as (raw & w4 & E4 & [= <- <-]). exists dir, w2, raw.
    split; [done|]. split; [|done]. destruct Hd2 as (Ed & Ec & _). apply ReadFile_is in E4. rewrite Ed, Ec in E4.
    unfold Secret in E4. by rewrite resolve_child in E4.
  - destruct (errors_is _ _); [|done]. by injection Hrun as <- <-.
Qed.

Section issued.
Context `{CryptoLaws} `{OriginParser} `{CredentialsJson}.

Lemma issue_validate_ok c c' : issue_validate c = Ok c' ->
  ic_SecretHex c <> "" /\ ic_Subject c <> "" /\
  match mode c with
  | modeAccess => c' = c /\ (0 < ic_TTL c)%Z
  | modeCredentials => exists origin, normalizeOrigin (ic_ProxyURL c) = Ok origin /\ c' = with_ProxyURL origin c /\ ic_TokenURL c <> ""
  end.
Proof.
  unfold issue_validate. rewrite !fail_if_ok, !bool_decide_eq_false. intros (Hs & Hsub & Hm). split; [done|]. split; [done|].
  destruct (mode c).
  - rewrite !fail_if_ok, bool_decide_eq_false in Hm. destruct Hm as (_ & Ht & [= <-]). split; [done|lia].
  - rewrite !fail_if_ok in Hm. destruct Hm as (_ & _ & Hm). apply bind_ok in Hm as (origin & Ho & Hm).
    apply wrap_err_ok in Ho. cbn zeta in Hm. apply fail_if_ok in Hm as [Ht [= <-]]. apply bool_decide_eq_false in Ht. by exists origin.
Qed.

Lemma second_pos : (0 < second)%Z.
Proof. done. Qed.

(** What the command line puts into a token is UTF-8. *)
Record utf8_flags (c : issue_config) : Prop := {
  uf_subject : valid_utf8 (ic_Subject c) = true;
  uf_token : valid_utf8 (ic_AccessToken c) = true;
  uf_url : valid_utf8 (ic_TokenURL c) = true;
  uf_headers hs : parseHeaderPairs (ic_Headers c) = Ok hs -> headers_utf8 hs = true
}.

(** Access mode prints a token of the whole seconds of the lifetime. *)
Lemma access_issued c secret nonce now now' tok :
  String.length nonce = nonce_size -> utf8_flags c -> (ic_TTL c < 2 ^ 63)%Z ->
  runAccessMode c (FromSecret secret) nonce now now' = Ok tok ->
  exists headers, parseHeaderPairs (ic_Headers c) = Ok headers /\ (second <= ic_TTL c)%Z /\
    forall t at', VerifyAccessToken (FromSecret secret) tok t = Ok at' <->
      at' = mkAccessToken (ic_Subject c) (mkAccessCreds (ic_AccessToken c) headers) (ic_Admin c) /\
      (NumericDate now' - jwtLeeway <= t < NumericDate (now' + ic_TTL c / second * second) + jwtLeeway)%Z.
Proof.
  intros Hn Henc Hw. unfold runAccessMode. intros (headers & Hh & (res & Hi & [= <-])%bind_ok)%bind_ok.
  apply wrap_err_ok in Hh, Hi. exists headers. split; [done|]. unfold Issue in Hi.
  destruct (Spec_Validate _) as [[]|] eqn:Ev; [|done]. injection Hi as <-. cbn [is_Token sp_TTLSeconds sp_Subject sp_AccessToken sp_Headers sp_Admin].
  unfold Spec_Validate in Ev. rewrite !fail_if_ok in Ev. cbn [sp_TTLSeconds] in Ev. destruct Ev as (_ & _ & Ht%bool_decide_eq_false & _).
  pose proof second_pos as Hs. assert (0 < ic_TTL c)%Z as Hpos.
  { destruct (Z.le_gt_cases (ic_TTL c) 0) as [Hle|]; [|done]. exfalso. apply Ht.
    pose proof (Z.quot_opp_l (ic_TTL c) second ltac:(lia)). pose proof (Z.quot_pos (- ic_TTL c) second ltac:(lia) Hs). lia. }
  rewrite Z.quot_div_nonneg in Ht by lia. rewrite Z.quot_div_nonneg by lia.
  split; [pose proof (Z.mul_div_le (ic_TTL c) second Hs); nia|]. intros t at'.
  unfold duration_seconds. rewrite i64_small.
  - apply verify_issued_access; [done|apply Henc|]. unfold access_utf8. cbn [ac_AccessToken ac_Headers].
    by rewrite (uf_token _ Henc), (uf_headers _ Henc _ Hh).
  - pose proof (Z.mul_div_le (ic_TTL c) second Hs). pose proof (Z.div_pos (ic_TTL c) second ltac:(lia) Hs). nia.
Qed.

(** Credentials mode writes a document with a refresh token. *)
Lemma credentials_issued c secret nonce now w w' :
  String.length nonce = nonce_size -> utf8_flags c ->
  (forall raw d, credentials_unmarshal raw = Ok d -> valid_utf8 (cr_RefreshToken d) = true) -> cwd_ok (w_cwd w) ->
  ic_OutPath c <> "" -> ic_TokenURL c <> "" ->
  runCredentialsMode c (FromSecret secret) nonce now w = (Ok tt, w') ->
  exists headers raw creds jwt out, parseHeaderPairs (ic_Headers c) = Ok headers /\
    stat (resolve (w_cwd w) (ic_CredentialsFile c)) (w_disk w) = Some (IFile raw) /\ credentials_unmarshal raw = Ok creds /\
    missing_fields creds = [] /\
    credentials_marshal (mkCredentialsDoc credentialsType (cr_ClientID creds) (cr_ClientSecret creds) jwt
      (ic_ProxyURL c +:+ "/token")) = Ok out /\
    stat (resolve (w_cwd w) (ic_OutPath c)) (w_disk w') = Some (IFile (out +:+ newline)) /\
    forall t rt, VerifyRefreshToken (FromSecret secret) jwt t = Ok rt <->
      let exp := if bool_decide (0 < ic_RefreshTTL c)%Z then Some (NumericDate (now + ic_RefreshTTL c)) else None in
      rt = mkRefreshToken (ic_Subject c) (mkRefreshCreds (cr_RefreshToken creds) (ic_TokenURL c) headers) (ic_Admin c) exp /\
      (NumericDate now - jwtLeeway <= t)%Z /\ match exp with Some e => (t < e + jwtLeeway)%Z | None => True end.
Proof.
  intros Hn Henc Hjson Hcwd Hout Hurl (creds & w1 & E1 & Hrun)%io_bind_ok.
  assert (same_disk w w1 /\ missing_fields creds = [] /\ exists raw,
    stat (resolve (w_cwd w) (ic_CredentialsFile c)) (w_disk w) = Some (IFile raw) /\ credentials_unmarshal raw = Ok creds)
    as (Hs1 & Hmiss & raw & Hraw & Hdec).
  { unfold loadCredentialsFile in E1. apply io_bind_ok in E1 as (raw & w2 & E2 & E1).
    pose proof (ReadFile_reads _ _ _ _ E2) as Hs2. apply ReadFile_is in E2.
    apply io_bind_ok in E1 as (doc & w3 & [= Hd <-] & E1). apply wrap_err_ok in Hd.
    case_decide; [|done]. injection E1 as <- <-. split; [done|]. split; [done|]. by exists raw. }
  apply io_bind_ok in Hrun as (headers & w2 & [= Hh <-] & Hrun). apply wrap_err_ok in Hh. cbn zeta in Hrun.
  apply io_bind_ok in Hrun as (out & w2 & [= Hm <-] & Hrun). apply wrap_err_ok in Hm.
  unfold writeOutput in Hrun. apply io_bind_ok in Hrun as (abs & w2 & Ea & Hrun). destruct Hs1 as (_ & Ec & _).
  apply (resolve_Abs (w_cwd w)) in Ea as (-> & Hr & _); [|done..]. unfold WriteFile, at_path in Hrun.
  rewrite Ec, Hr in Hrun. apply write_file_ok in Hrun. exists headers, raw, creds. eexists. exists out.
  do 4 (split; [done|]). split; [exact Hm|]. split; [exact Hrun|]. intros t rt. cbn zeta.
  rewrite verify_issued_refresh; [|done|apply Henc|].
  2: { unfold refresh_utf8. cbn [rf_RefreshToken rf_TokenURL rf_Headers]. by rewrite (Hjson _ _ Hdec), (uf_url _ Henc), (uf_headers _ Henc _ Hh). }
  cbn zeta. cbn [rf_TokenURL]. tauto.
Qed.

(** C22. What [issue-token] issues is honoured.  The run uses the secret that was
    given or that of the data directory, and the proxy of that secret takes an
    access token exactly within the whole seconds of --ttl, the leeway included,
    and a refresh token from its issue on, until --refresh-ttl if that is
    positive and for ever if it is zero or, what nobody asked for, negative.  It
    yields the subject, the credentials, the headers and the admin mark of the
    command line, which must be UTF-8 ([utf8_flags]: encoding/json would replace
    other bytes); the refresh token is in the output file, beside the proxy's own
    /token. *)
Theorem issued_tokens_honoured (c : issue_config) (changed : bool) (dataDir env nonce : string) (now now' : Z)
    (w w' : world) (out : option string)
    (Hnonce : String.length nonce = nonce_size) (Hutf8 : utf8_flags c)
    (Hjson : forall raw d, credentials_unmarshal raw = Ok d -> valid_utf8 (cr_RefreshToken d) = true)
    (Hcwd : cwd_ok (w_cwd w)) (Hwidth : (ic_TTL c < 2 ^ 63)%Z)
    (Hrun : issue_token (Ok c) changed dataDir env nonce now now' w = (Ok out, w')) :
  exists secret headers, effective_secret dataDir env c w secret /\ parseHeaderPairs (ic_Headers c) = Ok headers /\
    let keys := FromSecret (string_of_bytes secret) in
    match out with
    | Some tok => ic_OutPath c = "" /\ same_disk w w' /\ (second <= ic_TTL c)%Z /\
        forall t at', VerifyAccessToken keys tok t = Ok at' <->
          at' = mkAccessToken (ic_Subject c) (mkAccessCreds (ic_AccessToken c) headers) (ic_Admin c) /\
          (NumericDate now' - jwtLeeway <= t < NumericDate (now' + ic_TTL c / second * second) + jwtLeeway)%Z
    | None => exists origin raw creds jwt doc, normalizeOrigin (ic_ProxyURL c) = Ok origin /\
        stat (resolve (w_cwd w) (ic_CredentialsFile c)) (w_disk w) = Some (IFile raw) /\ credentials_unmarshal raw = Ok creds /\
        credentials_marshal (mkCredentialsDoc credentialsType (cr_ClientID creds) (cr_ClientSecret creds) jwt (origin +:+ "/token"))
          = Ok doc /\
        stat (resolve (w_cwd w) (ic_OutPath c)) (w_disk w') = Some (IFile (doc +:+ newline)) /\
        forall t rt, VerifyRefreshToken keys jwt t = Ok rt <->
          let exp := if bool_decide (0 < ic_RefreshTTL c)%Z then Some (NumericDate (now' + ic_RefreshTTL c)) else None in
          rt = mkRefreshToken (ic_Subject c) (mkRefreshCreds (cr_RefreshToken creds) (ic_TokenURL c) headers) (ic_Admin c) exp /\
          (NumericDate now' - jwtLeeway <= t)%Z /\ match exp with Some e => (t < e + jwtLeeway)%Z | None => True end
    end.
Proof.
  apply io_bind_ok in Hrun as (c2 & w2 & Ec & Hrun). unfold configFromFlags in Ec.
  apply io_bind_ok in Ec as (c0 & w0 & [= <- <-] & Ec). apply io_bind_ok in Ec as (c1 & w1 & Ed & [= Hv <-]).
  apply defaultSecret_ok in Ed as [Hs1 (h & -> & Hh)]. apply issue_validate_ok in Hv as (Hsec & Hsub & Hv).
  unfold mode in Hv. cbn [ic_SecretHex ic_Subject ic_OutPath ic_ProxyURL ic_TokenURL ic_TTL with_SecretHex] in Hsec, Hsub, Hv.
  unfold runIssueToken in Hrun. apply io_bind_ok in Hrun as (secret & w3 & [= Hk <-] & Hrun). apply wrap_err_ok in Hk.
  unfold issue_secret in Hk. exists secret.
  assert (ic_SecretHex c2 = h) as Eh by (case_decide; [by destruct Hv as (? & _ & -> & _)|by destruct Hv as [-> _]]).
  rewrite Eh in Hk. assert (effective_secret dataDir env c w secret) as Heff.
  { destruct Hh as [->|(He & dir & w4 & raw & Hdir & Hraw & ->)]; [by left|]. right. split; [done|]. by exists dir, w4, raw. }
  unfold mode in Hrun. destruct (decide (ic_OutPath c <> "")) as [Ho|Ho].
  - destruct Hv as (origin & Horigin & -> & Hurl). cbn [ic_OutPath with_ProxyURL with_SecretHex] in Hrun.
    rewrite decide_True in Hrun by done. apply io_bind_ok in Hrun as ([] & w3 & E3 & [= <- <-]).
    destruct Hs1 as (Edisk & Ecwd & _). apply credentials_issued in E3 as (headers & raw & creds & jwt & doc & Hh' & Hraw & Hdec & _ & Hm & Hout & Hver);
      [|done|by destruct Hutf8; split|done|by rewrite Ecwd|done|done].
    exists headers. split; [done|]. split; [exact Hh'|]. exists origin, raw, creds, jwt, doc.
    rewrite Ecwd, Edisk in Hraw. rewrite Ecwd in Hout. done.
  - destruct Hv as [-> _]. cbn [ic_OutPath with_SecretHex] in Hrun. rewrite decide_False in Hrun by done.
    apply io_bind_ok in Hrun as (tok & w3 & [= E3 <-] & [= <- <-]).
    apply access_issued in E3 as (headers & Hh' & Hl & Hver); [|done|by destruct Hutf8; split|done].
    exists headers. split; [done|]. split; [exact Hh'|]. split; [by destruct (decide (ic_OutPath c = ""))|]. done.
Qed.
End issued.

(** ** Concrete runs *)

Definition demo_origin : OriginParser := fun raw =>
  if decide (raw = "https://proxy:8080/") then Ok (Url.mkURL "https" "proxy:8080" "/" "" "" "")
  else if decide (raw = "https://proxy:8080") then Ok (Url.mkURL "https" "proxy:8080" "" "" "" "")
  else Err (EMsg "url").

(** A reader that takes the file for the refresh token, a writer that leaves only
    the two fields that the proxy gave. *)
Definition demo_json : CredentialsJson := {|
  credentials_unmarshal raw :=
    if valid_utf8 raw then Ok (mkCredentialsFile "id" "secret" raw) else Err (EMsg "json");
  credentials_marshal d := Ok (cd_RefreshToken d +:+ " " +:+ cd_TokenURI d)
|}.

Definition a_data_dir : world := mkWorld
  {[ ["d"] := IDir; ["secret.hex"; "d"] := IFile (hex_encode demo_random +:+ newline);
     ["creds.json"; "d"] := IFile "1//r" ]} ["d"] [] [].

Definition access_config : issue_config :=
  mkIssueConfig "ann" "" "ya29" (90 * second + 1) ["Cookie=d=1"] "" "" "" "" 0 false.

Definition demo_issue (c : issue_config) : result (option string) * world :=
  @issue_token symbolic_crypto demo_origin demo_json (Ok c) false "." "" demo_nonce (100 * second) (100 * second) a_data_dir.

Lemma access_config_utf8 : utf8_flags access_config.
Proof. split; [done..|]. intros hs [= <-]. done. Qed.

Lemma demo_json_utf8 raw d :
  @credentials_unmarshal demo_json raw = Ok d -> valid_utf8 (cr_RefreshToken d) = true.
Proof. simpl. destruct (valid_utf8 raw) eqn:E; [|done]. by intros [= <-]. Qed.

Lemma issued_tokens_honoured_witness : exists tok,
  (demo_issue access_config).1 = Ok (Some tok) /\
  VerifyAccessToken (FromSecret (string_of_bytes demo_random)) tok (150 * second)
    = Ok (mkAccessToken "ann" (mkAccessCreds "ya29" [mkHeader "Cookie" "d=1"]) false).
Proof.
  assert (exists tok, (demo_issue access_config).1 = Ok (Some tok)) as [tok E1].
  { destruct (demo_issue access_config).1 as [[tok|]|e] eqn:E; [by exists tok|exfalso..].
    all: assert ((match (demo_issue access_config).1 with Ok (Some _) => true | _ => false end) = true) as Hb
      by (vm_compute; reflexivity); rewrite E in Hb; discriminate. }
  exists tok. split; [exact E1|]. destruct (demo_issue access_config) as [r w'] eqn:E. cbn [fst] in E1. rewrite E1 in E.
  destruct (@issued_tokens_honoured symbolic_crypto symbolic_laws demo_origin demo_json access_config false "." "" demo_nonce
    (100 * second) (100 * second) a_data_dir w' (Some tok) eq_refl access_config_utf8 demo_json_utf8
    ltac:(apply (bool_decide_unpack _); vm_compute; exact I) ltac:(reflexivity) E)
    as (secret & headers & Hsec & Hh & _ & _ & _ & Hver).
  assert (headers = [mkHeader "Cookie" "d=1"]) as -> by (vm_compute in Hh; congruence).
  assert (secret = demo_random) as ->.
  { destruct Hsec as [Hs|(_ & dir & w1 & raw & Hdir & Hraw & Hs)]; [vm_compute in Hs; discriminate|].
    injection Hdir as <- _. injection Hraw as <-. vm_compute in Hs. injection Hs as <-. vm_compute. reflexivity. }
  apply Hver. split; [reflexivity|]. vm_compute. split; [discriminate|reflexivity].
Defined.

(** A negative --refresh-ttl is taken, and the token it gives never expires. *)
Example negative_ttl_never_expires :
  let c := mkIssueConfig "ann" "" "" 0 [] "out.json" "creds.json" "https://proxy:8080/" "https://idp/token" (- 3600 * second) false in
  (demo_issue c).1 = Ok None /\
  is_ok (VerifyRefreshToken (FromSecret (string_of_bytes demo_random))
    (IssueRefreshToken (FromSecret (string_of_bytes demo_random)) "ann" (mkRefreshCreds "1//r" "https://idp/token" [])
       (- 3600 * second) false demo_nonce (100 * second)) (1000000 * second)) = true.
Proof. vm_compute. done. Qed.
