(* ===== verification/Celenv.v ===== *)
(** * Helpers of the CEL environments: internal/runtime/celenv env.go, helpers.go
    and json.go

    The functions policies call to build a side call ([get], [post] and the
    like), the guard on the path they are given, the translation of a body to
    JSON, and [timestamp_seconds].  The library that binds and type-checks them
    is cel-go.  The theorems: a body keeps every integer exactly, and a side call
    whose path needs no escaping stays below the API's base path.  The example
    shows a path that the guard takes and that leaves it. *)

From S2P Require Import Prelude GoStd Models Messages PathTemplate Url ApiClient.

(** ** [json.go] *)

Definition maxSafeInt : Z := 2 ^ 53 - 1.

(** float64(x), of an integer that 53 bits hold. *)
Definition float64_of_int (z : Z) : Z :=
  if decide (z = 0)%Z then 0%Z
  else
    let m := Z.abs z in
    let e := Z.log2 m in
    ((if bool_decide (z < 0) then 2 ^ 63 else 0) + (e + 1023) * 2 ^ 52 + (m - 2 ^ e) * 2 ^ (52 - e))%Z.

Fixpoint celToPbValue (v : cval) : result pbvalue :=
  match v with
  | VNull => Ok PNull
  | VOpt None => Ok PNull
  | VOpt (Some x) => celToPbValue x
  | VBool b => Ok (PBool b)
  | VInt z =>
      fail_if bool_decide (maxSafeInt < z)%Z || bool_decide (z < - maxSafeInt)%Z with EMsg "integer exceeds JSON safe range" ;;
      Ok (PNumber (float64_of_int z))
  | VUint z =>
      fail_if bool_decide (maxSafeInt < z)%Z with EMsg "unsigned integer exceeds JSON safe range" ;;
      Ok (PNumber (float64_of_int z))
  | VDouble bits => Ok (PNumber bits)
  | VString s => Ok (PString s)
  | VList l =>
      PList <$> (fix go l :=
        match l with [] => Ok [] | x :: l => y ← celToPbValue x; k ← go l; Ok (y :: k) end) l
  | VMap kvs =>
      PStruct <$> (fix go kvs :=
        match kvs with
        | [] => Ok []
        | (VString k, x) :: kvs => y ← celToPbValue x; fs ← go kvs; Ok ((k, y) :: fs)
        | _ => Err (EMsg "JSON body requires string map keys")
        end) kvs
  | _ => Err (EMsg "cannot encode as JSON value")
  end.

(** ** [env.go] *)

(** The segments of a path that the guard looks at. *)
Definition meta_segments (p : string) : list string :=
  split_byte slash (trim_prefix "/" (before "#" (before "?" p))).

Definition dot_segment (s : string) : bool := bool_decide (s = "..") || bool_decide (s = ".").

Definition validateMetaPath (p : string) : result unit :=
  fail_if existsb dot_segment (meta_segments p) with EMsg "path must not contain a dot segment" ;; Ok tt.

Definition makeMetaRequest (method : string) (path : cval) (body : option cval) (contentType : string) : result cval :=
  match path with
  | VString rawPath =>
      _ ← wrap_err "http helper" (validateMetaPath rawPath);
      body ← match body with
             | None => Ok None
             | Some b => Some <$> wrap_err "http helper body" (celToPbValue b)
             end;
      Ok (VMetaRequest (mkMetaRequest method rawPath body contentType))
  | _ => Err (EMsg "http helper: path must be string")
  end.

(** The bindings of [CompileOptions]. *)
Definition http_helper (name : string) (args : list cval) : option (result cval) :=
  match args with
  | [path] =>
      if decide (name = "get") then Some (makeMetaRequest "GET" path None "")
      else if decide (name = "delete") then Some (makeMetaRequest "DELETE" path None "")
      else None
  | [path; body] =>
      if decide (name = "post") then Some (makeMetaRequest "POST" path (Some body) "")
      else if decide (name = "put") then Some (makeMetaRequest "PUT" path (Some body) "")
      else if decide (name = "patch") then Some (makeMetaRequest "PATCH" path (Some body) "")
      else if decide (name = "post_form")
      then Some (makeMetaRequest "POST" path (Some body) "application/x-www-form-urlencoded")
      else None
  | _ => None
  end.

(** ** [helpers.go] *)

Definition timestamp_seconds (v : cval) : result cval :=
  match v with VInt i => Ok (VTimestamp i) | _ => Err (EMsg "timestamp_seconds: want int") end.

(** ** Numbers are exact *)

(** The bits of a normal double, or of zero, whose value is [z]. *)
Definition float64_value (bits z : Z) : Prop :=
  bits = 0%Z /\ z = 0%Z \/
  exists s e f m, bits = (s * 2 ^ 63 + e * 2 ^ 52 + f)%Z /\ (0 <= s <= 1)%Z /\ (1023 <= e < 2047)%Z /\ (0 <= f < 2 ^ 52)%Z /\
    z = (if bool_decide (s = 1) then - m else m)%Z /\ (m * 2 ^ 52 = (2 ^ 52 + f) * 2 ^ (e - 1023))%Z.

Lemma float64_of_int_value z : (Z.abs z <= maxSafeInt)%Z -> float64_value (float64_of_int z) z.
Proof.
  unfold maxSafeInt, float64_of_int. intros Hz. case_decide as H0; [by left|right].
  set (m := Z.abs z) in *. assert (0 < m)%Z as Hm by lia. destruct (Z.log2_spec m Hm) as [Hlo Hhi].
  set (e := Z.log2 m) in *. assert (0 <= e)%Z as He by apply Z.log2_nonneg.
  assert (e <= 52)%Z as He'. { apply Z.lt_succ_r. apply (Z.pow_lt_mono_r_iff 2); [lia|lia|]. change (2 ^ Z.succ 52)%Z with (2 ^ 53)%Z. lia. }
  rewrite Z.pow_succ_r in Hhi by done. assert (2 ^ e * 2 ^ (52 - e) = 2 ^ 52)%Z as Hp by (rewrite <- Z.pow_add_r by lia; f_equal; lia).
  assert (0 < 2 ^ (52 - e))%Z as Hq by (apply Z.pow_pos_nonneg; lia).
  exists (if bool_decide (z < 0)%Z then 1 else 0)%Z, (e + 1023)%Z, ((m - 2 ^ e) * 2 ^ (52 - e))%Z, m.
  split; [by case_bool_decide; lia|]. split; [by case_bool_decide|]. split; [lia|]. split; [nia|]. split.
  - unfold m. destruct (Z.lt_ge_cases z 0).
    + rewrite (bool_decide_eq_true_2 (z < 0)%Z) by done. simpl. lia.
    + rewrite (bool_decide_eq_false_2 (z < 0)%Z) by lia. simpl. lia.
  - replace (e + 1023 - 1023)%Z with e by lia. rewrite <- Hp. ring.
Qed.

(** A double has one value, so no two integers share one. *)
Lemma float64_value_unique bits z z' : float64_value bits z -> float64_value bits z' -> z = z'.
Proof.
  unfold float64_value. change (2 ^ 63)%Z with 9223372036854775808%Z. change (2 ^ 52)%Z with 4503599627370496%Z.
  intros [[-> ->]|(s & e & f & m & Hb & Hs & He & Hf & -> & Hm)] [[Hb' ->]|(s' & e' & f' & m' & Hb' & Hs' & He' & Hf' & -> & Hm')];
    [done|lia|lia|].
  assert (s = s') as -> by lia. assert (e = e') as -> by lia. assert (f = f') as -> by lia.
  assert (m = m') as -> by lia. done.
Qed.

(** ** What a body stands for *)

Inductive represents : cval -> pbvalue -> Prop :=
  | rep_null : represents VNull PNull
  | rep_none : represents (VOpt None) PNull
  | rep_some x p : represents x p -> represents (VOpt (Some x)) p
  | rep_bool b : represents (VBool b) (PBool b)
  | rep_int z bits : float64_value bits z -> represents (VInt z) (PNumber bits)
  | rep_uint z bits : ((0 <= z)%Z -> float64_value bits z) -> represents (VUint z) (PNumber bits)
  | rep_double bits : represents (VDouble bits) (PNumber bits)
  | rep_string s : represents (VString s) (PString s)
  | rep_list l ps : Forall2 represents l ps -> represents (VList l) (PList ps)
  | rep_map kvs fs : Forall2 (fun kv f => kv.1 = VString f.1 /\ represents kv.2 f.2) kvs fs ->
      represents (VMap kvs) (PStruct fs).

Lemma celToPbValue_represents v p : celToPbValue v = Ok p -> represents v p.
Proof.
  revert v p. fix IH 1. intros [|b|z|z|bits|s|secs|l|kvs|[x|]|r|r|r|pr|n] p; cbn [celToPbValue];
    try (intros [= <-]; by constructor); try done.
  - intros [Hb%orb_false_iff [= <-]]%fail_if_ok. destruct Hb as [H1%bool_decide_eq_false H2%bool_decide_eq_false].
    constructor. apply float64_of_int_value. unfold maxSafeInt in *. lia.
  - intros [Hb%bool_decide_eq_false [= <-]]%fail_if_ok. constructor. intros Hz. apply float64_of_int_value. unfold maxSafeInt in *. lia.
  - intros E. apply fmap_ok in E as (ps & -> & E). constructor. revert ps E. induction l as [|x l IHl]; intros ps E.
    + injection E as <-. constructor.
    + apply bind_ok in E as (y & Ey & E). apply bind_ok in E as (k & Ek & [= <-]). constructor; [by apply IH|by apply IHl].
  - intros E. apply fmap_ok in E as (fs & -> & E). constructor. revert fs E. induction kvs as [|[[] x] kvs IHl]; intros fs E; try done.
    + injection E as <-. constructor.
    + apply bind_ok in E as (y & Ey & E). apply bind_ok in E as (k & Ek & [= <-]). constructor; [split; [done|by apply IH]|by apply IHl].
  - intros E. constructor. by apply IH.
Qed.

(** No two integers have one encoding. *)
Lemma body_int_lossless z z' p : celToPbValue (VInt z) = Ok p -> celToPbValue (VInt z') = Ok p -> z = z'.
Proof.
  intros E E'. apply celToPbValue_represents in E, E'. inversion E; subst. inversion E'; subst. by eapply float64_value_unique.
Qed.

(** ** Where a side call goes *)

Lemma before_cons c a s : before c (String a s) = if decide (a = c) then "" else String a (before c s).
Proof. unfold before. cbn [cut_byte]. case_decide; [done|]. by destruct (cut_byte c s) as [[]|]. Qed.

Lemma before_comm c d s : before c (before d s) = before d (before c s).
Proof.
  induction s as [|a s IH]; [done|]. rewrite !before_cons. destruct (decide (a = d)), (decide (a = c)); [done| | |].
  - rewrite before_cons. by rewrite decide_True.
  - rewrite before_cons. by rewrite decide_True.
  - rewrite !before_cons, !decide_False by done. by rewrite IH.
Qed.

Lemma before_trim c s : c <> slash -> trim_prefix "/" (before c s) = before c (trim_prefix "/" s).
Proof.
  intros Hc. destruct s as [|a s]; [done|]. rewrite before_cons. unfold trim_prefix. cbn [cut_prefix].
  destruct (decide (a = c)) as [->|Ha].
  - cbn [cut_prefix]. destruct (decide _) as [E|_]; [by destruct Hc|]. cbn [default]. by rewrite before_cons, decide_True.
  - cbn [cut_prefix]. destruct (decide _); [done|]. cbn [default]. by rewrite before_cons, decide_False.
Qed.

(** The path of a request is the base path and what the guard looked at. *)
Lemma JoinPath_tail base p u :
  JoinPath base p = Ok u ->
  url_Scheme u = url_Scheme base /\ url_Host u = url_Host base /\
  url_RawPath u = slashed (url_Path base) +:+ trim_prefix "/" (before "#" (before "?" p)) /\
  path_unescape (url_RawPath u) = Ok (url_Path u).
Proof.
  unfold JoinPath. rewrite !fail_if_ok. intros (_ & _ & _ & E). apply bind_ok in E as (d & Hd%wrap_err_ok & [= <-]).
  cbn [url_Scheme url_Host url_RawPath url_Path]. split; [done|]. split; [done|].
  rewrite !before_trim, before_comm by done. unfold slashed. by rewrite <- before_comm.
Qed.

(** C26. A side call stays where the policy's author put it: what a helper builds is
    joined to the API's base path, on its scheme and host.  When neither the base
    path nor the path given has a byte that needs escaping, the bytes sent are
    the base path, a slash, and the path given up to its query or fragment, byte
    for byte, no segment of which is a dot segment. *)
Theorem meta_call_stays_below (base u : URL) (method path ct : string) (body : option cval) (mr : MetaRequest)
    (Hbase : plain_path (url_Path base) = true)
    (Hmr : makeMetaRequest method (VString path) body ct = Ok (VMetaRequest mr))
    (Hvalid : valid_encoded_path (before "#" (before "?" path)) = true)
    (Hu : JoinPath base (mr_Path mr) = Ok u) :
  let tail := trim_prefix "/" (before "#" (before "?" path)) in
  url_Scheme u = url_Scheme base /\ url_Host u = url_Host base /\
  EscapedPath u = trim_suffix "/" (url_Path base) +:+ "/" +:+ tail /\
  forall seg, seg ∈ split_byte slash tail -> seg <> ".." /\ seg <> ".".
Proof.
  unfold makeMetaRequest in Hmr. apply bind_ok in Hmr as ([] & Hg%wrap_err_ok & Hmr).
  apply bind_ok in Hmr as (b & _ & [= <-]). cbn [mr_Path] in Hu. apply JoinPath_tail in Hu as (Hs & Hh & Hr & Hd).
  intros tail. split; [done|]. split; [done|]. split.
  - transitivity (slashed (url_Path base) +:+ tail); [|by rewrite slashed_trim, string_app_assoc].
    unfold tail. rewrite <- Hr. apply EscapedPath_raw; [|rewrite Hr|done].
    + rewrite Hr. rewrite slashed_trim, string_app_assoc. by destruct (trim_suffix _ _).
    + unfold valid_encoded_path. rewrite all_bytes_app. apply andb_true_iff. split; [by apply plain_slashed|by apply trim_prefix_valid].
  - unfold validateMetaPath in Hg. apply fail_if_ok in Hg as [Hg _]. intros seg Hin.
    rewrite <- not_true_iff_false, existsb_exists in Hg. split; intros ->; apply Hg; eexists; (split; [by apply list_elem_of_In|done]).
Qed.

Lemma meta_call_stays_below_witness : exists u,
  JoinPath drive "/files/a%2Fb?x=1" = Ok u /\ EscapedPath u = "/drive/v3/files/a%2Fb".
Proof.
  assert (makeMetaRequest "GET" (VString "/files/a%2Fb?x=1") None ""
    = Ok (VMetaRequest (mkMetaRequest "GET" "/files/a%2Fb?x=1" None ""))) as Hm by reflexivity.
  destruct (JoinPath drive "/files/a%2Fb?x=1") as [u|e] eqn:E; [|discriminate]. exists u. split; [reflexivity|].
  destruct (meta_call_stays_below drive u "GET" "/files/a%2Fb?x=1" "" None _ eq_refl Hm eq_refl E) as (_ & _ & Ht & _).
  rewrite Ht. vm_compute. reflexivity.
Defined.

(** A byte that needs escaping makes [URL.String] escape the decoded path
    afresh, and the dots that the guard took, spelt as escapes, come out as a
    dot segment. *)
Example escaped_dots_climb :
  makeMetaRequest "GET" (VString "/users/%2E%2E/admin/{x}") None ""
    = Ok (VMetaRequest (mkMetaRequest "GET" "/users/%2E%2E/admin/{x}" None "")) /\
  EscapedPath <$> JoinPath drive "/users/%2E%2E/admin/{x}" = Ok "/drive/v3/users/../admin/%7Bx%7D".
Proof. split; reflexivity. Qed.

(** An integer beyond 53 bits is refused rather than rounded. *)
Example unsafe_integer_refused : is_ok (celToPbValue (VList [VInt (2 ^ 53)])) = false /\
  is_ok (celToPbValue (VMap [(VString "n", VInt (- (2 ^ 53 - 1)))])) = true.
Proof. split; reflexivity. Qed.
