(* ===== verification/Replies.v ===== *)
(** * What the server writes: internal/server middleware.go and the replies of
    internal/server/admin (response.go, denial.go, ca.go, docs.go, templates.go)
    and internal/server/admin/mcp wellknown.go

    Handlers run over a response writer that keeps the first status, as
    net/http's does.  What encoding/json makes of a value, the table behind
    http.StatusText, the rendered pages and the embedded files are arguments.
    The theorems: a finished request has one access line, with the status and the
    bytes that were sent and no credential of the query; a reply with a Location
    has no line break in it; a remapped denial changes the status line only. *)

From stdpp Require Import pretty.
From S2P Require Import Prelude GoStd Url ApiClient Query Paths Disk Bundles BundleFetch BundleLoad DataDir.

(** ** [http.ResponseWriter] *)

Record writer := mkWriter { wr_Header : header; wr_Sent : option (Z * header); wr_Body : string }.

Definition fresh_writer : writer := mkWriter ∅ None "".

Definition set_header (name value : string) (w : writer) : writer :=
  mkWriter (header_Set name value (wr_Header w)) (wr_Sent w) (wr_Body w).

(** Only the first status counts. *)
Definition WriteHeader (st : Z) (w : writer) : writer :=
  match wr_Sent w with None => mkWriter (wr_Header w) (Some (st, wr_Header w)) (wr_Body w) | Some _ => w end.

Definition Write (b : string) (w : writer) : writer :=
  let w := WriteHeader 200 w in mkWriter (wr_Header w) (wr_Sent w) (wr_Body w +:+ b).

(** The status a client sees. *)
Definition sent_status (w : writer) : Z := match wr_Sent w with Some (st, _) => st | None => 200 end.

Definition http_Error (message : string) (st : Z) (w : writer) : writer :=
  Write (message +:+ newline) (WriteHeader st
    (set_header "X-Content-Type-Options" "nosniff" (set_header "Content-Type" "text/plain; charset=utf-8" w))).

(** ** [middleware.go] *)

(** How a handler ends; [Aborted] is a panic with [http.ErrAbortHandler]. *)
Inductive finish : Type := Returned | Panicked (value : string) | Aborted.

Inductive log_level : Type := LevelInfo | LevelError.

Inductive log_line : Type :=
  | AccessLine (level : log_level) (method path query : string) (status : Z) (bytes : nat)
  | PanicLine (method path value : string).

Record http_in := mkHttpIn { hi_Method : string; hi_Path : string; hi_RawQuery : string }.

Definition handler : Type := http_in -> writer -> finish * writer * list log_line.

Definition accessLogLevel (status : Z) : log_level := if bool_decide (500 <= status)%Z then LevelError else LevelInfo.

(** [Status] and [BytesWritten] of chi's wrapper; the line is not written when a
    panic passes. *)
Definition accessLog (next : handler) : handler := fun r w =>
  match next r w with
  | (Returned, w, ls) =>
      (Returned, w, ls ++ [AccessLine (accessLogLevel (sent_status w)) (hi_Method r) (hi_Path r)
                             (redactQuery (hi_RawQuery r)) (sent_status w) (String.length (wr_Body w))])
  | out => out
  end.

Definition recoverer (next : handler) : handler := fun r w =>
  match next r w with
  | (Panicked v, w, ls) => (Returned, http_Error "server error" 500 w, ls ++ [PanicLine (hi_Method r) (hi_Path r) v])
  | out => out
  end.

(** ** [response.go] *)

Section replies.
Variable StatusText : Z -> string.
(** [json.Marshal] of an [errorBody]. *)
Variable marshal_error : string -> string -> string.

Definition writeJSONError (message : string) (st : Z) (w : writer) : writer :=
  Write (marshal_error (StatusText st) message)
    (WriteHeader st (set_header "X-Content-Type-Options" "nosniff" (set_header "Content-Type" "application/json" w))).

Definition crlf : string := String "013" (String "010" "").

(** [v] is what [json.Marshal] gives. *)
Definition writeJSONStatus (st : Z) (location : string) (v : result string) (w : writer) : writer :=
  match v with
  | Err _ => writeJSONError "internal error" 500 w
  | Ok buf =>
      let w := set_header "Content-Type" "application/json" w in
      if decide (location <> "") then
        if has_any crlf location then writeJSONError "internal error" 500 w
        else Write buf (WriteHeader st (set_header "Location" location w))
      else Write buf (WriteHeader st w)
  end.

Definition writeJSON (v : result string) (w : writer) : writer := writeJSONStatus 200 "" v w.

Definition htmlHandler (body : string) (w : writer) : writer :=
  Write body (set_header "Cache-Control" "no-store" (set_header "Content-Type" "text/html; charset=utf-8" w)).

(** ** [denial.go] *)

Record DenialNextSteps := mkNextSteps { ns_SupportedAPIs : string; ns_Policies : string; ns_Docs : string; ns_DocsPolicies : string }.

Record DenialResponse := mkDenial {
dn_Ok : bool; dn_Error : string; dn_Message : string; dn_API : string; dn_MatchedActions : list string; dn_NextSteps : DenialNextSteps
}.

Variable marshal_denial : DenialResponse -> result string.

Definition next_steps : DenialNextSteps := mkNextSteps "/_api/apis" "/_api/policies" "/_api/docs" "/_api/docs/policies".

Definition writeDenial (wireStatus semanticStatus : Z) (message api : string) (matchedActions : list string) (w : writer) : writer :=
  writeJSONStatus wireStatus ""
    (marshal_denial (mkDenial false (StatusText semanticStatus) message api matchedActions next_steps)) w.

Definition WriteDenial (st : Z) (message : string) (w : writer) : writer := writeDenial st st message "" [] w.

Definition WriteDenialRemapped (wireStatus semanticStatus : Z) (message api : string) (matchedActions : list string) (w : writer) : writer :=
  writeDenial wireStatus semanticStatus message api matchedActions w.

(** ** [ca.go], [docs.go], [wellknown.go] *)

Definition quoted (s : string) : string := String "034" (s +:+ String "034" "").

Definition caHandler (caPath : string) (w : writer) : io writer :=
  if decide (caPath = "") then io_ret (writeJSONError "MITM disabled — no CA configured" 404 w)
  else
    do r <- io_try (ReadFile caPath);
    io_ret (match r with
      | Err e => if errors_is e "ErrNotExist" then writeJSONError "CA cert not found" 404 w else writeJSONError "server error" 500 w
      | Ok body =>
          Write body (set_header "Content-Disposition" ("attachment; filename=" +:+ quoted "bouncer-mitm-ca.crt")
            (set_header "Cache-Control" "no-store" (set_header "Content-Type" "application/x-pem-file" w)))
      end).

Definition markdownHandler (body : string) (w : writer) : writer :=
  Write body (set_header "Cache-Control" "no-store" (set_header "Content-Type" "text/markdown; charset=utf-8" w)).

Definition DocsPath : string := "/_api/docs".
Definition DocsPoliciesPath : string := "/_api/docs/policies".
Definition DocsAPIsPath : string := "/_api/docs/apis".

(** The three routes of [MountDocs]. *)
Definition docs_route (agent policies apis path : string) : option (writer -> writer) :=
  if decide (path = DocsPath) then Some (markdownHandler agent)
  else if decide (path = DocsPoliciesPath) then Some (markdownHandler policies)
  else if decide (path = DocsAPIsPath) then Some (markdownHandler apis)
  else None.

(** The paths of [MountWellKnown]; a path that ends in a star stands for what it
    begins. *)
Definition well_known : list (option string * string) :=
  [(Some "GET", "/.well-known/oauth-authorization-server"); (Some "GET", "/.well-known/oauth-authorization-server/*");
   (Some "GET", "/.well-known/openid-configuration"); (Some "GET", "/.well-known/oauth-protected-resource");
   (Some "GET", "/.well-known/oauth-protected-resource/*"); (None, "/register")].

(** [body] is the encoded [notOAuthBody]. *)
Definition handlerNotOAuth (body : string) (w : writer) : writer :=
  Write body (WriteHeader 404 (set_header "Cache-Control" "no-store" (set_header "Content-Type" "application/json" w))).

(** ** [templates.go] *)

Record pageData := mkPageData { pd_Title : string; pd_Current : string; pd_ContainerClass : string }.

Definition pages : gmap string string := list_to_map
  [("traffic", "admin_ui/traffic.tmpl.html"); ("policies", "admin_ui/policies.tmpl.html");
   ("proposals", "admin_ui/proposals.tmpl.html"); ("settings", "admin_ui/settings.tmpl.html");
   ("services", "admin_ui/services.tmpl.html"); ("service_detail", "admin_ui/service_detail.tmpl.html");
   ("tokens", "admin_ui/tokens.tmpl.html")].

Definition pageMeta : gmap string pageData := list_to_map
  [("traffic", mkPageData "traffic" "traffic" "wide"); ("policies", mkPageData "policies" "policies" "wide");
   ("proposals", mkPageData "proposals" "proposals" "wide"); ("settings", mkPageData "settings" "settings" "wide");
   ("services", mkPageData "services" "services" "wide"); ("service_detail", mkPageData "service" "services" "wide");
   ("tokens", mkPageData "tokens" "tokens" "wide")].

(** [ExecuteTemplate] of the layout with a page's body: what it writes, whether
    or not it fails halfway. *)
Variable execute : string -> pageData -> string.

Definition renderPageWith (name : string) (w : writer) : writer :=
  match pages !! name with
  | None => writeJSONError "internal error" 500 w
  | Some body =>
      match pageMeta !! name with
      | None => writeJSONError "internal error" 500 w
      | Some meta =>
          Write (execute body meta) (set_header "Cache-Control" "no-store" (set_header "Content-Type" "text/html; charset=utf-8" w))
      end
  end.

(** [None] is the panic at construction. *)
Definition pageHandler (name : string) : option (writer -> writer) :=
  match pages !! name with None => None | Some _ => Some (renderPageWith name) end.

(** The two routes of [mountUIPage]. *)
Definition mountUIPage (uiPath page path : string) : option (option (writer -> writer)) :=
  if decide (path = uiPath) then Some (pageHandler page)
  else if decide (path = uiPath +:+ "/") then Some (pageHandler page) else None.

Definition SettingsUIPath : string := "/_admin/settings".

(** The embedded files. *)
Variable adminTemplatesFS : gmap string string.

Definition NotFound (w : writer) : writer := http_Error "404 page not found" 404 w.

Definition content_type (path : string) : string :=
  if has_suffix ".js" path then "application/javascript; charset=utf-8"
  else if has_suffix ".css" path then "text/css; charset=utf-8"
  else "application/octet-stream".

Definition serveStaticHandler (url_path : string) (w : writer) : writer :=
  let path := trim_prefix "/_admin/static/" url_path in
  if bool_decide (path = url_path) || bool_decide (path = "") then NotFound w
  else
    match adminTemplatesFS !! ("admin_ui/static/" +:+ path) with
    | None => NotFound w
    | Some data =>
        Write data (WriteHeader 200 (set_header "Content-Length" (pretty (String.length data))
          (set_header "Cache-Control" "no-store" (set_header "Content-Type" (content_type path) w))))
    end.
End replies.

(** ** What was sent is what is logged *)

Lemma WriteHeader_sent st w : sent_status (WriteHeader st w) = match wr_Sent w with Some (x, _) => x | None => st end.
Proof. unfold WriteHeader, sent_status. by destruct (wr_Sent w) as [[]|] eqn:E; simpl; rewrite ?E. Qed.

Lemma Write_sent b w : sent_status (Write b w) = sent_status w.
Proof. unfold Write. change (sent_status (WriteHeader 200 w) = sent_status w). rewrite WriteHeader_sent. unfold sent_status. by destruct (wr_Sent w) as [[]|]. Qed.

Lemma http_Error_sent m st w : sent_status (http_Error m st w) = match wr_Sent w with Some (x, _) => x | None => st end.
Proof. unfold http_Error. rewrite Write_sent, WriteHeader_sent. done. Qed.

(** What the two middlewares make of a request, whatever the handler does.  A
    request that is not aborted ends with exactly one access line, the last: it
    has the status and the number of bytes that were sent, and no value of a
    sensitive query parameter.  A handler that panics before it has answered is
    answered with 500, on a line of level error; one that panics later keeps
    the status it has sent. *)
Theorem access_line_is_what_was_sent (next : handler) (r : http_in) (w w' : writer) (f : finish) (ls : list log_line)
    (Hrun : accessLog (recoverer next) r w = (f, w', ls)) :
  exists f0 w0 ls0, next r w = (f0, w0, ls0) /\
  match f0 with
  | Aborted => f = Aborted /\ w' = w0 /\ ls = ls0
  | Returned => f = Returned /\ w' = w0
  | Panicked v => f = Returned /\
      sent_status w' = match wr_Sent w0 with None => 500%Z | Some (st, _) => st end
  end /\
  (f = Returned -> exists ls1 q, ls = ls1 ++ [AccessLine (if bool_decide (500 <= sent_status w')%Z then LevelError else LevelInfo)
      (hi_Method r) (hi_Path r) q (sent_status w') (String.length (wr_Body w'))] /\
    forall k v, sensitive_key k = true -> v ∈ read_query q k -> v = "" \/ v = "<redacted>").
Proof.
  unfold accessLog, recoverer in Hrun. destruct (next r w) as [[f0 w0] ls0]. exists f0, w0, ls0. split; [done|].
  assert (forall k v, sensitive_key k = true -> v ∈ read_query (redactQuery (hi_RawQuery r)) k -> v = "" \/ v = "<redacted>") as Hq
    by (intros k v Hk; exact (proj1 (redactQuery_read (hi_RawQuery r) k) Hk v)).
  destruct f0 as [|v|]; injection Hrun as <- <- <-.
  - split; [done|]. intros _. exists ls0, (redactQuery (hi_RawQuery r)). done.
  - split; [split; [done|apply http_Error_sent]|]. intros _. eexists _, (redactQuery (hi_RawQuery r)). done.
  - split; [done|]. intros [=].
Qed.

(** Splitting a response by its Location is impossible: a location with a line
    break is answered with 500 and without it. *)
Lemma writeJSONStatus_location StatusText marshal_error st location v w :
  wr_Sent w = None -> wr_Header w !! "Location" = None ->
  let w' := writeJSONStatus StatusText marshal_error st location v w in
  exists st' h, wr_Sent w' = Some (st', h) /\
    (h !! "Location" = None \/ h !! "Location" = Some [location] /\ has_any crlf location = false /\ st' = st).
Proof.
  intros Hs Hl. unfold writeJSONStatus, writeJSONError, Write, WriteHeader, set_header, header_Set.
  destruct v as [buf|e]; [case_decide as Hne; [destruct (has_any crlf location) eqn:Ec|]|]; cbn [wr_Sent wr_Header]; rewrite ?Hs;
    cbn [wr_Sent]; eexists _, _; split; try reflexivity; rewrite ?lookup_insert_ne by done; auto.
  right. by rewrite lookup_insert_eq.
Qed.

(** A denial under another status has the body it would have had. *)
Lemma denial_remap_keeps_body StatusText marshal_error marshal_denial wire semantic message api actions w buf :
  wr_Sent w = None ->
  marshal_denial (mkDenial false (StatusText semantic) message api actions next_steps) = Ok buf ->
  let w' := WriteDenialRemapped StatusText marshal_error marshal_denial wire semantic message api actions w in
  sent_status w' = wire /\ wr_Body w' = wr_Body w +:+ buf.
Proof.
  intros Hs Hm. unfold WriteDenialRemapped, writeDenial. rewrite Hm. unfold writeJSONStatus. rewrite decide_False by auto.
  unfold Write, WriteHeader, set_header, sent_status. cbn [wr_Sent]. by rewrite Hs.
Qed.

(** Only embedded static files are served, whatever the path. *)
Lemma static_only_embedded fs url_path w :
  serveStaticHandler fs url_path w = NotFound w \/
  exists path data, url_path = "/_admin/static/" +:+ path /\ fs !! ("admin_ui/static/" +:+ path) = Some data /\
    wr_Body (serveStaticHandler fs url_path w) = wr_Body w +:+ data.
Proof.
  unfold serveStaticHandler, trim_prefix. destruct (cut_prefix "/_admin/static/" url_path) as [path|] eqn:E.
  - cbn [default from_option id]. apply cut_prefix_Some in E as ->.
    destruct (bool_decide (path = _) || _); [by left|]. destruct (fs !! _) as [data|] eqn:Ef; [|by left].
    right. exists path, data. split; [done|]. split; [done|].
    unfold Write, WriteHeader, set_header. cbn [wr_Sent wr_Header wr_Body]. by destruct (wr_Sent w).
  - cbn [default from_option id]. rewrite bool_decide_eq_true_2 by done. by left.
Qed.

(** A handler that fails after half a body, on a request with a code. *)
Definition half_answer : handler := fun _ w => (Panicked "nil map", Write "half" w, []).

Lemma access_line_is_what_was_sent_witness : exists q,
  (accessLog (recoverer half_answer) (mkHttpIn "GET" "/cb" "code=abc") fresh_writer).2 =
    [PanicLine "GET" "/cb" "nil map"; AccessLine LevelInfo "GET" "/cb" q 200 17] /\ ~ "abc" ∈ read_query q "code".
Proof.
  destruct (access_line_is_what_was_sent half_answer (mkHttpIn "GET" "/cb" "code=abc") fresh_writer
    (accessLog (recoverer half_answer) (mkHttpIn "GET" "/cb" "code=abc") fresh_writer).1.2 Returned
    (accessLog (recoverer half_answer) (mkHttpIn "GET" "/cb" "code=abc") fresh_writer).2)
    as (f0 & w0 & ls0 & _ & _ & H); [vm_compute; reflexivity|].
  destruct (H eq_refl) as (ls1 & q & Hls & Hq). exists (redactQuery "code=abc"). split; [vm_compute; reflexivity|].
  assert (q = redactQuery "code=abc") as <-.
  { vm_compute in Hls. destruct ls1 as [|x [|y [|z ls1]]]; [discriminate| |discriminate..].
    injection Hls as _ Hls. rewrite <- Hls. vm_compute. reflexivity. }
  intros Hin. destruct (Hq "code" "abc" eq_refl Hin) as [Hv|Hv]; discriminate.
Defined.

(** A panic after the first byte leaves a 200 behind, with the error text after
    the half body. *)
Example panic_after_write :
  let w := (accessLog (recoverer half_answer) (mkHttpIn "GET" "/" "") fresh_writer).1.2 in
  sent_status w = 200%Z /\ wr_Body w = "half" +:+ "server error" +:+ newline.
Proof. split; reflexivity. Qed.
