(* ===== verification/Observability.v ===== *)
(** * Observability: internal/observability

    The knobs of logging and tracing, what [Setup] refuses, the trace
    identifiers a log record gets, and the package path a tracer is named after.
    OpenTelemetry's exporters and slog's handlers are arguments. *)

From S2P Require Import Prelude GoStd Paths Disk Url Query Config.

(** ** Knobs *)

Definition ExporterNone : string := "none".
Definition ExporterStdout : string := "stdout".
Definition ExporterOTLPHTTP : string := "otlphttp".
Definition LogFormatText : string := "text".
Definition LogFormatJSON : string := "json".

Record obs_config := mkObsConfig {
  oc_ServiceName : string; oc_ServiceVersion : string; oc_LogLevel : Z; oc_LogFormat : string; oc_Exporter : string
}.

Definition UnmarshalLogFormat (b : string) : result string := unmarshal_kind [LogFormatText; LogFormatJSON] "invalid log format" b.

(** [otlp] is short for [otlphttp]. *)
Definition UnmarshalExporter (b : string) : result string :=
  let s := to_lower (trim_space b) in
  if decide (s = "none") then Ok ExporterNone
  else if decide (s = "stdout") then Ok ExporterStdout
  else if decide (s = "otlphttp") then Ok ExporterOTLPHTTP
  else if decide (s = "otlp") then Ok ExporterOTLPHTTP
  else Err (EMsg "invalid otel exporter").

Definition or_default (d s : string) : string := if decide (s = "") then d else s.

Definition defaults (c : obs_config) : obs_config :=
  mkObsConfig (or_default "bouncer" (oc_ServiceName c)) (oc_ServiceVersion c) (oc_LogLevel c)
    (or_default LogFormatText (oc_LogFormat c)) (or_default ExporterNone (oc_Exporter c)).

Section setup.
(** What [resource.Merge] and the two exporter constructors give. *)
Variables (resource : string -> string -> result unit) (stdouttrace otlptrace : result unit).

(** Whether spans are exported. *)
Definition newTracerProvider (exp : string) : result bool :=
  if decide (exp = ExporterNone) then Ok false
  else if decide (exp = ExporterStdout) then _ ← wrap_err "stdout exporter" stdouttrace; Ok true
  else if decide (exp = ExporterOTLPHTTP) then _ ← wrap_err "otlphttp exporter" otlptrace; Ok true
  else Err (EMsg "unknown otel exporter").

(** The installed configuration, with whether spans are exported. *)
Definition Setup (c : obs_config) : result (obs_config * bool) :=
  let c := defaults c in
  _ ← wrap_err "otel resource" (resource (oc_ServiceName c) (oc_ServiceVersion c));
  exports ← newTracerProvider (oc_Exporter c);
  Ok (c, exports).

(** Spans leave the process only if the operator asked for it. *)
Lemma Setup_exports c c' exports :
  Setup c = Ok (c', exports) ->
  c' = defaults c /\ (exports = true <-> oc_Exporter c = ExporterStdout \/ oc_Exporter c = ExporterOTLPHTTP).
Proof.
  unfold Setup. intros (u & _ & (x & Hx & [= <- <-])%bind_ok)%bind_ok. split; [done|]. unfold newTracerProvider in Hx.
  cbn [defaults oc_Exporter] in Hx. unfold or_default in Hx. destruct (decide (oc_Exporter c = "")) as [E0|E0].
  - rewrite E0. injection Hx as <-. by split; [|intros []].
  - destruct (decide (oc_Exporter c = ExporterNone)) as [->|]; [injection Hx as <-; by split; [|intros []]|].
    destruct (decide (oc_Exporter c = ExporterStdout)) as [E1|]; [apply bind_ok in Hx as (? & _ & [= <-]); by split; auto|].
    destruct (decide (oc_Exporter c = ExporterOTLPHTTP)) as [E1|]; [apply bind_ok in Hx as (? & _ & [= <-]); by split; auto|done].
Qed.
End setup.

(** An exporter that was read from a flag is one [Setup] knows. *)
Lemma UnmarshalExporter_known b e st otlp : UnmarshalExporter b = Ok e -> st = Ok tt -> otlp = Ok tt ->
  is_ok (newTracerProvider st otlp e) = true.
Proof.
  unfold UnmarshalExporter. cbn zeta. intros E -> ->.
  repeat (case_decide; [injection E as <-; reflexivity|]). done.
Qed.

(** ** The handler of log records *)

Record span_context := mkSpanContext { sc_TraceID : string; sc_SpanID : string; sc_Valid : bool }.

(** [inner] is the wrapped handler, over a record's attributes. *)
Definition traceHandler_Handle {A} (inner : list (string * string) -> A) (sc : span_context) (attrs : list (string * string)) : A :=
  inner (if sc_Valid sc then attrs ++ [("trace_id", sc_TraceID sc); ("span_id", sc_SpanID sc)] else attrs).

(** ** [pkgpath.go] *)

(** The last slash splits a name; without one it is all tail. *)
Definition last_slash (s : string) : string * string :=
  let parts := split_byte "/" s in
  (match removelast parts with [] => "" | l => join "/" l +:+ "/" end, List.last parts "").

Definition PackagePath (name : string) : string :=
  let '(dir, tail) := last_slash name in
  match cut_byte "." tail with None => name | Some (pkg, _) => dir +:+ pkg end.

Example package_path_of_method :
  PackagePath "github.com/jkylling/bouncer/internal/server.(*Server).Router" = "github.com/jkylling/bouncer/internal/server".
Proof. reflexivity. Qed.

(** A function's package is what its name says. *)
Lemma PackagePath_symbol dir pkg sym :
  Forall (fun x => has_byte "/" x = false) (dir ++ [pkg +:+ "." +:+ sym]) -> has_byte "." pkg = false ->
  PackagePath (join "/" (dir ++ [pkg +:+ "." +:+ sym])) = join "/" (dir ++ [pkg]).
Proof.
  intros Hf Hp. unfold PackagePath, last_slash. rewrite split_join by (done || by destruct dir).
  rewrite removelast_last, last_last. change ("." +:+ sym) with (String "." sym). rewrite cut_byte_app by done.
  destruct dir as [|x dir]; [done|]. rewrite join_snoc by done. by rewrite string_app_assoc.
Qed.
