(* ===== verification/Export.v ===== *)
(** * Exporting and importing policies as YAML

    The byte side of [exportPoliciesHandler] and [importPoliciesHandler] of
    internal/server/admin/policies.go, and [PolicyResult.UnmarshalYAML] of
    internal/runtime/models/types.go.  yaml.v3's encoder and decoder of a stream
    of documents are the class [PolicyDocs]; its law is that a stream that was
    written reads back.  The theorems: importing an export puts every exported
    policy under its key and leaves the others, and is refused only for reasons
    outside the file; re-importing one's own export changes nothing. *)

From S2P Require Import Prelude GoStd Models Interfaces PathTemplate Routes Messages Compiled Evaluator EvaluatorFacts PolicyStore ApiRuntime Runtime Stores PolicyService Proposals AdminGate AdminApi Url ApiClient Replies.

(** [UnmarshalYAML], of the scalar the node decodes to. *)
Definition UnmarshalYAML (s : string) : result PolicyResult :=
  PolicyResult_Validate s ;; Ok s.

(** An encoder over a buffer, and what [Decode] returns until the end of the
    input; it calls back for the scalar of a result. *)
Class PolicyDocs := {
  docs_encode : string -> Policy -> result string;
  docs_close : string -> result string;
  docs_decode : (string -> result PolicyResult) -> string -> list (result Policy)
}.

(** The encoding loop of [exportPoliciesHandler]. *)
Fixpoint encode_all `{PolicyDocs} (buf : string) (l : list Policy) : result string :=
  match l with
  | [] => docs_close buf
  | p :: l => buf ← docs_encode buf p; encode_all buf l
  end.

Class PolicyDocsLaws `{PolicyDocs} := {
  (** a stream of documents reads back, when every result is accepted *)
  docs_read_back u l raw : encode_all "" l = Ok raw ->
    (forall p, p ∈ l -> u (pol_Result p) = Ok (pol_Result p)) -> docs_decode u raw = Ok <$> l;
  (** an empty input has no document *)
  docs_none u : docs_decode u "" = []
}.

Definition MaxImportBodyBytes : nat := 1048576.

(** What [io.ReadAll] under [MaxBytesReader] and the loop of
    [decodePoliciesYAML] make of the body: the first document that does not
    decode ends it. *)
Definition read_import `{PolicyDocs} (raw : string) : body (list Policy) :=
  if bool_decide (MaxImportBodyBytes < String.length raw) then BodyTooLarge
  else
    match mapM id (docs_decode UnmarshalYAML raw) with
    | Err _ => BodyInvalid
    | Ok docs => BodyOk docs
    end.

Section export.
Context `{PolicyRuntime R} `{Store St} `{PolicyDocs}.
Variable StatusText : Z -> string.
Variable marshal_error : string -> string -> string.

Definition exportPoliciesHandler (filters : list string) (s : PService R St) (w : writer) : writer :=
let all := filter_apis filters (List_ (pv_policies s)) in
let w := set_header "Content-Disposition" ("attachment; filename=" +:+ quoted "policies.yaml")
  (set_header "Content-Type" "application/x-yaml" w) in
match all with
| [] => WriteHeader 200 w
| _ =>
  match encode_all "" all with
  | Err _ => writeJSONError StatusText marshal_error "encode error" 500 w
  | Ok raw => Write raw (WriteHeader 200 w)
  end
end.

Definition import_request (raw : string) (dryRun : bool) (s : PService R St) : answer * PService R St :=
importPoliciesHandler (read_import raw) dryRun s.
End export.

(** ** What is exported *)

Definition exported (filters : list string) (api : string) : bool :=
  bool_decide (filters = []) || bool_decide (api ∈ filters).

Lemma elem_of_filter_apis filters l p :
  p ∈ filter_apis filters l <-> p ∈ l /\ exported filters (pol_API p) = true.
Proof.
  unfold filter_apis, exported. case_bool_decide; simpl; [naive_solver|].
  by rewrite !list_elem_of_In, filter_In.
Qed.

Lemma UnmarshalYAML_ok s : PolicyResult_Validate s = Ok tt -> UnmarshalYAML s = Ok s.
Proof. unfold UnmarshalYAML. by intros ->. Qed.

Lemma mapM_Ok {A} (l : list A) : mapM id (@Ok A <$> l) = Ok l.
Proof. apply mapM_ok. induction l; simpl; by constructor. Qed.

Lemma basicSchema_ok p : basicSchema p = Ok tt ->
  pol_API p <> "" /\ PolicyResult_Validate (pol_Result p) = Ok tt.
Proof.
  unfold basicSchema. rewrite !fail_if_ok. intros (E & _ & _ & Hr). by apply bool_decide_eq_false in E.
Qed.

(** Complete policies are all kept by [decodePoliciesYAML]. *)
Lemma decodePoliciesYAML_all l : Forall (fun p => basicSchema p = Ok tt) l -> decodePoliciesYAML l = l.
Proof.
  unfold decodePoliciesYAML. induction 1 as [|p l [Hp _]%basicSchema_ok _ IH]; [done|]. simpl.
  rewrite bool_decide_eq_false_2 by done. simpl. by rewrite IH.
Qed.

Section facts.
Context `{PR : PolicyRuntime R} `{!PolicyRuntimeLaws R} `{SS : Store St} `{!StoreLaws St}.
Context `{PD : PolicyDocs} `{!PolicyDocsLaws}.
Implicit Type s : Service R St.

(** A successful answer carries the exported policies, as a body that decodes
    to them. *)
Lemma export_body StatusText marshal_error filters (s : PService R St) :
let l := filter_apis filters (List_ (pv_policies s)) in
let w := exportPoliciesHandler StatusText marshal_error filters s fresh_writer in
Forall (fun p => basicSchema p = Ok tt) l -> sent_status w = 200%Z ->
docs_decode UnmarshalYAML (wr_Body w) = Ok <$> l.
Proof.
intros l w Hl Hw. unfold exportPoliciesHandler in w. fold l in w.
destruct l as [|p l'] eqn:El; [apply docs_none|]. destruct (encode_all "" (p :: l')) as [raw|] eqn:Ee; [|done].
change (wr_Body w) with raw. apply docs_read_back; [done|]. intros q Hq. apply UnmarshalYAML_ok.
rewrite Forall_forall in Hl. by apply basicSchema_ok, Hl.
Qed.

Lemma read_import_whole l raw :
docs_decode UnmarshalYAML raw = Ok <$> l ->
read_import raw = if bool_decide (MaxImportBodyBytes < String.length raw) then BodyTooLarge else BodyOk l.
Proof. intros E. unfold read_import. by rewrite E, mapM_Ok. Qed.

(** The exported part of a service, by key. *)
Lemma exported_at filters s a n (m : option Policy) :
keys_unique (List_ s) ->
match last_of (filter_apis filters (List_ s)) (a, n) with Some p => Some p | None => m end =
match policy_at s (a, n) with Some p => if exported filters a then Some p else m | None => m end.
Proof.
intros Hu. assert (keys_unique (filter_apis filters (List_ s))) as Hu'.
{ intros p q [Hp _]%elem_of_filter_apis [Hq _]%elem_of_filter_apis. by apply Hu. }
destruct (last_of _ _) as [p|] eqn:El.
- apply last_of_iff in El as [[Hp Ha]%elem_of_filter_apis Ek]; [|done].
  assert (policy_at s (a, n) = Some p) as -> by (by apply (find_policy_iff _ _ _ p Hu)).
  injection Ek as <- <-. by rewrite Ha.
- destruct (policy_at s (a, n)) as [p|] eqn:Ep; [|done]. destruct (exported filters a) eqn:Ea; [|done]. exfalso.
  apply (find_policy_iff _ _ _ p Hu) in Ep as [Hp Ek].
  rewrite (proj2 (last_of_iff _ _ p Hu')) in El; [done|]. split; [|done]. apply elem_of_filter_apis.
  split; [done|]. by injection Ek as -> _.
Qed.

(** *** Why an import of valid policies fails *)

(** The store after some policies were put, one after the other. *)
Fixpoint put_each (l : list Policy) (st : St) : option St :=
match l with
| [] => Some st
| p :: l => match st_put p st with (None, st') => put_each l st' | (Some _, _) => None end
end.

(** Putting [l] from this state of the store on, it takes the first few and
refuses the next. *)
Definition store_refuses (l : list Policy) (st : St) : Prop :=
exists written p rest st1 e st2,
  l = written ++ p :: rest /\ put_each written st = Some st1 /\ st_put p st1 = (Some e, st2).

Lemma persistAndApply_put p s e s' :
in_sync s -> pr_validate p (sv_rt s) = Ok tt -> persistAndApply p s = (e, s') ->
match e with
| None => st_put p (sv_store s) = (None, sv_store s')
| Some _ => exists e, st_put p (sv_store s) = (Some e, sv_store s')
end.
Proof.
intros Hs Hv. unfold persistAndApply. destruct (st_put p (sv_store s)) as [[e1|] st'] eqn:Ep.
- intros [= <- <-]. by exists e1.
- destruct (pr_replace_ok p (sv_rt s) (sy_rt _ Hs) Hv) as (b & rt' & -> & _). by intros [= <- <-].
Qed.

Lemma persist_all_fails l s e s' :
in_sync s -> Forall (fun p => pr_validate p (sv_rt s) = Ok tt) l -> persist_all l s = (Some e, s') ->
store_refuses l (sv_store s).
Proof.
revert s. induction l as [|p l IH]; intros s Hs Hv; simpl; [done|]. apply Forall_cons in Hv as [Hp Hv].
destruct (persistAndApply p s) as [e1 s1] eqn:E1; intros Hr.
pose proof (persistAndApply_put _ _ _ _ Hs Hp E1) as Hput.
destruct (persistAndApply_spec _ _ _ _ Hs Hp E1) as (Hs1 & Hcat & _). destruct e1 as [e1|].
- destruct Hput as [e2 He2]. by exists [], p, l, (sv_store s), e2, (sv_store s1).
- destruct (IH s1 Hs1) as (written & q & rest & st1 & e2 & st2 & -> & Hw & Hq); [|done|].
  { eapply Forall_impl; [exact Hv|]. intros q. by rewrite Hcat. }
  exists (p :: written), q, rest, st1, e2, st2. split; [done|]. split; [|done]. simpl. by rewrite Hput.
Qed.

(** Writing what is there already changes no policy, however far it gets. *)
Lemma persist_all_same l s e s' :
in_sync s -> Forall (fun p => policy_at s (pol_key p) = Some p) l -> persist_all l s = (e, s') ->
in_sync s' /\ forall k, policy_at s' k = policy_at s k.
Proof.
revert s. induction l as [|p l IH]; intros s Hs Hv; simpl; [by intros [= _ <-]|].
apply Forall_cons in Hv as [Hp Hv]. destruct (persistAndApply p s) as [e1 s1] eqn:E1.
destruct (persistAndApply_spec _ _ _ _ Hs (sy_valid _ Hs _ _ Hp) E1) as (Hs1 & _ & Hk).
assert (forall k, policy_at s1 k = policy_at s k) as Hsame.
{ intros k. rewrite Hk. destruct e1; [done|]. unfold put_key. case_decide; congruence. }
destruct e1; [by intros [= _ <-]|]. intros Hr. destruct (IH s1 Hs1) as [Hs' Hk']; [|done|].
- eapply Forall_impl; [exact Hv|]. intros q. by rewrite Hsame.
- split; [done|]. intros k. by rewrite Hk', Hsame.
Qed.

(** An import of complete policies into a service where they validate answers
    200, unless the deployment is read-only, the file empty or too large, or the
    store refuses one of them. *)
Lemma import_refused l raw (t : PService R St) ans t' :
in_sync (pv_policies t) -> Forall (fun p => basicSchema p = Ok tt) l ->
Forall (fun p => pr_validate p (sv_rt (pv_policies t)) = Ok tt) l ->
docs_decode UnmarshalYAML raw = Ok <$> l -> import_request raw false t = (ans, t') ->
an_Status ans = 200%Z \/ sv_readOnly (pv_policies t) = true \/ l = [] \/
MaxImportBodyBytes < String.length raw \/ store_refuses (dedup l) (sv_store (pv_policies t)).
Proof.
intros Ht Hl Hv Hd. unfold import_request, importPoliciesHandler. rewrite (read_import_whole l raw Hd).
case_bool_decide as Hsize; [auto|]. rewrite decodePoliciesYAML_all by done.
destruct (decide (l = [])) as [?|_]; [auto|]. unfold Import.
destruct (sv_readOnly (pv_policies t)); [auto|].
assert (forall p, p ∈ dedup l -> p ∈ l) as Hsub by (intros p; rewrite dedup_keep_last; apply keep_last_sub).
rewrite Forall_forall in Hl. rewrite Forall_forall in Hv.
rewrite import_checks_pass; [|apply (indexed_Forall (fun p => Validate p (pv_policies t) = Ok tt)), Forall_forall; intros p Hp; apply Validate_ok; auto|done].
cbn [length]. rewrite bool_decide_eq_false_2 by lia.
destruct (persist_all _ _) as [[e|] s1] eqn:Ep; [|intros [= <- _]; by left].
intros _. do 4 right. assert (Forall (fun p => pr_validate p (sv_rt (pv_policies t)) = Ok tt) (dedup l)) as Hvd
  by (apply Forall_forall; auto).
by apply (persist_all_fails _ _ _ _ Ht Hvd Ep).
Qed.

(** A 200 has put the last document of each key in its place. *)
Lemma import_applied l raw (t : PService R St) ans t' :
in_sync (pv_policies t) -> Forall (fun p => basicSchema p = Ok tt) l -> keys_injective l ->
docs_decode UnmarshalYAML raw = Ok <$> l -> import_request raw false t = (ans, t') -> an_Status ans = 200%Z ->
forall k, policy_at (pv_policies t') k =
  match last_of l k with Some p => Some p | None => policy_at (pv_policies t) k end.
Proof.
intros Ht Hl Hinj Hd. unfold import_request, importPoliciesHandler. rewrite (read_import_whole l raw Hd).
case_bool_decide as Hsize; [by intros [= <- _]|]. rewrite decodePoliciesYAML_all by done.
destruct (decide (l = [])) as [?|_]; [by intros [= <- _]|].
destruct (Import l false (pv_policies t)) as [[res e] v] eqn:Ei. intros [= <- <-] H200.
destruct (Import_spec _ _ _ _ _ _ Ht Ei) as (_ & _ & _ & Hk & _).
assert (e = None) as He; [|intros k; rewrite Hk by done; cbn; unfold overlay; by rewrite dedup_keep_last, last_of_keep_last].
destruct e as [e|]; [|done]. destruct (errors_is e "ErrInvalid"); [done|]. exfalso. revert H200.
unfold fail, writePolicyError, writeMappedError, mapped_status. cbn [an_Status].
repeat case_match; lia.
Qed.

Lemma import_in_sync raw dry (t : PService R St) ans t' :
in_sync (pv_policies t) -> import_request raw dry t = (ans, t') -> in_sync (pv_policies t').
Proof.
intros Ht. unfold import_request, importPoliciesHandler. destruct (read_import raw) as [| |docs]; [by intros [= _ <-]..|].
destruct (decide _); [by intros [= _ <-]|].
destruct (Import _ dry (pv_policies t)) as [[res e] v] eqn:Ei. intros [= _ <-]. by apply (Import_spec _ _ _ _ _ _ Ht Ei).
Qed.
End facts.

(** Importing one's own export changes no policy, however far the writes get. *)
Lemma reimport_changes_nothing `{PR : PolicyRuntime R} `{!PolicyRuntimeLaws R} `{SS : Store St} `{!StoreLaws St}
    (l : list Policy) (s : Service R St) res e s' :
  in_sync s -> keys_unique (List_ s) -> (forall p, p ∈ l -> p ∈ List_ s) -> Import l false s = (res, e, s') ->
  in_sync s' /\ forall k, policy_at s' k = policy_at s k.
Proof.
  intros Hs Hu Hl. unfold Import. destruct (sv_readOnly s); [by intros [= _ _ <-]|].
  case_bool_decide; [by intros [= _ _ <-]|]. destruct (persist_all (dedup l) s) as [e1 s1] eqn:Ep.
  intros [= _ _ <-]. apply (persist_all_same _ _ _ _ Hs) with (2 := Ep). apply Forall_forall. intros p Hp.
  apply find_policy_iff; [done|]. split; [|done]. rewrite dedup_keep_last in Hp. by apply Hl, keep_last_sub.
Qed.

(** ** A stream of documents

    Every field is its bytes, each after a [1], and a [0]; seven fields make a
    document. *)

Fixpoint put_field (s : string) (rest : string) : string :=
  match s with
  | EmptyString => String "0" rest
  | String c s => String "1" (String c (put_field s rest))
  end.

Fixpoint fields_of (acc s : string) : list string :=
  match s with
  | String "0" s => acc :: fields_of "" s
  | String "1" (String c s) => fields_of (acc +:+ String c "") s
  | _ => []
  end.

Definition doc_fields (p : Policy) : list string :=
  [pol_API p; pol_Name p; pol_Description p; pol_Principal p; pol_Action p; pol_Condition p; pol_Result p].

Definition put_doc (p : Policy) (rest : string) : string := foldr put_field rest (doc_fields p).

Fixpoint docs_of (u : string -> result PolicyResult) (l : list string) : list (result Policy) :=
  match l with
  | a :: n :: d :: pr :: ac :: c :: r :: l => (mkPolicy a n d pr ac c <$> u r) :: docs_of u l
  | _ => []
  end.

#[export] Instance plain_docs : PolicyDocs := {
  docs_encode buf p := Ok (buf +:+ put_doc p "");
  docs_close buf := Ok buf;
  docs_decode u raw := docs_of u (fields_of "" raw)
}.

Lemma fields_of_put acc s rest : fields_of acc (put_field s rest) = (acc +:+ s) :: fields_of "" rest.
Proof.
  revert acc. induction s as [|c s IH]; intros acc; simpl; [by rewrite string_app_nil_r|].
  rewrite IH, string_app_assoc. done.
Qed.

Lemma fields_of_fields l rest : fields_of "" (foldr put_field rest l) = l ++ fields_of "" rest.
Proof. induction l as [|s l IH]; [done|]. simpl. by rewrite fields_of_put, IH. Qed.

Lemma put_doc_app p rest : put_doc p "" +:+ rest = put_doc p rest.
Proof.
  assert (forall s a b, put_field s a +:+ b = put_field s (a +:+ b)) as Hf.
  { intros s a b. induction s as [|c s IH]; [done|]. simpl. by rewrite !string_app_cons, IH. }
  unfold put_doc. generalize (doc_fields p) as l. induction l as [|s l IH]; [done|]. simpl. by rewrite Hf, IH.
Qed.

Lemma encode_all_plain buf l : encode_all buf l = Ok (buf +:+ foldr put_doc "" l).
Proof.
  revert buf. induction l as [|p l IH]; intros buf; simpl; [by rewrite string_app_nil_r|].
  by rewrite IH, string_app_assoc, put_doc_app.
Qed.

#[export] Instance plain_docs_laws : PolicyDocsLaws.
Proof.
  split; [|done]. intros u l raw Hr Hu. rewrite encode_all_plain in Hr. injection Hr as <-.
  change (docs_of u (fields_of "" (foldr put_doc "" l)) = Ok <$> l).
  induction l as [|p l IH]; [done|]. simpl. unfold put_doc at 1. rewrite fields_of_fields. simpl.
  rewrite (Hu p) by left. simpl. rewrite IH by (intros q Hq; apply Hu; by right). by destruct p.
Qed.

(** ** Properties *)


#[local] Existing Instance demo_cel.

Definition yaml_source : PService Runtime sqliteStore :=
  mkPService (mkDB ∅ []) (@service_run Runtime (@runtime_ops demo_cel) sqliteStore _
    [OpCreate (doc_policy "a" "line 1" Permit); OpCreate (doc_policy "b" "" Deny)]
    (mkService (sv_rt demo_service) (mkSqlite ∅ []) false)).

Definition yaml_target : PService Runtime sqliteStore :=
  mkPService (mkDB ∅ []) (mkService (sv_rt demo_service) (mkSqlite ∅ []) false).

Definition yaml_export : writer :=
  @exportPoliciesHandler Runtime (@runtime_ops demo_cel) sqliteStore plain_docs (fun _ => "") (fun _ _ => "")
    ["docs"] yaml_source fresh_writer.

Definition yaml_import : answer * PService Runtime sqliteStore :=
  @import_request Runtime (@runtime_ops demo_cel) sqliteStore _ plain_docs (wr_Body yaml_export) false yaml_target.

Definition yaml_policies : list Policy := [doc_policy "b" "" Deny; doc_policy "a" "line 1" Permit].

Lemma yaml_apart (p q : Policy) :
  p ∈ yaml_policies -> q ∈ yaml_policies -> pol_Name p = pol_Name q -> p = q.
Proof. intros [->| ->%list_elem_of_singleton]%elem_of_cons [->| ->%list_elem_of_singleton]%elem_of_cons; done. Qed.

